(** * The in-memory feature database of the interactive map (iam)

    A shallow embedding of the data core of the repository
    (iamDataCoreElements: the domain records and their merge and equality
    methods; iamDataCollections: ProcessResult, the CSV adapter, IAMMapTable
    and IAMStorage) together with the properties of it that the
    specification states.

    Conventions of the embedding.
    - A JavaScript value that the modelled code inspects is a [jsany]:
      [None] is [undefined], [Some v] a number, string or boolean, or one
      of the [{id, name}] objects of the dialogues' value lists ([JOption],
      which the modelled code only copies).  Numbers are integers ([Z]):
      every number the modelled code decides on (feature and level types,
      years, widths, counters) is integer valued.
    - An object read through [Object.keys], spread or [Object.assign] is a
      finite map from property names to defined values; a property that is
      missing and a property holding [undefined] read the same in
      JavaScript and are both "absent" here.
    - A JavaScript [Map] is an association list in insertion order; an array
      is a list.
    - A method that can throw returns a [result]. *)

From Stdlib Require Import ZArith QArith Ascii String Sorted.
From stdpp Require Import base decidable option list strings gmap pretty.

Open Scope string_scope.
Open Scope list_scope.
Open Scope Z_scope.

(** ** JavaScript values *)

Inductive jsval : Type :=
  | JNum (n : Z)
  | JStr (s : string)
  | JBool (b : bool)
  | JOption (id name : string).

#[global] Instance jsval_eq_dec : EqDecision jsval.
Proof. solve_decision. Defined.

(** [None] is [undefined]. *)
Abbreviation jsany := (option jsval).

(** ToBoolean: [undefined], [0], [''] and [false] are falsy. *)
Definition truthy (v : jsany) : bool :=
  match v with
  | None => false
  | Some (JNum n) => negb (n =? 0)
  | Some (JStr s) => negb (String.eqb s "")
  | Some (JBool b) => b
  | Some (JOption _ _) => true
  end.

(** [a === b] on these values (and SameValueZero, the key equality of Map). *)
Definition strict_eq (a b : jsany) : bool := bool_decide (a = b).

(** String conversion in a concatenation ['' + v]. *)
Definition toString (v : jsany) : string :=
  match v with
  | None => "undefined"
  | Some (JNum n) => pretty n
  | Some (JStr s) => s
  | Some (JBool true) => "true"
  | Some (JBool false) => "false"
  | Some (JOption _ _) => "[object Object]"
  end.

(** *** parseInt

    The result is [None] for NaN.  On a string: leading white space, an
    optional sign, then the longest run of digits (hexadecimal after a
    [0x] prefix). *)

Definition is_space (c : ascii) : bool :=
  match c with
  | " "%char | "009"%char | "010"%char | "013"%char | "011"%char | "012"%char => true
  | _ => false
  end.

Definition digit_of (radix : Z) (c : ascii) : option Z :=
  let n := Z.of_nat (nat_of_ascii c) in
  let d :=
    if (48 <=? n) && (n <=? 57) then Some (n - 48)
    else if (97 <=? n) && (n <=? 102) then Some (n - 87)
    else if (65 <=? n) && (n <=? 70) then Some (n - 55)
    else None in
  match d with
  | Some v => if v <? radix then Some v else None
  | None => None
  end.

Fixpoint skip_space (s : string) : string :=
  match s with
  | String c s' => if is_space c then skip_space s' else s
  | EmptyString => s
  end.

(** Reads digits; [acc] is [None] until the first digit is seen. *)
Fixpoint read_digits (radix : Z) (acc : option Z) (s : string) : option Z :=
  match s with
  | String c s' =>
      match digit_of radix c with
      | Some v => read_digits radix (Some (default 0 acc * radix + v)) s'
      | None => acc
      end
  | EmptyString => acc
  end.

Definition read_unsigned (s : string) : option Z :=
  match s with
  | String "0"%char (String "x"%char s') => read_digits 16 None s'
  | String "0"%char (String "X"%char s') => read_digits 16 None s'
  | _ => read_digits 10 None s
  end.

Definition parseInt_string (s : string) : option Z :=
  match skip_space s with
  | String "-"%char s' => Z.opp <$> read_unsigned s'
  | String "+"%char s' => read_unsigned s'
  | s' => read_unsigned s'
  end.

Definition parseInt (v : jsany) : option Z :=
  match v with
  | Some (JNum n) => Some n
  | Some (JStr s) => parseInt_string s
  | Some (JBool _) => None
  | Some (JOption _ _) => None
  | None => None
  end.

(** [parseInt(a) === parseInt(b)]: NaN is different from itself. *)
Definition parseInt_eq (a b : jsany) : bool :=
  match parseInt a, parseInt b with
  | Some x, Some y => x =? y
  | _, _ => false
  end.

(** A call either returns or throws a TypeError. *)
Inductive result (A : Type) : Type :=
  | Ok (a : A)
  | Throw (message : string).
Arguments Ok {A} a.
Arguments Throw {A} message.

(** ** IAMTranslatorFactory

    [getMsg] looks the key up in the table of the browser language.  The
    English table maps every message of the modelled code to itself. *)
Definition getMsg (key : string) : string := key.

(** ** ProcessResult *)

Module ProcessResult.

Definition INFO : Z := 1.
Definition WARN : Z := 2.
Definition ERROR : Z := 3.

Record t : Type := mk {
  status : Z;
  text : string;
  details : option (list string)
}.

(** [new ProcessResult(status, text)]: [details] starts undefined. *)
Definition new (status : Z) (text : string) : t :=
  {| status := status; text := text; details := None |}.

Definition addDetail (status' : Z) (detail : string) (this : t) : t :=
  let raised :=
    if status this <? status' then
      {| status := status';
         text := if status' =? WARN then text this +:+ getMsg " with warnings"
                 else text this;
         details := details this |}
    else this in
  {| status := status raised;
     text := text raised;
     details := match details raised with
                | Some ds => Some (ds ++ [detail])
                | None => Some [detail]
                end |}.

(** The details as an array ([undefined] read as no detail yet). *)
Definition detailList (this : t) : list string := default [] (details this).

End ProcessResult.

(** ** JavaScript Map: association list in insertion order *)

Definition JSMap (V : Type) : Type := list (jsany * V).

Fixpoint Map_get {V} (key : jsany) (m : JSMap V) : option V :=
  match m with
  | [] => None
  | (k, v) :: m' => if strict_eq k key then Some v else Map_get key m'
  end.

(** [map.set(key, v)]: an existing key keeps its position, a new key goes
    last. *)
Fixpoint Map_set {V} (key : jsany) (v : V) (m : JSMap V) : JSMap V :=
  match m with
  | [] => [(key, v)]
  | (k, w) :: m' =>
      if strict_eq k key then (k, v) :: m' else (k, w) :: Map_set key v m'
  end.

(** [[...map.keys()]] *)
Definition Map_keys {V} (m : JSMap V) : list jsany := m.*1.

(** [[...map.values()]] *)
Definition Map_values {V} (m : JSMap V) : list V := m.*2.

(** ** IAMMapTable

    A record class stored in a table: [prop item name] reads the property
    [item[name]], [equals] is the class's [equals] method. *)

Class TableRecord (R : Type) : Type := {
  prop : R → string → jsany;
  equals : R → R → bool
}.

(** The nested Maps of a table with [S d] primary keys: [d] levels of Maps
    of Maps above the last Map, whose values are the arrays of records. *)
Fixpoint MapN (R : Type) (d : nat) : Type :=
  match d with
  | O => JSMap (list R)
  | S d' => JSMap (MapN R d')
  end.

Definition Map_new {R : Type} (d : nat) : MapN R d :=
  match d with
  | O => []
  | S _ => []
  end.

Record IAMMapTable (R : Type) (d : nat) : Type := mkIAMMapTable {
  _primaryKeys : list string;
  _mapTable : MapN R d
}.
Arguments mkIAMMapTable {R d} _ _.
Arguments _primaryKeys {R d} _.
Arguments _mapTable {R d} _.

(** [new IAMMapTable(primaryKeys)], with [length primaryKeys = S d]. *)
Definition newIAMMapTable {R : Type} (d : nat) (primaryKeys : list string)
  : IAMMapTable R d :=
  mkIAMMapTable primaryKeys (Map_new d).

(** [item[this._primaryKeys[index]]]; past the end of the key names the
    name is [undefined], which reads the property ["undefined"]. *)
Definition keyOf `{TableRecord R} (primaryKeys : list string) (index : nat)
  (item : R) : jsany :=
  prop item (nth index primaryKeys "undefined").

(** The [forEach] of [_addItem] over the array found at the last level:
    every stored item that [equals] the new one is overwritten where it
    stands; without any, the item is pushed. *)
Definition addToArray `{TableRecord R} (item : R) (found : list R) : list R :=
  let array := (λ storedItem, if equals storedItem item then item else storedItem) <$> found in
  let overwritten := existsb (λ storedItem, equals storedItem item) found in
  if overwritten then array else found ++ [item].

(** [_addItem(item, map, index)].  The last level is reached when
    [index = length primaryKeys - 1], here when [d = 0].  On a missing key
    above the last level the code sets a new Map and calls itself on the same
    level, which then finds that Map and descends into it. *)
Fixpoint _addItem `{TableRecord R} (primaryKeys : list string) (d : nat)
  (item : R) (index : nat) : MapN R d → MapN R d :=
  match d as d0 return MapN R d0 → MapN R d0 with
  | O => λ map,
      let key := keyOf primaryKeys index item in
      match Map_get key map with
      | Some found => Map_set key (addToArray item found) map
      | None => Map_set key [item] map
      end
  | S d' => λ map,
      let key := keyOf primaryKeys index item in
      match Map_get (V:=MapN R d') key map with
      | Some found => Map_set (V:=MapN R d') key (_addItem primaryKeys d' item (S index) found) map
      | None => Map_set (V:=MapN R d') key (_addItem primaryKeys d' item (S index) (Map_new d')) map
      end
  end.

Definition addItem `{TableRecord R} {d} (item : R) (this : IAMMapTable R d)
  : IAMMapTable R d :=
  mkIAMMapTable (_primaryKeys this)
    (_addItem (_primaryKeys this) d item 0 (_mapTable this)).

(** [_getItem(values, map, index)] for [values] of full length
    ([length values = S d], the way the store calls it): the first record of
    the array under the keys, [undefined] when a key is missing. *)
Fixpoint _getItem {R : Type} (values : list jsany) (d : nat) (index : nat)
  : MapN R d → option R :=
  match d as d0 return MapN R d0 → option R with
  | O => λ map,
      match Map_get (mjoin (values !! index)) map with
      | Some found => head found
      | None => None
      end
  | S d' => λ map,
      match Map_get (V:=MapN R d') (mjoin (values !! index)) map with
      | Some found => _getItem values d' (S index) found
      | None => None
      end
  end.

Definition getItem {R d} (values : list jsany) (this : IAMMapTable R d) : option R :=
  _getItem values d 0 (_mapTable this).

(** [_getKeys(values, map, index)]: the keys of the Map below the prefix
    [values]; below a full tuple of keys stands an array, whose keys are its
    indices, and one level further [get] is not a function. *)
Fixpoint _getKeys {R : Type} (values : list jsany) (d : nat) (index : nat)
  : MapN R d → result (list jsany) :=
  match d as d0 return MapN R d0 → result (list jsany) with
  | O => λ map,
      if (index =? length values)%nat then Ok (Map_keys map)
      else
        match Map_get (mjoin (values !! index)) map with
        | Some found =>
            if (S index =? length values)%nat
            then Ok ((λ i, Some (JNum (Z.of_nat i))) <$> seq 0 (length found))
            else Throw "map.get is not a function"
        | None => Ok []
        end
  | S d' => λ map,
      if (index =? length values)%nat then Ok (Map_keys (V:=MapN R d') map)
      else
        match Map_get (V:=MapN R d') (mjoin (values !! index)) map with
        | Some found => _getKeys values d' (S index) found
        | None => Ok []
        end
  end.

Definition getKeys {R d} (values : list jsany) (this : IAMMapTable R d)
  : result (list jsany) :=
  _getKeys values d 0 (_mapTable this).

(** The array under a tuple of keys, the terminal list of that slot;
    [path i] is the key on level [i].  [_getItem] returns its first record. *)
Fixpoint _getArray {R : Type} (path : nat → jsany) (d : nat) (index : nat)
  : MapN R d → option (list R) :=
  match d as d0 return MapN R d0 → option (list R) with
  | O => λ map, Map_get (path index) map
  | S d' => λ map,
      match Map_get (V:=MapN R d') (path index) map with
      | Some found => _getArray path d' (S index) found
      | None => None
      end
  end.

Definition getArray {R d} (path : nat → jsany) (this : IAMMapTable R d)
  : option (list R) :=
  _getArray path d 0 (_mapTable this).

(** The tuple of keys of a record, and of an array of key values. *)
Definition keysOf `{TableRecord R} (primaryKeys : list string) (item : R) : nat → jsany :=
  λ index, keyOf primaryKeys index item.

Definition keysAt (values : list jsany) : nat → jsany :=
  λ index, mjoin (values !! index).

(** A filter of [getAllItems] and [getAllKeys]: a predicate on a key, or
    [undefined]. *)
Definition keyFilter : Type := option (jsany → bool).

(** Whether the filter of level [index] lets a key through. *)
Definition accepts (filters : list keyFilter) (index : nat) (key : jsany) : bool :=
  match mjoin (filters !! index) with
  | Some f => f key
  | None => true
  end.

(** [filters[index] ? [...map.keys()].filter(filters[index]) : [...map.keys()]] *)
Definition filteredKeys (filters : list keyFilter) (index : nat) (keys : list jsany)
  : list jsany :=
  match mjoin (filters !! index) with
  | Some f => List.filter f keys
  | None => keys
  end.

(** [_getAllItems(filters, map, index, ret)]; [ret] collects the arrays.
    [getAllItems] calls it only with [length filters = S d], so that
    [index = length filters - 1] holds exactly on the last level. *)
Fixpoint _getAllItems {R : Type} (filters : list keyFilter) (d : nat) (index : nat)
  : MapN R d → list (list R) → list (list R) :=
  match d as d0 return MapN R d0 → list (list R) → list (list R) with
  | O => λ map ret,
      fold_left (λ ret key,
          match Map_get key map with
          | Some found => ret ++ [found]
          | None => ret
          end)
        (filteredKeys filters index (Map_keys map)) ret
  | S d' => λ map ret,
      fold_left (λ ret key,
          match Map_get (V:=MapN R d') key map with
          | Some found => _getAllItems filters d' (S index) found ret
          | None => ret
          end)
        (filteredKeys filters index (Map_keys (V:=MapN R d') map)) ret
  end.

(** [getAllItems(filters)]: the guard on the length, then [ret.flat()]. *)
Definition getAllItems {R d} (filters : list keyFilter) (this : IAMMapTable R d)
  : list R :=
  if negb (length filters =? length (_primaryKeys this))%nat then []
  else concat (_getAllItems filters d 0 (_mapTable this) []).

(** [ret.set(key, key)] on the Map that collects keys. *)
Definition setKey (ret : list jsany) (key : jsany) : list jsany :=
  if bool_decide (key ∈ ret) then ret else ret ++ [key].

(** [_getAllKeys] reaching an array instead of a Map (the filters are longer
    than the key names): [[...array.keys()]] are the indices; one level
    further [array.get] is not a function. *)
Definition _getAllKeys_array {R : Type} (filters : list keyFilter) (index : nat)
  (array : list R) (ret : list jsany) : result (list jsany) :=
  let keys := filteredKeys filters index
                ((λ i, Some (JNum (Z.of_nat i))) <$> seq 0 (length array)) in
  if (S index =? length filters)%nat then Ok (fold_left setKey keys ret)
  else match keys with
       | [] => Ok ret
       | _ :: _ => Throw "map.get is not a function"
       end.

(** [_getAllKeys(filters, map, index, ret)].  There is no guard on the
    length of [filters]: the keys are collected on the level where
    [index = length filters - 1], whichever level that is. *)
Fixpoint _getAllKeys {R : Type} (filters : list keyFilter) (d : nat) (index : nat)
  : MapN R d → list jsany → result (list jsany) :=
  match d as d0 return MapN R d0 → list jsany → result (list jsany) with
  | O => λ map ret,
      let keys := filteredKeys filters index (Map_keys map) in
      if (S index =? length filters)%nat then Ok (fold_left setKey keys ret)
      else
        fold_left (λ acc key,
            match acc with
            | Ok ret =>
                match Map_get key map with
                | Some found => _getAllKeys_array filters (S index) found ret
                | None => Throw "Cannot read properties of undefined"
                end
            | Throw e => Throw e
            end)
          keys (Ok ret)
  | S d' => λ map ret,
      let keys := filteredKeys filters index (Map_keys (V:=MapN R d') map) in
      if (S index =? length filters)%nat then Ok (fold_left setKey keys ret)
      else
        fold_left (λ acc key,
            match acc with
            | Ok ret =>
                match Map_get (V:=MapN R d') key map with
                | Some found => _getAllKeys filters d' (S index) found ret
                | None => Throw "Cannot read properties of undefined"
                end
            | Throw e => Throw e
            end)
          keys (Ok ret)
  end.

Definition getAllKeys {R d} (filters : list keyFilter) (this : IAMMapTable R d)
  : result (list jsany) :=
  _getAllKeys filters d 0 (_mapTable this) [].

(** ** Domain records (iamDataCoreElements) *)

Module FeatureType.
Definition POINT : Z := 1.
Definition LINESTRING : Z := 2.
Definition POLYGON : Z := 3.

(** [FeatureType.geoJSONName[type]] *)
Definition geoJSONName (type : jsany) : jsany :=
  match type with
  | Some (JNum 0) => Some (JStr "")
  | Some (JNum 1) => Some (JStr "Point")
  | Some (JNum 2) => Some (JStr "LineString")
  | Some (JNum 3) => Some (JStr "Polygon")
  | _ => None
  end.
End FeatureType.

(** [Object.assign] on one object-valued property, the source having lost
    its undefined properties: a defined property of the source replaces the
    target's. *)
Definition assignProperty {A : Type} (target source : option A) : option A :=
  match source with
  | Some v => Some v
  | None => target
  end.

(** The first of two values that is defined. *)
Definition firstDefined {A : Type} (x y : option A) : option A :=
  match x with
  | Some v => Some v
  | None => y
  end.

Module Color.
Record t : Type := mk { r : Z; g : Z; b : Z; alpha : Q }.

(** [new Color(props)] for [props] an object with [r], [g], [b], [alpha]. *)
Definition new (props : t) : t :=
  {| r := r props; g := g props; b := b props; alpha := alpha props |}.
End Color.

Module Border.
(** [color] is the one object-valued property; [scalars] holds the others
    that are defined: width, lineDash1 to lineDash4, lineDashOffset,
    lineCap. *)
Record t : Type := mk {
  color : option Color.t;
  scalars : gmap string jsval
}.

(** The object [{}]. *)
Definition empty : t := {| color := None; scalars := ∅ |}.

(** [Object.assign({...target}, temp)], [temp] being the copy of [source]
    without its undefined properties. *)
Definition assign (target source : t) : t :=
  {| color := assignProperty (color target) (color source);
     scalars := scalars source ∪ scalars target |}.

(** [new Border(props)]:
    [Object.assign(this, props);
     this.color = props.color ? new Color(props.color) : undefined;
     this.width = props.width ? props.width : undefined] *)
Definition new (props : t) : t :=
  {| color := Color.new <$> color props;
     scalars := if truthy (scalars props !! "width") then scalars props
                else delete "width" (scalars props) |}.

(** [merge(masterBorder)] *)
Definition merge (this : t) (masterBorder : option t) : t :=
  match masterBorder with
  | Some master => new (assign this master)
  | None => this
  end.
End Border.

Module TextSettings.
Record t : Type := mk {
  textFillColor : option Color.t;
  textBorder : option Border.t;
  textBackgroundFillColor : option Color.t;
  textBackgroundBorder : option Border.t;
  scalars : gmap string jsval
}.

Definition assign (target source : t) : t :=
  {| textFillColor := assignProperty (textFillColor target) (textFillColor source);
     textBorder := assignProperty (textBorder target) (textBorder source);
     textBackgroundFillColor :=
       assignProperty (textBackgroundFillColor target) (textBackgroundFillColor source);
     textBackgroundBorder :=
       assignProperty (textBackgroundBorder target) (textBackgroundBorder source);
     scalars := scalars source ∪ scalars target |}.

(** [new TextSettings(props)] *)
Definition new (props : t) : t :=
  {| textFillColor := Color.new <$> textFillColor props;
     textBorder := Some (Border.new (default Border.empty (textBorder props)));
     textBackgroundFillColor := Color.new <$> textBackgroundFillColor props;
     textBackgroundBorder :=
       Some (Border.new (default Border.empty (textBackgroundBorder props)));
     scalars := scalars props |}.

(** [TextSettings.getStandard()]; the source spells the key of the font
    style [textFonStyle]. *)
Definition getStandard : t :=
  new {| textFillColor := Some (Color.new (Color.mk 0 0 0 1));
         textBorder := None;
         textBackgroundFillColor := None;
         textBackgroundBorder := None;
         scalars := list_to_map [
           ("textFonStyle", JOption "normal" (getMsg "normal"));
           ("textFontWeight", JOption "normal" (getMsg "normal"));
           ("textFontSize", JNum 10);
           ("textFontSizeType", JStr "pt");
           ("textFontFamily", JStr "Arial");
           ("textOffsetY", JNum 10);
           ("textOverflow", JBool true) ] |}.

(** [merge(masterTextSettings)]; [this.textBorder.merge] throws when
    [this.textBorder] is undefined. *)
Definition merge (this : t) (masterTextSettings : option t) : result t :=
  match masterTextSettings with
  | Some master =>
      let ret := new (assign this master) in
      match textBorder this with
      | None => Throw "Cannot read properties of undefined (reading 'merge')"
      | Some border =>
          Ok {| textFillColor := textFillColor ret;
                textBorder := Some (Border.merge border (textBorder master));
                textBackgroundFillColor := textBackgroundFillColor ret;
                textBackgroundBorder :=
                  match textBackgroundBorder this with
                  | Some background =>
                      Some (Border.merge background (textBackgroundBorder master))
                  | None => textBackgroundBorder ret
                  end;
                scalars := scalars ret |}
      end
  | None => Ok this
  end.
End TextSettings.

(** The class of a settings object, which selects the [merge] that a call
    dispatches to. *)
Inductive SettingsClass : Type :=
  | FeatureSettingsClass
  | PointSettingsClass
  | LineStringSettingsClass
  | PolygonSettingsClass.

Module FeatureSettings.
Definition LEVEL_STANDARD : Z := 1.
Definition LEVEL_ATTRIBUTE : Z := 2.

(** One record for the class and its three subclasses.  [scalars] holds the
    defined properties that are not objects: featureType, levelType,
    levelName, levelValue, showFeature, showText, and of a point
    pointShapeType, pointRadius, pointDisplacementX, pointDisplacementY,
    pointRotation, pointPoints, pointStarRadius. *)
Record t : Type := mk {
  class : SettingsClass;
  scalars : gmap string jsval;
  textSettings : option TextSettings.t;
  pointFill : option Color.t;
  pointBorder : option Border.t;
  lineBorder1 : option Border.t;
  lineBorder2 : option Border.t;
  polygonFill : option Color.t;
  polygonBorder : option Border.t
}.

(** A parameter object with the given scalar properties and no other. *)
Definition params (scalars : gmap string jsval) : t :=
  {| class := FeatureSettingsClass; scalars := scalars; textSettings := None;
     pointFill := None; pointBorder := None; lineBorder1 := None;
     lineBorder2 := None; polygonFill := None; polygonBorder := None |}.

Definition getFeatureType (this : t) : jsany := scalars this !! "featureType".
Definition getLevelType (this : t) : jsany := scalars this !! "levelType".
Definition getLevelName (this : t) : jsany := scalars this !! "levelName".
Definition getLevelValue (this : t) : jsany := scalars this !! "levelValue".
Definition getTextSettings (this : t) : option TextSettings.t := textSettings this.

(** [Object.assign({...target}, temp)], [temp] being the copy of [source]
    without its undefined properties. *)
Definition assign (target source : t) : t :=
  {| class := class target;
     scalars := scalars source ∪ scalars target;
     textSettings := assignProperty (textSettings target) (textSettings source);
     pointFill := assignProperty (pointFill target) (pointFill source);
     pointBorder := assignProperty (pointBorder target) (pointBorder source);
     lineBorder1 := assignProperty (lineBorder1 target) (lineBorder1 source);
     lineBorder2 := assignProperty (lineBorder2 target) (lineBorder2 source);
     polygonFill := assignProperty (polygonFill target) (polygonFill source);
     polygonBorder := assignProperty (polygonBorder target) (polygonBorder source) |}.

(** [new FeatureSettings(params)]:
    [Object.assign(this, params);
     params.type && (this.featureType = params.type);
     ... ;
     params.textSettings && (this.textSettings = new TextSettings(params.textSettings))] *)
Definition new (params : t) : t :=
  {| class := FeatureSettingsClass;
     scalars :=
       match scalars params !! "type" with
       | Some type =>
           if truthy (Some type) then <["featureType" := type]> (scalars params)
           else scalars params
       | None => scalars params
       end;
     textSettings := TextSettings.new <$> textSettings params;
     pointFill := pointFill params;
     pointBorder := pointBorder params;
     lineBorder1 := lineBorder1 params;
     lineBorder2 := lineBorder2 params;
     polygonFill := polygonFill params;
     polygonBorder := polygonBorder params |}.

(** [ret.setTextSettings(textSettings)] *)
Definition setTextSettings (textSettings : option TextSettings.t) (ret : t) : t :=
  {| class := class ret; scalars := scalars ret; textSettings := textSettings;
     pointFill := pointFill ret; pointBorder := pointBorder ret;
     lineBorder1 := lineBorder1 ret; lineBorder2 := lineBorder2 ret;
     polygonFill := polygonFill ret; polygonBorder := polygonBorder ret |}.

(** [FeatureSettings.prototype.merge(masterSettings)];
    [this.getTextSettings().merge] throws when this object has no text
    settings. *)
Definition merge (this masterSettings : t) : result t :=
  let ret := new (assign this masterSettings) in
  match getTextSettings this with
  | None => Throw "Cannot read properties of undefined (reading 'merge')"
  | Some textSettings =>
      match TextSettings.merge textSettings (getTextSettings masterSettings) with
      | Ok merged => Ok (setTextSettings (Some merged) ret)
      | Throw e => Throw e
      end
  end.

(** [equals(other)] *)
Definition equals (this other : t) : bool :=
  strict_eq (getFeatureType this) (getFeatureType other) &&
  strict_eq (getLevelType this) (getLevelType other) &&
  strict_eq (getLevelName this) (getLevelName other) &&
  strict_eq (getLevelValue this) (getLevelValue other).
End FeatureSettings.

Module PointSettings.
Definition CIRCLE : Z := 1.

(** The properties that the class body declares without a value, next to
    pointFill and pointBorder.  A field declared by a subclass is defined on
    the object, as undefined, at the moment [super(...)] returns: what
    [Object.assign] has stored under these names in the constructor of
    FeatureSettings is lost there. *)
Definition declaredScalars : list string :=
  ["pointShapeType"; "pointRadius"; "pointDisplacementX"; "pointDisplacementY";
   "pointRotation"; "pointPoints"; "pointStarRadius"].

(** [new PointSettings(props)] *)
Definition new (props : FeatureSettings.t) : FeatureSettings.t :=
  let super := FeatureSettings.new props in
  {| FeatureSettings.class := PointSettingsClass;
     FeatureSettings.scalars :=
       <["featureType" := JNum FeatureType.POINT]>
         (foldr delete (FeatureSettings.scalars super) declaredScalars);
     FeatureSettings.textSettings := FeatureSettings.textSettings super;
     FeatureSettings.pointFill := Color.new <$> FeatureSettings.pointFill props;
     FeatureSettings.pointBorder :=
       Some (Border.new (default Border.empty (FeatureSettings.pointBorder props)));
     FeatureSettings.lineBorder1 := FeatureSettings.lineBorder1 super;
     FeatureSettings.lineBorder2 := FeatureSettings.lineBorder2 super;
     FeatureSettings.polygonFill := FeatureSettings.polygonFill super;
     FeatureSettings.polygonBorder := FeatureSettings.polygonBorder super |}.

(** [PointSettings.getStandard()] *)
Definition getStandard : FeatureSettings.t :=
  new {| FeatureSettings.class := FeatureSettingsClass;
         FeatureSettings.scalars := list_to_map [
           ("levelType", JNum FeatureSettings.LEVEL_STANDARD);
           ("levelName", JStr "Standard");
           ("levelValue", JStr "");
           ("showFeature", JBool true);
           ("showText", JBool false);
           ("pointShapeType", JNum CIRCLE);
           ("pointRadius", JNum 5) ];
         FeatureSettings.textSettings := Some TextSettings.getStandard;
         FeatureSettings.pointFill := Some (Color.new (Color.mk 200 200 200 1));
         FeatureSettings.pointBorder :=
           Some (Border.new {| Border.color := Some (Color.new (Color.mk 0 0 0 1));
                               Border.scalars := {[ "width" := JNum 1 ]} |});
         FeatureSettings.lineBorder1 := None;
         FeatureSettings.lineBorder2 := None;
         FeatureSettings.polygonFill := None;
         FeatureSettings.polygonBorder := None |}.

(** [merge(masterPointSettings)] *)
Definition merge (this masterPointSettings : FeatureSettings.t)
  : result FeatureSettings.t :=
  match FeatureSettings.merge this masterPointSettings with
  | Throw e => Throw e
  | Ok super =>
      let ret := new super in
      match FeatureSettings.pointBorder this with
      | None => Throw "Cannot read properties of undefined (reading 'merge')"
      | Some border =>
          Ok {| FeatureSettings.class := FeatureSettings.class ret;
                FeatureSettings.scalars := FeatureSettings.scalars ret;
                FeatureSettings.textSettings := FeatureSettings.textSettings ret;
                FeatureSettings.pointFill := FeatureSettings.pointFill ret;
                FeatureSettings.pointBorder :=
                  Some (Border.merge border
                          (FeatureSettings.pointBorder masterPointSettings));
                FeatureSettings.lineBorder1 := FeatureSettings.lineBorder1 ret;
                FeatureSettings.lineBorder2 := FeatureSettings.lineBorder2 ret;
                FeatureSettings.polygonFill := FeatureSettings.polygonFill ret;
                FeatureSettings.polygonBorder := FeatureSettings.polygonBorder ret |}
      end
  end.
End PointSettings.

Module LineStringSettings.
(** [new LineStringSettings(props)] *)
Definition new (props : FeatureSettings.t) : FeatureSettings.t :=
  let super := FeatureSettings.new props in
  {| FeatureSettings.class := LineStringSettingsClass;
     FeatureSettings.scalars :=
       <["featureType" := JNum FeatureType.LINESTRING]> (FeatureSettings.scalars super);
     FeatureSettings.textSettings := FeatureSettings.textSettings super;
     FeatureSettings.pointFill := FeatureSettings.pointFill super;
     FeatureSettings.pointBorder := FeatureSettings.pointBorder super;
     FeatureSettings.lineBorder1 :=
       Some (Border.new (default Border.empty (FeatureSettings.lineBorder1 props)));
     FeatureSettings.lineBorder2 :=
       Some (Border.new (default Border.empty (FeatureSettings.lineBorder2 props)));
     FeatureSettings.polygonFill := FeatureSettings.polygonFill super;
     FeatureSettings.polygonBorder := FeatureSettings.polygonBorder super |}.

(** [LineStringSettings.getStandard()] *)
Definition getStandard : FeatureSettings.t :=
  new {| FeatureSettings.class := FeatureSettingsClass;
         FeatureSettings.scalars := list_to_map [
           ("levelType", JNum FeatureSettings.LEVEL_STANDARD);
           ("levelName", JStr "Standard");
           ("levelValue", JStr "");
           ("showFeature", JBool true);
           ("showText", JBool false) ];
         FeatureSettings.textSettings := Some TextSettings.getStandard;
         FeatureSettings.pointFill := None;
         FeatureSettings.pointBorder := None;
         FeatureSettings.lineBorder1 :=
           Some (Border.new {| Border.color := Some (Color.new (Color.mk 0 0 0 1));
                               Border.scalars := {[ "width" := JNum 2 ]} |});
         FeatureSettings.lineBorder2 := None;
         FeatureSettings.polygonFill := None;
         FeatureSettings.polygonBorder := None |}.

(** [merge(masterLineStringSettings)] *)
Definition merge (this masterLineStringSettings : FeatureSettings.t)
  : result FeatureSettings.t :=
  match FeatureSettings.merge this masterLineStringSettings with
  | Throw e => Throw e
  | Ok super =>
      let ret := new super in
      match FeatureSettings.lineBorder1 this, FeatureSettings.lineBorder2 this with
      | Some border1, Some border2 =>
          Ok {| FeatureSettings.class := FeatureSettings.class ret;
                FeatureSettings.scalars := FeatureSettings.scalars ret;
                FeatureSettings.textSettings := FeatureSettings.textSettings ret;
                FeatureSettings.pointFill := FeatureSettings.pointFill ret;
                FeatureSettings.pointBorder := FeatureSettings.pointBorder ret;
                FeatureSettings.lineBorder1 :=
                  Some (Border.merge border1
                          (FeatureSettings.lineBorder1 masterLineStringSettings));
                FeatureSettings.lineBorder2 :=
                  Some (Border.merge border2
                          (FeatureSettings.lineBorder2 masterLineStringSettings));
                FeatureSettings.polygonFill := FeatureSettings.polygonFill ret;
                FeatureSettings.polygonBorder := FeatureSettings.polygonBorder ret |}
      | _, _ => Throw "Cannot read properties of undefined (reading 'merge')"
      end
  end.
End LineStringSettings.

Module PolygonSettings.
(** [new PolygonSettings(props)] *)
Definition new (props : FeatureSettings.t) : FeatureSettings.t :=
  let super := FeatureSettings.new props in
  {| FeatureSettings.class := PolygonSettingsClass;
     FeatureSettings.scalars :=
       <["featureType" := JNum FeatureType.POLYGON]> (FeatureSettings.scalars super);
     FeatureSettings.textSettings := FeatureSettings.textSettings super;
     FeatureSettings.pointFill := FeatureSettings.pointFill super;
     FeatureSettings.pointBorder := FeatureSettings.pointBorder super;
     FeatureSettings.lineBorder1 := FeatureSettings.lineBorder1 super;
     FeatureSettings.lineBorder2 := FeatureSettings.lineBorder2 super;
     FeatureSettings.polygonFill := Color.new <$> FeatureSettings.polygonFill props;
     FeatureSettings.polygonBorder :=
       Some (Border.new (default Border.empty (FeatureSettings.polygonBorder props))) |}.

(** [PolygonSettings.getStandard()] *)
Definition getStandard : FeatureSettings.t :=
  new {| FeatureSettings.class := FeatureSettingsClass;
         FeatureSettings.scalars := list_to_map [
           ("levelType", JNum FeatureSettings.LEVEL_STANDARD);
           ("levelName", JStr "Standard");
           ("levelValue", JStr "");
           ("showFeature", JBool true);
           ("showText", JBool true) ];
         FeatureSettings.textSettings := Some TextSettings.getStandard;
         FeatureSettings.pointFill := None;
         FeatureSettings.pointBorder := None;
         FeatureSettings.lineBorder1 := None;
         FeatureSettings.lineBorder2 := None;
         FeatureSettings.polygonFill := Some (Color.new (Color.mk 200 200 200 1));
         FeatureSettings.polygonBorder :=
           Some (Border.new {| Border.color := Some (Color.new (Color.mk 0 0 0 1));
                               Border.scalars := {[ "width" := JNum 1 ]} |}) |}.

(** [merge(masterPolygonSettings)] *)
Definition merge (this masterPolygonSettings : FeatureSettings.t)
  : result FeatureSettings.t :=
  match FeatureSettings.merge this masterPolygonSettings with
  | Throw e => Throw e
  | Ok super =>
      let ret := new super in
      match FeatureSettings.polygonBorder this with
      | None => Throw "Cannot read properties of undefined (reading 'merge')"
      | Some border =>
          Ok {| FeatureSettings.class := FeatureSettings.class ret;
                FeatureSettings.scalars := FeatureSettings.scalars ret;
                FeatureSettings.textSettings := FeatureSettings.textSettings ret;
                FeatureSettings.pointFill := FeatureSettings.pointFill ret;
                FeatureSettings.pointBorder := FeatureSettings.pointBorder ret;
                FeatureSettings.lineBorder1 := FeatureSettings.lineBorder1 ret;
                FeatureSettings.lineBorder2 := FeatureSettings.lineBorder2 ret;
                FeatureSettings.polygonFill := FeatureSettings.polygonFill ret;
                FeatureSettings.polygonBorder :=
                  Some (Border.merge border
                          (FeatureSettings.polygonBorder masterPolygonSettings)) |}
      end
  end.
End PolygonSettings.

(** [this.merge(master)]: the method of the class of [this]. *)
Definition settings_merge (this master : FeatureSettings.t) : result FeatureSettings.t :=
  match FeatureSettings.class this with
  | FeatureSettingsClass => FeatureSettings.merge this master
  | PointSettingsClass => PointSettings.merge this master
  | LineStringSettingsClass => LineStringSettings.merge this master
  | PolygonSettingsClass => PolygonSettings.merge this master
  end.

#[global] Instance FeatureSettings_record : TableRecord FeatureSettings.t := {|
  prop this name := FeatureSettings.scalars this !! name;
  equals := FeatureSettings.equals
|}.

(** [item[name]] on an object with the given own properties. *)
Definition readProperty (ownProperties : list (string * jsany)) (name : string) : jsany :=
  mjoin (snd <$> List.find (λ p, String.eqb (fst p) name) ownProperties).

Module FeatureProperty.
Record t : Type := mk {
  featureType : jsany;
  _featureId : jsany;
  _propertyName : jsany;
  _propertyValue : jsany
}.

Definition getFeatureType (this : t) : jsany := featureType this.
Definition getFeatureId (this : t) : jsany := _featureId this.
Definition getName (this : t) : jsany := _propertyName this.
Definition getValue (this : t) : jsany := _propertyValue this.

(** [equals(other)], [other] being a record (truthy). *)
Definition equals (this other : t) : bool :=
  strict_eq (getFeatureType other) (getFeatureType this) &&
  strict_eq (getFeatureId other) (getFeatureId this) &&
  strict_eq (getName other) (getName this).

Definition ownProperties (this : t) : list (string * jsany) :=
  [("featureType", featureType this); ("_featureId", _featureId this);
   ("_propertyName", _propertyName this); ("_propertyValue", _propertyValue this)].
End FeatureProperty.

#[global] Instance FeatureProperty_record : TableRecord FeatureProperty.t := {|
  prop this name := readProperty (FeatureProperty.ownProperties this) name;
  equals := FeatureProperty.equals
|}.

Module FeatureAttribute.
Record t : Type := mk {
  featureType : jsany;
  _featureId : jsany;
  _propertyName : jsany;
  _propertyValue : jsany;
  _fromYear : jsany;
  _fromMonth : jsany;
  _fromDay : jsany;
  _toYear : jsany;
  _toMonth : jsany;
  _toDay : jsany
}.

Definition getFeatureType (this : t) : jsany := featureType this.
Definition getFeatureId (this : t) : jsany := _featureId this.
Definition getName (this : t) : jsany := _propertyName this.
Definition getValue (this : t) : jsany := _propertyValue this.
Definition getFromYear (this : t) : jsany := _fromYear this.
Definition getFromMonth (this : t) : jsany := _fromMonth this.
Definition getFromDay (this : t) : jsany := _fromDay this.
Definition getToYear (this : t) : jsany := _toYear this.
Definition getToMonth (this : t) : jsany := _toMonth this.
Definition getToDay (this : t) : jsany := _toDay this.

(** [super.equals(other)]: the method of FeatureProperty on this record. *)
Definition super_equals (this other : t) : bool :=
  strict_eq (getFeatureType other) (getFeatureType this) &&
  strict_eq (getFeatureId other) (getFeatureId this) &&
  strict_eq (getName other) (getName this).

(** [equals(other)] *)
Definition equals (this other : t) : bool :=
  super_equals this other &&
  strict_eq (getValue this) (getValue other) &&
  strict_eq (getFromYear this) (getFromYear other) &&
  strict_eq (getFromMonth this) (getFromMonth other) &&
  strict_eq (getFromDay this) (getFromDay other) &&
  strict_eq (getToYear this) (getToYear other) &&
  strict_eq (getToMonth this) (getToMonth other) &&
  strict_eq (getToDay this) (getToDay other).

Definition ownProperties (this : t) : list (string * jsany) :=
  [("featureType", featureType this); ("_featureId", _featureId this);
   ("_propertyName", _propertyName this); ("_propertyValue", _propertyValue this);
   ("_fromYear", _fromYear this); ("_fromMonth", _fromMonth this);
   ("_fromDay", _fromDay this); ("_toYear", _toYear this);
   ("_toMonth", _toMonth this); ("_toDay", _toDay this)].
End FeatureAttribute.

#[global] Instance FeatureAttribute_record : TableRecord FeatureAttribute.t := {|
  prop this name := readProperty (FeatureAttribute.ownProperties this) name;
  equals := FeatureAttribute.equals
|}.

(** *** Coordinates and the bounding box

    A coordinate is a finite number or one of the infinities that
    [getMinOfArray] and [getMaxOfArray] start from; taking a minimum or a
    maximum does not round, so rationals stand for the doubles. *)

Inductive num : Type :=
  | NegInfinity
  | Finite (q : Q)
  | Infinity.

(** [a < b] *)
Definition num_lt (a b : num) : bool :=
  match a, b with
  | NegInfinity, NegInfinity => false
  | NegInfinity, _ => true
  | Finite _, NegInfinity => false
  | Finite x, Finite y => negb (Qle_bool y x)
  | Finite _, Infinity => true
  | Infinity, _ => false
  end.

(** [getMinOfArray(array)]; an undefined entry compares false and is
    passed over. *)
Definition getMinOfArray (array : list (option num)) : num :=
  fold_left (λ min x,
      match x with
      | Some v => if num_lt v min then v else min
      | None => min
      end) array Infinity.

(** [getMaxOfArray(array)] *)
Definition getMaxOfArray (array : list (option num)) : num :=
  fold_left (λ max x,
      match x with
      | Some v => if num_lt max v then v else max
      | None => max
      end) array NegInfinity.

(** The coordinates of a point [[lon, lat]], of a line string (an array of
    points) and of a polygon (an array of rings). *)
Inductive Coordinates : Type :=
  | PointCoordinates (position : list num)
  | LineStringCoordinates (positions : list (list num))
  | PolygonCoordinates (rings : list (list (list num))).

(** A value stored in the [_properties] of an extended feature: a property
    value, or what [toGeoJSON] puts on the feature that carries the
    settings. *)
Inductive propertyValue : Type :=
  | PValue (v : jsany)
  | PFeatureSettings (settings : list FeatureSettings.t)
  | PMapSettings (mapSettings : gmap string jsval)
  | PAttributes (attributes : list FeatureAttribute.t).

(** The object that [toGeoJSON] of a feature returns. *)
Record GeoJSONFeature : Type := mkGeoJSONFeature {
  gj_type : string;
  gj_id : jsany;
  gj_geometry_type : jsany;
  gj_geometry_coordinates : Coordinates;
  gj_properties : gmap string propertyValue
}.

Module ExtendedFeature.
Record t : Type := mk {
  featureType : jsany;
  _id : jsany;
  _coordinates : Coordinates;
  _properties : gmap string propertyValue;
  _attributes : list FeatureAttribute.t
}.

(** [new ExtendedFeature({type, id, coordinates})] *)
Definition new (type id : jsany) (coordinates : Coordinates) : t :=
  {| featureType := type; _id := id; _coordinates := coordinates;
     _properties := ∅; _attributes := [] |}.

Definition getType (this : t) : jsany := featureType this.
Definition getId (this : t) : jsany := _id this.
Definition getCoordinates (this : t) : Coordinates := _coordinates this.

(** [Feature.prototype.equals(other)], [other] being a record (truthy). *)
Definition equals (this other : t) : bool :=
  strict_eq (getType other) (getType this) &&
  strict_eq (getId other) (getId this).

(** [this._properties[name] = value] *)
Definition addProperty (name : jsany) (value : propertyValue) (this : t) : t :=
  {| featureType := featureType this; _id := _id this;
     _coordinates := _coordinates this;
     _properties := <[toString name := value]> (_properties this);
     _attributes := _attributes this |}.

Definition clearProperties (this : t) : t :=
  {| featureType := featureType this; _id := _id this;
     _coordinates := _coordinates this;
     _properties := ∅;
     _attributes := _attributes this |}.

Definition addAttribute (attribute : FeatureAttribute.t) (this : t) : t :=
  {| featureType := featureType this; _id := _id this;
     _coordinates := _coordinates this;
     _properties := _properties this;
     _attributes :=
       if strict_eq (FeatureAttribute.getFeatureType attribute) (getType this) &&
          strict_eq (FeatureAttribute.getFeatureId attribute) (getId this)
       then _attributes this ++ [attribute]
       else _attributes this |}.

Definition clearAttributes (this : t) : t :=
  {| featureType := featureType this; _id := _id this;
     _coordinates := _coordinates this;
     _properties := _properties this;
     _attributes := [] |}.

(** [getAttributes(filterFunc)] *)
Definition getAttributes (filterFunc : option (FeatureAttribute.t → bool)) (this : t)
  : list FeatureAttribute.t :=
  List.filter (λ attribute,
      match filterFunc with
      | Some f => f attribute
      | None => true
      end) (_attributes this).

(** The bounding box of one feature along one axis ([axis] 0 is the
    longitude, 1 the latitude).  The adapters take type and coordinates from
    the same geometry; for coordinates of another shape than the type says
    the model answers undefined. *)
Definition getMin (axis : nat) (this : t) : option num :=
  if strict_eq (getType this) (Some (JNum FeatureType.LINESTRING)) then
    match _coordinates this with
    | LineStringCoordinates positions =>
        Some (getMinOfArray ((λ val, val !! axis) <$> positions))
    | _ => None
    end
  else if strict_eq (getType this) (Some (JNum FeatureType.POLYGON)) then
    match getCoordinates this with
    | PolygonCoordinates rings =>
        let mins := (λ array, Some (getMinOfArray ((λ val : list num, val !! axis) <$> array)))
                      <$> rings in
        Some (getMinOfArray mins)
    | _ => None
    end
  else
    match _coordinates this with
    | PointCoordinates position => position !! axis
    | _ => None
    end.

Definition getMinLongitude (this : t) : option num := getMin 0 this.
Definition getMinLatitude (this : t) : option num := getMin 1 this.

(** [Feature.prototype.toGeoJSON()] and on top of it
    [toGeoJSON(addProperties, addAttributes)]. *)
Definition toGeoJSON (addProperties addAttributes : bool) (this : t) : GeoJSONFeature :=
  let properties0 : gmap string propertyValue := {[ "id" := PValue (getId this) ]} in
  let properties1 :=
    if addProperties then _properties this ∪ properties0 else properties0 in
  let properties2 :=
    if addAttributes then <["_iamAttributes" := PAttributes (_attributes this)]> properties1
    else properties1 in
  {| gj_type := "Feature";
     gj_id := getId this;
     gj_geometry_type := FeatureType.geoJSONName (getType this);
     gj_geometry_coordinates := getCoordinates this;
     gj_properties := properties2 |}.

Definition ownProperties (this : t) : list (string * jsany) :=
  [("featureType", featureType this); ("_id", _id this)].
End ExtendedFeature.

#[global] Instance ExtendedFeature_record : TableRecord ExtendedFeature.t := {|
  prop this name := readProperty (ExtendedFeature.ownProperties this) name;
  equals := ExtendedFeature.equals
|}.

(** ** Arrays: sort

    [array.sort(compareFn)] is stable and, for a comparator that orders the
    elements consistently, yields the one stable sorted arrangement; this is
    the insertion sort that computes it.  A comparator result NaN counts as
    0, as sort reads it. *)

Definition isNegative (v : option Z) : bool :=
  match v with
  | Some c => c <? 0
  | None => false
  end.

Fixpoint sort_insert {A : Type} (compareFn : A → A → option Z) (x : A)
  (sorted : list A) : list A :=
  match sorted with
  | [] => [x]
  | y :: sorted' =>
      if isNegative (compareFn x y) then x :: sorted
      else y :: sort_insert compareFn x sorted'
  end.

Definition Array_sort {A : Type} (compareFn : A → A → option Z) (array : list A)
  : list A :=
  fold_left (λ sorted x, sort_insert compareFn x sorted) array [].

(** On an array with undefined entries, [sort] orders the defined ones and
    puts the undefined ones last, without calling the comparator on them. *)
Definition Array_sort_any (compareFn : jsval → jsval → option Z) (array : list jsany)
  : list jsany :=
  (Some <$> Array_sort compareFn (omap id array)) ++
  List.filter (λ v, negb (bool_decide (is_Some v))) array.

(** *** ToNumber, as the relational and arithmetic operators apply it

    On a string: the trimmed string read as an integer literal ([''] is 0);
    any other string is NaN here, literals with a fraction or an exponent
    being outside the integers of this model. *)

Definition trim (s : string) : string :=
  String.rev (skip_space (String.rev (skip_space s))).

Fixpoint all_digits (radix : Z) (s : string) : bool :=
  match s with
  | String c s' =>
      match digit_of radix c with
      | Some _ => all_digits radix s'
      | None => false
      end
  | EmptyString => true
  end.

Definition toNumber_literal (s : string) : option Z :=
  match s with
  | String "0"%char (String "x"%char s') =>
      if all_digits 16 s' then read_digits 16 None s' else None
  | String "0"%char (String "X"%char s') =>
      if all_digits 16 s' then read_digits 16 None s' else None
  | String "-"%char s' => if all_digits 10 s' then Z.opp <$> read_digits 10 None s' else None
  | String "+"%char s' => if all_digits 10 s' then read_digits 10 None s' else None
  | _ => if all_digits 10 s then read_digits 10 None s else None
  end.

Definition toNumber (v : jsany) : option Z :=
  match v with
  | Some (JNum n) => Some n
  | Some (JStr s) =>
      match trim s with
      | EmptyString => Some 0
      | s' => toNumber_literal s'
      end
  | Some (JBool true) => Some 1
  | Some (JBool false) => Some 0
  | Some (JOption _ _) => None
  | None => None
  end.

(** [a - b], [a > b], [a < b], [a >= b], [a <= b] on numbers that may be
    NaN ([None]): a comparison with NaN is false. *)
Definition num_sub (a b : option Z) : option Z :=
  match a, b with
  | Some x, Some y => Some (x - y)
  | _, _ => None
  end.

Definition num_gt (a b : option Z) : bool :=
  match a, b with
  | Some x, Some y => y <? x
  | _, _ => false
  end.

Definition num_ge (a b : option Z) : bool :=
  match a, b with
  | Some x, Some y => y <=? x
  | _, _ => false
  end.

(** *** The relational operators on values

    [a < b] first makes primitives of both sides, an object becoming the
    string of its [toString].  Two strings are compared as strings, code
    unit by code unit; any other pair is compared after ToNumber.  The
    result is true, false or, with a NaN, undefined ([None]). *)





(** *** The sort of the engine

    [Array.prototype.sort] calls the comparator in an order that the engine
    chooses.  The language fixes the result when the comparator, a NaN being
    read as +0, is consistent on the elements of the array: the result is
    then sorted and stable, which is what the insertion sort [Array_sort]
    computes.  With any other comparator the order is left to the engine,
    which returns the elements of the array in some order. *)

(** SortCompare on the result of the comparator. *)
Definition sortCompare {A : Type} (compareFn : A → A → option Z) (x y : A) : Z :=
  default 0 (compareFn x y).

(** A consistent comparator for the elements of [array]. *)
Definition consistentComparator {A : Type} (compareFn : A → A → option Z)
  (array : list A) : Prop :=
  (∀ a, a ∈ array → sortCompare compareFn a a = 0) ∧
  (∀ a b, a ∈ array → b ∈ array →
          sortCompare compareFn a b = 0 → sortCompare compareFn b a = 0) ∧
  (∀ a b c, a ∈ array → b ∈ array → c ∈ array →
            sortCompare compareFn a b = 0 → sortCompare compareFn b c = 0 →
            sortCompare compareFn a c = 0) ∧
  (∀ a b c, a ∈ array → b ∈ array → c ∈ array →
            sortCompare compareFn a b < 0 → sortCompare compareFn b c < 0 →
            sortCompare compareFn a c < 0) ∧
  (∀ a b c, a ∈ array → b ∈ array → c ∈ array →
            sortCompare compareFn a b > 0 → sortCompare compareFn b c > 0 →
            sortCompare compareFn a c > 0).

Class SortEngine : Type := {
  engine_sort : ∀ {A : Type}, (A → A → option Z) → list A → list A;
  engine_sort_Permutation :
    ∀ {A : Type} (compareFn : A → A → option Z) (array : list A),
      engine_sort compareFn array ≡ₚ array;
  engine_sort_consistent :
    ∀ {A : Type} (compareFn : A → A → option Z) (array : list A),
      consistentComparator compareFn array →
      engine_sort compareFn array = Array_sort compareFn array
}.

(** ** The data sources

    What a data source hands to the storage: the arrays that its
    constructor has filled. *)
Module DataSource.
Record t : Type := mk {
  _features : list ExtendedFeature.t;
  _featuresProperties : list FeatureProperty.t;
  _featuresAttributes : list FeatureAttribute.t;
  _featuresSettings : list FeatureSettings.t;
  _mapSettings : option (gmap string jsval)
}.

(** [constructor(rawData)] of the template class: empty arrays. *)
Definition new : t :=
  {| _features := []; _featuresProperties := []; _featuresAttributes := [];
     _featuresSettings := []; _mapSettings := None |}.

Definition getFeatures (this : t) := _features this.
Definition getFeaturesProperties (this : t) := _featuresProperties this.
Definition getFeaturesAttributes (this : t) := _featuresAttributes this.
Definition getFeaturesSettings (this : t) := _featuresSettings this.
End DataSource.

(** ** IAMStorage *)

Module IAMData.
Definition OVERWRITE : Z := 1.
Definition DROPTABLE : Z := 2.
End IAMData.

(** The object stored under [values] is changed in place: the first record
    of the array under the keys, the one that [_getItem] returns. *)
Fixpoint _modifyItem {R : Type} (f : R → R) (values : list jsany) (d : nat)
  (index : nat) : MapN R d → MapN R d :=
  match d as d0 return MapN R d0 → MapN R d0 with
  | O => λ map,
      match Map_get (mjoin (values !! index)) map with
      | Some (item :: found) => Map_set (mjoin (values !! index)) (f item :: found) map
      | _ => map
      end
  | S d' => λ map,
      match Map_get (V:=MapN R d') (mjoin (values !! index)) map with
      | Some found =>
          Map_set (V:=MapN R d') (mjoin (values !! index)) (_modifyItem f values d' (S index) found) map
      | None => map
      end
  end.

Definition modifyItem {R d} (f : R → R) (values : list jsany) (this : IAMMapTable R d)
  : IAMMapTable R d :=
  mkIAMMapTable (_primaryKeys this) (_modifyItem f values d 0 (_mapTable this)).

(** Every stored object is changed in place: what a [forEach] over
    [getAllItems] with no filter does when its callback mutates the item. *)
Fixpoint _modifyAll {R : Type} (f : R → R) (d : nat) : MapN R d → MapN R d :=
  match d as d0 return MapN R d0 → MapN R d0 with
  | O => λ map, List.map (λ '(key, found), (key, List.map f found)) map
  | S d' => λ map, List.map (λ '(key, found), (key, _modifyAll f d' found)) map
  end.

Definition modifyAll {R d} (f : R → R) (this : IAMMapTable R d) : IAMMapTable R d :=
  mkIAMMapTable (_primaryKeys this) (_modifyAll f d (_mapTable this)).

Module IAMStorage.
Record t : Type := mk {
  _features : IAMMapTable ExtendedFeature.t 1;
  _featureAttributes : IAMMapTable FeatureAttribute.t 3;
  _featureProperties : IAMMapTable FeatureProperty.t 2;
  _featureSettings : IAMMapTable FeatureSettings.t 3
}.

Definition _featuresTableDef : list string := ["featureType"; "_id"].
Definition _featureAttributesTableDef : list string :=
  ["featureType"; "_featureId"; "_propertyName"; "_propertyValue"].
Definition _featurePropertiesTableDef : list string :=
  ["featureType"; "_featureId"; "_propertyName"].
Definition _featureSettingsTableDef : list string :=
  ["featureType"; "levelType"; "levelName"; "levelValue"].

(** [_initStandardSettings()], on the settings table. *)
Definition _initStandardSettings (settings : IAMMapTable FeatureSettings.t 3)
  : IAMMapTable FeatureSettings.t 3 :=
  addItem PolygonSettings.getStandard
    (addItem LineStringSettings.getStandard
       (addItem PointSettings.getStandard settings)).

(** [_init()] *)
Definition _init : t :=
  {| _features := newIAMMapTable 1 _featuresTableDef;
     _featureAttributes := newIAMMapTable 3 _featureAttributesTableDef;
     _featureProperties := newIAMMapTable 2 _featurePropertiesTableDef;
     _featureSettings :=
       _initStandardSettings (newIAMMapTable 3 _featureSettingsTableDef) |}.

(** [new IAMStorage()] *)
Definition new : t := _init.

Definition set_features (features : IAMMapTable ExtendedFeature.t 1) (this : t) : t :=
  {| _features := features; _featureAttributes := _featureAttributes this;
     _featureProperties := _featureProperties this;
     _featureSettings := _featureSettings this |}.

Definition set_featureAttributes (attributes : IAMMapTable FeatureAttribute.t 3)
  (this : t) : t :=
  {| _features := _features this; _featureAttributes := attributes;
     _featureProperties := _featureProperties this;
     _featureSettings := _featureSettings this |}.

Definition set_featureProperties (properties : IAMMapTable FeatureProperty.t 2)
  (this : t) : t :=
  {| _features := _features this; _featureAttributes := _featureAttributes this;
     _featureProperties := properties;
     _featureSettings := _featureSettings this |}.

Definition set_featureSettings (settings : IAMMapTable FeatureSettings.t 3)
  (this : t) : t :=
  {| _features := _features this; _featureAttributes := _featureAttributes this;
     _featureProperties := _featureProperties this;
     _featureSettings := settings |}.

(** [addSetting(featuresSettings)] *)
Definition addSetting (featuresSettings : FeatureSettings.t) (this : t) : t :=
  set_featureSettings (addItem featuresSettings (_featureSettings this)) this.

(** The keys [[parseInt(featureType), featureId]] of [getFeature]; there is
    none when [parseInt] yields NaN, which is the key of no feature. *)
Definition featureKeys (featureType featureId : jsany) : option (list jsany) :=
  match parseInt featureType with
  | Some type => Some [Some (JNum type); featureId]
  | None => None
  end.

(** [getFeature(featureType, featureId)] *)
Definition getFeature (featureType featureId : jsany) (this : t)
  : option ExtendedFeature.t :=
  match featureKeys featureType featureId with
  | Some values => getItem values (_features this)
  | None => None
  end.

(** A method that mutates the feature which [getFeature] has returned. *)
Definition mutateFeature (f : ExtendedFeature.t → ExtendedFeature.t)
  (featureType featureId : jsany) (this : t) : t :=
  match featureKeys featureType featureId with
  | Some values => set_features (modifyItem f values (_features this)) this
  | None => this
  end.

(** [getAllFeatures()] *)
Definition getAllFeatures (this : t) : list ExtendedFeature.t :=
  getAllItems [None; None] (_features this).

(** [loadFeatures(datasource, insertType, processResult)]; nothing in the
    [try] block throws on these records. *)
Definition loadFeatures (datasource : DataSource.t) (insertType : Z)
  (processResult : ProcessResult.t) (this : t) : t * ProcessResult.t :=
  let this := if insertType =? IAMData.DROPTABLE then _init else this in
  let '(features, counter) :=
    fold_left (λ '(features, counter) feature, (addItem feature features, counter + 1))
      (DataSource.getFeatures datasource) (_features this, 0) in
  (set_features features this,
   ProcessResult.addDetail ProcessResult.INFO
     (pretty counter +:+ getMsg " features successfully loaded into database.")
     processResult).

(** The callback of the [forEach] in [loadFeaturesProperties]. *)
Definition loadFeaturesProperties_step
  (acc : t * ProcessResult.t * Z) (featuresProperty : FeatureProperty.t)
  : t * ProcessResult.t * Z :=
  let '(this, processResult, counter) := acc in
  let foundFeatures :=
    getFeature (FeatureProperty.getFeatureType featuresProperty)
      (FeatureProperty.getFeatureId featuresProperty) this in
  match foundFeatures with
  | None =>
      (this,
       ProcessResult.addDetail ProcessResult.WARN
         (getMsg "WARNING: Property not added as no feature found for featureId/featureType "
          +:+ toString (FeatureProperty.getFeatureId featuresProperty) +:+ "/"
          +:+ toString (FeatureProperty.getFeatureType featuresProperty))
         processResult,
       counter)
  | Some _ =>
      let this := set_featureProperties
                    (addItem featuresProperty (_featureProperties this)) this in
      let this := mutateFeature
                    (ExtendedFeature.addProperty (FeatureProperty.getName featuresProperty)
                       (PValue (FeatureProperty.getValue featuresProperty)))
                    (FeatureProperty.getFeatureType featuresProperty)
                    (FeatureProperty.getFeatureId featuresProperty) this in
      (this, processResult, counter + 1)
  end.

(** [loadFeaturesProperties(datasource, insertType, processResult)] *)
Definition loadFeaturesProperties (datasource : DataSource.t) (insertType : Z)
  (processResult : ProcessResult.t) (this : t) : t * ProcessResult.t :=
  let this :=
    if insertType =? IAMData.DROPTABLE then
      set_features (modifyAll ExtendedFeature.clearProperties (_features this))
        (set_featureProperties (newIAMMapTable 2 _featurePropertiesTableDef) this)
    else this in
  let '(this, processResult, counter) :=
    fold_left loadFeaturesProperties_step
      (DataSource.getFeaturesProperties datasource) (this, processResult, 0) in
  (this,
   ProcessResult.addDetail ProcessResult.INFO
     (pretty counter +:+ getMsg " feature properties successfully loaded into database.")
     processResult).

(** The callback of the [forEach] in [loadFeaturesAttributes]. *)
Definition loadFeaturesAttributes_step
  (acc : t * ProcessResult.t * Z) (featuresAttribute : FeatureAttribute.t)
  : t * ProcessResult.t * Z :=
  let '(this, processResult, counter) := acc in
  let foundFeatures :=
    getFeature (FeatureAttribute.getFeatureType featuresAttribute)
      (FeatureAttribute.getFeatureId featuresAttribute) this in
  match foundFeatures with
  | None =>
      (this,
       ProcessResult.addDetail ProcessResult.WARN
         (getMsg "WARNING: Attribute not added as no feature found for featureId/featureType "
          +:+ toString (FeatureAttribute.getFeatureId featuresAttribute) +:+ "/"
          +:+ toString (FeatureAttribute.getFeatureType featuresAttribute))
         processResult,
       counter)
  | Some _ =>
      let this := set_featureAttributes
                    (addItem featuresAttribute (_featureAttributes this)) this in
      let this := mutateFeature (ExtendedFeature.addAttribute featuresAttribute)
                    (FeatureAttribute.getFeatureType featuresAttribute)
                    (FeatureAttribute.getFeatureId featuresAttribute) this in
      (this, processResult, counter + 1)
  end.

(** [loadFeaturesAttributes(datasource, insertType, processResult)] *)
Definition loadFeaturesAttributes (datasource : DataSource.t) (insertType : Z)
  (processResult : ProcessResult.t) (this : t) : t * ProcessResult.t :=
  let this :=
    if insertType =? IAMData.DROPTABLE then
      set_features (modifyAll ExtendedFeature.clearAttributes (_features this))
        (set_featureAttributes (newIAMMapTable 3 _featureAttributesTableDef) this)
    else this in
  let '(this, processResult, counter) :=
    fold_left loadFeaturesAttributes_step
      (DataSource.getFeaturesAttributes datasource) (this, processResult, 0) in
  (this,
   ProcessResult.addDetail ProcessResult.INFO
     (pretty counter +:+ getMsg " feature attributes successfully loaded into database.")
     processResult).

(** [loadSettings(datasource, insertType, processResult)] *)
Definition loadSettings (datasource : DataSource.t) (insertType : Z)
  (processResult : ProcessResult.t) (this : t) : t * ProcessResult.t :=
  let this :=
    if insertType =? IAMData.DROPTABLE then
      set_featureSettings
        (_initStandardSettings (newIAMMapTable 3 _featureSettingsTableDef)) this
    else this in
  let '(settings, counter) :=
    fold_left (λ '(settings, counter) featuresSettings,
        (addItem featuresSettings settings, counter + 1))
      (DataSource.getFeaturesSettings datasource) (_featureSettings this, 0) in
  (set_featureSettings settings this,
   ProcessResult.addDetail ProcessResult.INFO
     (pretty counter +:+ getMsg " settings successfully loaded into database.")
     processResult).
(** Whether a feature of this type and id is in the features table, which
    is what [if (!foundFeatures)] tests in the two loaders above. *)
Definition featurePresent (featureType featureId : jsany) (this : t) : bool :=
  match getFeature featureType featureId this with
  | Some _ => true
  | None => false
  end.

(** The detail that [loadFeaturesProperties] adds for a property without
    feature, and the one of [loadFeaturesAttributes]. *)
Definition propertyWarning (featuresProperty : FeatureProperty.t) : string :=
  getMsg "WARNING: Property not added as no feature found for featureId/featureType "
  +:+ toString (FeatureProperty.getFeatureId featuresProperty) +:+ "/"
  +:+ toString (FeatureProperty.getFeatureType featuresProperty).

Definition attributeWarning (featuresAttribute : FeatureAttribute.t) : string :=
  getMsg "WARNING: Attribute not added as no feature found for featureId/featureType "
  +:+ toString (FeatureAttribute.getFeatureId featuresAttribute) +:+ "/"
  +:+ toString (FeatureAttribute.getFeatureType featuresAttribute).

(** [getAllSettings()] *)
Definition getAllSettings (this : t) : list FeatureSettings.t :=
  getAllItems [None; None; None; None] (_featureSettings this).

(** [getStandardSettings(featureType)]: the first hit, or undefined. *)
Definition getStandardSettings (featureType : jsany) (this : t)
  : option FeatureSettings.t :=
  head (getAllItems
          [Some (λ x, parseInt_eq x featureType);
           Some (λ x, bool_decide (parseInt x = Some FeatureSettings.LEVEL_STANDARD));
           None;
           None]
          (_featureSettings this)).

(** [getSettings(featureType, levelType, levelName, levelValue)] *)
Definition getSettings (featureType levelType levelName levelValue : jsany) (this : t)
  : list FeatureSettings.t :=
  getAllItems
    [Some (λ x, parseInt_eq x featureType);
     Some (λ x, parseInt_eq x levelType);
     Some (λ x, if truthy levelName then strict_eq x levelName else true);
     Some (λ x, if truthy levelValue then strict_eq x levelValue else true)]
    (_featureSettings this).







(** [getMinLongitude()] and [getMinLatitude()] *)
Definition getMinLongitude (this : t) : num :=
  getMinOfArray (ExtendedFeature.getMinLongitude <$> getAllFeatures this).

Definition getMinLatitude (this : t) : num :=
  getMinOfArray (ExtendedFeature.getMinLatitude <$> getAllFeatures this).

(** The [years] of [getAttributesMinimumYear] and [getAttributesMaximumYear]. *)
Definition attributeYears (this : t) : list jsany :=
  FeatureAttribute.getFromYear <$>
    getAllItems [None; None; None; None] (_featureAttributes this).

(** [getAttributesMinimumYear()].  The statement
    [(new Date()).getFullYear();] of the branch [years.length === 0] computes
    a value and drops it: both branches go on to the [return]. *)
Definition getAttributesMinimumYear (this : t) : jsany :=
  let years := attributeYears this in
  mjoin (head (Array_sort_any
                 (λ year1 year2, num_sub (toNumber (Some year1)) (toNumber (Some year2)))
                 years)).

(** [getAttributesMaximumYear()] *)
Definition getAttributesMaximumYear (this : t) : jsany :=
  let years := attributeYears this in
  mjoin (head (Array_sort_any
                 (λ year1 year2, num_sub (toNumber (Some year2)) (toNumber (Some year1)))
                 years)).

(** The object that [getSettingsAsObject] returns. *)
Record SettingsObject : Type := mkSettingsObject {
  _iam_MapSettings : option (gmap string jsval);
  _iam_FeatureSettings : list FeatureSettings.t
}.

(** [getSettingsAsObject(mapSettings)]: the settings are pushed inside
    [if (mapSettings)]. *)
Definition getSettingsAsObject (mapSettings : option (gmap string jsval)) (this : t)
  : SettingsObject :=
  match mapSettings with
  | Some settings =>
      {| _iam_MapSettings := Some settings;
         _iam_FeatureSettings := [] ++ getAllSettings this |}
  | None =>
      {| _iam_MapSettings := None; _iam_FeatureSettings := [] |}
  end.

(** The object that [toGeoJSON] serializes. *)
Record FeatureCollection : Type := mkFeatureCollection {
  fc_type : string;
  fc_features : list GeoJSONFeature
}.

(** The feature that carries the settings in [toGeoJSON]. *)
Definition settingsHelper (mapSettings : option (gmap string jsval)) (this : t)
  : ExtendedFeature.t :=
  let helper :=
    ExtendedFeature.new (Some (JNum FeatureType.POINT)) (Some (JStr "_iam_Settings"))
      (PointCoordinates [getMinLongitude this; getMinLatitude this]) in
  let helper :=
    ExtendedFeature.addProperty (Some (JStr "_iam_FeatureSettings"))
      (PFeatureSettings (_iam_FeatureSettings (getSettingsAsObject mapSettings this)))
      helper in
  match mapSettings with
  | Some settings =>
      ExtendedFeature.addProperty (Some (JStr "_iam_MapSettings")) (PMapSettings settings)
        helper
  | None => helper
  end.

(** [toGeoJSON(addProperties, addAttributes, addSettings, mapSettings)],
    up to the final [JSON.stringify]. *)
Definition toGeoJSON (addProperties addAttributes addSettings : bool)
  (mapSettings : option (gmap string jsval)) (this : t) : FeatureCollection :=
  let features :=
    ExtendedFeature.toGeoJSON addProperties addAttributes <$> getAllFeatures this in
  {| fc_type := "FeatureCollection";
     fc_features :=
       if addSettings
       then features ++ [ExtendedFeature.toGeoJSON true false (settingsHelper mapSettings this)]
       else features |}.
End IAMStorage.

(** ** The CSV adapters (iamDataCollections) *)

Module CSV.

(** The [opts] of [_parseCsv]. *)
Record Options : Type := mkOptions {
  delimiter : option ascii;
  headers : bool;
  headerTemplate : option (list string)
}.

(** An exception inside the [try] block of [_parseCsv], with its message. *)
Definition TypeError_header : string :=
  "Cannot read properties of undefined (reading 'length')".

(** [_checkHeader(header, headerTemplate, processResult)]; [header] is
    undefined for an empty file. *)
Definition _checkHeader (header : option (list string))
  (headerTemplate : option (list string)) (processResult : ProcessResult.t)
  : result ProcessResult.t :=
  match headerTemplate with
  | Some template =>
      match header with
      | None => Throw TypeError_header
      | Some header =>
          if (length header <? length template)%nat then
            Throw (getMsg "File must have at least " +:+ pretty (length template)
                   +:+ getMsg " columns in csv format")
          else
            Ok (fold_left (λ processResult '(index, element),
                    if strict_eq (Some (JStr element)) (JStr <$> header !! index) then
                      processResult
                    else
                      ProcessResult.addDetail ProcessResult.WARN
                        (getMsg "WARNING: colum " +:+ pretty index
                         +:+ getMsg " should be named " +:+ element
                         +:+ getMsg ". Instead found "
                         +:+ toString (JStr <$> header !! index))
                        processResult)
                  (imap (λ index element, (index, element)) template) processResult)
      end
  | None => Ok processResult
  end.

(** The variables of the character loop. *)
Record LoopState : Type := mkLoopState {
  arr : list (list string);
  row : nat;
  col : nat;
  quote : bool
}.

(** [arr[row] = arr[row] || []; arr[row][col] = arr[row][col] || ''].
    [row] and [col] are at most one past the end, so that no hole arises. *)
Definition touch (st : LoopState) : list (list string) :=
  let arr1 := if (row st <? length (arr st))%nat then arr st else arr st ++ [[]] in
  alter (λ cells, if (col st <? length cells)%nat then cells else cells ++ [""])
    (row st) arr1.

(** [arr[row][col] += cc] *)
Definition append (cc : ascii) (row col : nat) (arr : list (list string))
  : list (list string) :=
  alter (alter (λ cell, cell +:+ String cc "") col) row arr.

(** One turn of the loop on the character [cc] followed by [nc]; the
    boolean tells whether the turn skips the next character ([++c]). *)
Definition loopStep (delimiter : ascii) (cc : ascii) (nc : option ascii)
  (st : LoopState) : LoopState * bool :=
  let arr := touch st in
  let dquote : ascii := "034"%char in
  let CR : ascii := "013"%char in
  let LF : ascii := "010"%char in
  if Ascii.eqb cc dquote && quote st && bool_decide (nc = Some dquote) then
    (mkLoopState (append cc (row st) (col st) arr) (row st) (col st) (quote st), true)
  else if Ascii.eqb cc dquote then
    (mkLoopState arr (row st) (col st) (negb (quote st)), false)
  else if Ascii.eqb cc delimiter && negb (quote st) then
    (mkLoopState arr (row st) (S (col st)) (quote st), false)
  else if Ascii.eqb cc CR && bool_decide (nc = Some LF) && negb (quote st) then
    (mkLoopState arr (S (row st)) 0 (quote st), true)
  else if Ascii.eqb cc LF && negb (quote st) then
    (mkLoopState arr (S (row st)) 0 (quote st), false)
  else if Ascii.eqb cc CR && negb (quote st) then
    (mkLoopState arr (S (row st)) 0 (quote st), false)
  else
    (mkLoopState (append cc (row st) (col st) arr) (row st) (col st) (quote st), false).

(** The loop over the characters of [rawData]. *)
Fixpoint parseLoop (delimiter : ascii) (rawData : list ascii) (st : LoopState)
  : list (list string) :=
  match rawData with
  | [] => arr st
  | cc :: rest =>
      let '(st', skip) := loopStep delimiter cc (head rest) st in
      if skip then
        match rest with
        | [] => arr st'
        | _ :: rest' => parseLoop delimiter rest' st'
        end
      else parseLoop delimiter rest st'
  end.

(** What [_parseCsv] returns without an exception: with headers one object
    per row, keyed by the names in the header row of the file, otherwise the
    rows. *)
Inductive Parsed : Type :=
  | Objects (rows : list (gmap string string))
  | Rows (arr : list (list string)).

(** The callback of [r.reduce] on the cell [v] at index [i]. *)
Definition reduceCell
  (checkContent : option (jsany → string → ProcessResult.t → bool * ProcessResult.t))
  (header : list string)
  (state : gmap string string * ProcessResult.t) (cell : nat * string)
  : gmap string string * ProcessResult.t :=
  let '(acc, processResult) := state in
  let '(i, v) := cell in
  let key := JStr <$> header !! i in
  if negb (String.eqb v "") then
    match checkContent with
    | Some check =>
        let '(ok, processResult) := check key v processResult in
        if ok then (<[toString key := v]> acc, processResult) else (acc, processResult)
    | None => (acc, processResult)
    end
  else (acc, processResult).

(** The first part of [_parseCsv]: the delimiter, then the loop that fills
    [arr]. *)
Definition parseArr (rawData : string) (opts : Options) : list (list string) :=
  let chars := list_ascii_of_string rawData in
  let delimiter :=
    match delimiter opts with
    | Some d => d
    | None => if bool_decide (";"%char ∈ chars) then ";"%char else ","%char
    end in
  parseLoop delimiter chars (mkLoopState [] 0 0 false).

(** The [catch] block of [_parseCsv] on an exception with the given
    message. *)
Definition catchBlock (message : string) (processResult : ProcessResult.t)
  : ProcessResult.t :=
  ProcessResult.addDetail ProcessResult.WARN message
    (ProcessResult.mk (ProcessResult.status processResult)
       (getMsg "File has no valid format. No data was loaded.")
       (ProcessResult.details processResult)).

(** [_parseCsv(rawData, opts, processResult, checkContent)]: the parse
    result ([None] is the [null] of the [catch] block) and the process
    result as the call leaves it. *)
Definition _parseCsv (rawData : string) (opts : Options)
  (processResult : ProcessResult.t)
  (checkContent : option (jsany → string → ProcessResult.t → bool * ProcessResult.t))
  : option Parsed * ProcessResult.t :=
  let arr := parseArr rawData opts in
  if headers opts then
    let header := head arr in
    match _checkHeader header (headerTemplate opts) processResult with
    | Throw message => (None, catchBlock message processResult)
    | Ok processResult =>
        let rest := drop 1 arr in
        let '(ret, processResult) :=
          fold_left (λ '(ret, processResult) r,
              let '(acc, processResult) :=
                fold_left (reduceCell checkContent (default [] header))
                  (imap (λ i v, (i, v)) r) (∅, processResult) in
              (ret ++ [acc], processResult))
            rest ([], processResult) in
        (Some (Objects ret), processResult)
    end
  else (Some (Rows arr), processResult).

(** The [checkContent] of [_loadFeatureAttributes]. *)
Definition checkAttributeContent (key : jsany) (value : string) (msg : ProcessResult.t)
  : bool * ProcessResult.t :=
  if strict_eq key (Some (JStr "feature")) then
    if negb (String.eqb value "Point") && negb (String.eqb value "LineString")
       && negb (String.eqb value "Polygon")
    then (false,
          ProcessResult.addDetail ProcessResult.WARN
            (getMsg "WARNING: value of column 'feature' should be either 'Point', 'LineString' or 'Polygon'. Instead found '"
             +:+ value +:+ getMsg "'. Row will be ignored!") msg)
    else (true, msg)
  else if strict_eq key (Some (JStr "fromYear")) then
    match parseInt_string value with
    | None =>
        (false,
         ProcessResult.addDetail ProcessResult.WARN
           (getMsg "WARNING: value of column 'fromYear' has to be a valid integer number. Instead found '"
            +:+ value +:+ getMsg "'. Value will be ignored!") msg)
    | Some _ => (true, msg)
    end
  else if strict_eq key (Some (JStr "toYear")) then
    match parseInt_string value with
    | None =>
        (false,
         ProcessResult.addDetail ProcessResult.WARN
           (getMsg "WARNING: value of column 'toYear' has to be a valid integer number. Instead found '"
            +:+ value +:+ getMsg "'. Value will be ignored!") msg)
    | Some _ => (true, msg)
    end
  else (true, msg).

Definition attributesHeaderTemplate : list string :=
  ["feature"; "featureId"; "propertyName"; "propertyValue"; "fromYear"; "fromMonth";
   "fromDay"; "toYear"; "toMonth"; "toDay"].

(** The [opts] that [_loadFeatureAttributes] passes. *)
Definition attributesOptions : Options :=
  mkOptions None true (Some attributesHeaderTemplate).

(** The feature type that both adapters derive from the column [feature]. *)
Definition featureTypeOf (row : gmap string string) : jsany :=
  if bool_decide (row !! "feature" = Some "Point") then Some (JNum FeatureType.POINT)
  else if bool_decide (row !! "feature" = Some "LineString")
       then Some (JNum FeatureType.LINESTRING)
       else Some (JNum FeatureType.POLYGON).

(** [new FeatureAttribute(attribute)] on a row object. *)
Definition attributeOfRow (attribute : gmap string string) : FeatureAttribute.t :=
  {| FeatureAttribute.featureType := featureTypeOf attribute;
     FeatureAttribute._featureId := JStr <$> attribute !! "featureId";
     FeatureAttribute._propertyName := JStr <$> attribute !! "propertyName";
     FeatureAttribute._propertyValue := JStr <$> attribute !! "propertyValue";
     FeatureAttribute._fromYear := JStr <$> attribute !! "fromYear";
     FeatureAttribute._fromMonth := JStr <$> attribute !! "fromMonth";
     FeatureAttribute._fromDay := JStr <$> attribute !! "fromDay";
     FeatureAttribute._toYear := JStr <$> attribute !! "toYear";
     FeatureAttribute._toMonth := JStr <$> attribute !! "toMonth";
     FeatureAttribute._toDay := JStr <$> attribute !! "toDay" |}.

(** An exception that leaves the constructor of an adapter. *)
Definition TypeError_forEach : string :=
  "Cannot read properties of null (reading 'forEach')".

(** [new FeatureAttributesCSVDataSource(rawData, processResult)]: the data
    source, or the exception that the constructor lets through, and the
    process result as the call leaves it. *)
Definition FeatureAttributesCSVDataSource (rawData : string)
  (processResult : ProcessResult.t) : result DataSource.t * ProcessResult.t :=
  let '(parseResult, processResult) :=
    _parseCsv rawData attributesOptions processResult (Some checkAttributeContent) in
  match parseResult with
  | None => (Throw TypeError_forEach, processResult)
  | Some (Objects rows) =>
      (Ok {| DataSource._features := [];
             DataSource._featuresProperties := [];
             DataSource._featuresAttributes := attributeOfRow <$> rows;
             DataSource._featuresSettings := [];
             DataSource._mapSettings := None |},
       processResult)
  | Some (Rows _) => (Ok DataSource.new, processResult)
  end.

(** The [checkContent] of [_loadFeatureProperties]. *)
Definition checkPropertyContent (key : jsany) (value : string) (msg : ProcessResult.t)
  : bool * ProcessResult.t :=
  if strict_eq key (Some (JStr "feature")) then
    if negb (String.eqb value "Point") && negb (String.eqb value "LineString")
       && negb (String.eqb value "Polygon")
    then (false,
          ProcessResult.addDetail ProcessResult.WARN
            (getMsg "WARNING: value of column 'feature' should be either 'Point', 'LineString' or 'Polygon'. Instead found '"
             +:+ value +:+ getMsg "'. Row will be ignored!") msg)
    else (true, msg)
  else (true, msg).

Definition propertiesHeaderTemplate : list string :=
  ["feature"; "featureId"; "propertyName1"; "propertyValue1"].

(** The [opts] that [_loadFeatureProperties] passes. *)
Definition propertiesOptions : Options :=
  mkOptions None true (Some propertiesHeaderTemplate).

(** The [for] loop of [_loadFeatureProperties] over [i = 1 .. 9], which
    [i = 10] ends at the first missing or empty name or value; [fuel] counts
    the turns that are left. *)
Fixpoint propertiesOfRow (fuel : nat) (i : nat) (property : gmap string string)
  : list FeatureProperty.t :=
  match fuel with
  | O => []
  | S fuel' =>
      match property !! ("propertyName" +:+ pretty i),
            property !! ("propertyValue" +:+ pretty i) with
      | Some name, Some value =>
          if negb (String.eqb name "") && negb (String.eqb value "") then
            {| FeatureProperty.featureType := featureTypeOf property;
               FeatureProperty._featureId := JStr <$> property !! "featureId";
               FeatureProperty._propertyName := Some (JStr name);
               FeatureProperty._propertyValue := Some (JStr value) |}
            :: propertiesOfRow fuel' (S i) property
          else []
      | _, _ => []
      end
  end.

(** [new FeaturePropertiesCSVDataSource(rawData, processResult)] *)
Definition FeaturePropertiesCSVDataSource (rawData : string)
  (processResult : ProcessResult.t) : result DataSource.t * ProcessResult.t :=
  let '(parseResult, processResult) :=
    _parseCsv rawData propertiesOptions processResult (Some checkPropertyContent) in
  match parseResult with
  | None => (Throw TypeError_forEach, processResult)
  | Some (Objects rows) =>
      (Ok {| DataSource._features := [];
             DataSource._featuresProperties := rows ≫= propertiesOfRow 9 1;
             DataSource._featuresAttributes := [];
             DataSource._featuresSettings := [];
             DataSource._mapSettings := None |},
       processResult)
  | Some (Rows _) => (Ok DataSource.new, processResult)
  end.

End CSV.

(** Two tuples of keys agree on the levels [0 .. d] of a table. *)
Definition sameKeys (d : nat) (p q : nat → jsany) : Prop :=
  Forall (λ i, p i = q i) (seq 0 (S d)).

#[global] Instance sameKeys_dec d p q : Decision (sameKeys d p q).
Proof. unfold sameKeys. apply _. Defined.

(** ** Tables reached by insertions *)

(** The table after the calls [addItem(item)] for the items of an array, in
    order, on a new table. *)
Definition tableOf `{TableRecord R} (d : nat) (primaryKeys : list string)
  (items : list R) : IAMMapTable R d :=
  fold_left (λ table item, addItem item table) items (newIAMMapTable d primaryKeys).

(** What the [equals] methods of the record classes have in common: they
    compare fields with [===], so that [equals] is symmetric and
    transitive. *)
Class LawfulEquals (R : Type) `{TableRecord R} : Prop := {
  equals_sym : ∀ a b : R, equals a b = equals b a;
  equals_trans : ∀ a b c : R, equals a b = true → equals b c = true → equals a c = true
}.

(** No two records of the array, at different positions, are equal. *)
Definition pairwiseDistinct `{TableRecord R} (found : list R) : Prop :=
  ∀ i j a b, i ≠ j → found !! i = Some a → found !! j = Some b → equals a b = false.

(** A position of a terminal list that the filters let through, seen from
    level [index] of the table: [key] is an index of an array that stands
    under keys accepted by the filters of their levels, and the filter of the
    level below the keys accepts [key]. *)
Definition acceptedIndex {R} (filters : list keyFilter) (d index : nat) (map : MapN R d)
  (key : jsany) : Prop :=
  ∃ path found i,
    _getArray path d index map = Some found ∧ (i < length found)%nat ∧
    key = Some (JNum (Z.of_nat i)) ∧
    (∀ j, (index ≤ j ≤ index + d)%nat → accepts filters j (path j) = true) ∧
    accepts filters (index + S d) key = true.

(** The same for a table: the positions that [getAllKeys] reaches when the
    filter array is longer than the primary keys. *)
Definition acceptedPosition {R d} (filters : list keyFilter) (t : IAMMapTable R d)
  (key : jsany) : Prop :=
  ∃ path found i,
    getArray path t = Some found ∧ (i < length found)%nat ∧
    key = Some (JNum (Z.of_nat i)) ∧
    (∀ j, (j ≤ d)%nat → accepts filters j (path j) = true) ∧
    accepts filters (S d) key = true.

(** ** The states of the storage *)

(** A call that changes the storage. *)
Inductive Operation : Type :=
  | AddSetting (featuresSettings : FeatureSettings.t)
  | LoadFeatures (datasource : DataSource.t) (insertType : Z)
      (processResult : ProcessResult.t)
  | LoadFeaturesProperties (datasource : DataSource.t) (insertType : Z)
      (processResult : ProcessResult.t)
  | LoadFeaturesAttributes (datasource : DataSource.t) (insertType : Z)
      (processResult : ProcessResult.t)
  | LoadSettings (datasource : DataSource.t) (insertType : Z)
      (processResult : ProcessResult.t).

Definition perform (operation : Operation) (this : IAMStorage.t) : IAMStorage.t :=
  match operation with
  | AddSetting featuresSettings => IAMStorage.addSetting featuresSettings this
  | LoadFeatures datasource insertType processResult =>
      (IAMStorage.loadFeatures datasource insertType processResult this).1
  | LoadFeaturesProperties datasource insertType processResult =>
      (IAMStorage.loadFeaturesProperties datasource insertType processResult this).1
  | LoadFeaturesAttributes datasource insertType processResult =>
      (IAMStorage.loadFeaturesAttributes datasource insertType processResult this).1
  | LoadSettings datasource insertType processResult =>
      (IAMStorage.loadSettings datasource insertType processResult this).1
  end.

(** The storage after [new IAMStorage()] and the given calls, in order. *)
Definition stateAfter (operations : list Operation) : IAMStorage.t :=
  fold_left (λ this operation, perform operation this) operations IAMStorage.new.

(** The identity of the standard setting of a feature type:
    (type, LEVEL_STANDARD, 'Standard', ''). *)
Definition standardKeys (featureType : Z) : nat → jsany :=
  keysAt [Some (JNum featureType); Some (JNum FeatureSettings.LEVEL_STANDARD);
          Some (JStr "Standard"); Some (JStr "")].

(** The settings table holds one record under the identity of the standard
    setting of the type, which carries that identity, and
    [getStandardSettings] finds a standard setting for the type. *)
Definition hasStandardSetting (featureType : Z) (this : IAMStorage.t) : Prop :=
  (∃ setting,
     getArray (standardKeys featureType) (IAMStorage._featureSettings this)
     = Some [setting] ∧
     FeatureSettings.getFeatureType setting = Some (JNum featureType) ∧
     FeatureSettings.getLevelType setting = Some (JNum FeatureSettings.LEVEL_STANDARD) ∧
     FeatureSettings.getLevelName setting = Some (JStr "Standard") ∧
     FeatureSettings.getLevelValue setting = Some (JStr "")) ∧
  is_Some (IAMStorage.getStandardSettings (Some (JNum featureType)) this).

(** What every call keeps true of the settings table: it has the four
    primary keys of the storage, and under the identity of the standard
    setting of the type it holds one record, which carries that identity. *)
Definition standardSlot (featureType : Z) (table : IAMMapTable FeatureSettings.t 3)
  : Prop :=
  _primaryKeys table = IAMStorage._featureSettingsTableDef ∧
  ∃ setting,
    getArray (standardKeys featureType) table = Some [setting] ∧
    sameKeys 3 (keysOf IAMStorage._featureSettingsTableDef setting)
      (standardKeys featureType).

(** ** The resolution of settings, in the words of the specification

    The definitions of this section follow the description of
    [getSettingsOfFeature], not its code; the two are compared below. *)



















(** ** A storage with one town

    The town [T1], the attributes given, and for points the setting of the
    attribute value [status = capital], which shows the text. *)

Definition town : ExtendedFeature.t :=
  ExtendedFeature.new (Some (JNum FeatureType.POINT)) (Some (JStr "T1"))
    (PointCoordinates [Finite (10 # 1); Finite (50 # 1)]).

Definition statusOfTown (value : string) (fromYear toYear : jsany) : FeatureAttribute.t :=
  {| FeatureAttribute.featureType := Some (JNum FeatureType.POINT);
     FeatureAttribute._featureId := Some (JStr "T1");
     FeatureAttribute._propertyName := Some (JStr "status");
     FeatureAttribute._propertyValue := Some (JStr value);
     FeatureAttribute._fromYear := fromYear;
     FeatureAttribute._fromMonth := None;
     FeatureAttribute._fromDay := None;
     FeatureAttribute._toYear := toYear;
     FeatureAttribute._toMonth := None;
     FeatureAttribute._toDay := None |}.

Definition capitalSettings : FeatureSettings.t :=
  PointSettings.new
    (FeatureSettings.params
       {[ "levelType" := JNum FeatureSettings.LEVEL_ATTRIBUTE;
          "levelName" := JStr "status";
          "levelValue" := JStr "capital";
          "showText" := JBool true ]}).


Definition townStorage (attributes : list FeatureAttribute.t) : IAMStorage.t :=
  stateAfter
    [LoadFeatures
       {| DataSource._features := [town]; DataSource._featuresProperties := [];
          DataSource._featuresAttributes := []; DataSource._featuresSettings := [];
          DataSource._mapSettings := None |}
       IAMData.OVERWRITE (ProcessResult.new ProcessResult.INFO "features");
     LoadFeaturesAttributes
       {| DataSource._features := []; DataSource._featuresProperties := [];
          DataSource._featuresAttributes := attributes;
          DataSource._featuresSettings := []; DataSource._mapSettings := None |}
       IAMData.OVERWRITE (ProcessResult.new ProcessResult.INFO "attributes");
     AddSetting capitalSettings].

(** The town as the storage holds it after the load of its attributes. *)
Definition townWith (attributes : list FeatureAttribute.t) : ExtendedFeature.t :=
  {| ExtendedFeature.featureType := ExtendedFeature.featureType town;
     ExtendedFeature._id := ExtendedFeature._id town;
     ExtendedFeature._coordinates := ExtendedFeature._coordinates town;
     ExtendedFeature._properties := ExtendedFeature._properties town;
     ExtendedFeature._attributes := attributes |}.

(** ** A table read off the history of its insertions

    What a linear scan over the inserted records, in the order of insertion,
    finds; the queries of a table are compared with these scans below. *)

(** The record that stands first under the keys [path]: the first record
    inserted under them, replaced by every later record under them that the
    one standing first [equals]. *)
Definition firstUnder `{TableRecord R} (d : nat) (primaryKeys : list string)
  (path : nat → jsany) (items : list R) : option R :=
  fold_left (λ first item,
      if decide (sameKeys d (keysOf primaryKeys item) path) then
        match first with
        | Some stored => if equals stored item then Some item else Some stored
        | None => Some item
        end
      else first) items None.

(** The record has the key values [values] on the first levels. *)
Definition hasPrefix `{TableRecord R} (primaryKeys : list string) (values : list jsany)
  (item : R) : bool :=
  forallb (λ index, strict_eq (keyOf primaryKeys index item) (keysAt values index))
    (seq 0 (length values)).

(** ** IAMStorage: further queries *)

(** [getAllFeaturesWithType(featureType)] *)
Definition getAllFeaturesWithType (featureType : jsany) (this : IAMStorage.t)
  : list ExtendedFeature.t :=
  getAllItems [Some (λ x, parseInt_eq x featureType); None] (IAMStorage._features this).

(** [getAllPropertyNames(featureType)] *)
Definition getAllPropertyNames (featureType : jsany) (this : IAMStorage.t)
  : result (list jsany) :=
  getAllKeys [Some (λ x, parseInt_eq x featureType); None; None]
    (IAMStorage._featureProperties this).

(** [getAllAttributeNames(featureType)] *)
Definition getAllAttributeNames (featureType : jsany) (this : IAMStorage.t)
  : result (list jsany) :=
  getAllKeys [Some (λ x, parseInt_eq x featureType); None; None]
    (IAMStorage._featureAttributes this).

(** [getAllAttributeValues(featureType, attributeName)] *)
Definition getAllAttributeValues (featureType attributeName : jsany)
  (this : IAMStorage.t) : result (list jsany) :=
  getAllKeys [Some (λ x, parseInt_eq x featureType); None;
              Some (λ x, strict_eq x attributeName); None]
    (IAMStorage._featureAttributes this).

(** The tables of attributes, properties and settings hold what insertions
    have put there: no call changes them in another way than by [addItem]
    or by starting a new table. *)
Definition tablesBuilt (this : IAMStorage.t) : Prop :=
  (∃ items, IAMStorage._featureAttributes this
            = tableOf 3 IAMStorage._featureAttributesTableDef items) ∧
  (∃ items, IAMStorage._featureProperties this
            = tableOf 2 IAMStorage._featurePropertiesTableDef items) ∧
  (∃ items, IAMStorage._featureSettings this
            = tableOf 3 IAMStorage._featureSettingsTableDef items).

(** ** Feature: the upper side of the bounding box *)

Module Feature.
(** [getMaxLongitude()] and [getMaxLatitude()] of class Feature, as
    [ExtendedFeature.getMin] models [getMinLongitude()] and
    [getMinLatitude()]. *)
Definition getMax (axis : nat) (this : ExtendedFeature.t) : option num :=
  if strict_eq (ExtendedFeature.getType this) (Some (JNum FeatureType.LINESTRING)) then
    match ExtendedFeature._coordinates this with
    | LineStringCoordinates positions =>
        Some (getMaxOfArray ((λ val, val !! axis) <$> positions))
    | _ => None
    end
  else if strict_eq (ExtendedFeature.getType this) (Some (JNum FeatureType.POLYGON)) then
    match ExtendedFeature.getCoordinates this with
    | PolygonCoordinates rings =>
        let maxs := (λ array, Some (getMaxOfArray ((λ val : list num, val !! axis) <$> array)))
                      <$> rings in
        Some (getMaxOfArray maxs)
    | _ => None
    end
  else
    match ExtendedFeature._coordinates this with
    | PointCoordinates position => position !! axis
    | _ => None
    end.

Definition getMaxLongitude (this : ExtendedFeature.t) : option num := getMax 0 this.
Definition getMaxLatitude (this : ExtendedFeature.t) : option num := getMax 1 this.
End Feature.

(** [getMaxLongitude()] and [getMaxLatitude()] of IAMStorage. *)
Definition getMaxLongitude (this : IAMStorage.t) : num :=
  getMaxOfArray (Feature.getMaxLongitude <$> IAMStorage.getAllFeatures this).

Definition getMaxLatitude (this : IAMStorage.t) : num :=
  getMaxOfArray (Feature.getMaxLatitude <$> IAMStorage.getAllFeatures this).

(** [a <= b] on numbers that are no NaN: not [b < a]. *)
Definition num_le (a b : num) : bool := negb (num_lt b a).

(** ** Color: the hexadecimal notation *)

(** [parseInt(s, 16)] on a string: white space, an optional sign, an
    optional prefix [0x], then the longest run of hexadecimal digits. *)
Definition parseInt16 (s : string) : option Z :=
  let unsigned (s : string) :=
    match s with
    | String "0"%char (String "x"%char s') => read_digits 16 None s'
    | String "0"%char (String "X"%char s') => read_digits 16 None s'
    | _ => read_digits 16 None s
    end in
  match skip_space s with
  | String "-"%char s' => Z.opp <$> unsigned s'
  | String "+"%char s' => unsigned s'
  | s' => unsigned s'
  end.

(** The digit of a value below 16, as [toString(16)] writes it. *)
Definition hexDigit (d : Z) : ascii :=
  if d <? 10 then ascii_of_nat (Z.to_nat (48 + d)) else ascii_of_nat (Z.to_nat (87 + d)).

(** The digits of [n > 0] to the base 16 in front of [acc]; every turn
    divides [n] by 16, so [fuel] above [n] is never used up. *)
Fixpoint hexDigits (fuel : nat) (n : Z) (acc : string) : string :=
  match fuel with
  | O => acc
  | S fuel' =>
      if n <=? 0 then acc
      else hexDigits fuel' (n / 16) (String (hexDigit (n mod 16)) acc)
  end.

(** [Number(n).toString(16)] on an integer. *)
Definition toString16 (n : Z) : string :=
  if n =? 0 then "0"
  else if n <? 0 then String "-"%char (hexDigits (S (Z.to_nat (- n))) (- n) "")
  else hexDigits (S (Z.to_nat n)) n "".

(** [toUpperCase()] on the characters that [toString(16)] writes. *)
Fixpoint toUpperCase (s : string) : string :=
  match s with
  | String c s' =>
      let n := nat_of_ascii c in
      String (if (97 <=? n)%nat && (n <=? 122)%nat then ascii_of_nat (n - 32) else c)
        (toUpperCase s')
  | EmptyString => EmptyString
  end.

(** [_numberToHex(number)] *)
Definition _numberToHex (number : Z) : string :=
  let a := toUpperCase (toString16 number) in
  if (0 <? String.length a mod 2)%nat then String "0"%char a else a.

(** [toCSSHex()] *)
Definition toCSSHex (this : Color.t) : string :=
  "#" +:+ _numberToHex (Color.r this) +:+ _numberToHex (Color.g this)
  +:+ _numberToHex (Color.b this).

(** [_setColorValueFromHex(hex)]: the values that it stores in [r], [g]
    and [b]; [hex.substring(from, to)] is [substring from (to - from) hex]. *)
Definition _setColorValueFromHex (hex : string) : option Z * option Z * option Z :=
  (parseInt16 (substring 1 2 hex), parseInt16 (substring 3 2 hex),
   parseInt16 (substring 5 2 hex)).

(** ** CSV texts

    The text of a table of cells, to compare the parser with: the cells of a
    row joined by the delimiter, every row ended by a line feed. *)

Definition csvRow (delimiter : ascii) (cells : list string) : list ascii :=
  match cells with
  | [] => []
  | cell :: cells' =>
      list_ascii_of_string cell
      ++ (cells' ≫= λ cell', delimiter :: list_ascii_of_string cell')
  end.

Definition csvText (delimiter : ascii) (rows : list (list string)) : string :=
  string_of_list_ascii (rows ≫= λ row, csvRow delimiter row ++ ["010"%char]).

(** A cell that needs no quotes: it has no quotation mark, comma, semicolon,
    carriage return or line feed. *)
Definition plainCell (cell : string) : Prop :=
  Forall (λ c, c ∉ ["034"%char; ","%char; ";"%char; "013"%char; "010"%char])
    (list_ascii_of_string cell).

#[global] Instance plainCell_dec (cell : string) : Decision (plainCell cell).
Proof. unfold plainCell. apply _. Defined.

(** ** The attributes of a CSV file, row by row

    What the adapter makes of one row of cells, written out cell by cell, to
    compare [FeatureAttributesCSVDataSource] with. *)

(** The cell [i] of a row as the adapter keeps it: undefined when the row
    has no such cell, when the cell is empty and when its content is not
    valid for the column. *)
Definition keptCell (cells : list string) (i : nat) (valid : string → bool) : jsany :=
  match cells !! i with
  | Some v => if negb (String.eqb v "") && valid v then Some (JStr v) else None
  | None => None
  end.

Definition isFeatureName (v : string) : bool :=
  String.eqb v "Point" || String.eqb v "LineString" || String.eqb v "Polygon".

Definition isYear (v : string) : bool :=
  match parseInt_string v with
  | Some _ => true
  | None => false
  end.

Definition attributeOfCells (cells : list string) : FeatureAttribute.t :=
  {| FeatureAttribute.featureType :=
       if bool_decide (keptCell cells 0 isFeatureName = Some (JStr "Point"))
       then Some (JNum FeatureType.POINT)
       else if bool_decide (keptCell cells 0 isFeatureName = Some (JStr "LineString"))
            then Some (JNum FeatureType.LINESTRING)
            else Some (JNum FeatureType.POLYGON);
     FeatureAttribute._featureId := keptCell cells 1 (λ _, true);
     FeatureAttribute._propertyName := keptCell cells 2 (λ _, true);
     FeatureAttribute._propertyValue := keptCell cells 3 (λ _, true);
     FeatureAttribute._fromYear := keptCell cells 4 isYear;
     FeatureAttribute._fromMonth := keptCell cells 5 (λ _, true);
     FeatureAttribute._fromDay := keptCell cells 6 (λ _, true);
     FeatureAttribute._toYear := keptCell cells 7 isYear;
     FeatureAttribute._toMonth := keptCell cells 8 (λ _, true);
     FeatureAttribute._toDay := keptCell cells 9 (λ _, true) |}.

(** The object that [r.reduce] builds from the cells of a row, the process
    result left aside. *)
Definition cellsObject (header : list string) (valid : jsany → string → bool)
  (cells : list (nat * string)) (acc : gmap string string) : gmap string string :=
  fold_left (λ acc '(i, v),
      if negb (String.eqb v "") && valid (JStr <$> header !! i) v
      then <[toString (JStr <$> header !! i) := v]> acc
      else acc) cells acc.

(** What [checkContent] of the attributes adapter answers. *)
Definition validAttributeCell (key : jsany) (v : string) : bool :=
  if strict_eq key (Some (JStr "feature")) then isFeatureName v
  else if strict_eq key (Some (JStr "fromYear")) then isYear v
  else if strict_eq key (Some (JStr "toYear")) then isYear v
  else true.

(** ** iamBase: arrays changed in place

    The array after the call; the positions are integers. *)

(** [switchValues(array, i, j)] *)
Definition switchValues {A : Type} (array : list A) (i j : Z) : list A :=
  if (0 <=? i) && (0 <=? j) && (i <? Z.of_nat (length array))
     && (j <? Z.of_nat (length array))
  then
    match array !! Z.to_nat i, array !! Z.to_nat j with
    | Some temp, Some other => <[Z.to_nat j := temp]> (<[Z.to_nat i := other]> array)
    | _, _ => array
    end
  else array.

(** [array[counter] = array[counter+1]] *)
Definition shiftForward {A : Type} (array : list A) (counter : nat) : list A :=
  match array !! S counter with
  | Some next => <[counter := next]> array
  | None => array
  end.

(** [deleteValue(array, i)]: the loop over [counter = i .. array.length - 2],
    then [array.pop()]. *)
Definition deleteValue {A : Type} (array : list A) (i : Z) : list A :=
  if (0 <=? i) && (i <? Z.of_nat (length array)) then
    removelast
      (fold_left shiftForward (seq (Z.to_nat i) (length array - 1 - Z.to_nat i)) array)
  else array.

(** ** The features table and its keys *)

(** Every feature of the table is found under its own type and id. *)
Definition featuresKeyed (features : IAMMapTable ExtendedFeature.t 1) : Prop :=
  _primaryKeys features = IAMStorage._featuresTableDef ∧
  ∀ type id feature,
    getItem [type; id] features = Some feature →
    ExtendedFeature.getType feature = type ∧ ExtendedFeature.getId feature = id.

(** ** FeatureSettingsJSONDataSource

    [_loadFeatureSettings] on the object that [JSON.parse] returns for the
    raw data: [_iam_FeatureSettings], when the object has it, is an array of
    objects, and [_iam_MapSettings], when the object has it, an object. *)

Module JSONSettings.
Record Parsed : Type := mkParsed {
  _iam_FeatureSettings : option (list FeatureSettings.t);
  _iam_MapSettings : option (gmap string jsval)
}.

(** The callback of the [forEach] over [_iam_FeatureSettings], on the
    settings pushed so far and the counter. *)
Definition loadSetting (acc : list FeatureSettings.t * Z) (setting : FeatureSettings.t)
  : list FeatureSettings.t * Z :=
  let '(settings, counter) := acc in
  let settings :=
    if strict_eq (FeatureSettings.getFeatureType setting)
         (Some (JNum FeatureType.POINT))
    then settings ++ [PointSettings.new setting]
    else if strict_eq (FeatureSettings.getFeatureType setting)
              (Some (JNum FeatureType.LINESTRING))
    then settings ++ [LineStringSettings.new setting]
    else if strict_eq (FeatureSettings.getFeatureType setting)
              (Some (JNum FeatureType.POLYGON))
    then settings ++ [PolygonSettings.new setting]
    else settings in
  (settings, counter + 1).

(** [_loadFeatureSettings(processResult)]: the data source and the process
    result as the call leaves them. *)
Definition _loadFeatureSettings (parseResult : Parsed) (processResult : ProcessResult.t)
  : DataSource.t * ProcessResult.t :=
  let '(settings, processResult) :=
    match _iam_FeatureSettings parseResult with
    | Some entries =>
        let '(settings, counter) := fold_left loadSetting entries ([], 0) in
        (settings,
         ProcessResult.addDetail ProcessResult.INFO
           (pretty counter +:+ " Settings loaded successfully") processResult)
    | None => ([], processResult)
    end in
  match _iam_MapSettings parseResult with
  | Some mapSettings =>
      ({| DataSource._features := []; DataSource._featuresProperties := [];
          DataSource._featuresAttributes := [];
          DataSource._featuresSettings := settings;
          DataSource._mapSettings := Some mapSettings |},
       ProcessResult.addDetail ProcessResult.INFO "Map Settings loaded successfully"
         processResult)
  | None =>
      ({| DataSource._features := []; DataSource._featuresProperties := [];
          DataSource._featuresAttributes := [];
          DataSource._featuresSettings := settings;
          DataSource._mapSettings := None |},
       processResult)
  end.
End JSONSettings.

(** The feature type of an entry is one of the three numbers. *)
Definition knownType (setting : FeatureSettings.t) : Prop :=
  FeatureSettings.getFeatureType setting
  ∈ [Some (JNum FeatureType.POINT); Some (JNum FeatureType.LINESTRING);
     Some (JNum FeatureType.POLYGON)].

(** ** IAMStorage: the balance of two result sets

    An object [{year: ..., [attVal]: ..., ...}] as [_expand] makes it:
    [counts] holds the own properties other than [year], which are integer
    numbers or NaN ([None]).  The attribute values name properties other than
    [year], and the two arrays that [_substract] gets share no object. *)

Module YearItem.
Record t : Type := mk { year : jsany; counts : gmap string (option Z) }.

(** [item[attVal]] as an operand of [-], [+] and [*]: undefined converts to
    NaN. *)
Definition operand (attVal : string) (item : t) : option Z :=
  default None (counts item !! attVal).

(** [item[attVal] = value] *)
Definition assign (attVal : string) (value : option Z) (item : t) : t :=
  {| year := year item; counts := <[attVal := value]> (counts item) |}.
End YearItem.

Definition num_add (a b : option Z) : option Z :=
  match a, b with
  | Some x, Some y => Some (x + y)
  | _, _ => None
  end.

Definition num_mul (a b : option Z) : option Z :=
  match a, b with
  | Some x, Some y => Some (x * y)
  | _, _ => None
  end.

(** The callback of the inner [forEach] of the second loop of [_substract],
    for the item [item] of [toYearResultSet]. *)
Definition subtractValue (item : YearItem.t) (temp : JSMap YearItem.t) (attVal : string)
  : JSMap YearItem.t :=
  match Map_get (YearItem.year item) temp with
  | Some stored =>
      Map_set (YearItem.year item)
        (YearItem.assign attVal
           (num_sub (YearItem.operand attVal stored) (YearItem.operand attVal item))
           stored)
        temp
  | None =>
      Map_set (YearItem.year item)
        {| YearItem.year := YearItem.year item;
           YearItem.counts :=
             {[ attVal := num_mul (Some (-1)) (YearItem.operand attVal item) ]} |}
        temp
  end.

(** The callback of the inner [forEach] of the third loop, for the object
    at [index] of the array [[...temp.values()]].  The objects of that array
    are the ones that [temp] holds, so that [array[index]] and
    [array[index-1]] are read as [temp] has them now. *)
Definition addPrevious (index : nat) (temp : JSMap YearItem.t) (attVal : string)
  : JSMap YearItem.t :=
  match Map_values temp !! index, Map_values temp !! (index - 1)%nat with
  | Some item, Some previous =>
      match Map_get (YearItem.year item) temp with
      | Some target =>
          Map_set (YearItem.year item)
            (YearItem.assign attVal
               (num_add (YearItem.operand attVal target)
                  (YearItem.operand attVal previous))
               target)
            temp
      | None => temp
      end
  | _, _ => temp
  end.

(** [_substract(fromYearResultSet, toYearResultSet, attributeValues)] *)
Definition _substract (fromYearResultSet toYearResultSet : list YearItem.t)
  (attributeValues : list string) : list YearItem.t :=
  let temp : JSMap YearItem.t :=
    fold_left (λ temp item, Map_set (YearItem.year item) item temp)
      fromYearResultSet [] in
  let temp :=
    fold_left (λ temp item, fold_left (subtractValue item) attributeValues temp)
      toYearResultSet temp in
  let temp :=
    fold_left (λ temp index,
        if (0 <? index)%nat then fold_left (addPrevious index) attributeValues temp
        else temp)
      (seq 0 (length (Map_values temp))) temp in
  Map_values temp.

(** The balance of the year at [index] and of the years before it: what was
    counted from the year less what was counted to the year, plus the balance
    of the year before. *)
Fixpoint balanceUpTo (attVal : string) (fromYearResultSet toYearResultSet : list YearItem.t)
  (index : nat) : option Z :=
  let ofYear :=
    num_sub (fromYearResultSet !! index ≫= YearItem.operand attVal)
      (toYearResultSet !! index ≫= YearItem.operand attVal) in
  match index with
  | O => ofYear
  | S previous =>
      num_add ofYear (balanceUpTo attVal fromYearResultSet toYearResultSet previous)
  end.

(** The object of a year after the second loop of [_substract]: every
    attribute value less the one of the item of [toYearResultSet]. *)
Definition subtracted (attributeValues : list string) (item stored : YearItem.t)
  : YearItem.t :=
  fold_left (λ stored attVal,
      YearItem.assign attVal
        (num_sub (YearItem.operand attVal stored) (YearItem.operand attVal item)) stored)
    attributeValues stored.

(** The object at [index] after the third loop, [items] being the objects
    before it: every attribute value plus the one of the object before, as
    the loop has left it. *)
Fixpoint accumulated (attributeValues : list string) (items : list YearItem.t)
  (index : nat) : option YearItem.t :=
  match index with
  | O => items !! 0%nat
  | S before =>
      item ← items !! index;
      previous ← accumulated attributeValues items before;
      Some (fold_left (λ item attVal,
                YearItem.assign attVal
                  (num_add (YearItem.operand attVal item)
                     (YearItem.operand attVal previous)) item)
              attributeValues item)
  end.

(** ** The property columns of a row

    The condition [property['propertyName' + i] && property['propertyValue' + i]]
    of the loop of [_loadFeatureProperties], and the property that the loop
    pushes for the pair [i]. *)
Definition completePair (property : gmap string string) (i : nat) : bool :=
  match property !! ("propertyName" +:+ pretty i),
        property !! ("propertyValue" +:+ pretty i) with
  | Some name, Some value => negb (String.eqb name "") && negb (String.eqb value "")
  | _, _ => false
  end.

Definition propertyOfPair (property : gmap string string) (i : nat) : FeatureProperty.t :=
  {| FeatureProperty.featureType := CSV.featureTypeOf property;
     FeatureProperty._featureId := JStr <$> property !! "featureId";
     FeatureProperty._propertyName := JStr <$> property !! ("propertyName" +:+ pretty i);
     FeatureProperty._propertyValue :=
       JStr <$> property !! ("propertyValue" +:+ pretty i) |}.

(** * Properties *)

(** ** JavaScript values and Maps *)

Lemma strict_eq_true a b : strict_eq a b = true ↔ a = b.
Proof. unfold strict_eq. apply bool_decide_eq_true. Qed.

Lemma strict_eq_false a b : strict_eq a b = false ↔ a ≠ b.
Proof. unfold strict_eq. apply bool_decide_eq_false. Qed.

Lemma strict_eq_refl a : strict_eq a a = true.
Proof. by apply strict_eq_true. Qed.

Lemma strict_eq_sym a b : strict_eq a b = strict_eq b a.
Proof. unfold strict_eq. apply bool_decide_ext. split; congruence. Qed.

Lemma Map_get_set_eq {V} key (v : V) m : Map_get key (Map_set key v m) = Some v.
Proof.
  induction m as [|[k w] m IH]; simpl.
  - by rewrite strict_eq_refl.
  - destruct (strict_eq k key) eqn:E; simpl; by rewrite E.
Qed.

Lemma Map_get_set_ne {V} key key' (v : V) m :
  key ≠ key' → Map_get key' (Map_set key v m) = Map_get key' m.
Proof.
  intros Hne. induction m as [|[k w] m IH]; simpl.
  - destruct (strict_eq key key') eqn:E; [|done].
    by apply strict_eq_true in E.
  - destruct (strict_eq k key) eqn:E; simpl.
    + apply strict_eq_true in E as ->.
      by destruct (strict_eq key key') eqn:E'; [apply strict_eq_true in E'|].
    + by rewrite IH.
Qed.

Lemma Map_get_Some_keys {V} key (v : V) m : Map_get key m = Some v → key ∈ Map_keys m.
Proof.
  unfold Map_keys. induction m as [|[k w] m IH]; simpl; [done|].
  destruct (strict_eq k key) eqn:E.
  - apply strict_eq_true in E as ->. intros _. apply elem_of_cons. by left.
  - intros Hm. apply elem_of_cons. right. by apply IH.
Qed.

Lemma Map_get_None_keys {V} key (m : JSMap V) : Map_get key m = None → key ∉ Map_keys m.
Proof.
  unfold Map_keys. induction m as [|[k w] m IH]; simpl.
  - intros _. apply not_elem_of_nil.
  - destruct (strict_eq k key) eqn:E; [done|].
    intros Hm. apply not_elem_of_cons. split; [|by apply IH].
    intros ->. by rewrite strict_eq_refl in E.
Qed.

Lemma Map_keys_set {V} key (v : V) m :
  Map_keys (Map_set key v m) =
  match Map_get key m with
  | Some _ => Map_keys m
  | None => Map_keys m ++ [key]
  end.
Proof.
  unfold Map_keys. induction m as [|[k w] m IH]; simpl; [done|].
  destruct (strict_eq k key) eqn:E; simpl; [done|].
  fold (fmap (M:=list) (@fst jsany V)). rewrite IH.
  by destruct (Map_get key m).
Qed.

(** ** IAMMapTable: the array under a tuple of keys *)

Lemma _getArray_S {R} path d index (map : MapN R (S d)) :
  _getArray path (S d) index map =
  match Map_get (path index) map with
  | Some found => _getArray path d (S index) found
  | None => None
  end.
Proof. reflexivity. Qed.

Lemma _getArray_ext {R} (p q : nat → jsany) d index (map : MapN R d) :
  (∀ i, (index ≤ i ≤ index + d)%nat → p i = q i) →
  _getArray p d index map = _getArray q d index map.
Proof.
  revert index map. induction d as [|d IH]; intros index map Hpq; cbn [_getArray].
  - rewrite (Hpq index) by lia. done.
  - rewrite (Hpq index) by lia.
    destruct (Map_get (V:=MapN R d) (q index) map); [|done].
    apply IH. intros i Hi. apply Hpq. lia.
Qed.

Lemma _getArray_new {R} path d index : _getArray (R:=R) path d index (Map_new d) = None.
Proof. by destruct d. Qed.

(** After [_addItem], the array under the keys of the item. *)
Lemma _getArray_addItem_same `{TableRecord R} pks d (item : R) index map :
  _getArray (keysOf pks item) d index (_addItem pks d item index map) =
  Some (match _getArray (keysOf pks item) d index map with
        | Some found => addToArray item found
        | None => [item]
        end).
Proof.
  revert index map. induction d as [|d IH]; intros index map; cbn [_getArray _addItem].
  - unfold keysOf. destruct (Map_get (keyOf pks index item) map);
      by rewrite Map_get_set_eq.
  - unfold keysOf at 1 3.
    destruct (Map_get (V:=MapN R d) (keyOf pks index item) map) eqn:E;
      rewrite Map_get_set_eq, IH; [done|].
    by rewrite _getArray_new.
Qed.

(** The arrays under other keys are not touched. *)
Lemma _getArray_addItem_other `{TableRecord R} pks d (item : R) index map path :
  (∃ i, (index ≤ i ≤ index + d)%nat ∧ path i ≠ keyOf pks i item) →
  _getArray path d index (_addItem pks d item index map) = _getArray path d index map.
Proof.
  revert index map. induction d as [|d IH]; intros index map [i [Hi Hne]];
    cbn [_getArray _addItem].
  - assert (i = index) as -> by lia.
    destruct (Map_get (keyOf pks index item) map);
      by rewrite Map_get_set_ne.
  - destruct (decide (path index = keyOf pks index item)) as [Heq|Hne'].
    + rewrite Heq.
      assert (∃ j, (S index ≤ j ≤ S index + d)%nat ∧ path j ≠ keyOf pks j item) as Hj.
      { exists i. split; [|done]. destruct (decide (i = index)) as [->|]; [done|lia]. }
      destruct (Map_get (V:=MapN R d) (keyOf pks index item) map) eqn:E;
        rewrite Map_get_set_eq, IH by done; [done|].
      by rewrite _getArray_new.
    + destruct (Map_get (V:=MapN R d) (keyOf pks index item) map);
        by rewrite Map_get_set_ne.
Qed.

Lemma getArray_addItem_same `{TableRecord R} {d} (item : R) (t : IAMMapTable R d) :
  getArray (keysOf (_primaryKeys t) item) (addItem item t) =
  Some (match getArray (keysOf (_primaryKeys t) item) t with
        | Some found => addToArray item found
        | None => [item]
        end).
Proof. apply _getArray_addItem_same. Qed.

Lemma getArray_addItem_other `{TableRecord R} {d} (item : R) (t : IAMMapTable R d) path :
  (∃ i, (i ≤ d)%nat ∧ path i ≠ keysOf (_primaryKeys t) item i) →
  getArray path (addItem item t) = getArray path t.
Proof.
  intros [i [Hi Hne]]. apply _getArray_addItem_other. exists i. split; [lia|done].
Qed.

Lemma _getItem_getArray {R} values d index (map : MapN R d) :
  _getItem values d index map = _getArray (keysAt values) d index map ≫= head.
Proof.
  revert index map. induction d as [|d IH]; intros index map;
    cbn [_getArray _getItem]; unfold keysAt at 1.
  - by destruct (Map_get _ map).
  - destruct (Map_get (V:=MapN R d) _ map); [apply IH|done].
Qed.

Lemma getItem_getArray {R d} values (t : IAMMapTable R d) :
  getItem values t = getArray (keysAt values) t ≫= head.
Proof. apply _getItem_getArray. Qed.

(** ** IAMMapTable: what [getAllItems] returns *)

Lemma elem_of_List_filter {A} (f : A → bool) (l : list A) x :
  x ∈ List.filter f l ↔ x ∈ l ∧ f x = true.
Proof. rewrite !list_elem_of_In. apply filter_In. Qed.

Lemma elem_of_filteredKeys filters index keys key :
  key ∈ filteredKeys filters index keys ↔ key ∈ keys ∧ accepts filters index key = true.
Proof.
  unfold filteredKeys, accepts. destruct (mjoin (filters !! index)) as [f|].
  - apply elem_of_List_filter.
  - split; [by intros ?|by intros [? _]].
Qed.

(** The loop that both levels of [_getAllItems] run over the keys. *)
Lemma collect_elem_of {R V} (F : V → list (list R) → list (list R))
  (Q : V → R → Prop) (map : JSMap V) keys ret x :
  (∀ found ret, x ∈ concat (F found ret) ↔ x ∈ concat ret ∨ Q found x) →
  x ∈ concat (fold_left (λ ret key,
                 match Map_get key map with
                 | Some found => F found ret
                 | None => ret
                 end) keys ret) ↔
  x ∈ concat ret ∨ ∃ key found, key ∈ keys ∧ Map_get key map = Some found ∧ Q found x.
Proof.
  intros HF. revert ret. induction keys as [|key keys IH]; intros ret; simpl.
  - split; [by left|]. intros [?|(key & found & Hk & _)]; [done|].
    by apply elem_of_nil in Hk.
  - rewrite IH. destruct (Map_get key map) as [found|] eqn:E.
    + rewrite HF. split.
      * intros [[?|HQ]|(k & fnd & Hk & Hg & HQ)]; [by left| |].
        -- right. exists key, found. split_and!; [apply elem_of_cons; by left|done..].
        -- right. exists k, fnd. split_and!; [apply elem_of_cons; by right|done..].
      * intros [?|(k & fnd & Hk & Hg & HQ)]; [by left; left|].
        apply elem_of_cons in Hk as [->|Hk].
        -- left. right. congruence.
        -- right. by exists k, fnd.
    + split.
      * intros [?|(k & fnd & Hk & Hg & HQ)]; [by left|].
        right. exists k, fnd. split_and!; [apply elem_of_cons; by right|done..].
      * intros [?|(k & fnd & Hk & Hg & HQ)]; [by left|].
        apply elem_of_cons in Hk as [->|Hk]; [congruence|].
        right. by exists k, fnd.
Qed.

(** A record is among the collected arrays exactly when it stands in the
    array under some tuple of keys that the filters let through. *)
Lemma _getAllItems_elem_of {R} filters d index (map : MapN R d) ret x :
  x ∈ concat (_getAllItems filters d index map ret) ↔
  x ∈ concat ret ∨
  ∃ path found, _getArray path d index map = Some found ∧ x ∈ found ∧
    ∀ i, (index ≤ i ≤ index + d)%nat → accepts filters i (path i) = true.
Proof.
  revert index map ret.
  induction d as [|d IH]; intros index map ret; cbn [_getAllItems _getArray].
  - rewrite (collect_elem_of (λ found ret, ret ++ [found]) (λ found x, x ∈ found)).
    2:{ intros found ret'. rewrite concat_app, elem_of_app. simpl.
        by rewrite app_nil_r. }
    apply or_iff_compat_l. split.
    + intros (key & found & Hk & Hg & Hx).
      apply elem_of_filteredKeys in Hk as [_ Hacc].
      exists (λ _, key), found. split_and!; [done..|].
      intros i Hi. by assert (i = index) as -> by lia.
    + intros (path & found & Hg & Hx & Hacc).
      exists (path index), found. split_and!; [|done..].
      apply elem_of_filteredKeys. split; [by eapply Map_get_Some_keys|].
      apply Hacc. lia.
  - rewrite (collect_elem_of (_getAllItems filters d (S index))
               (λ found x, ∃ path l, _getArray path d (S index) found = Some l ∧ x ∈ l ∧
                  ∀ i, (S index ≤ i ≤ S index + d)%nat → accepts filters i (path i) = true)).
    2:{ intros found ret'. apply IH. }
    apply or_iff_compat_l. split.
    + intros (key & found & Hk & Hg & path & l & Hp & Hx & Hacc).
      apply elem_of_filteredKeys in Hk as [_ Hk].
      exists (λ i, if decide (i = index) then key else path i), l.
      split_and!; [|done|].
      * rewrite decide_True by done.
        rewrite Hg, <- Hp. apply _getArray_ext. intros i Hi.
        rewrite decide_False; [done|lia].
      * intros i Hi. destruct (decide (i = index)) as [->|Hne]; [done|].
        apply Hacc. lia.
    + intros (path & l & Hp & Hx & Hacc).
      destruct (Map_get (V:=MapN R d) (path index) map) as [found|] eqn:Hg; [|done].
      exists (path index), found. split_and!; [|done|].
      * apply elem_of_filteredKeys. split; [by eapply Map_get_Some_keys|].
        apply Hacc. lia.
      * exists path, l. split_and!; [done..|]. intros i Hi. apply Hacc. lia.
Qed.

Lemma getAllItems_elem_of {R d} filters (t : IAMMapTable R d) x :
  length filters = length (_primaryKeys t) →
  x ∈ getAllItems filters t ↔
  ∃ path found, getArray path t = Some found ∧ x ∈ found ∧
    ∀ i, (i ≤ d)%nat → accepts filters i (path i) = true.
Proof.
  intros Hlen. unfold getAllItems, getArray.
  rewrite Hlen, Nat.eqb_refl. simpl. rewrite _getAllItems_elem_of. simpl.
  split.
  - intros [Hx|(path & found & Hp & Hx & Hacc)]; [by apply elem_of_nil in Hx|].
    exists path, found. split_and!; [done..|]. intros i Hi. apply Hacc. lia.
  - intros (path & found & Hp & Hx & Hacc). right.
    exists path, found. split_and!; [done..|]. intros i Hi. apply Hacc. lia.
Qed.

(** ** IAMMapTable: [addToArray] *)

Lemma addToArray_not_found `{TableRecord R} (item : R) found :
  (∀ stored, stored ∈ found → equals stored item = false) →
  addToArray item found = found ++ [item].
Proof.
  intros Hne. unfold addToArray.
  destruct (existsb _ found) eqn:E; [|done].
  apply existsb_exists in E as (stored & Hin & Heq).
  apply list_elem_of_In in Hin. rewrite Hne in Heq; done.
Qed.

Lemma addToArray_found `{TableRecord R} (item : R) found stored :
  stored ∈ found → equals stored item = true →
  addToArray item found =
  (λ storedItem, if equals storedItem item then item else storedItem) <$> found.
Proof.
  intros Hin Heq. unfold addToArray.
  destruct (existsb _ found) eqn:E; [done|].
  assert (existsb (λ storedItem, equals storedItem item) found = true) as E'.
  { apply existsb_exists. exists stored. split; [by apply list_elem_of_In|done]. }
  congruence.
Qed.

Lemma addToArray_elem_of_item `{TableRecord R} (item : R) found :
  item ∈ addToArray item found.
Proof.
  unfold addToArray. destruct (existsb _ found) eqn:E.
  - apply existsb_exists in E as (stored & Hin & Heq).
    apply list_elem_of_In in Hin. apply list_elem_of_fmap.
    exists stored. by rewrite Heq.
  - apply elem_of_app. right. apply list_elem_of_singleton. done.
Qed.

Lemma addToArray_elem_of_kept `{TableRecord R} (item stored : R) found :
  stored ∈ found → equals stored item = false → stored ∈ addToArray item found.
Proof.
  intros Hin Hne. unfold addToArray. destruct (existsb _ found).
  - apply list_elem_of_fmap. exists stored. by rewrite Hne.
  - apply elem_of_app. by left.
Qed.

Lemma addToArray_elem_of `{TableRecord R} (item x : R) found :
  x ∈ addToArray item found → x = item ∨ (x ∈ found ∧ equals x item = false).
Proof.
  unfold addToArray. destruct (existsb _ found) eqn:E.
  - intros Hx. apply list_elem_of_fmap in Hx as (stored & -> & Hin).
    destruct (equals stored item) eqn:Heq; [by left|by right].
  - intros Hx. apply elem_of_app in Hx as [Hx|Hx].
    + right. split; [done|].
      destruct (equals x item) eqn:Heq; [|done].
      assert (existsb (λ storedItem, equals storedItem item) found = true) as E'.
      { apply existsb_exists. exists x. split; [by apply list_elem_of_In|done]. }
      congruence.
    + left. by apply list_elem_of_singleton in Hx.
Qed.

(** ** IAMMapTable: the keys that [getAllKeys] collects *)

Lemma fold_setKey_elem_of keys ret key :
  key ∈ fold_left setKey keys ret ↔ key ∈ ret ∨ key ∈ keys.
Proof.
  revert ret. induction keys as [|k keys IH]; intros ret; simpl.
  - split; [by left|]. intros [?|Hk]; [done|]. by apply elem_of_nil in Hk.
  - rewrite IH. unfold setKey. rewrite elem_of_cons. case_bool_decide as Hin.
    + split; [intros [?|?]; auto|]. intros [?|[->|?]]; auto.
    + rewrite elem_of_app, list_elem_of_singleton. tauto.
Qed.

Lemma getKeys_nil {R d} (t : IAMMapTable R d) : ∃ top, getKeys [] t = Ok top.
Proof. unfold getKeys. destruct d; simpl; eauto. Qed.

Lemma getAllKeys_one_filter {R d} (f : keyFilter) (t : IAMMapTable R d) top :
  getKeys [] t = Ok top →
  getAllKeys [f] t = Ok (fold_left setKey (filteredKeys [f] 0 top) []).
Proof. unfold getKeys, getAllKeys. destruct d; simpl; by intros [= <-]. Qed.

(** ** The year range of an empty attributes table (C10) *)

(** C10: when the storage holds no attribute, [getAttributesMinimumYear] and
    [getAttributesMaximumYear] both return undefined. *)
Theorem attribute_years_of_empty_table (this : IAMStorage.t) :
  getAllItems [None; None; None; None] (IAMStorage._featureAttributes this) = [] →
  IAMStorage.getAttributesMinimumYear this = None ∧
  IAMStorage.getAttributesMaximumYear this = None.
Proof.
  intros Hempty.
  unfold IAMStorage.getAttributesMinimumYear, IAMStorage.getAttributesMaximumYear,
    IAMStorage.attributeYears.
  rewrite Hempty. split; reflexivity.
Qed.

Lemma attribute_years_of_empty_table_witness :
  IAMStorage.getAttributesMinimumYear IAMStorage.new = None ∧
  IAMStorage.getAttributesMaximumYear IAMStorage.new = None.
Proof. apply (attribute_years_of_empty_table IAMStorage.new). reflexivity. Defined.

(** ** A CSV file with too few columns (C7) *)

Lemma addDetail_status status' detail pr :
  ProcessResult.status (ProcessResult.addDetail status' detail pr)
  = Z.max (ProcessResult.status pr) status'.
Proof.
  unfold ProcessResult.addDetail.
  destruct (ProcessResult.status pr <? status') eqn:E; simpl.
  - apply Z.ltb_lt in E. lia.
  - apply Z.ltb_ge in E. lia.
Qed.

Lemma _parseCsv_short_header rawData opts template header pr checkContent :
  CSV.headers opts = true →
  CSV.headerTemplate opts = Some template →
  head (CSV.parseArr rawData opts) = Some header →
  (length header < length template)%nat →
  CSV._parseCsv rawData opts pr checkContent =
  (None,
   CSV.catchBlock
     (getMsg "File must have at least " +:+ pretty (length template)
      +:+ getMsg " columns in csv format") pr).
Proof.
  intros Hh Ht Hhead Hlen. unfold CSV._parseCsv, CSV._checkHeader.
  rewrite Hh, Ht, Hhead.
  apply Nat.ltb_lt in Hlen. by rewrite Hlen.
Qed.

(** C7, what the code does: when the header row of the file has fewer
    columns than the template, the constructor of either CSV adapter lets a
    TypeError through ([forEach] of the [null] that [_parseCsv] returns),
    and the process result is raised to WARN, not to ERROR: its status is
    the larger of the status before and WARN, with the summary text replaced
    and the message of the exception as a detail. *)
Theorem csv_adapter_short_header (rawData : string) (pr : ProcessResult.t)
  (header : list string) :
  head (CSV.parseArr rawData CSV.attributesOptions) = Some header →
  ((length header < 10)%nat →
   CSV.FeatureAttributesCSVDataSource rawData pr =
     (Throw CSV.TypeError_forEach,
      CSV.catchBlock "File must have at least 10 columns in csv format" pr)) ∧
  ((length header < 4)%nat →
   CSV.FeaturePropertiesCSVDataSource rawData pr =
     (Throw CSV.TypeError_forEach,
      CSV.catchBlock "File must have at least 4 columns in csv format" pr)) ∧
  ∀ message,
    ProcessResult.status (CSV.catchBlock message pr)
    = Z.max (ProcessResult.status pr) ProcessResult.WARN ∧
    ProcessResult.text (CSV.catchBlock message pr)
    = (if ProcessResult.status pr <? ProcessResult.WARN
       then "File has no valid format. No data was loaded. with warnings"
       else "File has no valid format. No data was loaded.") ∧
    ProcessResult.detailList (CSV.catchBlock message pr)
    = ProcessResult.detailList pr ++ [message].
Proof.
  intros Hhead. split_and!.
  - intros Hlen. unfold CSV.FeatureAttributesCSVDataSource.
    by rewrite (_parseCsv_short_header _ _ CSV.attributesHeaderTemplate header).
  - intros Hlen. unfold CSV.FeaturePropertiesCSVDataSource.
    by rewrite (_parseCsv_short_header _ _ CSV.propertiesHeaderTemplate header).
  - intros message. unfold CSV.catchBlock. rewrite addDetail_status. simpl.
    split; [done|].
    unfold ProcessResult.detailList, ProcessResult.addDetail. simpl.
    destruct (ProcessResult.status pr <? ProcessResult.WARN); simpl;
      by destruct (ProcessResult.details pr).
Qed.

Lemma csv_adapter_short_header_witness :
  CSV.FeatureAttributesCSVDataSource "feature;featureId"
    (ProcessResult.new ProcessResult.INFO "Successfully loaded") =
    (Throw "Cannot read properties of null (reading 'forEach')",
     {| ProcessResult.status := ProcessResult.WARN;
        ProcessResult.text := "File has no valid format. No data was loaded. with warnings";
        ProcessResult.details :=
          Some ["File must have at least 10 columns in csv format"] |}) ∧
  CSV.FeaturePropertiesCSVDataSource "feature;featureId"
    (ProcessResult.new ProcessResult.INFO "Successfully loaded") =
    (Throw "Cannot read properties of null (reading 'forEach')",
     {| ProcessResult.status := ProcessResult.WARN;
        ProcessResult.text := "File has no valid format. No data was loaded. with warnings";
        ProcessResult.details :=
          Some ["File must have at least 4 columns in csv format"] |}).
Proof.
  pose proof (csv_adapter_short_header "feature;featureId"
                (ProcessResult.new ProcessResult.INFO "Successfully loaded")
                ["feature"; "featureId"] eq_refl) as (Hattributes & Hproperties & _).
  split.
  - apply Hattributes. simpl. lia.
  - apply Hproperties. simpl. lia.
Defined.

(** ** The settings in the GeoJSON export (C8) *)

Lemma settingsHelper_FeatureSettings mapSettings this :
  ExtendedFeature._properties (IAMStorage.settingsHelper mapSettings this)
    !! "_iam_FeatureSettings"
  = Some (PFeatureSettings
            (match mapSettings with
             | Some _ => IAMStorage.getAllSettings this
             | None => []
             end)).
Proof.
  unfold IAMStorage.settingsHelper, IAMStorage.getSettingsAsObject.
  destruct mapSettings as [settings|]; simpl.
  - rewrite lookup_insert_ne by done. by rewrite lookup_insert_eq.
  - by rewrite lookup_insert_eq.
Qed.

(** C8, what the code does: the exported collection ends with the feature
    of id '_iam_Settings' at [minLongitude, minLatitude]; its property
    '_iam_FeatureSettings' is the list of all stored settings when map
    settings are passed, and the empty list when they are not, whatever the
    storage holds (a new storage holds three settings). *)
Theorem toGeoJSON_settings_feature (this : IAMStorage.t) (addProperties addAttributes : bool)
  (mapSettings : option (gmap string jsval)) :
  ∃ helper,
    last (IAMStorage.fc_features
            (IAMStorage.toGeoJSON addProperties addAttributes true mapSettings this))
    = Some helper ∧
    gj_id helper = Some (JStr "_iam_Settings") ∧
    gj_geometry_coordinates helper =
      PointCoordinates [IAMStorage.getMinLongitude this; IAMStorage.getMinLatitude this] ∧
    gj_properties helper !! "_iam_FeatureSettings" =
      Some (PFeatureSettings
              (match mapSettings with
               | Some _ => IAMStorage.getAllSettings this
               | None => []
               end)) ∧
    gj_properties helper !! "_iam_MapSettings" = PMapSettings <$> mapSettings ∧
    length (IAMStorage.getAllSettings IAMStorage.new) = 3%nat.
Proof.
  eexists. split_and!.
  - unfold IAMStorage.toGeoJSON. simpl. apply last_snoc.
  - unfold IAMStorage.settingsHelper. by destruct mapSettings.
  - unfold IAMStorage.settingsHelper. by destruct mapSettings.
  - unfold ExtendedFeature.toGeoJSON. simpl.
    apply lookup_union_Some_l, settingsHelper_FeatureSettings.
  - unfold ExtendedFeature.toGeoJSON. simpl.
    unfold IAMStorage.settingsHelper. destruct mapSettings as [settings|]; simpl.
    + apply lookup_union_Some_l. by rewrite lookup_insert_eq.
    + apply lookup_union_None. split; [|done].
      rewrite lookup_insert_ne by done. done.
  - vm_compute. reflexivity.
Qed.

(** ** The direction of merge (C1) *)



Lemma assignProperty_firstDefined {A} (target source : option A) :
  assignProperty target source = firstDefined source target.
Proof. done. Qed.













Lemma PointSettings_new_featureType (props : FeatureSettings.t) :
  FeatureSettings.getFeatureType (PointSettings.new props)
  = Some (JNum FeatureType.POINT).
Proof.
  unfold FeatureSettings.getFeatureType.
  change (FeatureSettings.scalars (PointSettings.new props))
    with (<["featureType" := JNum FeatureType.POINT]>
            (foldr delete (FeatureSettings.scalars (FeatureSettings.new props))
               PointSettings.declaredScalars)).
  apply lookup_insert_eq.
Qed.

Lemma LineStringSettings_new_featureType (props : FeatureSettings.t) :
  FeatureSettings.getFeatureType (LineStringSettings.new props)
  = Some (JNum FeatureType.LINESTRING).
Proof.
  unfold FeatureSettings.getFeatureType.
  change (FeatureSettings.scalars (LineStringSettings.new props))
    with (<["featureType" := JNum FeatureType.LINESTRING]>
            (FeatureSettings.scalars (FeatureSettings.new props))).
  apply lookup_insert_eq.
Qed.

Lemma PolygonSettings_new_featureType (props : FeatureSettings.t) :
  FeatureSettings.getFeatureType (PolygonSettings.new props)
  = Some (JNum FeatureType.POLYGON).
Proof.
  unfold FeatureSettings.getFeatureType.
  change (FeatureSettings.scalars (PolygonSettings.new props))
    with (<["featureType" := JNum FeatureType.POLYGON]>
            (FeatureSettings.scalars (FeatureSettings.new props))).
  apply lookup_insert_eq.
Qed.

Lemma PointSettings_merge_featureType (this master merged : FeatureSettings.t) :
  PointSettings.merge this master = Ok merged →
  FeatureSettings.class merged = PointSettingsClass ∧
  FeatureSettings.getFeatureType merged = Some (JNum FeatureType.POINT).
Proof.
  unfold PointSettings.merge.
  destruct (FeatureSettings.merge this master) as [super|]; [|done].
  destruct (FeatureSettings.pointBorder this); [|done].
  intros [= <-]. split; [reflexivity|]. apply (PointSettings_new_featureType super).
Qed.

Lemma LineStringSettings_merge_featureType (this master merged : FeatureSettings.t) :
  LineStringSettings.merge this master = Ok merged →
  FeatureSettings.class merged = LineStringSettingsClass ∧
  FeatureSettings.getFeatureType merged = Some (JNum FeatureType.LINESTRING).
Proof.
  unfold LineStringSettings.merge.
  destruct (FeatureSettings.merge this master) as [super|]; [|done].
  destruct (FeatureSettings.lineBorder1 this); [|done].
  destruct (FeatureSettings.lineBorder2 this); [|done].
  intros [= <-]. split; [reflexivity|].
  apply (LineStringSettings_new_featureType super).
Qed.

Lemma PolygonSettings_merge_featureType (this master merged : FeatureSettings.t) :
  PolygonSettings.merge this master = Ok merged →
  FeatureSettings.class merged = PolygonSettingsClass ∧
  FeatureSettings.getFeatureType merged = Some (JNum FeatureType.POLYGON).
Proof.
  unfold PolygonSettings.merge.
  destruct (FeatureSettings.merge this master) as [super|]; [|done].
  destruct (FeatureSettings.polygonBorder this); [|done].
  intros [= <-]. split; [reflexivity|]. apply (PolygonSettings_new_featureType super).
Qed.







(** ** Insertion: overwrite in place, last write wins (C3) *)

#[global] Instance FeatureProperty_lawful : LawfulEquals FeatureProperty.t.
Proof.
  split.
  - intros a b. cbn. unfold FeatureProperty.equals.
    by rewrite (strict_eq_sym (FeatureProperty.getFeatureType b)),
      (strict_eq_sym (FeatureProperty.getFeatureId b)),
      (strict_eq_sym (FeatureProperty.getName b)).
  - intros a b c. cbn. unfold FeatureProperty.equals.
    rewrite !andb_true_iff, !strict_eq_true. intros [[-> ->] ->] [[-> ->] ->]. done.
Qed.

#[global] Instance ExtendedFeature_lawful : LawfulEquals ExtendedFeature.t.
Proof.
  split.
  - intros a b. cbn. unfold ExtendedFeature.equals.
    by rewrite (strict_eq_sym (ExtendedFeature.getType b)),
      (strict_eq_sym (ExtendedFeature.getId b)).
  - intros a b c. cbn. unfold ExtendedFeature.equals.
    rewrite !andb_true_iff, !strict_eq_true. intros [-> ->] [-> ->]. done.
Qed.

#[global] Instance FeatureSettings_lawful : LawfulEquals FeatureSettings.t.
Proof.
  split.
  - intros a b. cbn. unfold FeatureSettings.equals.
    by rewrite (strict_eq_sym (FeatureSettings.getFeatureType b)),
      (strict_eq_sym (FeatureSettings.getLevelType b)),
      (strict_eq_sym (FeatureSettings.getLevelName b)),
      (strict_eq_sym (FeatureSettings.getLevelValue b)).
  - intros a b c. cbn. unfold FeatureSettings.equals.
    rewrite !andb_true_iff, !strict_eq_true.
    intros [[[-> ->] ->] ->] [[[-> ->] ->] ->]. done.
Qed.

#[global] Instance FeatureAttribute_lawful : LawfulEquals FeatureAttribute.t.
Proof.
  split.
  - intros a b. cbn. unfold FeatureAttribute.equals, FeatureAttribute.super_equals.
    by rewrite (strict_eq_sym (FeatureAttribute.getFeatureType b)),
      (strict_eq_sym (FeatureAttribute.getFeatureId b)),
      (strict_eq_sym (FeatureAttribute.getName b)),
      (strict_eq_sym (FeatureAttribute.getValue b)),
      (strict_eq_sym (FeatureAttribute.getFromYear b)),
      (strict_eq_sym (FeatureAttribute.getFromMonth b)),
      (strict_eq_sym (FeatureAttribute.getFromDay b)),
      (strict_eq_sym (FeatureAttribute.getToYear b)),
      (strict_eq_sym (FeatureAttribute.getToMonth b)),
      (strict_eq_sym (FeatureAttribute.getToDay b)).
  - intros a b c. cbn. unfold FeatureAttribute.equals, FeatureAttribute.super_equals.
    rewrite !andb_true_iff, !strict_eq_true.
    intros [[[[[[[[[-> ->] ->] ->] ->] ->] ->] ->] ->] ->].
    intros [[[[[[[[[-> ->] ->] ->] ->] ->] ->] ->] ->] ->]. done.
Qed.

Lemma equals_false_sym `{LawfulEquals R} (a b : R) :
  equals a b = false → equals b a = false.
Proof. by rewrite (equals_sym a b). Qed.

(** Two stored records that both equal the new item equal each other. *)
Lemma equals_common `{LawfulEquals R} (a b item : R) :
  equals a item = true → equals b item = true → equals a b = true.
Proof.
  intros Ha Hb. eapply equals_trans; [done|]. by rewrite equals_sym.
Qed.

Lemma pairwiseDistinct_addToArray `{LawfulEquals R} (item : R) found :
  pairwiseDistinct found → pairwiseDistinct (addToArray item found).
Proof.
  intros Hd. unfold addToArray.
  destruct (existsb _ found) eqn:E.
  - intros i j a b Hij Ha Hb.
    rewrite list_lookup_fmap in Ha, Hb.
    destruct (found !! i) as [si|] eqn:Hi; [|done].
    destruct (found !! j) as [sj|] eqn:Hj; [|done].
    simpl in Ha, Hb. injection Ha as <-. injection Hb as <-.
    pose proof (Hd i j si sj Hij Hi Hj) as Hne.
    destruct (equals si item) eqn:Ei, (equals sj item) eqn:Ej.
    + by rewrite (equals_common si sj item) in Hne.
    + by apply equals_false_sym.
    + done.
    + done.
  - assert (∀ stored, stored ∈ found → equals stored item = false) as Hall.
    { intros stored Hin. destruct (equals stored item) eqn:Heq; [|done].
      assert (existsb (λ storedItem, equals storedItem item) found = true) as E'.
      { apply existsb_exists. exists stored. split; [by apply list_elem_of_In|done]. }
      congruence. }
    intros i j a b Hij Ha Hb.
    apply lookup_app_Some in Ha as [Ha|[Hi Ha]];
      apply lookup_app_Some in Hb as [Hb|[Hj Hb]].
    + by apply (Hd i j).
    + apply list_lookup_singleton_Some in Hb as [_ <-].
      apply Hall. by eapply list_elem_of_lookup_2.
    + apply list_lookup_singleton_Some in Ha as [_ <-].
      apply equals_false_sym, Hall. by eapply list_elem_of_lookup_2.
    + apply list_lookup_singleton_Some in Ha as [Hi' _].
      apply list_lookup_singleton_Some in Hb as [Hj' _]. lia.
Qed.

(** An equal stored record is overwritten where it stands; the other
    records stay. *)
Lemma addToArray_in_place `{LawfulEquals R} (item stored : R) found i :
  pairwiseDistinct found → found !! i = Some stored → equals stored item = true →
  addToArray item found = <[i := item]> found.
Proof.
  intros Hd Hi Heq.
  rewrite (addToArray_found item found stored); [|by eapply list_elem_of_lookup_2|done].
  apply list_eq. intros j. rewrite list_lookup_fmap.
  destruct (decide (i = j)) as [<-|Hij].
  - rewrite list_lookup_insert_eq by (by eapply lookup_lt_Some).
    by rewrite Hi; simpl; rewrite Heq.
  - rewrite list_lookup_insert_ne by done.
    destruct (found !! j) as [sj|] eqn:Hj; [|done]. simpl.
    destruct (equals sj item) eqn:Ej; [|done].
    pose proof (Hd i j stored sj Hij Hi Hj) as Hne.
    by rewrite (equals_common stored sj item) in Hne.
Qed.

Lemma primaryKeys_tableOf `{TableRecord R} d pks (items : list R) :
  _primaryKeys (tableOf d pks items) = pks.
Proof.
  unfold tableOf. induction items as [|item items IH] using rev_ind; [done|].
  by rewrite fold_left_app.
Qed.

Lemma tableOf_snoc `{TableRecord R} d pks (items : list R) item :
  tableOf d pks (items ++ [item]) = addItem item (tableOf d pks items).
Proof. unfold tableOf. by rewrite fold_left_app. Qed.

Lemma sameKeys_spec d p q : sameKeys d p q ↔ ∀ i, (i ≤ d)%nat → p i = q i.
Proof.
  unfold sameKeys. rewrite Forall_forall. split.
  - intros Hall i Hi. apply Hall, elem_of_seq. lia.
  - intros Hall i Hi. apply elem_of_seq in Hi. apply Hall. lia.
Qed.

Lemma getArray_sameKeys {R d} (t : IAMMapTable R d) p q :
  sameKeys d p q → getArray p t = getArray q t.
Proof.
  intros Hsame. apply _getArray_ext. intros i Hi.
  apply (proj1 (sameKeys_spec d p q) Hsame). lia.
Qed.

(** The array under any tuple of keys after an insertion. *)
Lemma getArray_addItem `{TableRecord R} {d} (item : R) (t : IAMMapTable R d) path :
  getArray path (addItem item t) =
  if decide (sameKeys d path (keysOf (_primaryKeys t) item))
  then Some (match getArray path t with
             | Some found => addToArray item found
             | None => [item]
             end)
  else getArray path t.
Proof.
  case_decide as Hsame.
  - rewrite (getArray_sameKeys (addItem item t) _ _ Hsame),
      (getArray_sameKeys t _ _ Hsame).
    apply getArray_addItem_same.
  - apply getArray_addItem_other.
    unfold sameKeys in Hsame. apply not_Forall_Exists in Hsame; [|apply _].
    apply Exists_exists in Hsame as (i & Hi & Hne).
    apply elem_of_seq in Hi. exists i. split; [lia|done].
Qed.

(** Every array of a table reached by insertions is free of equal pairs. *)
Lemma tableOf_pairwiseDistinct `{LawfulEquals R} d pks (items : list R) path found :
  getArray path (tableOf d pks items) = Some found → pairwiseDistinct found.
Proof.
  revert path found. induction items as [|item items IH] using rev_ind;
    intros path found.
  - unfold tableOf, getArray. simpl. by rewrite _getArray_new.
  - rewrite tableOf_snoc, getArray_addItem. case_decide as Hsame; [|apply IH].
    intros [= <-].
    destruct (getArray path (tableOf d pks items)) as [old|] eqn:Hold.
    + apply pairwiseDistinct_addToArray. by eapply IH.
    + intros i j a b Hij Ha Hb.
      apply list_lookup_singleton_Some in Ha as [-> _].
      apply list_lookup_singleton_Some in Hb as [-> _]. done.
Qed.

(** Every stored record stands under its own keys and was inserted. *)
Lemma tableOf_stored `{TableRecord R} d pks (items : list R) path found x :
  getArray path (tableOf d pks items) = Some found → x ∈ found →
  x ∈ items ∧ sameKeys d (keysOf pks x) path.
Proof.
  revert path found x. induction items as [|item items IH] using rev_ind;
    intros path found x Hfound Hx.
  - unfold tableOf, getArray in Hfound. cbn in Hfound.
    by rewrite _getArray_new in Hfound.
  - rewrite tableOf_snoc, getArray_addItem, primaryKeys_tableOf in Hfound.
    case_decide as Hsame.
    + injection Hfound as <-.
      assert (x = item ∨ ∃ old, getArray path (tableOf d pks items) = Some old ∧ x ∈ old)
        as [->|(old & Hold & Hin)].
      { destruct (getArray path (tableOf d pks items)) as [old|].
        - apply addToArray_elem_of in Hx as [->|[Hin _]]; [by left|]. right. by exists old.
        - apply list_elem_of_singleton in Hx. by left. }
      * split; [apply elem_of_app; right; by constructor|].
        apply sameKeys_spec. intros i Hi. symmetry.
        by apply (proj1 (sameKeys_spec _ _ _) Hsame).
      * destruct (IH _ _ _ Hold Hin) as [Hitems Hkeys].
        split; [apply elem_of_app; by left|done].
    + destruct (IH _ _ _ Hfound Hx) as [Hitems Hkeys].
      split; [apply elem_of_app; by left|done].
Qed.

Lemma sameKeys_sym d p q : sameKeys d p q ↔ sameKeys d q p.
Proof.
  rewrite !sameKeys_spec. split; intros Hpq i Hi; symmetry; by apply Hpq.
Qed.

(** The records that an insertion leaves in an array. *)
Lemma addToArray_elem_of_iff `{TableRecord R} (item x : R) found :
  x ∈ addToArray item found ↔ x = item ∨ (x ∈ found ∧ equals x item = false).
Proof.
  split; [apply addToArray_elem_of|].
  intros [->|[Hin Hne]]; [apply addToArray_elem_of_item|by apply addToArray_elem_of_kept].
Qed.

(** The records that stand under a tuple of keys, in terms of the sequence of
    insertions: those inserted under these keys that no later insertion
    under them has overwritten. *)
Lemma getArray_tableOf_elem_of `{TableRecord R} d pks (items : list R) path x :
  (∃ found, getArray path (tableOf d pks items) = Some found ∧ x ∈ found) ↔
  ∃ before after,
    items = before ++ x :: after ∧ sameKeys d (keysOf pks x) path ∧
    ∀ y, y ∈ after → sameKeys d (keysOf pks y) path → equals x y = false.
Proof.
  induction items as [|item items IH] using rev_ind.
  - split.
    + intros (found & Hfound & _). unfold tableOf, getArray in Hfound.
      cbn in Hfound. by rewrite _getArray_new in Hfound.
    + intros (before & after & Hitems & _). by destruct before.
  - rewrite tableOf_snoc, getArray_addItem, primaryKeys_tableOf.
    assert ((∃ found, getArray path (tableOf d pks items) = Some found ∧ x ∈ found) →
            ∃ before after,
              items ++ [item] = before ++ x :: after ++ [item] ∧
              sameKeys d (keysOf pks x) path ∧
              ∀ y, y ∈ after → sameKeys d (keysOf pks y) path → equals x y = false)
      as Hold.
    { intros Hstored. apply IH in Hstored as (before & after & -> & Hkeys & Hafter).
      exists before, after. by rewrite <- app_assoc. }
    assert ((∃ before after,
               items ++ [item] = before ++ x :: after ∧
               sameKeys d (keysOf pks x) path ∧
               ∀ y, y ∈ after → sameKeys d (keysOf pks y) path → equals x y = false) →
            (x = item ∧ sameKeys d (keysOf pks item) path) ∨
            ((∃ found, getArray path (tableOf d pks items) = Some found ∧ x ∈ found) ∧
             (sameKeys d (keysOf pks item) path → equals x item = false)))
      as Hnew.
    { intros (before & after & Hitems & Hkeys & Hafter).
      destruct after as [|last after _] using rev_ind.
      - left. apply (f_equal (@rev R)) in Hitems.
        rewrite !rev_app_distr in Hitems. cbn in Hitems. by injection Hitems as <- _.
      - right. rewrite app_comm_cons, app_assoc in Hitems.
        apply app_inj_tail in Hitems as [-> ->]. split.
        + apply IH. exists before, after. split_and!; [done..|].
          intros y Hy. apply Hafter, elem_of_app. by left.
        + apply Hafter, elem_of_app. right. by constructor. }
    case_decide as Hsame.
    + apply sameKeys_sym in Hsame. split.
      * intros (found & [= <-] & Hx).
        destruct (getArray path (tableOf d pks items)) as [old|] eqn:Hfound.
        -- apply addToArray_elem_of_iff in Hx as [->|[Hin Hne]].
           ++ exists items, []. split_and!; [done..|].
              intros y Hy. by apply elem_of_nil in Hy.
           ++ destruct Hold as (before & after & Hitems & Hkeys & Hafter); [by exists old|].
              exists before, (after ++ [item]). split_and!; [done..|].
              intros y Hy. apply elem_of_app in Hy as [Hy|Hy]; [by apply Hafter|].
              by apply list_elem_of_singleton in Hy as ->.
        -- apply list_elem_of_singleton in Hx as ->.
           exists items, []. split_and!; [done..|].
           intros y Hy. by apply elem_of_nil in Hy.
      * intros Hhist. eexists. split; [done|].
        destruct (Hnew Hhist) as [[-> _]|[(found & Hfound & Hx) Hne]].
        -- destruct (getArray path (tableOf d pks items));
             [apply addToArray_elem_of_item|by constructor].
        -- rewrite Hfound. apply addToArray_elem_of_iff. right. by split; [|apply Hne].
    + split.
      * intros Hstored.
        destruct (Hold Hstored) as (before & after & Hitems & Hkeys & Hafter).
        exists before, (after ++ [item]). split_and!; [done..|].
        intros y Hy. apply elem_of_app in Hy as [Hy|Hy]; [by apply Hafter|].
        apply list_elem_of_singleton in Hy as ->. intros Hkeys'.
        exfalso. by apply Hsame, sameKeys_sym.
      * intros Hhist. destruct (Hnew Hhist) as [[-> Hkeys]|[Hstored _]]; [|done].
        exfalso. by apply Hsame, sameKeys_sym.
Qed.

Lemma sameKeys_trans d p q r : sameKeys d p q → sameKeys d q r → sameKeys d p r.
Proof.
  rewrite !sameKeys_spec. intros Hpq Hqr i Hi. by rewrite Hpq, Hqr.
Qed.

(** The most recent insertion of an identity is the record stored for it. *)
Lemma tableOf_most_recent `{LawfulEquals R} d pks (before after : list R) last :
  (∀ z, z ∈ after → sameKeys d (keysOf pks z) (keysOf pks last) →
        equals z last = false) →
  ∃ found,
    getArray (keysOf pks last) (tableOf d pks (before ++ last :: after)) = Some found ∧
    last ∈ found ∧
    ∀ stored, stored ∈ found → equals stored last = true → stored = last.
Proof.
  intros Hafter.
  destruct (proj2 (getArray_tableOf_elem_of d pks (before ++ last :: after)
                     (keysOf pks last) last)) as (found & Hfound & Hlast).
  { exists before, after. split_and!; [done|by apply sameKeys_spec|].
    intros y Hy Hkeys. by apply equals_false_sym, Hafter. }
  exists found. split_and!; [done..|].
  intros stored Hstored Heq.
  apply list_elem_of_lookup in Hstored as [i Hi].
  apply list_elem_of_lookup in Hlast as [j Hj].
  destruct (decide (i = j)) as [->|Hij]; [congruence|].
  pose proof (tableOf_pairwiseDistinct _ _ _ _ _ Hfound i j stored last Hij Hi Hj).
  congruence.
Qed.

(** Among the insertions under the keys of [x] that equal [x], one is the
    most recent. *)
Lemma last_equal_insertion `{TableRecord R} d pks (items : list R) x :
  x ∈ items → equals x x = true →
  ∃ before last after,
    items = before ++ last :: after ∧
    sameKeys d (keysOf pks last) (keysOf pks x) ∧ equals last x = true ∧
    ∀ z, z ∈ after → sameKeys d (keysOf pks z) (keysOf pks x) → equals z x = false.
Proof.
  intros Hin Hrefl. induction items as [|item items IH] using rev_ind.
  - by apply elem_of_nil in Hin.
  - destruct (decide (sameKeys d (keysOf pks item) (keysOf pks x))) as [Hkeys|Hkeys].
    + destruct (equals item x) eqn:Heq.
      * exists items, item, []. split_and!; [done..|].
        intros z Hz. by apply elem_of_nil in Hz.
      * destruct IH as (before & last & after & -> & Hlast & Hlasteq & Hafter).
        { apply elem_of_app in Hin as [Hin|Hin]; [done|].
          apply list_elem_of_singleton in Hin as ->. congruence. }
        exists before, last, (after ++ [item]).
        split_and!; [by rewrite <- app_assoc|done..|].
        intros z Hz. apply elem_of_app in Hz as [Hz|Hz]; [by apply Hafter|].
        by apply list_elem_of_singleton in Hz as ->.
    + destruct IH as (before & last & after & -> & Hlast & Hlasteq & Hafter).
      { apply elem_of_app in Hin as [Hin|Hin]; [done|].
        apply list_elem_of_singleton in Hin as ->.
        exfalso. by apply Hkeys, sameKeys_spec. }
      exists before, last, (after ++ [item]).
      split_and!; [by rewrite <- app_assoc|done..|].
      intros z Hz. apply elem_of_app in Hz as [Hz|Hz]; [by apply Hafter|].
      apply list_elem_of_singleton in Hz as ->. done.
Qed.

(** C3: in every table reached by a sequence of [addItem] calls, for a
    record class whose [equals] compares fields (symmetric and transitive, as
    the four classes of the repository are): no array holds two records, at
    different positions, that are equal; inserting a record that a stored
    record of its slot equals overwrites that record at its position, the
    array keeping its length, and otherwise the record is appended; after the
    insertion the record stands in its slot and every record of the slot that
    equals it is the inserted one; two equal records inserted one after the
    other under keys not used before leave an array of length one that holds
    the second; an insertion leaves the arrays under all other key tuples as
    they are; the records that stand under a key tuple are exactly the
    records inserted under it that no later insertion under it has
    overwritten; and, for every inserted record, the record stored for its
    identity is the most recently inserted record of that identity: it
    stands in the slot, and it is the only record of the slot that equals the
    inserted one. *)
Theorem addItem_last_write_wins `{LawfulEquals R} (d : nat) (pks : list string)
  (items : list R) :
  (∀ path found,
     getArray path (tableOf d pks items) = Some found → pairwiseDistinct found) ∧
  (∀ item found,
     getArray (keysOf pks item) (tableOf d pks items) = Some found →
     (∀ i stored, found !! i = Some stored → equals stored item = true →
        getArray (keysOf pks item) (addItem item (tableOf d pks items))
        = Some (<[i := item]> found)) ∧
     ((∀ stored, stored ∈ found → equals stored item = false) →
        getArray (keysOf pks item) (addItem item (tableOf d pks items))
        = Some (found ++ [item]))) ∧
  (∀ item, ∃ found,
     getArray (keysOf pks item) (addItem item (tableOf d pks items)) = Some found ∧
     item ∈ found ∧
     ∀ stored, stored ∈ found → equals stored item = true → stored = item) ∧
  (∀ first second,
     getArray (keysOf pks first) (tableOf d pks items) = None →
     sameKeys d (keysOf pks second) (keysOf pks first) →
     equals first second = true →
     getArray (keysOf pks first)
       (addItem second (addItem first (tableOf d pks items))) = Some [second]) ∧
  (∀ item path,
     ¬ sameKeys d path (keysOf pks item) →
     getArray path (addItem item (tableOf d pks items))
     = getArray path (tableOf d pks items)) ∧
  (∀ path x,
     (∃ found, getArray path (tableOf d pks items) = Some found ∧ x ∈ found) ↔
     ∃ before after,
       items = before ++ x :: after ∧ sameKeys d (keysOf pks x) path ∧
       ∀ y, y ∈ after → sameKeys d (keysOf pks y) path → equals x y = false) ∧
  (∀ x, x ∈ items → equals x x = true →
     ∃ before last after found,
       items = before ++ last :: after ∧
       sameKeys d (keysOf pks last) (keysOf pks x) ∧ equals last x = true ∧
       (∀ z, z ∈ after → sameKeys d (keysOf pks z) (keysOf pks x) →
             equals z x = false) ∧
       getArray (keysOf pks x) (tableOf d pks items) = Some found ∧
       last ∈ found ∧
       ∀ stored, stored ∈ found → equals stored x = true → stored = last).
Proof.
  assert (∀ item : R, sameKeys d (keysOf pks item) (keysOf pks item)) as Hrefl.
  { intros item. by apply sameKeys_spec. }
  split_and!.
  - intros path found. apply tableOf_pairwiseDistinct.
  - intros item found Hfound. split.
    + intros i stored Hi Heq.
      rewrite getArray_addItem, primaryKeys_tableOf, decide_True, Hfound by done.
      f_equal. eapply addToArray_in_place; [|done..].
      by eapply tableOf_pairwiseDistinct.
    + intros Hnone.
      rewrite getArray_addItem, primaryKeys_tableOf, decide_True, Hfound by done.
      f_equal. by apply addToArray_not_found.
  - intros item.
    rewrite getArray_addItem, primaryKeys_tableOf, decide_True by done.
    eexists. split; [done|].
    destruct (getArray (keysOf pks item) (tableOf d pks items)) as [old|].
    + split; [apply addToArray_elem_of_item|].
      intros stored Hin Heq. apply addToArray_elem_of in Hin as [->|[_ Hne]]; [done|].
      congruence.
    + split; [apply list_elem_of_singleton; done|].
      intros stored Hin _. by apply list_elem_of_singleton in Hin.
  - intros first second Hnone Hsame Heq.
    rewrite getArray_addItem. cbn [addItem _primaryKeys].
    rewrite primaryKeys_tableOf.
    rewrite decide_True.
    2:{ apply sameKeys_spec. intros i Hi. symmetry.
        by apply (proj1 (sameKeys_spec _ _ _) Hsame). }
    rewrite getArray_addItem, primaryKeys_tableOf, decide_True, Hnone by done.
    f_equal. unfold addToArray. simpl. by rewrite Heq.
  - intros item path Hother.
    by rewrite getArray_addItem, primaryKeys_tableOf, decide_False.
  - intros path x. apply getArray_tableOf_elem_of.
  - intros x Hin Hxx.
    destruct (last_equal_insertion d pks items x Hin Hxx)
      as (before & last & after & -> & Hkeys & Heq & Hafter).
    destruct (tableOf_most_recent d pks before after last) as (found & Hfound & Hlast & Honly).
    { intros z Hz Hz'. destruct (equals z last) eqn:Hzl; [|done].
      rewrite <- (Hafter z Hz (sameKeys_trans _ _ _ _ Hz' Hkeys)).
      symmetry. by eapply equals_trans. }
    exists before, last, after, found. split_and!; [done..| |done|].
    + by rewrite <- (getArray_sameKeys _ _ _ Hkeys).
    + intros stored Hstored Hsx. apply Honly; [done|].
      by apply (equals_common stored last x).
Qed.

Lemma addItem_last_write_wins_witness :
  getArray
    (keysOf IAMStorage._featurePropertiesTableDef
       (FeatureProperty.mk (Some (JNum 1)) (Some (JStr "a")) (Some (JStr "name"))
          (Some (JStr "old"))))
    (addItem
       (FeatureProperty.mk (Some (JNum 1)) (Some (JStr "a")) (Some (JStr "name"))
          (Some (JStr "new")))
       (addItem
          (FeatureProperty.mk (Some (JNum 1)) (Some (JStr "a")) (Some (JStr "name"))
             (Some (JStr "old")))
          (tableOf 2 IAMStorage._featurePropertiesTableDef [])))
  = Some [FeatureProperty.mk (Some (JNum 1)) (Some (JStr "a")) (Some (JStr "name"))
            (Some (JStr "new"))].
Proof.
  apply (addItem_last_write_wins (R:=FeatureProperty.t) 2
           IAMStorage._featurePropertiesTableDef []).
  - reflexivity.
  - unfold sameKeys. simpl. repeat constructor.
  - reflexivity.
Defined.

(** ** Attributes that differ in value or dates are both kept (C4) *)

Lemma accepts_no_filter (n i : nat) key :
  accepts (replicate n (None : keyFilter)) i key = true.
Proof.
  unfold accepts. destruct (replicate n (None : keyFilter) !! i) as [f|] eqn:E; [|done].
  apply lookup_replicate in E as [-> _]. done.
Qed.

(** The inserted record is among all items. *)
Lemma getAllItems_addItem_item `{TableRecord R} {d} (item : R) (t : IAMMapTable R d) :
  length (_primaryKeys t) = S d →
  item ∈ getAllItems (replicate (S d) None) (addItem item t).
Proof.
  intros Hlen. apply getAllItems_elem_of.
  { by rewrite length_replicate. }
  exists (keysOf (_primaryKeys t) item). eexists. split_and!.
  - apply getArray_addItem_same.
  - destruct (getArray _ t); [apply addToArray_elem_of_item|].
    by apply list_elem_of_singleton.
  - intros i _. apply accepts_no_filter.
Qed.

(** A stored record that does not equal the inserted one stays. *)
Lemma getAllItems_addItem_kept `{TableRecord R} {d} (item stored : R)
  (t : IAMMapTable R d) :
  length (_primaryKeys t) = S d →
  stored ∈ getAllItems (replicate (S d) None) t →
  equals stored item = false →
  stored ∈ getAllItems (replicate (S d) None) (addItem item t).
Proof.
  intros Hlen Hin Hne.
  apply getAllItems_elem_of in Hin as (path & found & Hpath & Hin & _);
    [|by rewrite length_replicate].
  apply getAllItems_elem_of; [by rewrite length_replicate|].
  exists path. rewrite getArray_addItem, Hpath. case_decide.
  - eexists. split_and!; [done|by apply addToArray_elem_of_kept|].
    intros i _. apply accepts_no_filter.
  - exists found. split_and!; [done..|]. intros i _. apply accepts_no_filter.
Qed.

(** C4: two attributes of the same feature and name that differ in
    the value or in one of the six date fields are not equal, and after
    inserting both into the attributes table, whatever was inserted before,
    both are among its items. *)
Theorem attributes_with_different_value_or_dates_are_kept
  (items : list FeatureAttribute.t) (a b : FeatureAttribute.t) :
  FeatureAttribute.featureType a = FeatureAttribute.featureType b →
  FeatureAttribute._featureId a = FeatureAttribute._featureId b →
  FeatureAttribute._propertyName a = FeatureAttribute._propertyName b →
  (FeatureAttribute._propertyValue a, FeatureAttribute._fromYear a,
   FeatureAttribute._fromMonth a, FeatureAttribute._fromDay a,
   FeatureAttribute._toYear a, FeatureAttribute._toMonth a, FeatureAttribute._toDay a)
  ≠ (FeatureAttribute._propertyValue b, FeatureAttribute._fromYear b,
     FeatureAttribute._fromMonth b, FeatureAttribute._fromDay b,
     FeatureAttribute._toYear b, FeatureAttribute._toMonth b, FeatureAttribute._toDay b) →
  FeatureAttribute.equals a b = false ∧
  FeatureAttribute.equals b a = false ∧
  a ∈ getAllItems [None; None; None; None]
        (addItem b (addItem a (tableOf 3 IAMStorage._featureAttributesTableDef items))) ∧
  b ∈ getAllItems [None; None; None; None]
        (addItem b (addItem a (tableOf 3 IAMStorage._featureAttributesTableDef items))).
Proof.
  intros Htype Hid Hname Hdiff.
  assert (FeatureAttribute.equals a b = false) as Hab.
  { destruct (FeatureAttribute.equals a b) eqn:E; [|done]. exfalso. apply Hdiff.
    unfold FeatureAttribute.equals in E.
    rewrite !andb_true_iff, !strict_eq_true in E.
    destruct E as [[[[[[[_ Hv] Hfy] Hfm] Hfd] Hty] Htm] Htd].
    unfold FeatureAttribute.getValue, FeatureAttribute.getFromYear,
      FeatureAttribute.getFromMonth, FeatureAttribute.getFromDay,
      FeatureAttribute.getToYear, FeatureAttribute.getToMonth,
      FeatureAttribute.getToDay in *.
    congruence. }
  assert (length (_primaryKeys (tableOf 3 IAMStorage._featureAttributesTableDef items))
          = 4%nat) as Hlen by (by rewrite primaryKeys_tableOf).
  split_and!.
  - done.
  - exact (equals_false_sym (R:=FeatureAttribute.t) a b Hab).
  - apply (getAllItems_addItem_kept (d:=3)); [done| |done].
    by apply (getAllItems_addItem_item (d:=3)).
  - by apply (getAllItems_addItem_item (d:=3)).
Qed.

Lemma attributes_with_different_value_or_dates_are_kept_witness :
  FeatureAttribute.equals
    (FeatureAttribute.mk (Some (JNum 2)) (Some (JStr "line")) (Some (JStr "owner"))
       (Some (JStr "GSR")) (Some (JStr "1900")) None None (Some (JStr "1950")) None None)
    (FeatureAttribute.mk (Some (JNum 2)) (Some (JStr "line")) (Some (JStr "owner"))
       (Some (JStr "GSR")) (Some (JStr "1950")) None None None None None) = false ∧
  FeatureAttribute.equals
    (FeatureAttribute.mk (Some (JNum 2)) (Some (JStr "line")) (Some (JStr "owner"))
       (Some (JStr "GSR")) (Some (JStr "1950")) None None None None None)
    (FeatureAttribute.mk (Some (JNum 2)) (Some (JStr "line")) (Some (JStr "owner"))
       (Some (JStr "GSR")) (Some (JStr "1900")) None None (Some (JStr "1950")) None None)
  = false ∧
  FeatureAttribute.mk (Some (JNum 2)) (Some (JStr "line")) (Some (JStr "owner"))
    (Some (JStr "GSR")) (Some (JStr "1900")) None None (Some (JStr "1950")) None None
  ∈ getAllItems [None; None; None; None]
      (addItem
         (FeatureAttribute.mk (Some (JNum 2)) (Some (JStr "line")) (Some (JStr "owner"))
            (Some (JStr "GSR")) (Some (JStr "1950")) None None None None None)
         (addItem
            (FeatureAttribute.mk (Some (JNum 2)) (Some (JStr "line")) (Some (JStr "owner"))
               (Some (JStr "GSR")) (Some (JStr "1900")) None None (Some (JStr "1950"))
               None None)
            (tableOf 3 IAMStorage._featureAttributesTableDef []))) ∧
  FeatureAttribute.mk (Some (JNum 2)) (Some (JStr "line")) (Some (JStr "owner"))
    (Some (JStr "GSR")) (Some (JStr "1950")) None None None None None
  ∈ getAllItems [None; None; None; None]
      (addItem
         (FeatureAttribute.mk (Some (JNum 2)) (Some (JStr "line")) (Some (JStr "owner"))
            (Some (JStr "GSR")) (Some (JStr "1950")) None None None None None)
         (addItem
            (FeatureAttribute.mk (Some (JNum 2)) (Some (JStr "line")) (Some (JStr "owner"))
               (Some (JStr "GSR")) (Some (JStr "1900")) None None (Some (JStr "1950"))
               None None)
            (tableOf 3 IAMStorage._featureAttributesTableDef []))).
Proof.
  apply (attributes_with_different_value_or_dates_are_kept []); [reflexivity..|].
  intros Heq. discriminate Heq.
Defined.

(** ** Loading properties and attributes of missing features (C5) *)

Lemma addDetail_detailList status' detail pr :
  ProcessResult.detailList (ProcessResult.addDetail status' detail pr)
  = ProcessResult.detailList pr ++ [detail].
Proof.
  unfold ProcessResult.detailList, ProcessResult.addDetail.
  destruct (ProcessResult.status pr <? status'); simpl;
    by destruct (ProcessResult.details pr).
Qed.

Lemma Map_get_map_values {V} (g : V → V) key (m : JSMap V) :
  Map_get key (List.map (λ '(k, v), (k, g v)) m) = g <$> Map_get key m.
Proof.
  induction m as [|[k v] m IH]; simpl; [done|].
  by destruct (strict_eq k key).
Qed.

Lemma _getItem_modifyAll {R} (f : R → R) values d index (map : MapN R d) :
  _getItem values d index (_modifyAll f d map) = f <$> _getItem values d index map.
Proof.
  revert index map. induction d as [|d IH]; intros index map;
    cbn [_getItem _modifyAll].
  - rewrite (Map_get_map_values (List.map f)).
    destruct (Map_get _ map) as [[|item found]|]; done.
  - rewrite (Map_get_map_values (V:=MapN R d) (_modifyAll f d)).
    destruct (Map_get (V:=MapN R d) _ map); simpl; [apply IH|done].
Qed.

Lemma _getItem_modifyItem {R} (f : R → R) values values' d index (map : MapN R d) :
  ∃ g, _getItem values' d index (_modifyItem f values d index map)
       = g <$> _getItem values' d index map.
Proof.
  revert index map. induction d as [|d IH]; intros index map;
    cbn [_getItem _modifyItem].
  - destruct (Map_get (mjoin (values !! index)) map) as [[|item found]|] eqn:E;
      [by exists id; rewrite option_fmap_id| |by exists id; rewrite option_fmap_id].
    destruct (decide (mjoin (values !! index) = mjoin (values' !! index))) as [Heq|Hne].
    + rewrite <- Heq, Map_get_set_eq, E. by exists f.
    + rewrite Map_get_set_ne by done. by exists id; rewrite option_fmap_id.
  - destruct (Map_get (V:=MapN R d) (mjoin (values !! index)) map) as [found|] eqn:E;
      [|by exists id; rewrite option_fmap_id].
    destruct (decide (mjoin (values !! index) = mjoin (values' !! index))) as [Heq|Hne].
    + rewrite <- Heq, Map_get_set_eq, E. apply IH.
    + rewrite Map_get_set_ne by done. by exists id; rewrite option_fmap_id.
Qed.

Lemma featurePresent_features ty id (this this' : IAMStorage.t) g :
  (∀ values, getItem values (IAMStorage._features this')
             = g values <$> getItem values (IAMStorage._features this)) →
  IAMStorage.featurePresent ty id this' = IAMStorage.featurePresent ty id this.
Proof.
  intros Hg. unfold IAMStorage.featurePresent, IAMStorage.getFeature.
  destruct (IAMStorage.featureKeys ty id) as [values|]; [|done].
  rewrite Hg. by destruct (getItem values (IAMStorage._features this)).
Qed.

Lemma featurePresent_mutateFeature f ty' id' ty id (this : IAMStorage.t) :
  IAMStorage.featurePresent ty id (IAMStorage.mutateFeature f ty' id' this)
  = IAMStorage.featurePresent ty id this.
Proof.
  unfold IAMStorage.mutateFeature.
  destruct (IAMStorage.featureKeys ty' id') as [values'|]; [|done].
  unfold IAMStorage.featurePresent, IAMStorage.getFeature.
  destruct (IAMStorage.featureKeys ty id) as [values|]; [|done].
  cbn [IAMStorage.set_features IAMStorage._features].
  unfold getItem, modifyItem. cbn [_mapTable].
  destruct (_getItem_modifyItem f values' values 1 0
              (_mapTable (IAMStorage._features this))) as [g ->].
  by destruct (_getItem values 1 0 _).
Qed.

Lemma featurePresent_modifyAll f ty id (this that : IAMStorage.t) :
  IAMStorage._features that = modifyAll f (IAMStorage._features this) →
  IAMStorage.featurePresent ty id that = IAMStorage.featurePresent ty id this.
Proof.
  intros Hfeatures. unfold IAMStorage.featurePresent, IAMStorage.getFeature.
  destruct (IAMStorage.featureKeys ty id) as [values|]; [|done].
  rewrite Hfeatures. unfold getItem, modifyAll. cbn [_mapTable].
  rewrite _getItem_modifyAll.
  by destruct (_getItem values 1 0 _).
Qed.

Lemma loadFeaturesProperties_step_present this pr counter p found :
  IAMStorage.getFeature (FeatureProperty.getFeatureType p)
    (FeatureProperty.getFeatureId p) this = Some found →
  IAMStorage.loadFeaturesProperties_step (this, pr, counter) p
  = (IAMStorage.mutateFeature
       (ExtendedFeature.addProperty (FeatureProperty.getName p)
          (PValue (FeatureProperty.getValue p)))
       (FeatureProperty.getFeatureType p) (FeatureProperty.getFeatureId p)
       (IAMStorage.set_featureProperties
          (addItem p (IAMStorage._featureProperties this)) this),
     pr, counter + 1).
Proof. intros Hfound. unfold IAMStorage.loadFeaturesProperties_step. by rewrite Hfound. Qed.

Lemma loadFeaturesProperties_step_absent this pr counter p :
  IAMStorage.getFeature (FeatureProperty.getFeatureType p)
    (FeatureProperty.getFeatureId p) this = None →
  IAMStorage.loadFeaturesProperties_step (this, pr, counter) p
  = (this,
     ProcessResult.addDetail ProcessResult.WARN (IAMStorage.propertyWarning p) pr,
     counter).
Proof. intros Hnone. unfold IAMStorage.loadFeaturesProperties_step. by rewrite Hnone. Qed.

Lemma loadFeaturesAttributes_step_present this pr counter a found :
  IAMStorage.getFeature (FeatureAttribute.getFeatureType a)
    (FeatureAttribute.getFeatureId a) this = Some found →
  IAMStorage.loadFeaturesAttributes_step (this, pr, counter) a
  = (IAMStorage.mutateFeature (ExtendedFeature.addAttribute a)
       (FeatureAttribute.getFeatureType a) (FeatureAttribute.getFeatureId a)
       (IAMStorage.set_featureAttributes
          (addItem a (IAMStorage._featureAttributes this)) this),
     pr, counter + 1).
Proof. intros Hfound. unfold IAMStorage.loadFeaturesAttributes_step. by rewrite Hfound. Qed.

Lemma loadFeaturesAttributes_step_absent this pr counter a :
  IAMStorage.getFeature (FeatureAttribute.getFeatureType a)
    (FeatureAttribute.getFeatureId a) this = None →
  IAMStorage.loadFeaturesAttributes_step (this, pr, counter) a
  = (this,
     ProcessResult.addDetail ProcessResult.WARN (IAMStorage.attributeWarning a) pr,
     counter).
Proof. intros Hnone. unfold IAMStorage.loadFeaturesAttributes_step. by rewrite Hnone. Qed.

Lemma featurePresent_getFeature ty id this :
  IAMStorage.featurePresent ty id this = true ↔
  ∃ found, IAMStorage.getFeature ty id this = Some found.
Proof.
  unfold IAMStorage.featurePresent.
  destruct (IAMStorage.getFeature ty id this) as [found|].
  - split; [by eexists|done].
  - split; [done|by intros [? ?]].
Qed.

Lemma featurePresent_false ty id this :
  IAMStorage.featurePresent ty id this = false ↔ IAMStorage.getFeature ty id this = None.
Proof.
  unfold IAMStorage.featurePresent.
  by destruct (IAMStorage.getFeature ty id this).
Qed.

Lemma tables_mutateFeature f ty id (this : IAMStorage.t) :
  IAMStorage._featureProperties (IAMStorage.mutateFeature f ty id this)
  = IAMStorage._featureProperties this ∧
  IAMStorage._featureAttributes (IAMStorage.mutateFeature f ty id this)
  = IAMStorage._featureAttributes this ∧
  IAMStorage._featureSettings (IAMStorage.mutateFeature f ty id this)
  = IAMStorage._featureSettings this.
Proof. unfold IAMStorage.mutateFeature. by destruct (IAMStorage.featureKeys ty id). Qed.

(** The loop of [loadFeaturesProperties], from any state in which the same
    features are present as in [this0]. *)
Lemma loadFeaturesProperties_loop (this0 : IAMStorage.t) records this pr counter :
  (∀ ty id, IAMStorage.featurePresent ty id this = IAMStorage.featurePresent ty id this0) →
  ∃ final,
    fold_left IAMStorage.loadFeaturesProperties_step records (this, pr, counter)
    = (final, counter
                + Z.of_nat (length (List.filter
                     (λ p, IAMStorage.featurePresent (FeatureProperty.getFeatureType p)
                             (FeatureProperty.getFeatureId p) this0) records))) ∧
    IAMStorage._featureProperties final.1
    = fold_left (λ table p, addItem p table)
        (List.filter
           (λ p, IAMStorage.featurePresent (FeatureProperty.getFeatureType p)
                   (FeatureProperty.getFeatureId p) this0) records)
        (IAMStorage._featureProperties this) ∧
    ProcessResult.detailList final.2
    = ProcessResult.detailList pr
      ++ (IAMStorage.propertyWarning <$>
            List.filter
              (λ p, negb (IAMStorage.featurePresent (FeatureProperty.getFeatureType p)
                            (FeatureProperty.getFeatureId p) this0)) records) ∧
    ProcessResult.status final.2
    = match List.filter
              (λ p, negb (IAMStorage.featurePresent (FeatureProperty.getFeatureType p)
                            (FeatureProperty.getFeatureId p) this0)) records with
      | [] => ProcessResult.status pr
      | _ :: _ => Z.max (ProcessResult.status pr) ProcessResult.WARN
      end.
Proof.
  revert this pr counter.
  induction records as [|p records IH]; intros this pr counter Hpresent;
    cbn [fold_left List.filter].
  - exists (this, pr). split_and!; [f_equal; simpl; lia|done| |done].
    simpl. by rewrite app_nil_r.
  - pose proof (Hpresent (FeatureProperty.getFeatureType p)
                  (FeatureProperty.getFeatureId p)) as Hp.
    destruct (IAMStorage.featurePresent (FeatureProperty.getFeatureType p)
                (FeatureProperty.getFeatureId p) this0) eqn:E.
    + apply featurePresent_getFeature in Hp as [found Hfound].
      rewrite (loadFeaturesProperties_step_present _ _ _ _ found Hfound).
      edestruct IH as (final & Hfold & Htable & Hdetails & Hstatus); last first.
      { exists final.
        rewrite Hfold, Htable, Hdetails, Hstatus, (proj1 (tables_mutateFeature _ _ _ _)).
        cbn [negb length fold_left].
        split_and!; [f_equal; lia|done..]. }
      intros ty id. rewrite featurePresent_mutateFeature. apply Hpresent.
    + apply featurePresent_false in Hp.
      rewrite (loadFeaturesProperties_step_absent _ _ _ _ Hp).
      edestruct IH as (final & Hfold & Htable & Hdetails & Hstatus); last first.
      { exists final. rewrite Hfold, Htable, Hdetails, Hstatus.
        cbn [negb fmap list_fmap].
        split_and!; [done..| |].
        - rewrite addDetail_detailList. by rewrite <- app_assoc.
        - rewrite addDetail_status. case_match; [done|].
          by rewrite <- Z.max_assoc, Z.max_id. }
      done.
Qed.

(** The loop of [loadFeaturesAttributes]. *)
Lemma loadFeaturesAttributes_loop (this0 : IAMStorage.t) records this pr counter :
  (∀ ty id, IAMStorage.featurePresent ty id this = IAMStorage.featurePresent ty id this0) →
  ∃ final,
    fold_left IAMStorage.loadFeaturesAttributes_step records (this, pr, counter)
    = (final, counter
                + Z.of_nat (length (List.filter
                     (λ a, IAMStorage.featurePresent (FeatureAttribute.getFeatureType a)
                             (FeatureAttribute.getFeatureId a) this0) records))) ∧
    IAMStorage._featureAttributes final.1
    = fold_left (λ table a, addItem a table)
        (List.filter
           (λ a, IAMStorage.featurePresent (FeatureAttribute.getFeatureType a)
                   (FeatureAttribute.getFeatureId a) this0) records)
        (IAMStorage._featureAttributes this) ∧
    ProcessResult.detailList final.2
    = ProcessResult.detailList pr
      ++ (IAMStorage.attributeWarning <$>
            List.filter
              (λ a, negb (IAMStorage.featurePresent (FeatureAttribute.getFeatureType a)
                            (FeatureAttribute.getFeatureId a) this0)) records) ∧
    ProcessResult.status final.2
    = match List.filter
              (λ a, negb (IAMStorage.featurePresent (FeatureAttribute.getFeatureType a)
                            (FeatureAttribute.getFeatureId a) this0)) records with
      | [] => ProcessResult.status pr
      | _ :: _ => Z.max (ProcessResult.status pr) ProcessResult.WARN
      end.
Proof.
  revert this pr counter.
  induction records as [|a records IH]; intros this pr counter Hpresent;
    cbn [fold_left List.filter].
  - exists (this, pr). split_and!; [f_equal; simpl; lia|done| |done].
    simpl. by rewrite app_nil_r.
  - pose proof (Hpresent (FeatureAttribute.getFeatureType a)
                  (FeatureAttribute.getFeatureId a)) as Ha.
    destruct (IAMStorage.featurePresent (FeatureAttribute.getFeatureType a)
                (FeatureAttribute.getFeatureId a) this0) eqn:E.
    + apply featurePresent_getFeature in Ha as [found Hfound].
      rewrite (loadFeaturesAttributes_step_present _ _ _ _ found Hfound).
      edestruct IH as (final & Hfold & Htable & Hdetails & Hstatus); last first.
      { exists final.
        rewrite Hfold, Htable, Hdetails, Hstatus,
          (proj1 (proj2 (tables_mutateFeature _ _ _ _))).
        cbn [negb length fold_left].
        split_and!; [f_equal; lia|done..]. }
      intros ty id. rewrite featurePresent_mutateFeature. apply Hpresent.
    + apply featurePresent_false in Ha.
      rewrite (loadFeaturesAttributes_step_absent _ _ _ _ Ha).
      edestruct IH as (final & Hfold & Htable & Hdetails & Hstatus); last first.
      { exists final. rewrite Hfold, Htable, Hdetails, Hstatus.
        cbn [negb fmap list_fmap].
        split_and!; [done..| |].
        - rewrite addDetail_detailList. by rewrite <- app_assoc.
        - rewrite addDetail_status. case_match; [done|].
          by rewrite <- Z.max_assoc, Z.max_id. }
      done.
Qed.

(** C5: [loadFeaturesProperties] and [loadFeaturesAttributes] go through
    all records of the data source.  The table ends up as the table before
    the load (a new table on DROPTABLE) with exactly the records inserted
    whose feature is in the features table; every other record leaves the
    table as it is and adds one detail, its warning, added with the status
    WARN; the details of the load are these warnings, in the order of the
    records, followed by the one closing detail that counts the inserted
    records. *)
Theorem load_skips_records_without_feature (datasource : DataSource.t)
  (insertType : Z) (pr : ProcessResult.t) (this : IAMStorage.t) :
  (IAMStorage._featureProperties
     (IAMStorage.loadFeaturesProperties datasource insertType pr this).1
   = fold_left (λ table p, addItem p table)
       (List.filter
          (λ p, IAMStorage.featurePresent (FeatureProperty.getFeatureType p)
                  (FeatureProperty.getFeatureId p) this)
          (DataSource.getFeaturesProperties datasource))
       (if insertType =? IAMData.DROPTABLE
        then newIAMMapTable 2 IAMStorage._featurePropertiesTableDef
        else IAMStorage._featureProperties this) ∧
   ProcessResult.detailList
     (IAMStorage.loadFeaturesProperties datasource insertType pr this).2
   = ProcessResult.detailList pr
     ++ (IAMStorage.propertyWarning <$>
           List.filter
             (λ p, negb (IAMStorage.featurePresent (FeatureProperty.getFeatureType p)
                           (FeatureProperty.getFeatureId p) this))
             (DataSource.getFeaturesProperties datasource))
     ++ [pretty (Z.of_nat (length
           (List.filter
              (λ p, IAMStorage.featurePresent (FeatureProperty.getFeatureType p)
                      (FeatureProperty.getFeatureId p) this)
              (DataSource.getFeaturesProperties datasource))))
         +:+ " feature properties successfully loaded into database."] ∧
   ProcessResult.status
     (IAMStorage.loadFeaturesProperties datasource insertType pr this).2
   = match List.filter
             (λ p, negb (IAMStorage.featurePresent (FeatureProperty.getFeatureType p)
                           (FeatureProperty.getFeatureId p) this))
             (DataSource.getFeaturesProperties datasource) with
     | [] => Z.max (ProcessResult.status pr) ProcessResult.INFO
     | _ :: _ => Z.max (ProcessResult.status pr) ProcessResult.WARN
     end) ∧
  (IAMStorage._featureAttributes
     (IAMStorage.loadFeaturesAttributes datasource insertType pr this).1
   = fold_left (λ table a, addItem a table)
       (List.filter
          (λ a, IAMStorage.featurePresent (FeatureAttribute.getFeatureType a)
                  (FeatureAttribute.getFeatureId a) this)
          (DataSource.getFeaturesAttributes datasource))
       (if insertType =? IAMData.DROPTABLE
        then newIAMMapTable 3 IAMStorage._featureAttributesTableDef
        else IAMStorage._featureAttributes this) ∧
   ProcessResult.detailList
     (IAMStorage.loadFeaturesAttributes datasource insertType pr this).2
   = ProcessResult.detailList pr
     ++ (IAMStorage.attributeWarning <$>
           List.filter
             (λ a, negb (IAMStorage.featurePresent (FeatureAttribute.getFeatureType a)
                           (FeatureAttribute.getFeatureId a) this))
             (DataSource.getFeaturesAttributes datasource))
     ++ [pretty (Z.of_nat (length
           (List.filter
              (λ a, IAMStorage.featurePresent (FeatureAttribute.getFeatureType a)
                      (FeatureAttribute.getFeatureId a) this)
              (DataSource.getFeaturesAttributes datasource))))
         +:+ " feature attributes successfully loaded into database."] ∧
   ProcessResult.status
     (IAMStorage.loadFeaturesAttributes datasource insertType pr this).2
   = match List.filter
             (λ a, negb (IAMStorage.featurePresent (FeatureAttribute.getFeatureType a)
                           (FeatureAttribute.getFeatureId a) this))
             (DataSource.getFeaturesAttributes datasource) with
     | [] => Z.max (ProcessResult.status pr) ProcessResult.INFO
     | _ :: _ => Z.max (ProcessResult.status pr) ProcessResult.WARN
     end).
Proof.
  split.
  - unfold IAMStorage.loadFeaturesProperties.
    set (start := if insertType =? IAMData.DROPTABLE then _ else this).
    assert (∀ ty id, IAMStorage.featurePresent ty id start
                     = IAMStorage.featurePresent ty id this) as Hpresent.
    { intros ty id. subst start. destruct (insertType =? IAMData.DROPTABLE); [|done].
      by apply (featurePresent_modifyAll ExtendedFeature.clearProperties). }
    destruct (loadFeaturesProperties_loop this
                (DataSource.getFeaturesProperties datasource) start pr 0 Hpresent)
      as ([final pr'] & Hfold & Htable & Hdetails & Hstatus).
    rewrite Hfold. cbn [fst snd] in *.
    rewrite addDetail_detailList, addDetail_status, Htable, Hdetails, Hstatus.
    split_and!.
    + subst start. by destruct (insertType =? IAMData.DROPTABLE).
    + by rewrite <- app_assoc, Z.add_0_l.
    + case_match; [done|]. rewrite <- Z.max_assoc. done.
  - unfold IAMStorage.loadFeaturesAttributes.
    set (start := if insertType =? IAMData.DROPTABLE then _ else this).
    assert (∀ ty id, IAMStorage.featurePresent ty id start
                     = IAMStorage.featurePresent ty id this) as Hpresent.
    { intros ty id. subst start. destruct (insertType =? IAMData.DROPTABLE); [|done].
      by apply (featurePresent_modifyAll ExtendedFeature.clearAttributes). }
    destruct (loadFeaturesAttributes_loop this
                (DataSource.getFeaturesAttributes datasource) start pr 0 Hpresent)
      as ([final pr'] & Hfold & Htable & Hdetails & Hstatus).
    rewrite Hfold. cbn [fst snd] in *.
    rewrite addDetail_detailList, addDetail_status, Htable, Hdetails, Hstatus.
    split_and!.
    + subst start. by destruct (insertType =? IAMData.DROPTABLE).
    + by rewrite <- app_assoc, Z.add_0_l.
    + case_match; [done|]. rewrite <- Z.max_assoc. done.
Qed.

(** ** The standard settings (C9) *)

(** The invariant of the settings table, for one feature type. *)
Lemma standardSlot_addItem (ty : Z) (item : FeatureSettings.t)
  (table : IAMMapTable FeatureSettings.t 3) :
  _primaryKeys table = IAMStorage._featureSettingsTableDef →
  (∃ setting,
     getArray (standardKeys ty) table = Some [setting] ∧
     sameKeys 3 (keysOf IAMStorage._featureSettingsTableDef setting) (standardKeys ty)) →
  ∃ setting,
    getArray (standardKeys ty) (addItem item table) = Some [setting] ∧
    sameKeys 3 (keysOf IAMStorage._featureSettingsTableDef setting) (standardKeys ty).
Proof.
  intros Hpks (setting & Harray & Hkeys).
  rewrite getArray_addItem, Hpks, Harray. case_decide as Hsame; [|by exists setting].
  exists item. split.
  - f_equal. unfold addToArray. simpl.
    assert (FeatureSettings.equals setting item = true) as Hequal; [|by rewrite Hequal].
    pose proof (proj1 (sameKeys_spec _ _ _) Hkeys) as Hs.
    pose proof (proj1 (sameKeys_spec _ _ _) Hsame) as Hi.
    pose proof (Hs 0%nat ltac:(lia)) as Hs0. pose proof (Hi 0%nat ltac:(lia)) as Hi0.
    pose proof (Hs 1%nat ltac:(lia)) as Hs1. pose proof (Hi 1%nat ltac:(lia)) as Hi1.
    pose proof (Hs 2%nat ltac:(lia)) as Hs2. pose proof (Hi 2%nat ltac:(lia)) as Hi2.
    pose proof (Hs 3%nat ltac:(lia)) as Hs3. pose proof (Hi 3%nat ltac:(lia)) as Hi3.
    unfold FeatureSettings.equals, FeatureSettings.getFeatureType,
      FeatureSettings.getLevelType, FeatureSettings.getLevelName,
      FeatureSettings.getLevelValue.
    cbn in Hs0, Hs1, Hs2, Hs3, Hi0, Hi1, Hi2, Hi3.
    rewrite !andb_true_iff, !strict_eq_true. split_and!; congruence.
  - apply sameKeys_spec. intros i Hi. symmetry.
    by apply (proj1 (sameKeys_spec _ _ _) Hsame).
Qed.

Lemma primaryKeys_addItem `{TableRecord R} {d} (item : R) (t : IAMMapTable R d) :
  _primaryKeys (addItem item t) = _primaryKeys t.
Proof. done. Qed.

Lemma standardSlot_fold (ty : Z) (items : list FeatureSettings.t)
  (table : IAMMapTable FeatureSettings.t 3) :
  _primaryKeys table = IAMStorage._featureSettingsTableDef →
  (∃ setting,
     getArray (standardKeys ty) table = Some [setting] ∧
     sameKeys 3 (keysOf IAMStorage._featureSettingsTableDef setting) (standardKeys ty)) →
  let final := (fold_left (λ '(settings, counter) featuresSettings,
                   (addItem featuresSettings settings, counter + 1))
                 items (table, 0)).1 in
  _primaryKeys final = IAMStorage._featureSettingsTableDef ∧
  ∃ setting,
    getArray (standardKeys ty) final = Some [setting] ∧
    sameKeys 3 (keysOf IAMStorage._featureSettingsTableDef setting) (standardKeys ty).
Proof.
  generalize 0. revert table.
  induction items as [|item items IH]; intros table counter Hpks Hslot; simpl.
  - done.
  - apply IH; [done|]. by apply standardSlot_addItem.
Qed.

(** The settings table that [_init] and a DROPTABLE [loadSettings] start
    from. *)
Lemma standardSlot_init (ty : Z) :
  ty = 1 ∨ ty = 2 ∨ ty = 3 →
  ∃ setting,
    getArray (standardKeys ty)
      (IAMStorage._initStandardSettings
         (newIAMMapTable 3 IAMStorage._featureSettingsTableDef))
    = Some [setting] ∧
    sameKeys 3 (keysOf IAMStorage._featureSettingsTableDef setting) (standardKeys ty).
Proof.
  intros [-> | [-> | ->]]; eexists; (split; [vm_compute; reflexivity|]);
    unfold sameKeys; simpl; repeat constructor.
Qed.

Lemma featureSettings_properties_loop records acc :
  IAMStorage._featureSettings
    (fold_left IAMStorage.loadFeaturesProperties_step records acc).1.1
  = IAMStorage._featureSettings acc.1.1.
Proof.
  revert acc. induction records as [|record records IH]; intros [[this pr] counter].
  - done.
  - cbn [fold_left]. rewrite IH. unfold IAMStorage.loadFeaturesProperties_step.
    destruct (IAMStorage.getFeature _ _ this); [|done].
    cbn [fst]. by rewrite (proj2 (proj2 (tables_mutateFeature _ _ _ _))).
Qed.

Lemma featureSettings_attributes_loop records acc :
  IAMStorage._featureSettings
    (fold_left IAMStorage.loadFeaturesAttributes_step records acc).1.1
  = IAMStorage._featureSettings acc.1.1.
Proof.
  revert acc. induction records as [|record records IH]; intros [[this pr] counter].
  - done.
  - cbn [fold_left]. rewrite IH. unfold IAMStorage.loadFeaturesAttributes_step.
    destruct (IAMStorage.getFeature _ _ this); [|done].
    cbn [fst]. by rewrite (proj2 (proj2 (tables_mutateFeature _ _ _ _))).
Qed.

Lemma standardSlot_new (ty : Z) :
  ty = 1 ∨ ty = 2 ∨ ty = 3 →
  standardSlot ty
    (IAMStorage._initStandardSettings
       (newIAMMapTable 3 IAMStorage._featureSettingsTableDef)).
Proof. intros Hty. split; [done|]. by apply standardSlot_init. Qed.

(** Every call keeps the record of the standard setting. *)
Lemma standardSlot_perform (ty : Z) operation (this : IAMStorage.t) :
  ty = 1 ∨ ty = 2 ∨ ty = 3 →
  standardSlot ty (IAMStorage._featureSettings this) →
  standardSlot ty (IAMStorage._featureSettings (perform operation this)).
Proof.
  intros Hty [Hpks Hslot].
  destruct operation as [item|ds mode pr|ds mode pr|ds mode pr|ds mode pr]; cbn [perform].
  - split; [done|]. by apply standardSlot_addItem.
  - unfold IAMStorage.loadFeatures.
    destruct (fold_left _ _ _) as [features counter] eqn:Hfold. cbn [fst].
    destruct (mode =? IAMData.DROPTABLE); [by apply standardSlot_new|done].
  - unfold IAMStorage.loadFeaturesProperties.
    destruct (fold_left _ _ _) as [[final pr'] counter] eqn:Hfold. cbn [fst].
    pose proof (featureSettings_properties_loop
                  (DataSource.getFeaturesProperties ds)) as Hloop.
    specialize (Hloop (if mode =? IAMData.DROPTABLE
       then IAMStorage.set_features
              (modifyAll ExtendedFeature.clearProperties (IAMStorage._features this))
              (IAMStorage.set_featureProperties
                 (newIAMMapTable 2 IAMStorage._featurePropertiesTableDef) this)
       else this, pr, 0)).
    rewrite Hfold in Hloop. cbn [fst] in Hloop. rewrite Hloop.
    by destruct (mode =? IAMData.DROPTABLE).
  - unfold IAMStorage.loadFeaturesAttributes.
    destruct (fold_left _ _ _) as [[final pr'] counter] eqn:Hfold. cbn [fst].
    pose proof (featureSettings_attributes_loop
                  (DataSource.getFeaturesAttributes ds)) as Hloop.
    specialize (Hloop (if mode =? IAMData.DROPTABLE
       then IAMStorage.set_features
              (modifyAll ExtendedFeature.clearAttributes (IAMStorage._features this))
              (IAMStorage.set_featureAttributes
                 (newIAMMapTable 3 IAMStorage._featureAttributesTableDef) this)
       else this, pr, 0)).
    rewrite Hfold in Hloop. cbn [fst] in Hloop. rewrite Hloop.
    by destruct (mode =? IAMData.DROPTABLE).
  - unfold IAMStorage.loadSettings.
    destruct (fold_left _ _ _) as [settings counter] eqn:Hfold. cbn [fst].
    change (IAMStorage._featureSettings (IAMStorage.set_featureSettings settings _))
      with settings.
    replace settings with (settings, counter).1 by done. rewrite <- Hfold.
    destruct (mode =? IAMData.DROPTABLE).
    + destruct (standardSlot_new ty Hty) as [Hpks' Hslot'].
      by apply (standardSlot_fold ty).
    + by apply (standardSlot_fold ty).
Qed.

Lemma standardSlot_stateAfter (ty : Z) operations :
  ty = 1 ∨ ty = 2 ∨ ty = 3 →
  standardSlot ty (IAMStorage._featureSettings (stateAfter operations)).
Proof.
  intros Hty. unfold stateAfter.
  induction operations as [|operation operations IH] using rev_ind.
  - by apply standardSlot_new.
  - rewrite fold_left_app. cbn [fold_left]. by apply standardSlot_perform.
Qed.

(** The record of the standard setting is found by [getStandardSettings]. *)
Lemma standardSlot_hasStandardSetting (ty : Z) (this : IAMStorage.t) :
  standardSlot ty (IAMStorage._featureSettings this) → hasStandardSetting ty this.
Proof.
  intros [Hpks (setting & Harray & Hkeys)]. split.
  - exists setting. split; [done|].
    pose proof (proj1 (sameKeys_spec _ _ _) Hkeys) as Hs.
    pose proof (Hs 0%nat ltac:(lia)) as Hs0. pose proof (Hs 1%nat ltac:(lia)) as Hs1.
    pose proof (Hs 2%nat ltac:(lia)) as Hs2. pose proof (Hs 3%nat ltac:(lia)) as Hs3.
    by split_and!.
  - unfold IAMStorage.getStandardSettings.
    destruct (getAllItems _ _) as [|first rest] eqn:Hall; [|by eexists].
    assert (setting ∈ @nil FeatureSettings.t) as Hin; [|by apply elem_of_nil in Hin].
    rewrite <- Hall. apply getAllItems_elem_of; [by rewrite Hpks|].
    exists (standardKeys ty), [setting]. split_and!; [done|by constructor|].
    intros i Hi.
    destruct i as [|[|[|[|i]]]]; [| | | |lia]; cbn; try done.
    + unfold parseInt_eq. cbn. by rewrite Z.eqb_refl.
Qed.

(** A second setting of level Standard for points: after
    [addSetting(new PointSettings({levelType: LEVEL_STANDARD, levelName:
    'Capital', levelValue: ''}))] on a new storage, two settings of type Point
    and level Standard are stored, the seeded one and the added one. *)
Lemma two_standard_level_settings_for_points :
  (FeatureSettings.getLevelName <$>
     IAMStorage.getSettings (Some (JNum FeatureType.POINT))
       (Some (JNum FeatureSettings.LEVEL_STANDARD)) None None
       (stateAfter
          [AddSetting
             (PointSettings.new
                (FeatureSettings.params
                   {[ "levelType" := JNum FeatureSettings.LEVEL_STANDARD;
                      "levelName" := JStr "Capital";
                      "levelValue" := JStr "" ]}))]))
  = [Some (JStr "Standard"); Some (JStr "Capital")].
Proof. vm_compute. reflexivity. Qed.

(** C9, as amended: after [new IAMStorage()] and any calls of [addSetting],
    [loadFeatures], [loadFeaturesProperties], [loadFeaturesAttributes] and
    [loadSettings], in any insert mode, each of the types Point, LineString
    and Polygon has one record stored under the identity (type,
    LEVEL_STANDARD, 'Standard', ''), and [getStandardSettings(type)] is
    defined.  The record is seeded with the storage, seeded again by a
    DROPTABLE load of features or settings, replaced by a setting of the
    same identity and removed by no call. *)
Theorem standard_setting_always_present (operations : list Operation) :
  hasStandardSetting FeatureType.POINT (stateAfter operations) ∧
  hasStandardSetting FeatureType.LINESTRING (stateAfter operations) ∧
  hasStandardSetting FeatureType.POLYGON (stateAfter operations).
Proof.
  split_and!; apply standardSlot_hasStandardSetting, standardSlot_stateAfter;
    unfold FeatureType.POINT, FeatureType.LINESTRING, FeatureType.POLYGON; tauto.
Qed.

(** ** Arrays: the insertion sort *)

Lemma sort_insert_Permutation {A} (compareFn : A → A → option Z) x sorted :
  sort_insert compareFn x sorted ≡ₚ x :: sorted.
Proof.
  induction sorted as [|y sorted IH]; [done|]. cbn [sort_insert].
  destruct (isNegative (compareFn x y)); [done|].
  rewrite IH. apply Permutation_swap.
Qed.

Lemma Array_sort_Permutation {A} (compareFn : A → A → option Z) array :
  Array_sort compareFn array ≡ₚ array.
Proof.
  unfold Array_sort.
  assert (∀ sorted, fold_left (λ sorted x, sort_insert compareFn x sorted) array sorted
                    ≡ₚ sorted ++ array) as Hfold.
  { induction array as [|x array IH]; intros sorted; cbn [fold_left].
    - by rewrite app_nil_r.
    - rewrite IH, sort_insert_Permutation.
      by rewrite (Permutation_middle sorted array x). }
  apply Hfold.
Qed.



(** * Further properties of the code *)

(** ** IAMMapTable: queries on a table built by insertions *)

Lemma getAllItems_addItem_iff `{TableRecord R} d pks (items : list R) item x :
  length pks = S d →
  x ∈ getAllItems (replicate (length pks) None) (addItem item (tableOf d pks items)) ↔
  x = item ∨
  (x ∈ getAllItems (replicate (length pks) None) (tableOf d pks items) ∧
   (sameKeys d (keysOf pks x) (keysOf pks item) → equals x item = false)).
Proof.
  intros Hlen.
  rewrite !getAllItems_elem_of
    by (by rewrite ?primaryKeys_addItem, primaryKeys_tableOf, length_replicate).
  split.
  - intros (path & found & Hfound & Hx & _).
    rewrite getArray_addItem, primaryKeys_tableOf in Hfound. case_decide as Hsame.
    + injection Hfound as <-.
      destruct (getArray path (tableOf d pks items)) as [old|] eqn:Hold.
      * apply addToArray_elem_of in Hx as [->|[Hin Hne]]; [by left|]. right.
        split; [|done]. exists path, old. split_and!; [done..|].
        intros i _. apply accepts_no_filter.
      * apply list_elem_of_singleton in Hx. by left.
    + right. split.
      * exists path, found. split_and!; [done..|]. intros i _. apply accepts_no_filter.
      * intros Hx'. exfalso. apply Hsame.
        destruct (tableOf_stored _ _ _ _ _ _ Hfound Hx) as [_ Hkeys].
        apply sameKeys_spec. intros i Hi.
        rewrite <- (proj1 (sameKeys_spec _ _ _) Hkeys i Hi).
        by apply (proj1 (sameKeys_spec _ _ _) Hx').
  - intros [->|[(path & found & Hfound & Hx & _) Hne]].
    + exists (keysOf pks item). eexists. split_and!.
      * rewrite getArray_addItem, primaryKeys_tableOf, decide_True; [done|].
        by apply sameKeys_spec.
      * destruct (getArray (keysOf pks item) (tableOf d pks items));
          [apply addToArray_elem_of_item|by constructor].
      * intros i _. apply accepts_no_filter.
    + exists path. rewrite getArray_addItem, primaryKeys_tableOf, Hfound.
      destruct (tableOf_stored _ _ _ _ _ _ Hfound Hx) as [_ Hkeys].
      case_decide as Hsame.
      * eexists. split_and!; [done| |intros i _; apply accepts_no_filter].
        apply addToArray_elem_of_kept; [done|]. apply Hne.
        apply sameKeys_spec. intros i Hi.
        rewrite (proj1 (sameKeys_spec _ _ _) Hkeys i Hi).
        by apply (proj1 (sameKeys_spec _ _ _) Hsame).
      * exists found. split_and!; [done..|]. intros i _. apply accepts_no_filter.
Qed.

(** X1: the records that [getAllItems] returns without filters, on a table
    built by insertions, are exactly the inserted records that no later
    insertion has overwritten: a record is returned if and only if it was
    inserted and no record inserted after it, under the same keys, is one
    that it [equals]. *)
Theorem getAllItems_last_insertions `{TableRecord R} (d : nat) (pks : list string)
  (items : list R) (x : R) :
  length pks = S d →
  x ∈ getAllItems (replicate (length pks) None) (tableOf d pks items) ↔
  ∃ before after,
    items = before ++ x :: after ∧
    ∀ y, y ∈ after → sameKeys d (keysOf pks x) (keysOf pks y) → equals x y = false.
Proof.
  intros Hlen. induction items as [|item items IH] using rev_ind.
  - split.
    + rewrite getAllItems_elem_of
        by (by rewrite primaryKeys_tableOf, length_replicate).
      intros (path & found & Hfound & _).
      unfold tableOf, getArray in Hfound. cbn in Hfound.
      by rewrite _getArray_new in Hfound.
    + intros (before & after & Hitems & _). by destruct before.
  - rewrite tableOf_snoc, getAllItems_addItem_iff by done. rewrite IH. split.
    + intros [->|[(before & after & -> & Hafter) Hitem]].
      * exists items, []. split; [done|]. intros y Hy. by apply elem_of_nil in Hy.
      * exists before, (after ++ [item]). split; [by rewrite <- app_assoc|].
        intros y Hy. apply elem_of_app in Hy as [Hy|Hy]; [by apply Hafter|].
        apply list_elem_of_singleton in Hy as ->. done.
    + intros (before & after & Hitems & Hafter).
      destruct after as [|last after _] using rev_ind.
      * left. apply (f_equal (@rev R)) in Hitems.
        rewrite !rev_app_distr in Hitems. cbn in Hitems. by injection Hitems as <- _.
      * right. rewrite app_comm_cons, app_assoc in Hitems.
        apply app_inj_tail in Hitems as [-> ->]. split.
        -- exists before, after. split; [done|]. intros y Hy. apply Hafter.
           apply elem_of_app. by left.
        -- apply Hafter. apply elem_of_app. right. by constructor.
Qed.

Lemma getAllItems_last_insertions_witness :
  town ∈ getAllItems (replicate (length IAMStorage._featuresTableDef) None)
           (tableOf 1 IAMStorage._featuresTableDef [town]) ↔
  ∃ before after,
    [town] = before ++ town :: after ∧
    ∀ y, y ∈ after →
         sameKeys 1 (keysOf IAMStorage._featuresTableDef town)
           (keysOf IAMStorage._featuresTableDef y) →
         equals town y = false.
Proof.
  apply (getAllItems_last_insertions 1 IAMStorage._featuresTableDef [town] town).
  reflexivity.
Defined.

Lemma head_addToArray `{TableRecord R} (item stored : R) found :
  head (addToArray item (stored :: found))
  = Some (if equals stored item then item else stored).
Proof.
  unfold addToArray. cbn [existsb fmap list_fmap].
  destruct (equals stored item); [done|]. cbn [orb].
  by destruct (existsb _ found).
Qed.

Lemma addToArray_not_nil `{TableRecord R} (item : R) found : addToArray item found ≠ [].
Proof.
  intros Hnil. pose proof (addToArray_elem_of_item item found) as Hin.
  rewrite Hnil in Hin. by apply elem_of_nil in Hin.
Qed.

Lemma firstUnder_snoc `{TableRecord R} d pks path (items : list R) item :
  firstUnder d pks path (items ++ [item]) =
  if decide (sameKeys d (keysOf pks item) path) then
    match firstUnder d pks path items with
    | Some stored => if equals stored item then Some item else Some stored
    | None => Some item
    end
  else firstUnder d pks path items.
Proof. unfold firstUnder. by rewrite fold_left_app. Qed.

Lemma getArray_tableOf_head `{TableRecord R} d pks (items : list R) path :
  getArray path (tableOf d pks items) ≫= head = firstUnder d pks path items ∧
  getArray path (tableOf d pks items) ≠ Some [].
Proof.
  induction items as [|item items [IHhead IHnil]] using rev_ind.
  - unfold tableOf, getArray. cbn. by rewrite _getArray_new.
  - rewrite tableOf_snoc, getArray_addItem, primaryKeys_tableOf, firstUnder_snoc.
    destruct (decide (sameKeys d path (keysOf pks item))) as [Hsame|Hsame].
    + rewrite decide_True by (by apply sameKeys_sym). rewrite <- IHhead.
      destruct (getArray path (tableOf d pks items)) as [[|stored found]|]; [done| |done].
      split; [|intros [= Hnil]; by apply addToArray_not_nil in Hnil].
      cbn [mbind option_bind]. rewrite head_addToArray. cbn [head].
      by destruct (equals stored item).
    + rewrite decide_False; [done|]. intros Hsame'. by apply Hsame, sameKeys_sym.
Qed.

Lemma firstUnder_None `{TableRecord R} d pks path (items : list R) :
  firstUnder d pks path items = None ↔
  ∀ x, x ∈ items → ¬ sameKeys d (keysOf pks x) path.
Proof.
  induction items as [|item items IH] using rev_ind.
  - split; [|done]. intros _ x Hx. by apply elem_of_nil in Hx.
  - rewrite firstUnder_snoc. case_decide as Hsame.
    + split.
      * by destruct (firstUnder d pks path items) as [stored|];
          [destruct (equals stored item)|].
      * intros Hnone. exfalso. apply (Hnone item); [|done].
        apply elem_of_app. right. by constructor.
    + rewrite IH. split.
      * intros Hnone x Hx. apply elem_of_app in Hx as [Hx|Hx]; [by apply Hnone|].
        by apply list_elem_of_singleton in Hx as ->.
      * intros Hnone x Hx. apply Hnone, elem_of_app. by left.
Qed.

(** X2: on a table built by insertions, [getItem] with a value for every
    primary key returns what a scan of the insertions finds: the first
    record inserted under these keys, replaced by each later record under
    them that the record standing first [equals].  It returns undefined
    exactly when no record was inserted under these keys, and what it
    returns was inserted under them. *)
Theorem getItem_scans_insertions `{TableRecord R} (d : nat) (pks : list string)
  (items : list R) (values : list jsany) :
  length pks = S d → length values = S d →
  getItem values (tableOf d pks items) = firstUnder d pks (keysAt values) items ∧
  (getItem values (tableOf d pks items) = None ↔
   ∀ x, x ∈ items → ¬ sameKeys d (keysOf pks x) (keysAt values)) ∧
  (∀ y, getItem values (tableOf d pks items) = Some y →
        y ∈ items ∧ sameKeys d (keysOf pks y) (keysAt values)).
Proof.
  intros _ _. rewrite getItem_getArray.
  destruct (getArray_tableOf_head d pks items (keysAt values)) as [Hhead Hnil].
  split_and!; [done| |].
  - rewrite Hhead. apply firstUnder_None.
  - intros y Hy.
    destruct (getArray (keysAt values) (tableOf d pks items)) as [found|] eqn:Hfound;
      [|done].
    apply (tableOf_stored d pks items (keysAt values) found); [done|].
    destruct found as [|first found]; [done|]. injection Hy as ->. by constructor.
Qed.

Lemma getItem_scans_insertions_witness :
  getItem [Some (JNum 1); Some (JStr "T1")] (tableOf 1 IAMStorage._featuresTableDef [town])
  = firstUnder 1 IAMStorage._featuresTableDef
      (keysAt [Some (JNum 1); Some (JStr "T1")]) [town] ∧
  (getItem [Some (JNum 1); Some (JStr "T1")]
     (tableOf 1 IAMStorage._featuresTableDef [town]) = None ↔
   ∀ x, x ∈ [town] →
        ¬ sameKeys 1 (keysOf IAMStorage._featuresTableDef x)
            (keysAt [Some (JNum 1); Some (JStr "T1")])) ∧
  (∀ y, getItem [Some (JNum 1); Some (JStr "T1")]
          (tableOf 1 IAMStorage._featuresTableDef [town]) = Some y →
        y ∈ [town] ∧
        sameKeys 1 (keysOf IAMStorage._featuresTableDef y)
          (keysAt [Some (JNum 1); Some (JStr "T1")])).
Proof.
  apply (getItem_scans_insertions 1 IAMStorage._featuresTableDef [town]
           [Some (JNum 1); Some (JStr "T1")]); reflexivity.
Defined.

Lemma Map_keys_setKey {V} key (v : V) m :
  Map_keys (Map_set key v m) = setKey (Map_keys m) key.
Proof.
  rewrite Map_keys_set. unfold setKey.
  destruct (Map_get key m) as [w|] eqn:Hget.
  - by rewrite bool_decide_eq_true_2 by (by eapply Map_get_Some_keys).
  - by rewrite bool_decide_eq_false_2 by (by apply Map_get_None_keys).
Qed.

Lemma _getKeys_new {R} values d index :
  _getKeys (R:=R) values d index (Map_new d) = Ok [].
Proof. destruct d; cbn; by destruct (index =? length values)%nat. Qed.

Lemma _getKeys_addItem `{TableRecord R} pks d (item : R) values index map :
  (index ≤ length values ≤ index + d)%nat →
  _getKeys values d index (_addItem pks d item index map) =
  if forallb (λ i, strict_eq (keyOf pks i item) (keysAt values i))
       (seq index (length values - index))
  then match _getKeys values d index map with
       | Ok keys => Ok (setKey keys (keyOf pks (length values) item))
       | Throw e => Throw e
       end
  else _getKeys values d index map.
Proof.
  revert index map. induction d as [|d IH]; intros index map Hindex.
  - assert (index = length values) as -> by lia.
    rewrite Nat.sub_diag. cbn [seq forallb _getKeys _addItem].
    rewrite Nat.eqb_refl.
    destruct (Map_get (keyOf pks (length values) item) map);
      by rewrite Map_keys_setKey.
  - cbn [_getKeys _addItem].
    destruct (index =? length values)%nat eqn:Hk.
    + apply Nat.eqb_eq in Hk as ->. rewrite Nat.sub_diag. cbn [seq forallb].
      destruct (Map_get (V:=MapN R d) (keyOf pks (length values) item) map);
        by rewrite (Map_keys_setKey (V:=MapN R d)).
    + apply Nat.eqb_neq in Hk.
      replace (length values - index)%nat with (S (length values - S index)) by lia.
      cbn [seq forallb]. unfold keysAt at 1.
      destruct (strict_eq (keyOf pks index item) (mjoin (values !! index))) eqn:Hkey.
      * apply strict_eq_true in Hkey. rewrite <- Hkey. cbn [andb].
        destruct (Map_get (V:=MapN R d) (keyOf pks index item) map) as [found|] eqn:Hget;
          rewrite (Map_get_set_eq (V:=MapN R d)), IH by lia; [done|].
        by rewrite _getKeys_new.
      * apply strict_eq_false in Hkey. cbn [andb].
        by destruct (Map_get (V:=MapN R d) (keyOf pks index item) map);
          rewrite (Map_get_set_ne (V:=MapN R d)) by done.
Qed.

Lemma getKeys_tableOf `{TableRecord R} d pks (items : list R) values :
  (length values ≤ d)%nat →
  getKeys values (tableOf d pks items)
  = Ok (fold_left setKey
          (keyOf pks (length values) <$> List.filter (hasPrefix pks values) items) []).
Proof.
  intros Hvalues. induction items as [|item items IH] using rev_ind.
  - unfold tableOf, getKeys. cbn [_mapTable newIAMMapTable fold_left].
    apply _getKeys_new.
  - rewrite tableOf_snoc. unfold getKeys, addItem. cbn [_mapTable].
    rewrite primaryKeys_tableOf, _getKeys_addItem by lia.
    fold (getKeys values (tableOf d pks items)). rewrite IH, Nat.sub_0_r.
    rewrite List.filter_app, fmap_app, fold_left_app. cbn [List.filter].
    unfold hasPrefix at 3.
    by destruct (forallb _ (seq 0 (length values))).
Qed.

Lemma setKey_NoDup ret key : NoDup ret → NoDup (setKey ret key).
Proof.
  intros Hret. unfold setKey. case_bool_decide as Hin; [done|].
  apply NoDup_app. split_and!; [done| |apply NoDup_singleton].
  intros x Hx Hx'. apply list_elem_of_singleton in Hx' as ->. done.
Qed.

Lemma fold_setKey_NoDup keys ret : NoDup ret → NoDup (fold_left setKey keys ret).
Proof.
  revert ret. induction keys as [|key keys IH]; intros ret Hret; [done|].
  cbn [fold_left]. by apply IH, setKey_NoDup.
Qed.

(** X3: on a table built by insertions, [getKeys] on a prefix of key values
    returns the keys of the next level in the order in which the insertions
    brought them, each once: a key is returned if and only if it is the next
    key of an inserted record that has this prefix.  With the empty prefix
    these are the first keys of all records; with a prefix that no record
    has, the result is empty. *)
Theorem getKeys_scans_insertions `{TableRecord R} (d : nat) (pks : list string)
  (items : list R) (values : list jsany) :
  length pks = S d → (length values ≤ d)%nat →
  ∃ keys,
    getKeys values (tableOf d pks items) = Ok keys ∧
    keys = fold_left setKey
             (keyOf pks (length values) <$> List.filter (hasPrefix pks values) items) [] ∧
    NoDup keys ∧
    ∀ key, key ∈ keys ↔
           ∃ x, x ∈ items ∧ hasPrefix pks values x = true ∧
                keyOf pks (length values) x = key.
Proof.
  intros _ Hvalues. eexists. split; [by apply getKeys_tableOf|].
  split; [done|]. split; [apply fold_setKey_NoDup, NoDup_nil_2|].
  intros key. rewrite fold_setKey_elem_of, list_elem_of_fmap. split.
  - intros [Hnil|(x & -> & Hx)]; [by apply elem_of_nil in Hnil|].
    apply elem_of_List_filter in Hx as [Hx Hprefix]. by exists x.
  - intros (x & Hx & Hprefix & <-). right. exists x. split; [done|].
    by apply elem_of_List_filter.
Qed.

Lemma getKeys_scans_insertions_witness :
  ∃ keys,
    getKeys [Some (JNum 1)] (tableOf 1 IAMStorage._featuresTableDef [town]) = Ok keys ∧
    keys = fold_left setKey
             (keyOf IAMStorage._featuresTableDef (length [Some (JNum 1)]) <$>
                List.filter (hasPrefix IAMStorage._featuresTableDef [Some (JNum 1)]) [town])
             [] ∧
    NoDup keys ∧
    ∀ key, key ∈ keys ↔
           ∃ x, x ∈ [town] ∧
                hasPrefix IAMStorage._featuresTableDef [Some (JNum 1)] x = true ∧
                keyOf IAMStorage._featuresTableDef (length [Some (JNum 1)]) x = key.
Proof.
  apply (getKeys_scans_insertions 1 IAMStorage._featuresTableDef [town] [Some (JNum 1)]).
  - reflexivity.
  - cbn. lia.
Defined.

(** X4: on a table built by insertions, [getAllItems] with one filter per
    primary key returns exactly the stored records, as [getAllItems] without
    filters returns them, whose key values pass the filter of their level. *)
Theorem getAllItems_applies_filters `{TableRecord R} (d : nat) (pks : list string)
  (items : list R) (filters : list keyFilter) (x : R) :
  length pks = S d → length filters = length pks →
  x ∈ getAllItems filters (tableOf d pks items) ↔
  x ∈ getAllItems (replicate (length pks) None) (tableOf d pks items) ∧
  ∀ i, (i ≤ d)%nat → accepts filters i (keyOf pks i x) = true.
Proof.
  intros _ Hfilters.
  rewrite !getAllItems_elem_of
    by (by rewrite primaryKeys_tableOf, ?length_replicate).
  split.
  - intros (path & found & Hfound & Hx & Haccepts).
    destruct (tableOf_stored _ _ _ _ _ _ Hfound Hx) as [_ Hkeys]. split.
    + exists path, found. split_and!; [done..|]. intros i _. apply accepts_no_filter.
    + intros i Hi. change (keyOf pks i x) with (keysOf pks x i).
      rewrite (proj1 (sameKeys_spec _ _ _) Hkeys i Hi). by apply Haccepts.
  - intros [(path & found & Hfound & Hx & _) Haccepts].
    destruct (tableOf_stored _ _ _ _ _ _ Hfound Hx) as [_ Hkeys].
    exists path, found. split_and!; [done..|]. intros i Hi.
    rewrite <- (proj1 (sameKeys_spec _ _ _) Hkeys i Hi). by apply Haccepts.
Qed.

Lemma getAllItems_applies_filters_witness :
  town ∈ getAllItems [Some (λ x, parseInt_eq x (Some (JStr "1"))); None]
           (tableOf 1 IAMStorage._featuresTableDef [town]) ↔
  town ∈ getAllItems (replicate (length IAMStorage._featuresTableDef) None)
           (tableOf 1 IAMStorage._featuresTableDef [town]) ∧
  ∀ i, (i ≤ 1)%nat →
       accepts [Some (λ x, parseInt_eq x (Some (JStr "1"))); None] i
         (keyOf IAMStorage._featuresTableDef i town) = true.
Proof.
  apply (getAllItems_applies_filters 1 IAMStorage._featuresTableDef [town]
           [Some (λ x, parseInt_eq x (Some (JStr "1"))); None] town); reflexivity.
Defined.

(** ** IAMMapTable: what [getAllKeys] returns *)

Lemma Map_keys_get {V} key (m : JSMap V) : key ∈ Map_keys m → is_Some (Map_get key m).
Proof.
  intros Hkey. destruct (Map_get key m) eqn:Hget; [done|].
  by apply Map_get_None_keys in Hget.
Qed.

Lemma _getKeys_ext {R} values values' d index (map : MapN R d) :
  length values = length values' →
  (∀ i, (index ≤ i)%nat → values !! i = values' !! i) →
  _getKeys values d index map = _getKeys values' d index map.
Proof.
  intros Hlen. revert index map. induction d as [|d IH]; intros index map Hvalues.
  - cbn [_getKeys]. by rewrite Hlen, (Hvalues index) by lia.
  - cbn [_getKeys]. rewrite Hlen, (Hvalues index) by lia.
    destruct (index =? length values')%nat; [done|].
    destruct (Map_get (V:=MapN R d) _ map); [|done].
    apply IH. intros i Hi. apply Hvalues. lia.
Qed.

(** The [forEach] of [_getAllKeys] over the keys of a level above the one
    that is collected. *)
Lemma getAllKeys_forEach {V} (G : V → list jsany → result (list jsany))
  (Q : V → jsany → Prop) (map : JSMap V) keys ret :
  (∀ key, key ∈ keys → is_Some (Map_get key map)) →
  (∀ found ret, ∃ r, G found ret = Ok r ∧ (NoDup ret → NoDup r) ∧
                     ∀ key, key ∈ r ↔ key ∈ ret ∨ Q found key) →
  ∃ r,
    fold_left (λ acc key,
        match acc with
        | Ok ret =>
            match Map_get key map with
            | Some found => G found ret
            | None => Throw "Cannot read properties of undefined"
            end
        | Throw e => Throw e
        end) keys (Ok ret) = Ok r ∧
    (NoDup ret → NoDup r) ∧
    ∀ key', key' ∈ r ↔
      key' ∈ ret ∨ ∃ key found, key ∈ keys ∧ Map_get key map = Some found ∧ Q found key'.
Proof.
  intros Hkeys HG. revert ret Hkeys.
  induction keys as [|key keys IH]; intros ret Hkeys.
  - exists ret. split_and!; [done..|]. intros key'. split; [by left|].
    intros [Hret|(key & found & Hkey & _)]; [done|]. by apply elem_of_nil in Hkey.
  - cbn [fold_left].
    destruct (Hkeys key ltac:(by constructor)) as [found Hfound]. rewrite Hfound.
    destruct (HG found ret) as (r1 & -> & Hnodup1 & Hr1).
    destruct (IH r1) as (r & -> & Hnodup & Hr).
    { intros key' Hkey'. apply Hkeys. by constructor. }
    exists r. split_and!; [done|by intros ?; apply Hnodup, Hnodup1|].
    intros key'. rewrite Hr, Hr1. split.
    + intros [[Hret|HQ]|(key2 & found2 & Hkey2 & Hfound2 & HQ)].
      * by left.
      * right. exists key, found. split_and!; [by constructor|done..].
      * right. exists key2, found2. split_and!; [by constructor|done..].
    + intros [Hret|(key2 & found2 & Hkey2 & Hfound2 & HQ)]; [by left; left|].
      apply elem_of_cons in Hkey2 as [->|Hkey2].
      * left. right. by rewrite Hfound in Hfound2; injection Hfound2 as <-.
      * right. by exists key2, found2.
Qed.

Lemma _getAllKeys_last {V} filters index (map : JSMap V) ret key :
  S index = length filters →
  key ∈ fold_left setKey (filteredKeys filters index (Map_keys map)) ret ↔
  key ∈ ret ∨
  ∃ values keys,
    length values = pred (length filters) ∧
    (if (index =? length values)%nat then Ok (Map_keys map) else Ok []) = Ok keys ∧
    key ∈ keys ∧
    accepts filters (pred (length filters)) key = true ∧
    ∀ i, (index ≤ i < pred (length filters))%nat → accepts filters i (keysAt values i) = true.
Proof.
  intros Hlast. rewrite fold_setKey_elem_of, elem_of_filteredKeys.
  rewrite <- Hlast. cbn [pred]. split.
  - intros [Hret|[Hkey Haccepts]]; [by left|]. right.
    exists (replicate index None), (Map_keys map).
    rewrite length_replicate, Nat.eqb_refl. split_and!; [done..|]. intros i Hi. lia.
  - intros [Hret|(values & keys & Hlen & Hkeys & Hkey & Haccepts & _)]; [by left|].
    right. rewrite Hlen, Nat.eqb_refl in Hkeys. by injection Hkeys as <-.
Qed.

Lemma _getAllKeys_spec {R} filters d index (map : MapN R d) ret :
  (index < length filters ≤ index + S d)%nat →
  ∃ r,
    _getAllKeys filters d index map ret = Ok r ∧
    (NoDup ret → NoDup r) ∧
    ∀ key, key ∈ r ↔
      key ∈ ret ∨
      ∃ values keys,
        length values = pred (length filters) ∧
        _getKeys values d index map = Ok keys ∧ key ∈ keys ∧
        accepts filters (pred (length filters)) key = true ∧
        ∀ i, (index ≤ i < pred (length filters))%nat →
             accepts filters i (keysAt values i) = true.
Proof.
  revert index map ret. induction d as [|d IH]; intros index map ret Hindex.
  - assert (S index = length filters) as Hlast by lia.
    cbn [_getAllKeys]. rewrite Hlast, Nat.eqb_refl. eexists.
    split_and!; [done|apply fold_setKey_NoDup|].
    intros key. rewrite (_getAllKeys_last filters index map ret key Hlast).
    cbn [_getKeys]. split.
    + intros [Hret|(values & keys & Hlen & Hkeys & Hrest)]; [by left|]. right.
      exists values, keys. split; [done|]. split; [|done].
      by rewrite Hlen, <- Hlast, Nat.eqb_refl in Hkeys |- *.
    + intros [Hret|(values & keys & Hlen & Hkeys & Hrest)]; [by left|]. right.
      exists values, keys. split; [done|]. split; [|done].
      by rewrite Hlen, <- Hlast, Nat.eqb_refl in Hkeys |- *.
  - cbn [_getAllKeys]. destruct (S index =? length filters)%nat eqn:Hlast.
    + apply Nat.eqb_eq in Hlast. eexists.
      split_and!; [done|apply fold_setKey_NoDup|].
      intros key. rewrite (_getAllKeys_last (V:=MapN R d) filters index map ret key Hlast).
      cbn [_getKeys]. split.
      * intros [Hret|(values & keys & Hlen & Hkeys & Hrest)]; [by left|]. right.
        exists values, keys. split; [done|]. split; [|done].
        by rewrite Hlen, <- Hlast, Nat.eqb_refl in Hkeys |- *.
      * intros [Hret|(values & keys & Hlen & Hkeys & Hrest)]; [by left|]. right.
        exists values, keys. split; [done|]. split; [|done].
        by rewrite Hlen, <- Hlast, Nat.eqb_refl in Hkeys |- *.
    + apply Nat.eqb_neq in Hlast.
      destruct (getAllKeys_forEach (V:=MapN R d)
                  (_getAllKeys filters d (S index))
                  (λ found key, ∃ values keys,
                     length values = pred (length filters) ∧
                     _getKeys values d (S index) found = Ok keys ∧ key ∈ keys ∧
                     accepts filters (pred (length filters)) key = true ∧
                     ∀ i, (S index ≤ i < pred (length filters))%nat →
                          accepts filters i (keysAt values i) = true)
                  map (filteredKeys filters index (Map_keys (V:=MapN R d) map)) ret)
        as (r & Hr & Hnodup & Hspec).
      { intros key Hkey. apply elem_of_filteredKeys in Hkey as [Hkey _].
        by apply (Map_keys_get (V:=MapN R d)). }
      { intros found ret'. apply IH. lia. }
      exists r. split_and!; [done..|]. intros key. rewrite Hspec. split.
      * intros [Hret|(key0 & found & Hkey0 & Hfound & values & keys & Hlen & Hkeys
                      & Hkey & Hacc & Haccs)]; [by left|]. right.
        apply elem_of_filteredKeys in Hkey0 as [_ Hacc0].
        exists (<[index := key0]> values), keys.
        assert (<[index := key0]> values !! index = Some key0) as Hat.
        { apply list_lookup_insert_eq. lia. }
        split_and!; [by rewrite length_insert| |done..|].
        -- cbn [_getKeys]. rewrite length_insert, Hat. cbn [mjoin option_join].
           rewrite (proj2 (Nat.eqb_neq _ _)) by lia.
           rewrite Hfound. rewrite <- Hkeys. apply _getKeys_ext; [by rewrite length_insert|].
           intros i Hi. apply list_lookup_insert_ne. lia.
        -- intros i Hi. destruct (decide (i = index)) as [->|Hne].
           ++ unfold keysAt. by rewrite Hat.
           ++ unfold keysAt. rewrite list_lookup_insert_ne by lia. apply Haccs. lia.
      * intros [Hret|(values & keys & Hlen & Hkeys & Hkey & Hacc & Haccs)]; [by left|].
        right. cbn [_getKeys] in Hkeys.
        rewrite (proj2 (Nat.eqb_neq _ _)) in Hkeys by lia.
        destruct (Map_get (V:=MapN R d) (mjoin (values !! index)) map) as [found|] eqn:Hfound.
        -- exists (mjoin (values !! index)), found. split_and!; [|done|].
           ++ apply elem_of_filteredKeys. split; [by eapply (Map_get_Some_keys (V:=MapN R d))|].
              apply (Haccs index). lia.
           ++ exists values, keys. split_and!; [done..|]. intros i Hi. apply Haccs. lia.
        -- injection Hkeys as <-. by apply elem_of_nil in Hkey.
Qed.

Lemma hasPrefix_spec `{TableRecord R} pks values (x : R) :
  hasPrefix pks values x = true ↔
  ∀ i, (i < length values)%nat → keyOf pks i x = keysAt values i.
Proof.
  unfold hasPrefix. rewrite forallb_forall. split.
  - intros Hall i Hi. apply strict_eq_true, Hall, in_seq. lia.
  - intros Hall i Hi. apply in_seq in Hi. apply strict_eq_true, Hall. lia.
Qed.

(** Under the keys of an inserted record a record is stored. *)
Lemma tableOf_inserted `{TableRecord R} d pks (items : list R) x :
  length pks = S d → x ∈ items →
  ∃ y, y ∈ getAllItems (replicate (length pks) None) (tableOf d pks items) ∧
       sameKeys d (keysOf pks y) (keysOf pks x).
Proof.
  intros Hlen Hx.
  destruct (getArray_tableOf_head d pks items (keysOf pks x)) as [Hhead Hnil].
  destruct (firstUnder d pks (keysOf pks x) items) as [y|] eqn:Hfirst.
  - destruct (getArray (keysOf pks x) (tableOf d pks items)) as [[|first found]|] eqn:Hfound;
      [done| |done].
    injection Hhead as ->. exists y.
    destruct (tableOf_stored d pks items _ _ y Hfound ltac:(by constructor)) as [_ Hkeys].
    split; [|done].
    apply getAllItems_elem_of; [by rewrite primaryKeys_tableOf, length_replicate|].
    exists (keysOf pks x), (y :: found). split_and!; [done|by constructor|].
    intros i _. apply accepts_no_filter.
  - exfalso. apply (proj1 (firstUnder_None _ _ _ _) Hfirst x Hx). by apply sameKeys_spec.
Qed.

Lemma getAllItems_inserted `{TableRecord R} d pks (items : list R) y :
  y ∈ getAllItems (replicate (length pks) None) (tableOf d pks items) → y ∈ items.
Proof.
  intros Hy.
  apply getAllItems_elem_of in Hy as (path & found & Hfound & Hy & _);
    [|by rewrite primaryKeys_tableOf, length_replicate].
  by destruct (tableOf_stored _ _ _ _ _ _ Hfound Hy).
Qed.

Lemma getAllKeys_tableOf `{TableRecord R} d pks (items : list R) filters :
  length pks = S d → (1 ≤ length filters ≤ S d)%nat →
  ∃ keys,
    getAllKeys filters (tableOf d pks items) = Ok keys ∧
    NoDup keys ∧
    ∀ key, key ∈ keys ↔
      ∃ y, y ∈ getAllItems (replicate (length pks) None) (tableOf d pks items) ∧
           keyOf pks (pred (length filters)) y = key ∧
           ∀ i, (i < length filters)%nat → accepts filters i (keyOf pks i y) = true.
Proof.
  intros Hlen Hfilters. unfold getAllKeys.
  destruct (_getAllKeys_spec filters d 0 (_mapTable (tableOf d pks items)) [])
    as (keys & Hkeys & Hnodup & Hspec); [lia|].
  exists keys. split_and!; [done|apply Hnodup, NoDup_nil_2|].
  intros key. rewrite Hspec. split.
  - intros [Hnil|(values & keys' & Hvalues & Hget & Hkey & Hacc & Haccs)];
      [by apply elem_of_nil in Hnil|].
    fold (getKeys values (tableOf d pks items)) in Hget.
    rewrite getKeys_tableOf in Hget by lia. injection Hget as <-.
    apply fold_setKey_elem_of in Hkey as [Hnil|Hkey]; [by apply elem_of_nil in Hnil|].
    apply list_elem_of_fmap in Hkey as (x & -> & Hx).
    apply elem_of_List_filter in Hx as [Hx Hprefix].
    destruct (tableOf_inserted d pks items x Hlen Hx) as (y & Hy & Hsame).
    pose proof (proj1 (sameKeys_spec _ _ _) Hsame) as Hyx.
    pose proof (proj1 (hasPrefix_spec _ _ _) Hprefix) as Hpre.
    exists y. split_and!; [done| |].
    + rewrite Hvalues. apply (Hyx (pred (length filters))). lia.
    + intros i Hi. change (keyOf pks i y) with (keysOf pks y i). rewrite Hyx by lia.
      destruct (decide (i = pred (length filters))) as [->|Hne].
      * by rewrite Hvalues in Hacc.
      * unfold keysOf. rewrite Hpre by lia. apply Haccs. lia.
  - intros (y & Hy & <- & Haccs). right. apply getAllItems_inserted in Hy.
    exists ((λ i, keyOf pks i y) <$> seq 0 (pred (length filters))).
    eexists. rewrite length_fmap, length_seq. split; [done|]. split.
    { fold (getKeys ((λ i, keyOf pks i y) <$> seq 0 (pred (length filters)))
              (tableOf d pks items)).
      apply getKeys_tableOf. rewrite length_fmap, length_seq. lia. }
    assert (∀ i, (i < pred (length filters))%nat →
                 keysAt ((λ i, keyOf pks i y) <$> seq 0 (pred (length filters))) i
                 = keyOf pks i y) as Hat.
    { intros i Hi. unfold keysAt. rewrite list_lookup_fmap, lookup_seq_lt by done. done. }
    split_and!.
    + apply fold_setKey_elem_of. right. rewrite length_fmap, length_seq.
      apply list_elem_of_fmap. exists y. split; [done|].
      apply elem_of_List_filter. split; [done|]. apply hasPrefix_spec.
      intros i Hi. rewrite length_fmap, length_seq in Hi. by rewrite Hat.
    + apply Haccs. lia.
    + intros i Hi. rewrite Hat by lia. apply Haccs. lia.
Qed.

(** ** Queries with a filter array of the wrong length (C6) *)

(** The settings table of a new storage has four primary keys; with one
    filter [getAllKeys] returns its three feature types, and with six it
    throws. *)
Lemma getAllKeys_wrong_length_not_empty :
  length (_primaryKeys (IAMStorage._featureSettings IAMStorage.new)) = 4%nat ∧
  getAllKeys [None] (IAMStorage._featureSettings IAMStorage.new)
  = Ok [Some (JNum 1); Some (JNum 2); Some (JNum 3)] ∧
  getAllKeys [None; None; None; None; None; None]
    (IAMStorage._featureSettings IAMStorage.new)
  = Throw "map.get is not a function".
Proof. split_and!; vm_compute; reflexivity. Qed.

Lemma acceptedIndex_O {R} filters index (map : MapN R 0) key' :
  acceptedIndex filters 0 index map key' ↔
  ∃ key found,
    key ∈ filteredKeys filters index (Map_keys map) ∧ Map_get key map = Some found ∧
    ∃ i, (i < length found)%nat ∧ key' = Some (JNum (Z.of_nat i)) ∧
         accepts filters (S index) key' = true.
Proof.
  unfold acceptedIndex. cbn [_getArray]. split.
  - intros (path & found & i & Hget & Hi & -> & Hacc & Hlast).
    exists (path index), found. split_and!; [|done|].
    + apply elem_of_filteredKeys. split; [by eapply Map_get_Some_keys|]. apply Hacc. lia.
    + exists i. split_and!; [done..|]. by replace (S index) with (index + 1)%nat by lia.
  - intros (key & found & Hkey & Hget & i & Hi & -> & Hlast).
    apply elem_of_filteredKeys in Hkey as [_ Hacc].
    exists (λ _, key), found, i. split_and!; [done..| |].
    + intros j Hj. by replace j with index by lia.
    + by replace (index + 1)%nat with (S index) by lia.
Qed.

Lemma acceptedIndex_S {R} filters d index (map : MapN R (S d)) key' :
  acceptedIndex filters (S d) index map key' ↔
  ∃ key found,
    key ∈ filteredKeys filters index (Map_keys (V:=MapN R d) map) ∧
    Map_get (V:=MapN R d) key map = Some found ∧
    acceptedIndex filters d (S index) found key'.
Proof.
  unfold acceptedIndex. split.
  - intros (path & found & i & Hget & Hi & -> & Hacc & Hlast).
    cbn [_getArray] in Hget.
    destruct (Map_get (V:=MapN R d) (path index) map) as [sub|] eqn:Hsub; [|done].
    exists (path index), sub. split_and!; [|done|].
    + apply elem_of_filteredKeys.
      split; [by eapply (Map_get_Some_keys (V:=MapN R d))|]. apply Hacc. lia.
    + exists path, found, i. split_and!; [done..| |].
      * intros j Hj. apply Hacc. lia.
      * by replace (S index + S d)%nat with (index + S (S d))%nat by lia.
  - intros (key & sub & Hkey & Hsub & path & found & i & Hget & Hi & -> & Hacc & Hlast).
    apply elem_of_filteredKeys in Hkey as [_ Hkey].
    exists (λ j, if decide (j = index) then key else path j), found, i.
    split_and!; [|done..| |].
    + cbn [_getArray]. rewrite decide_True by done.
      change (Map_get key map) with (Map_get (V:=MapN R d) key map).
      rewrite Hsub, <- Hget.
      apply _getArray_ext. intros j Hj. by rewrite decide_False by lia.
    + intros j Hj. case_decide as Hj'; [by subst j|]. apply Hacc. lia.
    + by replace (index + S (S d))%nat with (S index + S d)%nat by lia.
Qed.

Lemma acceptedPosition_index {R d} filters (t : IAMMapTable R d) key :
  acceptedPosition filters t key ↔ acceptedIndex filters d 0 (_mapTable t) key.
Proof.
  unfold acceptedPosition, acceptedIndex, getArray. split.
  - intros (path & found & i & Hget & Hi & Hkey & Hacc & Hlast).
    exists path, found, i. split_and!; [done..| |done]. intros j Hj. apply Hacc. lia.
  - intros (path & found & i & Hget & Hi & Hkey & Hacc & Hlast).
    exists path, found, i. split_and!; [done..| |done]. intros j Hj. apply Hacc. lia.
Qed.

(** One filter more than there are primary keys: the indices of the arrays
    are collected. *)
Lemma _getAllKeys_array_indices {R} filters index (array : list R) ret :
  S index = length filters →
  ∃ r, _getAllKeys_array filters index array ret = Ok r ∧ (NoDup ret → NoDup r) ∧
       ∀ key, key ∈ r ↔
         key ∈ ret ∨
         ∃ i, (i < length array)%nat ∧ key = Some (JNum (Z.of_nat i)) ∧
              accepts filters index key = true.
Proof.
  intros Hlast. unfold _getAllKeys_array. rewrite Hlast, Nat.eqb_refl.
  eexists. split_and!; [done|apply fold_setKey_NoDup|].
  intros key. rewrite fold_setKey_elem_of, elem_of_filteredKeys, list_elem_of_fmap. split.
  - intros [?|[(i & -> & Hi) Hacc]]; [by left|]. right. exists i.
    apply elem_of_seq in Hi. split_and!; [lia|done..].
  - intros [?|(i & Hi & -> & Hacc)]; [by left|]. right. split; [|done].
    exists i. split; [done|]. apply elem_of_seq. lia.
Qed.

Lemma _getAllKeys_indices {R} filters d index (map : MapN R d) ret :
  length filters = (index + S (S d))%nat →
  ∃ r, _getAllKeys filters d index map ret = Ok r ∧ (NoDup ret → NoDup r) ∧
       ∀ key, key ∈ r ↔ key ∈ ret ∨ acceptedIndex filters d index map key.
Proof.
  revert index map ret. induction d as [|d IH]; intros index map ret Hlen.
  - cbn [_getAllKeys]. rewrite (proj2 (Nat.eqb_neq _ _)) by lia.
    destruct (getAllKeys_forEach (V:=list R)
                (_getAllKeys_array filters (S index))
                (λ found key, ∃ i, (i < length found)%nat ∧
                                   key = Some (JNum (Z.of_nat i)) ∧
                                   accepts filters (S index) key = true)
                map (filteredKeys filters index (Map_keys map)) ret)
      as (r & Hr & Hnodup & Hspec).
    { intros key Hkey. apply elem_of_filteredKeys in Hkey as [Hkey _].
      by apply Map_keys_get. }
    { intros found ret'. apply _getAllKeys_array_indices. lia. }
    exists r. split_and!; [done..|]. intros key. by rewrite Hspec, acceptedIndex_O.
  - cbn [_getAllKeys]. rewrite (proj2 (Nat.eqb_neq _ _)) by lia.
    destruct (getAllKeys_forEach (V:=MapN R d)
                (_getAllKeys filters d (S index))
                (λ found key, acceptedIndex filters d (S index) found key)
                map (filteredKeys filters index (Map_keys (V:=MapN R d) map)) ret)
      as (r & Hr & Hnodup & Hspec).
    { intros key Hkey. apply elem_of_filteredKeys in Hkey as [Hkey _].
      by apply (Map_keys_get (V:=MapN R d)). }
    { intros found ret'. apply IH. lia. }
    exists r. split_and!; [done..|]. intros key. by rewrite Hspec, acceptedIndex_S.
Qed.

(** No level collects keys (no filter at all, or two filters or more beyond
    the primary keys): reaching an index of an array throws, since an array
    has no [get]; otherwise nothing is collected. *)
Lemma _getAllKeys_array_deep {R} filters index (array : list R) ret :
  S index ≠ length filters →
  (_getAllKeys_array filters index array ret = Throw "map.get is not a function" ∧
   ∃ key i, (i < length array)%nat ∧ key = Some (JNum (Z.of_nat i)) ∧
            accepts filters index key = true) ∨
  (_getAllKeys_array filters index array ret = Ok ret ∧
   ¬ ∃ key i, (i < length array)%nat ∧ key = Some (JNum (Z.of_nat i)) ∧
              accepts filters index key = true).
Proof.
  intros Hlast. unfold _getAllKeys_array. rewrite (proj2 (Nat.eqb_neq _ _)) by done.
  destruct (filteredKeys filters index _) as [|key keys] eqn:Hkeys.
  - right. split; [done|]. intros (key & i & Hi & -> & Hacc).
    assert (Some (JNum (Z.of_nat i)) ∈ @nil jsany) as Hin; [|by apply elem_of_nil in Hin].
    rewrite <- Hkeys. apply elem_of_filteredKeys. split; [|done].
    apply list_elem_of_fmap. exists i. split; [done|]. apply elem_of_seq. lia.
  - left. split; [done|].
    assert (key ∈ filteredKeys filters index
                    ((λ i, Some (JNum (Z.of_nat i))) <$> seq 0 (length array))) as Hin.
    { rewrite Hkeys. by constructor. }
    apply elem_of_filteredKeys in Hin as [Hin Hacc].
    apply list_elem_of_fmap in Hin as (i & -> & Hi). apply elem_of_seq in Hi.
    eexists _, i. split_and!; [lia|done..].
Qed.

Lemma getAllKeys_forEach_deep {V} (G : V → list jsany → result (list jsany))
  (P : V → Prop) (map : JSMap V) keys ret :
  (∀ key, key ∈ keys → is_Some (Map_get key map)) →
  (∀ found ret, (G found ret = Throw "map.get is not a function" ∧ P found) ∨
                (G found ret = Ok ret ∧ ¬ P found)) →
  let loop :=
    fold_left (λ acc key,
        match acc with
        | Ok ret =>
            match Map_get key map with
            | Some found => G found ret
            | None => Throw "Cannot read properties of undefined"
            end
        | Throw e => Throw e
        end) keys (Ok ret) in
  (loop = Throw "map.get is not a function" ∧
   ∃ key found, key ∈ keys ∧ Map_get key map = Some found ∧ P found) ∨
  (loop = Ok ret ∧
   ¬ ∃ key found, key ∈ keys ∧ Map_get key map = Some found ∧ P found).
Proof.
  intros Hkeys HG. cbn zeta. revert Hkeys.
  induction keys as [|key keys IH]; intros Hkeys.
  - right. split; [done|]. intros (key & found & Hkey & _). by apply elem_of_nil in Hkey.
  - cbn [fold_left].
    destruct (Hkeys key ltac:(by constructor)) as [found Hfound]. rewrite Hfound.
    destruct (HG found ret) as [[-> HP]|[-> HP]].
    + left. split.
      * clear. by induction keys.
      * exists key, found. split_and!; [by constructor|done..].
    + destruct IH as [[-> (key' & found' & Hkey' & Hrest)]|[-> Hnone]].
      { intros key' Hkey'. apply Hkeys. by constructor. }
      * left. split; [done|]. exists key', found'. split; [by constructor|done].
      * right. split; [done|]. intros (key' & found' & Hkey' & Hfound' & HP').
        apply elem_of_cons in Hkey' as [->|Hkey'].
        -- rewrite Hfound in Hfound'. injection Hfound' as <-. done.
        -- apply Hnone. by exists key', found'.
Qed.

Lemma _getAllKeys_deep {R} filters d index (map : MapN R d) ret :
  (∀ i, (index ≤ i ≤ index + S d)%nat → S i ≠ length filters) →
  (_getAllKeys filters d index map ret = Throw "map.get is not a function" ∧
   ∃ key, acceptedIndex filters d index map key) ∨
  (_getAllKeys filters d index map ret = Ok ret ∧
   ¬ ∃ key, acceptedIndex filters d index map key).
Proof.
  revert index map ret. induction d as [|d IH]; intros index map ret Hlevels.
  - cbn [_getAllKeys]. rewrite (proj2 (Nat.eqb_neq _ _)) by (apply Hlevels; lia).
    destruct (getAllKeys_forEach_deep (V:=list R)
                (_getAllKeys_array filters (S index))
                (λ found, ∃ key i, (i < length found)%nat ∧
                                   key = Some (JNum (Z.of_nat i)) ∧
                                   accepts filters (S index) key = true)
                map (filteredKeys filters index (Map_keys map)) ret)
      as [[Hloop Hsome]|[Hloop Hnone]].
    { intros key Hkey. apply elem_of_filteredKeys in Hkey as [Hkey _].
      by apply Map_keys_get. }
    { intros found ret'. apply _getAllKeys_array_deep. apply Hlevels. lia. }
    + left. split; [exact Hloop|].
      destruct Hsome as (key & found & Hkey & Hfound & key' & i & Hrest).
      exists key'. apply acceptedIndex_O. exists key, found. split_and!; [done..|].
      by exists i.
    + right. split; [exact Hloop|]. intros [key' Hreach]. apply Hnone.
      apply acceptedIndex_O in Hreach as (key & found & Hkey & Hfound & i & Hrest).
      exists key, found. split_and!; [done..|]. by exists key', i.
  - cbn [_getAllKeys]. rewrite (proj2 (Nat.eqb_neq _ _)) by (apply Hlevels; lia).
    destruct (getAllKeys_forEach_deep (V:=MapN R d)
                (_getAllKeys filters d (S index))
                (λ found, ∃ key, acceptedIndex filters d (S index) found key)
                map (filteredKeys filters index (Map_keys (V:=MapN R d) map)) ret)
      as [[Hloop Hsome]|[Hloop Hnone]].
    { intros key Hkey. apply elem_of_filteredKeys in Hkey as [Hkey _].
      by apply (Map_keys_get (V:=MapN R d)). }
    { intros found ret'. apply IH. intros i Hi. apply Hlevels. lia. }
    + left. split; [exact Hloop|].
      destruct Hsome as (key & found & Hkey & Hfound & key' & Hreach).
      exists key'. apply acceptedIndex_S. by exists key, found.
    + right. split; [exact Hloop|]. intros [key' Hreach]. apply Hnone.
      apply acceptedIndex_S in Hreach as (key & found & Hkey & Hfound & Hreach).
      exists key, found. split_and!; [done..|]. by exists key'.
Qed.

(** A table that holds a record has a position that an empty filter array
    lets through. *)
Lemma acceptedPosition_no_filter `{TableRecord R} d pks (items : list R) :
  items ≠ [] → ∃ key, acceptedPosition [] (tableOf d pks items) key.
Proof.
  intros Hitems. destruct items as [|item items _] using rev_ind; [done|].
  destruct (proj2 (getArray_tableOf_elem_of d pks (items ++ [item])
                     (keysOf pks item) item)) as (found & Hfound & Hin).
  { exists items, []. split_and!; [done|by apply sameKeys_spec|].
    intros y Hy. by apply elem_of_nil in Hy. }
  exists (Some (JNum (Z.of_nat 0))), (keysOf pks item), found, 0%nat.
  split_and!; [done| |done..].
  destruct found; [by apply elem_of_nil in Hin|cbn; lia].
Qed.

(** C6, as amended: for a filter array whose length is not the number [N] of
    primary keys, [getAllItems] returns the empty array and does not throw.
    [getAllKeys] has no such guard and collects the keys of the level that
    the length of the filter array names: with one filter it returns,
    whatever [N] is, exactly the first-level keys that the filter lets
    through; with [n] filters, [1 ≤ n < N], on a table built by insertions,
    it throws nothing and returns, each once, the keys of level [n] of the
    stored records whose first [n] keys pass the filters; with [N + 1]
    filters it throws nothing and returns, each once, the positions in the
    terminal lists that the filters let through; with no filter, or with more
    than [N + 1], it throws a TypeError if there is such a position, as there
    is for an empty filter array on a table that holds a record, and returns
    the empty array if there is none. *)
Theorem wrong_length_filters `{TableRecord R} {d} (t : IAMMapTable R d)
  (filters : list keyFilter) :
  length filters ≠ length (_primaryKeys t) →
  getAllItems filters t = [] ∧
  (∀ f : keyFilter, ∃ top keys,
     getKeys [] t = Ok top ∧ getAllKeys [f] t = Ok keys ∧
     ∀ key, key ∈ keys ↔ key ∈ top ∧ accepts [f] 0 key = true) ∧
  (length (_primaryKeys t) = S d →
   (∀ items,
      t = tableOf d (_primaryKeys t) items → (1 ≤ length filters < S d)%nat →
      ∃ keys,
        getAllKeys filters t = Ok keys ∧ NoDup keys ∧
        ∀ key, key ∈ keys ↔
          ∃ y, y ∈ getAllItems (replicate (S d) None) t ∧
               keyOf (_primaryKeys t) (pred (length filters)) y = key ∧
               ∀ i, (i < length filters)%nat →
                    accepts filters i (keyOf (_primaryKeys t) i y) = true) ∧
   (length filters = S (S d) →
    ∃ keys,
      getAllKeys filters t = Ok keys ∧ NoDup keys ∧
      ∀ key, key ∈ keys ↔ acceptedPosition filters t key) ∧
   (length filters = 0%nat ∨ (S (S d) < length filters)%nat →
    (getAllKeys filters t = Throw "map.get is not a function" ∧
     ∃ key, acceptedPosition filters t key) ∨
    (getAllKeys filters t = Ok [] ∧ ¬ ∃ key, acceptedPosition filters t key)) ∧
   (∀ items,
      t = tableOf d (_primaryKeys t) items → items ≠ [] → filters = [] →
      getAllKeys filters t = Throw "map.get is not a function")).
Proof.
  intros Hlen.
  assert (length filters = 0%nat ∨ (S (S d) < length filters)%nat →
          (getAllKeys filters t = Throw "map.get is not a function" ∧
           ∃ key, acceptedPosition filters t key) ∨
          (getAllKeys filters t = Ok [] ∧ ¬ ∃ key, acceptedPosition filters t key))
    as Hdeep.
  { intros Hfilters. unfold getAllKeys.
    destruct (_getAllKeys_deep filters d 0 (_mapTable t) [])
      as [[Hthrow [key Hkey]]|[Hok Hnone]].
    - intros i Hi. lia.
    - left. split; [done|]. exists key. by apply acceptedPosition_index.
    - right. split; [done|]. intros [key Hkey]. apply Hnone.
      exists key. by apply acceptedPosition_index. }
  split_and!.
  - unfold getAllItems.
    destruct (length filters =? length (_primaryKeys t))%nat eqn:E; [|done].
    apply Nat.eqb_eq in E. done.
  - intros f. destruct (getKeys_nil t) as [top Htop].
    exists top, (fold_left setKey (filteredKeys [f] 0 top) []).
    split_and!; [done|by apply getAllKeys_one_filter|].
    intros key. rewrite fold_setKey_elem_of, elem_of_filteredKeys.
    split; [intros [Hk|?]; [by apply elem_of_nil in Hk|done]|by right].
  - intros Hkeys. split_and!.
    + intros items Htable Hfilters.
      destruct (getAllKeys_tableOf d (_primaryKeys t) items filters Hkeys)
        as (keys & Hget & Hnodup & Hspec); [lia|].
      rewrite <- Htable, Hkeys in Hspec. rewrite <- Htable in Hget. by exists keys.
    + intros Hfilters. unfold getAllKeys.
      destruct (_getAllKeys_indices filters d 0 (_mapTable t) [])
        as (keys & Hget & Hnodup & Hspec); [lia|].
      exists keys. split_and!; [done|apply Hnodup, NoDup_nil_2|].
      intros key. rewrite Hspec, acceptedPosition_index. split; [|by right].
      intros [Hnil|?]; [by apply elem_of_nil in Hnil|done].
    + exact Hdeep.
    + intros items Htable Hitems ->.
      destruct Hdeep as [[Hthrow _]|[_ Hnone]]; [by left|done|].
      exfalso. apply Hnone. rewrite Htable.
      by apply acceptedPosition_no_filter.
Qed.

Lemma wrong_length_filters_witness :
  getAllItems [] (tableOf 1 IAMStorage._featuresTableDef [town]) = [] ∧
  getAllKeys [] (tableOf 1 IAMStorage._featuresTableDef [town])
  = Throw "map.get is not a function".
Proof.
  pose proof (wrong_length_filters (tableOf 1 IAMStorage._featuresTableDef [town]) [])
    as (Hitems & _ & Hkeys); [simpl; lia|].
  split; [exact Hitems|].
  apply Hkeys with (items := [town]); [reflexivity..|discriminate|reflexivity].
Defined.

(** ** IAMStorage: the tables of a storage are built by insertions *)

Lemma tableOf_fold `{TableRecord R} d pks (items more : list R) :
  fold_left (λ table item, addItem item table) more (tableOf d pks items)
  = tableOf d pks (items ++ more).
Proof. unfold tableOf. by rewrite fold_left_app. Qed.

Lemma tablesBuilt_init : tablesBuilt IAMStorage._init.
Proof.
  split_and!.
  - by exists [].
  - by exists [].
  - by exists [PointSettings.getStandard; LineStringSettings.getStandard;
               PolygonSettings.getStandard].
Qed.

Lemma tablesBuilt_properties_step acc p :
  tablesBuilt acc.1.1 → tablesBuilt (IAMStorage.loadFeaturesProperties_step acc p).1.1.
Proof.
  destruct acc as [[this pr] counter]. cbn [fst]. intros Hbuilt.
  unfold IAMStorage.loadFeaturesProperties_step.
  destruct (IAMStorage.getFeature _ _ this); [|exact Hbuilt].
  destruct Hbuilt as (Ha & [ps Hp] & Hs). cbn [fst].
  unfold tablesBuilt.
  destruct (tables_mutateFeature
              (ExtendedFeature.addProperty (FeatureProperty.getName p)
                 (PValue (FeatureProperty.getValue p)))
              (FeatureProperty.getFeatureType p) (FeatureProperty.getFeatureId p)
              (IAMStorage.set_featureProperties
                 (addItem p (IAMStorage._featureProperties this)) this))
    as (-> & -> & ->).
  split_and!; [done| |done].
  exists (ps ++ [p]). cbn. by rewrite Hp, tableOf_snoc.
Qed.

Lemma tablesBuilt_attributes_step acc a :
  tablesBuilt acc.1.1 → tablesBuilt (IAMStorage.loadFeaturesAttributes_step acc a).1.1.
Proof.
  destruct acc as [[this pr] counter]. cbn [fst]. intros Hbuilt.
  unfold IAMStorage.loadFeaturesAttributes_step.
  destruct (IAMStorage.getFeature _ _ this); [|exact Hbuilt].
  destruct Hbuilt as ([items Ha] & Hp & Hs). cbn [fst].
  unfold tablesBuilt.
  destruct (tables_mutateFeature (ExtendedFeature.addAttribute a)
              (FeatureAttribute.getFeatureType a) (FeatureAttribute.getFeatureId a)
              (IAMStorage.set_featureAttributes
                 (addItem a (IAMStorage._featureAttributes this)) this))
    as (-> & -> & ->).
  split_and!; [|done..].
  exists (items ++ [a]). cbn. by rewrite Ha, tableOf_snoc.
Qed.

Lemma tablesBuilt_fold {A} (step : IAMStorage.t * ProcessResult.t * Z → A →
                                   IAMStorage.t * ProcessResult.t * Z)
  (records : list A) acc :
  (∀ acc a, tablesBuilt acc.1.1 → tablesBuilt (step acc a).1.1) →
  tablesBuilt acc.1.1 → tablesBuilt (fold_left step records acc).1.1.
Proof.
  intros Hstep. revert acc. induction records as [|a records IH]; intros acc Hacc; [done|].
  cbn [fold_left]. by apply IH, Hstep.
Qed.

Lemma tablesBuilt_perform operation this :
  tablesBuilt this → tablesBuilt (perform operation this).
Proof.
  intros (Ha & Hp & Hs).
  destruct operation as [item|ds mode pr|ds mode pr|ds mode pr|ds mode pr]; cbn [perform].
  - split_and!; [done..|]. destruct Hs as [items Hs]. exists (items ++ [item]).
    cbn. by rewrite Hs, tableOf_snoc.
  - unfold IAMStorage.loadFeatures.
    destruct (fold_left _ _ _) as [features counter]. cbn [fst].
    destruct (mode =? IAMData.DROPTABLE); [apply tablesBuilt_init|done].
  - unfold IAMStorage.loadFeaturesProperties.
    destruct (fold_left _ _ _) as [[final pr'] counter] eqn:Hfold. cbn [fst].
    change final with (final, pr', counter).1.1. rewrite <- Hfold.
    apply tablesBuilt_fold; [apply tablesBuilt_properties_step|]. cbn [fst].
    destruct (mode =? IAMData.DROPTABLE); [|done].
    split_and!; [done|by exists []|done].
  - unfold IAMStorage.loadFeaturesAttributes.
    destruct (fold_left _ _ _) as [[final pr'] counter] eqn:Hfold. cbn [fst].
    change final with (final, pr', counter).1.1. rewrite <- Hfold.
    apply tablesBuilt_fold; [apply tablesBuilt_attributes_step|]. cbn [fst].
    destruct (mode =? IAMData.DROPTABLE); [|done].
    split_and!; [by exists []|done..].
  - unfold IAMStorage.loadSettings.
    destruct (fold_left _ _ _) as [settings counter] eqn:Hfold. cbn [fst].
    split_and!.
    + by destruct (mode =? IAMData.DROPTABLE).
    + by destruct (mode =? IAMData.DROPTABLE).
    + change (IAMStorage._featureSettings (IAMStorage.set_featureSettings settings _))
        with settings.
      assert (∀ (records items : list FeatureSettings.t) (n : Z),
                ∃ m, fold_left (λ '(settings, counter) featuresSettings,
                         (addItem featuresSettings settings, counter + 1))
                       records
                       (tableOf 3 IAMStorage._featureSettingsTableDef items, n)
                     = (tableOf 3 IAMStorage._featureSettingsTableDef (items ++ records), m))
        as Hloop.
      { induction records as [|record records IH]; intros items n; cbn [fold_left].
        - exists n. by rewrite app_nil_r.
        - rewrite <- tableOf_snoc. destruct (IH (items ++ [record]) (n + 1)) as [m ->].
          exists m. by rewrite <- app_assoc. }
      destruct (mode =? IAMData.DROPTABLE).
      * destruct (Hloop (DataSource.getFeaturesSettings ds)
                    [PointSettings.getStandard; LineStringSettings.getStandard;
                     PolygonSettings.getStandard] 0) as [m Hm].
        change (IAMStorage._featureSettings (IAMStorage.set_featureSettings _ this))
          with (tableOf 3 IAMStorage._featureSettingsTableDef
                  [PointSettings.getStandard; LineStringSettings.getStandard;
                   PolygonSettings.getStandard]) in Hfold.
        rewrite Hm in Hfold. injection Hfold as <- _. by eexists.
      * destruct Hs as [items Hs]. rewrite Hs in Hfold.
        destruct (Hloop (DataSource.getFeaturesSettings ds) items 0) as [m Hm].
        rewrite Hm in Hfold. injection Hfold as <- _. by eexists.
Qed.

Lemma tablesBuilt_stateAfter operations : tablesBuilt (stateAfter operations).
Proof.
  unfold stateAfter. induction operations as [|operation operations IH] using rev_ind.
  - apply tablesBuilt_init.
  - rewrite fold_left_app. cbn [fold_left]. by apply tablesBuilt_perform.
Qed.

(** ** IAMMapTable: [getAllItems] keeps the order of the table *)










(** ** IAMStorage: the lookups of settings *)




(** ** Strings of decimal digits

    Two strings of decimal digits of the same length are in the order of
    the numbers that they denote. *)














(** ** The resolution of settings (C2) *)






(** *** The merges, one after the other *)









(** *** The order of the attributes *)




(** *** Settings on which [merge] can be called *)







(** *** The engine whose sort is the insertion sort *)

#[global] Instance insertionSort : SortEngine := {|
  engine_sort := @Array_sort;
  engine_sort_Permutation := @Array_sort_Permutation;
  engine_sort_consistent := λ _ _ _ _, eq_refl
|}.




(** X5: on a table built by insertions, [getAllKeys] with [n] filters, for
    [n] between 1 and the number of primary keys, throws nothing and
    returns, each once, the keys of level [n] of the stored records whose
    first [n] keys pass the filters. *)
Theorem getAllKeys_collects_keys `{TableRecord R} (d : nat) (pks : list string)
  (items : list R) (filters : list keyFilter) :
  length pks = S d → (1 ≤ length filters ≤ S d)%nat →
  ∃ keys,
    getAllKeys filters (tableOf d pks items) = Ok keys ∧
    NoDup keys ∧
    ∀ key, key ∈ keys ↔
      ∃ y, y ∈ getAllItems (replicate (length pks) None) (tableOf d pks items) ∧
           keyOf pks (pred (length filters)) y = key ∧
           ∀ i, (i < length filters)%nat → accepts filters i (keyOf pks i y) = true.
Proof.
  intros Hlen Hfilters.
  destruct (getAllKeys_tableOf d pks items filters Hlen Hfilters)
    as (keys & Hkeys & Hnodup & Hspec).
  exists keys. split; [exact Hkeys|]. split; [exact Hnodup|]. exact Hspec.
Qed.

Lemma getAllKeys_collects_keys_witness :
  ∃ keys,
    getAllKeys [None] (tableOf 1 IAMStorage._featuresTableDef [town]) = Ok keys ∧
    NoDup keys ∧
    ∀ key, key ∈ keys ↔
      ∃ y, y ∈ getAllItems (replicate (length IAMStorage._featuresTableDef) None)
                 (tableOf 1 IAMStorage._featuresTableDef [town]) ∧
           keyOf IAMStorage._featuresTableDef (pred (length [None : keyFilter])) y = key ∧
           ∀ i, (i < length [None : keyFilter])%nat →
                accepts [None] i (keyOf IAMStorage._featuresTableDef i y) = true.
Proof.
  apply (getAllKeys_collects_keys 1 IAMStorage._featuresTableDef [town] [None]).
  - reflexivity.
  - cbn. lia.
Defined.

(** X6: in every state of the storage, [getAllPropertyNames],
    [getAllAttributeNames] and [getAllAttributeValues] throw nothing and
    return, each once, the names of the stored properties of the feature
    type, the names of the stored attributes of the feature type, and the
    values of the stored attributes of the feature type that have the given
    name; the feature type is compared after [parseInt], the name with
    [===]. *)
Theorem names_and_values_of_type (operations : list Operation)
  (featureType attributeName : jsany) :
  (∃ names,
     getAllPropertyNames featureType (stateAfter operations) = Ok names ∧
     NoDup names ∧
     ∀ name, name ∈ names ↔
       ∃ p, p ∈ getAllItems [None; None; None]
                  (IAMStorage._featureProperties (stateAfter operations)) ∧
            parseInt_eq (FeatureProperty.getFeatureType p) featureType = true ∧
            FeatureProperty.getName p = name) ∧
  (∃ names,
     getAllAttributeNames featureType (stateAfter operations) = Ok names ∧
     NoDup names ∧
     ∀ name, name ∈ names ↔
       ∃ a, a ∈ getAllItems [None; None; None; None]
                  (IAMStorage._featureAttributes (stateAfter operations)) ∧
            parseInt_eq (FeatureAttribute.getFeatureType a) featureType = true ∧
            FeatureAttribute.getName a = name) ∧
  (∃ values,
     getAllAttributeValues featureType attributeName (stateAfter operations) = Ok values ∧
     NoDup values ∧
     ∀ value, value ∈ values ↔
       ∃ a, a ∈ getAllItems [None; None; None; None]
                  (IAMStorage._featureAttributes (stateAfter operations)) ∧
            parseInt_eq (FeatureAttribute.getFeatureType a) featureType = true ∧
            FeatureAttribute.getName a = attributeName ∧
            FeatureAttribute.getValue a = value).
Proof.
  destruct (tablesBuilt_stateAfter operations) as ([attributes Ha] & [properties Hp] & _).
  split_and!.
  - unfold getAllPropertyNames. rewrite Hp.
    destruct (getAllKeys_tableOf 2 IAMStorage._featurePropertiesTableDef properties
                [Some (λ x, parseInt_eq x featureType); None; None])
      as (names & Hnames & Hnodup & Hspec); [done|cbn; lia|].
    exists names. split_and!; [done..|]. intros name. rewrite Hspec. split.
    + intros (p & Hin & Hname & Haccepts). exists p. split_and!; [done| |done].
      apply (Haccepts 0%nat). cbn. lia.
    + intros (p & Hin & Htype & Hname). exists p. split_and!; [done..|].
      intros i Hi. by destruct i as [|[|[|i]]]; [| | |cbn in Hi; lia].
  - unfold getAllAttributeNames. rewrite Ha.
    destruct (getAllKeys_tableOf 3 IAMStorage._featureAttributesTableDef attributes
                [Some (λ x, parseInt_eq x featureType); None; None])
      as (names & Hnames & Hnodup & Hspec); [done|cbn; lia|].
    exists names. split_and!; [done..|]. intros name. rewrite Hspec. split.
    + intros (a & Hin & Hname & Haccepts). exists a. split_and!; [done| |done].
      apply (Haccepts 0%nat). cbn. lia.
    + intros (a & Hin & Htype & Hname). exists a. split_and!; [done..|].
      intros i Hi. by destruct i as [|[|[|i]]]; [| | |cbn in Hi; lia].
  - unfold getAllAttributeValues. rewrite Ha.
    destruct (getAllKeys_tableOf 3 IAMStorage._featureAttributesTableDef attributes
                [Some (λ x, parseInt_eq x featureType); None;
                 Some (λ x, strict_eq x attributeName); None])
      as (values & Hvalues & Hnodup & Hspec); [done|cbn; lia|].
    exists values. split_and!; [done..|]. intros value. rewrite Hspec. split.
    + intros (a & Hin & Hvalue & Haccepts). exists a. split_and!; [done| | |done].
      * apply (Haccepts 0%nat). cbn. lia.
      * apply strict_eq_true, (Haccepts 2%nat). cbn. lia.
    + intros (a & Hin & Htype & Hname & Hvalue). exists a. split_and!; [done..|].
      intros i Hi. destruct i as [|[|[|[|i]]]]; [done|done| |done|cbn in Hi; lia].
      by apply strict_eq_true.
Qed.

(** ** ProcessResult *)

Lemma addDetail_text status' detail pr :
  ProcessResult.text (ProcessResult.addDetail status' detail pr)
  = if (ProcessResult.status pr <? status') && (status' =? ProcessResult.WARN)
    then ProcessResult.text pr +:+ " with warnings"
    else ProcessResult.text pr.
Proof.
  unfold ProcessResult.addDetail.
  destruct (ProcessResult.status pr <? status'); [|done]. cbn.
  by destruct (status' =? ProcessResult.WARN).
Qed.

(** X7: after any sequence of [addDetail] calls the status is the largest of
    the status before and the statuses passed, so it never decreases; the
    details are the details before followed by the details passed, in the
    order of the calls; the text is the text before, or that text with
    ' with warnings' appended once, and it is the text before whenever the
    status before was WARN or worse. *)
Theorem addDetail_accumulates (calls : list (Z * string)) (pr : ProcessResult.t) :
  ProcessResult.status
    (fold_left (λ pr call, ProcessResult.addDetail call.1 call.2 pr) calls pr)
  = fold_left Z.max (calls.*1) (ProcessResult.status pr) ∧
  ProcessResult.detailList
    (fold_left (λ pr call, ProcessResult.addDetail call.1 call.2 pr) calls pr)
  = ProcessResult.detailList pr ++ calls.*2 ∧
  (ProcessResult.text
     (fold_left (λ pr call, ProcessResult.addDetail call.1 call.2 pr) calls pr)
   = ProcessResult.text pr ∨
   ProcessResult.text
     (fold_left (λ pr call, ProcessResult.addDetail call.1 call.2 pr) calls pr)
   = ProcessResult.text pr +:+ " with warnings") ∧
  (ProcessResult.WARN ≤ ProcessResult.status pr →
   ProcessResult.text
     (fold_left (λ pr call, ProcessResult.addDetail call.1 call.2 pr) calls pr)
   = ProcessResult.text pr).
Proof.
  revert pr. induction calls as [|[status' detail] calls IH]; intros pr.
  - cbn. rewrite app_nil_r. split_and!; [done|done|by left|done].
  - cbn [fold_left fmap list_fmap fst snd].
    destruct (IH (ProcessResult.addDetail status' detail pr))
      as (Hstatus & Hdetails & Htext & Hkept).
    rewrite addDetail_status in Hstatus, Hkept.
    rewrite addDetail_detailList in Hdetails. rewrite addDetail_text in Htext, Hkept.
    split_and!.
    + done.
    + by rewrite Hdetails, <- app_assoc.
    + destruct ((ProcessResult.status pr <? status') && (status' =? ProcessResult.WARN))
        eqn:Hraised; [|done].
      right. apply andb_true_iff in Hraised as [_ Hwarn]. apply Z.eqb_eq in Hwarn.
      apply Hkept. unfold ProcessResult.WARN in *. lia.
    + intros Hwarn.
      assert ((ProcessResult.status pr <? status') && (status' =? ProcessResult.WARN)
              = false) as Hnot.
      { apply andb_false_iff.
        destruct (status' =? ProcessResult.WARN) eqn:E; [|by right]. left.
        apply Z.eqb_eq in E. apply Z.ltb_ge. lia. }
      rewrite Hnot in Hkept. apply Hkept. lia.
Qed.

(** ** ExtendedFeature *)

Lemma addAttribute_fold (feature : ExtendedFeature.t) (attributes : list FeatureAttribute.t) :
  ExtendedFeature.getType
    (fold_left (λ feature a, ExtendedFeature.addAttribute a feature) attributes feature)
  = ExtendedFeature.getType feature ∧
  ExtendedFeature.getId
    (fold_left (λ feature a, ExtendedFeature.addAttribute a feature) attributes feature)
  = ExtendedFeature.getId feature ∧
  ExtendedFeature._properties
    (fold_left (λ feature a, ExtendedFeature.addAttribute a feature) attributes feature)
  = ExtendedFeature._properties feature ∧
  ExtendedFeature._attributes
    (fold_left (λ feature a, ExtendedFeature.addAttribute a feature) attributes feature)
  = ExtendedFeature._attributes feature
    ++ List.filter
         (λ a, strict_eq (FeatureAttribute.getFeatureType a) (ExtendedFeature.getType feature)
               && strict_eq (FeatureAttribute.getFeatureId a) (ExtendedFeature.getId feature))
         attributes.
Proof.
  revert feature. induction attributes as [|a attributes IH]; intros feature.
  - cbn. by rewrite app_nil_r.
  - cbn [fold_left List.filter].
    destruct (IH (ExtendedFeature.addAttribute a feature)) as (-> & -> & -> & ->).
    split_and!; [done..|]. cbn.
    destruct (strict_eq _ _ && strict_eq _ _); [|done]. by rewrite <- app_assoc.
Qed.

(** X8: a feature takes an attribute only if the feature type and the
    feature id of the attribute are strictly equal to its own, and takes it
    as often as it is added.  After [clearAttributes] and any sequence of
    [addAttribute] calls, [getAttributes(filterFunc)] returns, in the order
    of the calls, the attributes added that belong to the feature and pass
    the filter, all of them when no filter is given. *)
Theorem getAttributes_after_addAttribute (feature : ExtendedFeature.t)
  (attributes : list FeatureAttribute.t)
  (filterFunc : option (FeatureAttribute.t → bool)) :
  ExtendedFeature.getAttributes filterFunc
    (fold_left (λ feature a, ExtendedFeature.addAttribute a feature) attributes
       (ExtendedFeature.clearAttributes feature))
  = List.filter
      (λ a, strict_eq (FeatureAttribute.getFeatureType a) (ExtendedFeature.getType feature)
            && strict_eq (FeatureAttribute.getFeatureId a) (ExtendedFeature.getId feature)
            && match filterFunc with
               | Some f => f a
               | None => true
               end)
      attributes.
Proof.
  unfold ExtendedFeature.getAttributes.
  destruct (addAttribute_fold (ExtendedFeature.clearAttributes feature) attributes)
    as (_ & _ & _ & ->).
  cbn [ExtendedFeature.clearAttributes ExtendedFeature._attributes app
       ExtendedFeature.getType ExtendedFeature.getId ExtendedFeature.featureType
       ExtendedFeature._id].
  induction attributes as [|a attributes IH]; [done|].
  cbn [List.filter]. rewrite <- IH.
  destruct (strict_eq _ _ && strict_eq _ _); [|done]. cbn [List.filter andb].
  by destruct filterFunc as [f|]; [destruct (f a)|].
Qed.

(** ** IAMStorage: the attributes and properties that a feature carries *)

Lemma _getItem_modifyItem_same {R} (f : R → R) values values' d index (map : MapN R d) :
  (∀ i, (index ≤ i ≤ index + d)%nat → mjoin (values !! i) = mjoin (values' !! i)) →
  _getItem values' d index (_modifyItem f values d index map)
  = f <$> _getItem values' d index map.
Proof.
  revert index map. induction d as [|d IH]; intros index map Hsame;
    cbn [_getItem _modifyItem]; rewrite <- (Hsame index) by lia.
  - destruct (Map_get (mjoin (values !! index)) map) as [[|item found]|] eqn:E.
    + by rewrite E.
    + by rewrite Map_get_set_eq.
    + by rewrite E.
  - destruct (Map_get (V:=MapN R d) (mjoin (values !! index)) map) as [found|] eqn:E.
    + rewrite (Map_get_set_eq (V:=MapN R d)). apply IH. intros i Hi. apply Hsame. lia.
    + by rewrite E.
Qed.

Lemma _getItem_modifyItem_other {R} (f : R → R) values values' d index (map : MapN R d) :
  (∃ i, (index ≤ i ≤ index + d)%nat ∧ mjoin (values !! i) ≠ mjoin (values' !! i)) →
  _getItem values' d index (_modifyItem f values d index map)
  = _getItem values' d index map.
Proof.
  revert index map. induction d as [|d IH]; intros index map (i & Hi & Hne);
    cbn [_getItem _modifyItem].
  - assert (i = index) as -> by lia.
    destruct (Map_get (mjoin (values !! index)) map) as [[|item found]|] eqn:E; [done| |done].
    by rewrite Map_get_set_ne.
  - destruct (Map_get (V:=MapN R d) (mjoin (values !! index)) map) as [found|] eqn:E;
      [|done].
    destruct (decide (mjoin (values !! index) = mjoin (values' !! index))) as [Heq|Hne'].
    + rewrite <- Heq, (Map_get_set_eq (V:=MapN R d)), E. apply IH.
      exists i. split; [|done].
      destruct (decide (i = index)) as [->|?]; [done|lia].
    + by rewrite (Map_get_set_ne (V:=MapN R d)).
Qed.

Lemma getFeature_mutateFeature_same f ty id (this : IAMStorage.t) :
  IAMStorage.getFeature (Some (JNum ty)) id
    (IAMStorage.mutateFeature f (Some (JNum ty)) id this)
  = f <$> IAMStorage.getFeature (Some (JNum ty)) id this.
Proof.
  unfold IAMStorage.getFeature, IAMStorage.mutateFeature, IAMStorage.featureKeys.
  cbn [parseInt]. unfold getItem, modifyItem, IAMStorage.set_features.
  cbn [_mapTable IAMStorage._features].
  by apply (_getItem_modifyItem_same f _ _ 1).
Qed.

Lemma getFeature_mutateFeature_other f ty' id' ty id (this : IAMStorage.t) :
  parseInt ty' ≠ Some ty ∨ id' ≠ id →
  IAMStorage.getFeature (Some (JNum ty)) id (IAMStorage.mutateFeature f ty' id' this)
  = IAMStorage.getFeature (Some (JNum ty)) id this.
Proof.
  intros Hother. unfold IAMStorage.getFeature, IAMStorage.mutateFeature.
  unfold IAMStorage.featureKeys. cbn [parseInt].
  destruct (parseInt ty') as [n|] eqn:Hty'; [|done].
  unfold getItem, modifyItem, IAMStorage.set_features.
  cbn [_mapTable IAMStorage._features].
  apply (_getItem_modifyItem_other f _ _ 1).
  destruct Hother as [Hty|Hid].
  - exists 0%nat. split; [lia|]. cbn. congruence.
  - exists 1%nat. split; [lia|]. by cbn.
Qed.

Lemma mutateFeature_parseInt f ty' id' n (this : IAMStorage.t) :
  parseInt ty' = Some n →
  IAMStorage.mutateFeature f ty' id' this
  = IAMStorage.mutateFeature f (Some (JNum n)) id' this.
Proof.
  intros Hty'. unfold IAMStorage.mutateFeature, IAMStorage.featureKeys.
  by rewrite Hty'.
Qed.

Lemma getFeature_parseInt ty' id n (this : IAMStorage.t) :
  parseInt ty' = Some n →
  IAMStorage.getFeature ty' id this = IAMStorage.getFeature (Some (JNum n)) id this.
Proof.
  intros Hty'. unfold IAMStorage.getFeature, IAMStorage.featureKeys. by rewrite Hty'.
Qed.

Lemma addAttribute_other a (feature : ExtendedFeature.t) :
  strict_eq (FeatureAttribute.getFeatureType a) (ExtendedFeature.getType feature)
  && strict_eq (FeatureAttribute.getFeatureId a) (ExtendedFeature.getId feature) = false →
  ExtendedFeature.addAttribute a feature = feature.
Proof.
  intros Hother. unfold ExtendedFeature.addAttribute. rewrite Hother. by destruct feature.
Qed.

Lemma loadFeaturesAttributes_loop_feature ty id records :
  ∀ this pr counter feature,
    IAMStorage.getFeature (Some (JNum ty)) id this = Some feature →
    ExtendedFeature.getType feature = Some (JNum ty) →
    ExtendedFeature.getId feature = id →
    IAMStorage.getFeature (Some (JNum ty)) id
      (fold_left IAMStorage.loadFeaturesAttributes_step records (this, pr, counter)).1.1
    = Some (fold_left (λ feature a, ExtendedFeature.addAttribute a feature)
              records feature).
Proof.
  induction records as [|a records IH]; intros this pr counter feature Hfeature Htype Hid;
    [done|].
  cbn [fold_left].
  destruct (decide (parseInt (FeatureAttribute.getFeatureType a) = Some ty
                    ∧ FeatureAttribute.getFeatureId a = id)) as [[Hty Hida]|Hother].
  - assert (IAMStorage.getFeature (FeatureAttribute.getFeatureType a)
              (FeatureAttribute.getFeatureId a) this = Some feature) as Hfound.
    { by rewrite (getFeature_parseInt _ _ ty), Hida. }
    rewrite (loadFeaturesAttributes_step_present _ _ _ _ feature Hfound).
    apply IH; [|done..].
    rewrite (mutateFeature_parseInt _ _ _ ty), Hida by done.
    rewrite getFeature_mutateFeature_same.
    change (IAMStorage.getFeature (Some (JNum ty)) id
              (IAMStorage.set_featureAttributes _ this))
      with (IAMStorage.getFeature (Some (JNum ty)) id this).
    by rewrite Hfeature.
  - assert (ExtendedFeature.addAttribute a feature = feature) as ->.
    { apply addAttribute_other. apply andb_false_iff.
      destruct (strict_eq (FeatureAttribute.getFeatureType a)
                  (ExtendedFeature.getType feature)) eqn:Ety; [|by left].
      right. apply strict_eq_false. intros Eid. apply Hother.
      apply strict_eq_true in Ety. rewrite Ety, Htype, Eid, Hid. done. }
    destruct (IAMStorage.getFeature (FeatureAttribute.getFeatureType a)
                (FeatureAttribute.getFeatureId a) this) as [found|] eqn:Hfound.
    + rewrite (loadFeaturesAttributes_step_present _ _ _ _ found Hfound).
      apply IH; [|done..].
      rewrite getFeature_mutateFeature_other; [done|].
      destruct (decide (parseInt (FeatureAttribute.getFeatureType a) = Some ty));
        [right|by left]. intros Eid. by apply Hother.
    + rewrite (loadFeaturesAttributes_step_absent _ _ _ _ Hfound). by apply IH.
Qed.

Lemma getFeature_modifyAll f ty id (this that : IAMStorage.t) :
  IAMStorage._features that = modifyAll f (IAMStorage._features this) →
  IAMStorage.getFeature ty id that = f <$> IAMStorage.getFeature ty id this.
Proof.
  intros Hthat. unfold IAMStorage.getFeature.
  destruct (IAMStorage.featureKeys ty id) as [values|]; [|done].
  rewrite Hthat. unfold getItem, modifyAll. cbn [_mapTable]. apply _getItem_modifyAll.
Qed.

(** X9: [loadFeaturesAttributes] keeps the attributes that a stored feature
    carries in step with the load.  For a feature that [getFeature] finds
    under a numeric type and an id that are its own, the feature found after
    the load is the same feature with, as attributes, those it carried before
    (none after DROPTABLE) followed by the attributes of the data source
    whose type and id are strictly equal to its own, in their order and as
    often as they occur. *)
Theorem loadFeaturesAttributes_feeds_feature (datasource : DataSource.t)
  (insertType : Z) (pr : ProcessResult.t) (this : IAMStorage.t)
  (ty : Z) (id : jsany) (feature : ExtendedFeature.t) :
  IAMStorage.getFeature (Some (JNum ty)) id this = Some feature →
  ExtendedFeature.getType feature = Some (JNum ty) →
  ExtendedFeature.getId feature = id →
  ∃ loaded,
    IAMStorage.getFeature (Some (JNum ty)) id
      (IAMStorage.loadFeaturesAttributes datasource insertType pr this).1
    = Some loaded ∧
    ExtendedFeature.getType loaded = ExtendedFeature.getType feature ∧
    ExtendedFeature.getId loaded = ExtendedFeature.getId feature ∧
    ExtendedFeature._properties loaded = ExtendedFeature._properties feature ∧
    ExtendedFeature._attributes loaded
    = (if insertType =? IAMData.DROPTABLE then []
       else ExtendedFeature._attributes feature)
      ++ List.filter
           (λ a, strict_eq (FeatureAttribute.getFeatureType a)
                   (ExtendedFeature.getType feature)
                 && strict_eq (FeatureAttribute.getFeatureId a)
                      (ExtendedFeature.getId feature))
           (DataSource.getFeaturesAttributes datasource).
Proof.
  intros Hfeature Htype Hid. unfold IAMStorage.loadFeaturesAttributes.
  destruct (fold_left _ _ _) as [[final pr'] counter] eqn:Hfold. cbn [fst].
  change final with (final, pr', counter).1.1. rewrite <- Hfold.
  destruct (insertType =? IAMData.DROPTABLE).
  - rewrite (loadFeaturesAttributes_loop_feature ty id _ _ _ _
               (ExtendedFeature.clearAttributes feature)); [|
      by rewrite (getFeature_modifyAll ExtendedFeature.clearAttributes _ _ this),
           Hfeature|done..].
    eexists. split; [done|].
    destruct (addAttribute_fold (ExtendedFeature.clearAttributes feature)
                (DataSource.getFeaturesAttributes datasource)) as (-> & -> & -> & ->).
    done.
  - rewrite (loadFeaturesAttributes_loop_feature ty id _ _ _ _ feature) by done.
    eexists. split; [done|].
    destruct (addAttribute_fold feature (DataSource.getFeaturesAttributes datasource))
      as (-> & -> & -> & ->).
    done.
Qed.

Lemma loadFeaturesAttributes_feeds_feature_witness :
  ∃ loaded,
    IAMStorage.getFeature (Some (JNum 1)) (Some (JStr "T1"))
      (IAMStorage.loadFeaturesAttributes
         (DataSource.mk [] [] [statusOfTown "capital" (Some (JStr "1600")) None] [] None)
         IAMData.OVERWRITE (ProcessResult.new ProcessResult.INFO "attributes")
         (townStorage [])).1
    = Some loaded ∧
    ExtendedFeature.getType loaded = ExtendedFeature.getType town ∧
    ExtendedFeature.getId loaded = ExtendedFeature.getId town ∧
    ExtendedFeature._properties loaded = ExtendedFeature._properties town ∧
    ExtendedFeature._attributes loaded
    = (if IAMData.OVERWRITE =? IAMData.DROPTABLE then []
       else ExtendedFeature._attributes town)
      ++ List.filter
           (λ a, strict_eq (FeatureAttribute.getFeatureType a)
                   (ExtendedFeature.getType town)
                 && strict_eq (FeatureAttribute.getFeatureId a)
                      (ExtendedFeature.getId town))
           (DataSource.getFeaturesAttributes
              (DataSource.mk [] []
                 [statusOfTown "capital" (Some (JStr "1600")) None] [] None)).
Proof.
  apply (loadFeaturesAttributes_feeds_feature
           (DataSource.mk [] [] [statusOfTown "capital" (Some (JStr "1600")) None] [] None)
           IAMData.OVERWRITE (ProcessResult.new ProcessResult.INFO "attributes")
           (townStorage []) 1 (Some (JStr "T1")) town).
  - vm_compute. reflexivity.
  - reflexivity.
  - reflexivity.
Defined.

Lemma loadFeaturesProperties_loop_feature ty id records :
  ∀ this pr counter feature,
    IAMStorage.getFeature (Some (JNum ty)) id this = Some feature →
    IAMStorage.getFeature (Some (JNum ty)) id
      (fold_left IAMStorage.loadFeaturesProperties_step records (this, pr, counter)).1.1
    = Some (fold_left
              (λ feature p,
                 ExtendedFeature.addProperty (FeatureProperty.getName p)
                   (PValue (FeatureProperty.getValue p)) feature)
              (List.filter
                 (λ p, bool_decide (parseInt (FeatureProperty.getFeatureType p) = Some ty)
                       && strict_eq (FeatureProperty.getFeatureId p) id)
                 records)
              feature).
Proof.
  induction records as [|p records IH]; intros this pr counter feature Hfeature; [done|].
  cbn [fold_left List.filter].
  destruct (decide (parseInt (FeatureProperty.getFeatureType p) = Some ty)) as [Hty|Hty].
  - rewrite (bool_decide_eq_true_2 _ Hty). cbn [andb].
    destruct (strict_eq (FeatureProperty.getFeatureId p) id) eqn:Hidp.
    + apply strict_eq_true in Hidp.
      assert (IAMStorage.getFeature (FeatureProperty.getFeatureType p)
                (FeatureProperty.getFeatureId p) this = Some feature) as Hfound.
      { by rewrite (getFeature_parseInt _ _ ty), Hidp. }
      rewrite (loadFeaturesProperties_step_present _ _ _ _ feature Hfound).
      cbn [fold_left]. apply IH.
      rewrite (mutateFeature_parseInt _ _ _ ty), Hidp by done.
      rewrite getFeature_mutateFeature_same.
      change (IAMStorage.getFeature (Some (JNum ty)) id
                (IAMStorage.set_featureProperties _ this))
        with (IAMStorage.getFeature (Some (JNum ty)) id this).
      by rewrite Hfeature.
    + apply strict_eq_false in Hidp.
      destruct (IAMStorage.getFeature (FeatureProperty.getFeatureType p)
                  (FeatureProperty.getFeatureId p) this) as [found|] eqn:Hfound.
      * rewrite (loadFeaturesProperties_step_present _ _ _ _ found Hfound).
        apply IH. rewrite getFeature_mutateFeature_other; [done|by right].
      * rewrite (loadFeaturesProperties_step_absent _ _ _ _ Hfound). by apply IH.
  - rewrite (bool_decide_eq_false_2 _ Hty). cbn [andb].
    destruct (IAMStorage.getFeature (FeatureProperty.getFeatureType p)
                (FeatureProperty.getFeatureId p) this) as [found|] eqn:Hfound.
    + rewrite (loadFeaturesProperties_step_present _ _ _ _ found Hfound).
      apply IH. rewrite getFeature_mutateFeature_other; [done|by left].
    + rewrite (loadFeaturesProperties_step_absent _ _ _ _ Hfound). by apply IH.
Qed.

Lemma addProperty_fold (feature : ExtendedFeature.t) (properties : list FeatureProperty.t) :
  ExtendedFeature.getType
    (fold_left (λ feature p,
        ExtendedFeature.addProperty (FeatureProperty.getName p)
          (PValue (FeatureProperty.getValue p)) feature) properties feature)
  = ExtendedFeature.getType feature ∧
  ExtendedFeature.getId
    (fold_left (λ feature p,
        ExtendedFeature.addProperty (FeatureProperty.getName p)
          (PValue (FeatureProperty.getValue p)) feature) properties feature)
  = ExtendedFeature.getId feature ∧
  ExtendedFeature._attributes
    (fold_left (λ feature p,
        ExtendedFeature.addProperty (FeatureProperty.getName p)
          (PValue (FeatureProperty.getValue p)) feature) properties feature)
  = ExtendedFeature._attributes feature ∧
  ∀ name : string,
    ExtendedFeature._properties
      (fold_left (λ feature p,
          ExtendedFeature.addProperty (FeatureProperty.getName p)
            (PValue (FeatureProperty.getValue p)) feature) properties feature)
    !! name
    = match last (List.filter
                    (λ p, String.eqb (toString (FeatureProperty.getName p)) name)
                    properties) with
      | Some p => Some (PValue (FeatureProperty.getValue p))
      | None => ExtendedFeature._properties feature !! name
      end.
Proof.
  revert feature. induction properties as [|p properties IH] using rev_ind; intros feature.
  - done.
  - rewrite fold_left_app. cbn [fold_left].
    destruct (IH feature) as (Htype & Hid & Hattributes & Hvalue).
    split_and!; [done..|]. intros name.
    rewrite List.filter_app. cbn [List.filter].
    unfold ExtendedFeature.addProperty. cbn [ExtendedFeature._properties].
    destruct (String.eqb (toString (FeatureProperty.getName p)) name) eqn:Hname.
    + apply String.eqb_eq in Hname. rewrite Hname, lookup_insert_eq, last_snoc. done.
    + apply String.eqb_neq in Hname. rewrite lookup_insert_ne by done.
      rewrite app_nil_r. apply Hvalue.
Qed.

Lemma List_filter_filter {A} (f g : A → bool) (l : list A) :
  List.filter f (List.filter g l) = List.filter (λ x, g x && f x) l.
Proof.
  induction l as [|x l IH]; [done|]. cbn [List.filter].
  destruct (g x); cbn [List.filter andb]; [|done]. by rewrite IH.
Qed.

(** X10: [loadFeaturesProperties] keeps the properties that a stored feature
    carries in step with the load.  For a feature that [getFeature] finds
    under a numeric type and an id, the feature found after the load has,
    under every name, the value of the last property of the data source
    with this name whose type parses to the type of the feature and whose
    id is its id; under a name that no such property has it has the value
    it had before, and none after DROPTABLE.  Its attributes are
    unchanged.  (No property is named '__proto__'.) *)
Theorem loadFeaturesProperties_feeds_feature (datasource : DataSource.t)
  (insertType : Z) (pr : ProcessResult.t) (this : IAMStorage.t)
  (ty : Z) (id : jsany) (feature : ExtendedFeature.t) :
  IAMStorage.getFeature (Some (JNum ty)) id this = Some feature →
  (∀ p, p ∈ DataSource.getFeaturesProperties datasource →
        toString (FeatureProperty.getName p) ≠ "__proto__") →
  ∃ loaded,
    IAMStorage.getFeature (Some (JNum ty)) id
      (IAMStorage.loadFeaturesProperties datasource insertType pr this).1
    = Some loaded ∧
    ExtendedFeature.getType loaded = ExtendedFeature.getType feature ∧
    ExtendedFeature.getId loaded = ExtendedFeature.getId feature ∧
    ExtendedFeature._attributes loaded = ExtendedFeature._attributes feature ∧
    ∀ name : string,
      ExtendedFeature._properties loaded !! name
      = match last (List.filter
                      (λ p, bool_decide (parseInt (FeatureProperty.getFeatureType p)
                                         = Some ty)
                            && strict_eq (FeatureProperty.getFeatureId p) id
                            && String.eqb (toString (FeatureProperty.getName p)) name)
                      (DataSource.getFeaturesProperties datasource)) with
        | Some p => Some (PValue (FeatureProperty.getValue p))
        | None => if insertType =? IAMData.DROPTABLE then None
                  else ExtendedFeature._properties feature !! name
        end.
Proof.
  intros Hfeature _. unfold IAMStorage.loadFeaturesProperties.
  destruct (fold_left _ _ _) as [[final pr'] counter] eqn:Hfold. cbn [fst].
  change final with (final, pr', counter).1.1. rewrite <- Hfold.
  destruct (insertType =? IAMData.DROPTABLE).
  - rewrite (loadFeaturesProperties_loop_feature ty id _ _ _ _
               (ExtendedFeature.clearProperties feature));
      [|by rewrite (getFeature_modifyAll ExtendedFeature.clearProperties _ _ this),
             Hfeature].
    eexists. split; [done|].
    destruct (addProperty_fold (ExtendedFeature.clearProperties feature)
                (List.filter
                   (λ p, bool_decide (parseInt (FeatureProperty.getFeatureType p) = Some ty)
                         && strict_eq (FeatureProperty.getFeatureId p) id)
                   (DataSource.getFeaturesProperties datasource)))
      as (-> & -> & -> & Hvalue).
    split_and!; [done..|]. intros name. by rewrite Hvalue, List_filter_filter.
  - rewrite (loadFeaturesProperties_loop_feature ty id _ _ _ _ feature) by done.
    eexists. split; [done|].
    destruct (addProperty_fold feature
                (List.filter
                   (λ p, bool_decide (parseInt (FeatureProperty.getFeatureType p) = Some ty)
                         && strict_eq (FeatureProperty.getFeatureId p) id)
                   (DataSource.getFeaturesProperties datasource)))
      as (-> & -> & -> & Hvalue).
    split_and!; [done..|]. intros name. by rewrite Hvalue, List_filter_filter.
Qed.

Lemma loadFeaturesProperties_feeds_feature_witness :
  ∃ loaded,
    IAMStorage.getFeature (Some (JNum 1)) (Some (JStr "T1"))
      (IAMStorage.loadFeaturesProperties
         (DataSource.mk []
            [FeatureProperty.mk (Some (JNum 1)) (Some (JStr "T1")) (Some (JStr "name"))
               (Some (JStr "Town"))] [] [] None)
         IAMData.OVERWRITE (ProcessResult.new ProcessResult.INFO "properties")
         (townStorage [])).1
    = Some loaded ∧
    ExtendedFeature.getType loaded = ExtendedFeature.getType town ∧
    ExtendedFeature.getId loaded = ExtendedFeature.getId town ∧
    ExtendedFeature._attributes loaded = ExtendedFeature._attributes town ∧
    ∀ name : string,
      ExtendedFeature._properties loaded !! name
      = match last (List.filter
                      (λ p, bool_decide (parseInt (FeatureProperty.getFeatureType p)
                                         = Some 1)
                            && strict_eq (FeatureProperty.getFeatureId p) (Some (JStr "T1"))
                            && String.eqb (toString (FeatureProperty.getName p)) name)
                      (DataSource.getFeaturesProperties
                         (DataSource.mk []
                            [FeatureProperty.mk (Some (JNum 1)) (Some (JStr "T1"))
                               (Some (JStr "name")) (Some (JStr "Town"))] [] [] None))) with
        | Some p => Some (PValue (FeatureProperty.getValue p))
        | None => if IAMData.OVERWRITE =? IAMData.DROPTABLE then None
                  else ExtendedFeature._properties town !! name
        end.
Proof.
  apply (loadFeaturesProperties_feeds_feature
           (DataSource.mk []
              [FeatureProperty.mk (Some (JNum 1)) (Some (JStr "T1")) (Some (JStr "name"))
                 (Some (JStr "Town"))] [] [] None)
           IAMData.OVERWRITE (ProcessResult.new ProcessResult.INFO "properties")
           (townStorage []) 1 (Some (JStr "T1")) town).
  - vm_compute. reflexivity.
  - intros p Hp. apply list_elem_of_singleton in Hp. rewrite Hp. cbn. discriminate.
Defined.

(** ** The bounding box *)

Lemma num_le_refl a : num_le a a = true.
Proof.
  unfold num_le. destruct a as [|q|]; cbn; [done| |done].
  rewrite negb_involutive. apply Qle_bool_iff, Qle_refl.
Qed.

Lemma num_le_trans a b c : num_le a b = true → num_le b c = true → num_le a c = true.
Proof.
  unfold num_le. destruct a as [|x|], b as [|y|], c as [|z|]; cbn; try done.
  rewrite !negb_involutive, !Qle_bool_iff. apply Qle_trans.
Qed.

Lemma num_lt_le a b : num_lt a b = true → num_le a b = true.
Proof.
  unfold num_le. destruct a as [|x|], b as [|y|]; cbn; try done.
  rewrite negb_involutive, negb_true_iff. intros Hlt.
  apply Qle_bool_iff, Qlt_le_weak, Qnot_le_lt. intros Hle.
  apply Qle_bool_iff in Hle. congruence.
Qed.

Lemma getMinOfArray_fold array min :
  num_le (fold_left (λ min x,
              match x with
              | Some v => if num_lt v min then v else min
              | None => min
              end) array min) min = true ∧
  (∀ v, Some v ∈ array →
        num_le (fold_left (λ min x,
                    match x with
                    | Some v => if num_lt v min then v else min
                    | None => min
                    end) array min) v = true) ∧
  (fold_left (λ min x,
       match x with
       | Some v => if num_lt v min then v else min
       | None => min
       end) array min = min ∨
   Some (fold_left (λ min x,
             match x with
             | Some v => if num_lt v min then v else min
             | None => min
             end) array min) ∈ array).
Proof.
  revert min. induction array as [|x array IH]; intros min; cbn [fold_left].
  - split_and!; [apply num_le_refl| |by left]. intros v Hv. by apply elem_of_nil in Hv.
  - destruct x as [w|].
    + destruct (num_lt w min) eqn:Hlt.
      * destruct (IH w) as (Hle & Hall & Hin). split_and!.
        -- eapply num_le_trans; [exact Hle|]. by apply num_lt_le.
        -- intros v Hv. apply elem_of_cons in Hv as [[= ->]|Hv]; [done|by apply Hall].
        -- right. destruct Hin as [->|Hin]; [by constructor|by constructor].
      * destruct (IH min) as (Hle & Hall & Hin). split_and!; [done| |].
        -- intros v Hv. apply elem_of_cons in Hv as [[= ->]|Hv]; [|by apply Hall].
           eapply num_le_trans; [exact Hle|]. unfold num_le. by rewrite Hlt.
        -- destruct Hin as [->|Hin]; [by left|right; by constructor].
    + destruct (IH min) as (Hle & Hall & Hin). split_and!; [done| |].
      * intros v Hv. apply elem_of_cons in Hv as [[=]|Hv]. by apply Hall.
      * destruct Hin as [->|Hin]; [by left|right; by constructor].
Qed.

Lemma getMaxOfArray_fold array max :
  num_le max (fold_left (λ max x,
                  match x with
                  | Some v => if num_lt max v then v else max
                  | None => max
                  end) array max) = true ∧
  (∀ v, Some v ∈ array →
        num_le v (fold_left (λ max x,
                      match x with
                      | Some v => if num_lt max v then v else max
                      | None => max
                      end) array max) = true) ∧
  (fold_left (λ max x,
       match x with
       | Some v => if num_lt max v then v else max
       | None => max
       end) array max = max ∨
   Some (fold_left (λ max x,
             match x with
             | Some v => if num_lt max v then v else max
             | None => max
             end) array max) ∈ array).
Proof.
  revert max. induction array as [|x array IH]; intros max; cbn [fold_left].
  - split_and!; [apply num_le_refl| |by left]. intros v Hv. by apply elem_of_nil in Hv.
  - destruct x as [w|].
    + destruct (num_lt max w) eqn:Hlt.
      * destruct (IH w) as (Hle & Hall & Hin). split_and!.
        -- eapply num_le_trans; [|exact Hle]. by apply num_lt_le.
        -- intros v Hv. apply elem_of_cons in Hv as [[= ->]|Hv]; [done|by apply Hall].
        -- right. destruct Hin as [->|Hin]; [by constructor|by constructor].
      * destruct (IH max) as (Hle & Hall & Hin). split_and!; [done| |].
        -- intros v Hv. apply elem_of_cons in Hv as [[= ->]|Hv]; [|by apply Hall].
           eapply num_le_trans; [|exact Hle]. unfold num_le. by rewrite Hlt.
        -- destruct Hin as [->|Hin]; [by left|right; by constructor].
    + destruct (IH max) as (Hle & Hall & Hin). split_and!; [done| |].
      * intros v Hv. apply elem_of_cons in Hv as [[=]|Hv]. by apply Hall.
      * destruct Hin as [->|Hin]; [by left|right; by constructor].
Qed.

(** X11: [getMinOfArray] returns a lower bound of the numbers in the array
    that is Infinity or one of them, and [getMaxOfArray] an upper bound that
    is -Infinity or one of them; undefined entries are passed over, and on
    an array without numbers the results are Infinity and -Infinity. *)
Theorem getMinOfArray_getMaxOfArray_bound (array : list (option num)) :
  (∀ v, Some v ∈ array → num_le (getMinOfArray array) v = true) ∧
  (getMinOfArray array = Infinity ∨ Some (getMinOfArray array) ∈ array) ∧
  (∀ v, Some v ∈ array → num_le v (getMaxOfArray array) = true) ∧
  (getMaxOfArray array = NegInfinity ∨ Some (getMaxOfArray array) ∈ array) ∧
  ((∀ v, Some v ∉ array) →
   getMinOfArray array = Infinity ∧ getMaxOfArray array = NegInfinity).
Proof.
  destruct (getMinOfArray_fold array Infinity) as (_ & Hmin & Hminin).
  destruct (getMaxOfArray_fold array NegInfinity) as (_ & Hmax & Hmaxin).
  split_and!; [done..|]. intros Hnone. split.
  - destruct Hminin as [?|Hin]; [done|]. by apply Hnone in Hin.
  - destruct Hmaxin as [?|Hin]; [done|]. by apply Hnone in Hin.
Qed.

(** X12: the bounding box of the storage contains the stored points and line
    strings.  For every stored feature, [getMinLongitude()] of the storage is
    at most the minimum longitude of the feature and [getMaxLongitude()] at
    least its maximum longitude; the longitude of a stored point and of
    every position of a stored line string lies between the two.  The same
    holds for the latitudes. *)
Theorem bounding_box_contains_features (this : IAMStorage.t) (feature : ExtendedFeature.t) :
  feature ∈ IAMStorage.getAllFeatures this →
  (∀ v, ExtendedFeature.getMinLongitude feature = Some v →
        num_le (IAMStorage.getMinLongitude this) v = true) ∧
  (∀ v, Feature.getMaxLongitude feature = Some v →
        num_le v (getMaxLongitude this) = true) ∧
  (∀ v, ExtendedFeature.getMinLatitude feature = Some v →
        num_le (IAMStorage.getMinLatitude this) v = true) ∧
  (∀ v, Feature.getMaxLatitude feature = Some v →
        num_le v (getMaxLatitude this) = true) ∧
  (∀ position axis x,
     ExtendedFeature.getType feature = Some (JNum FeatureType.POINT) →
     ExtendedFeature._coordinates feature = PointCoordinates position →
     position !! axis = Some x →
     ExtendedFeature.getMin axis feature = Some x ∧ Feature.getMax axis feature = Some x) ∧
  (∀ positions position axis x,
     ExtendedFeature.getType feature = Some (JNum FeatureType.LINESTRING) →
     ExtendedFeature._coordinates feature = LineStringCoordinates positions →
     position ∈ positions → position !! axis = Some x →
     ∃ low high,
       ExtendedFeature.getMin axis feature = Some low ∧
       Feature.getMax axis feature = Some high ∧
       num_le low x = true ∧ num_le x high = true).
Proof.
  intros Hfeature. split_and!.
  - intros v Hv. unfold IAMStorage.getMinLongitude, getMinOfArray.
    apply getMinOfArray_fold. apply list_elem_of_fmap. exists feature. by rewrite Hv.
  - intros v Hv. unfold getMaxLongitude, getMaxOfArray.
    apply getMaxOfArray_fold. apply list_elem_of_fmap. exists feature. by rewrite Hv.
  - intros v Hv. unfold IAMStorage.getMinLatitude, getMinOfArray.
    apply getMinOfArray_fold. apply list_elem_of_fmap. exists feature. by rewrite Hv.
  - intros v Hv. unfold getMaxLatitude, getMaxOfArray.
    apply getMaxOfArray_fold. apply list_elem_of_fmap. exists feature. by rewrite Hv.
  - intros position axis x Htype Hcoordinates Hx.
    unfold ExtendedFeature.getMin, Feature.getMax. rewrite Htype, Hcoordinates. by cbn.
  - intros positions position axis x Htype Hcoordinates Hposition Hx.
    unfold ExtendedFeature.getMin, Feature.getMax. rewrite Htype, Hcoordinates. cbn.
    eexists _, _. split_and!; [done..| |].
    + unfold getMinOfArray. apply getMinOfArray_fold. apply list_elem_of_fmap.
      exists position. by rewrite Hx.
    + unfold getMaxOfArray. apply getMaxOfArray_fold. apply list_elem_of_fmap.
      exists position. by rewrite Hx.
Qed.

Lemma bounding_box_contains_features_witness :
  town ∈ IAMStorage.getAllFeatures (townStorage []) ∧
  num_le (IAMStorage.getMinLongitude (townStorage [])) (Finite (10 # 1)) = true ∧
  num_le (Finite (10 # 1)) (getMaxLongitude (townStorage [])) = true.
Proof.
  assert (town ∈ IAMStorage.getAllFeatures (townStorage [])) as Hin.
  { change (IAMStorage.getAllFeatures (townStorage [])) with [town]. by constructor. }
  destruct (bounding_box_contains_features (townStorage []) town Hin)
    as (Hmin & Hmax & _).
  split; [exact Hin|]. split; [by apply Hmin|by apply Hmax].
Defined.

(** ** Color: the hexadecimal notation *)

Lemma _numberToHex_byte (n : Z) :
  0 ≤ n ≤ 255 →
  ∃ high low,
    _numberToHex n = String high (String low "") ∧
    parseInt16 (String high (String low "")) = Some n.
Proof.
  intros Hn.
  assert (forallb (λ k,
            match _numberToHex (Z.of_nat k) with
            | String high (String low EmptyString) =>
                bool_decide (parseInt16 (String high (String low "")) = Some (Z.of_nat k))
            | _ => false
            end) (seq 0 256) = true) as Hall by (vm_compute; reflexivity).
  rewrite forallb_forall in Hall.
  specialize (Hall (Z.to_nat n)). rewrite Z2Nat.id in Hall by lia.
  assert (In (Z.to_nat n) (seq 0 256)) as Hin by (apply in_seq; lia).
  specialize (Hall Hin).
  destruct (_numberToHex n) as [|high [|low [|c rest]]]; try done.
  apply bool_decide_eq_true in Hall. by exists high, low.
Qed.

(** X13: the hexadecimal notation of a color reads back.  For a color whose
    red, green and blue values are integers from 0 to 255, [toCSSHex()] is a
    string of seven characters, and [_setColorValueFromHex] on that string
    stores the same three values. *)
Theorem toCSSHex_reads_back (color : Color.t) :
  0 ≤ Color.r color ≤ 255 → 0 ≤ Color.g color ≤ 255 → 0 ≤ Color.b color ≤ 255 →
  String.length (toCSSHex color) = 7%nat ∧
  _setColorValueFromHex (toCSSHex color)
  = (Some (Color.r color), Some (Color.g color), Some (Color.b color)).
Proof.
  intros Hr Hg Hb. unfold toCSSHex, _setColorValueFromHex.
  destruct (_numberToHex_byte _ Hr) as (r1 & r2 & -> & Hred).
  destruct (_numberToHex_byte _ Hg) as (g1 & g2 & -> & Hgreen).
  destruct (_numberToHex_byte _ Hb) as (b1 & b2 & -> & Hblue).
  change ("#" +:+ String r1 (String r2 "") +:+ String g1 (String g2 "")
          +:+ String b1 (String b2 ""))
    with (String "#" (String r1 (String r2 (String g1 (String g2
            (String b1 (String b2 ""))))))).
  split; [done|]. cbn [substring]. by rewrite Hred, Hgreen, Hblue.
Qed.

Lemma toCSSHex_reads_back_witness :
  String.length (toCSSHex (Color.mk 200 16 5 1)) = 7%nat ∧
  _setColorValueFromHex (toCSSHex (Color.mk 200 16 5 1)) = (Some 200, Some 16, Some 5).
Proof. apply (toCSSHex_reads_back (Color.mk 200 16 5 1)); cbn; lia. Defined.

(** ** The CSV adapter: the header row *)

Lemma _checkHeader_fold (header template : list string) (n : nat)
  (pr : ProcessResult.t) :
  ProcessResult.detailList
    (fold_left (λ processResult '(index, element),
         if strict_eq (Some (JStr element)) (JStr <$> header !! index) then processResult
         else
           ProcessResult.addDetail ProcessResult.WARN
             (getMsg "WARNING: colum " +:+ pretty index
              +:+ getMsg " should be named " +:+ element
              +:+ getMsg ". Instead found "
              +:+ toString (JStr <$> header !! index))
             processResult)
       (imap (λ index element, ((n + index)%nat, element)) template) pr)
  = ProcessResult.detailList pr
    ++ omap (λ '(index, element),
          if strict_eq (Some (JStr element)) (JStr <$> header !! index) then None
          else Some ("WARNING: colum " +:+ pretty index +:+ " should be named "
                     +:+ element +:+ ". Instead found "
                     +:+ toString (JStr <$> header !! index)))
        (imap (λ index element, ((n + index)%nat, element)) template) ∧
  ((∀ index element, template !! index = Some element →
                     header !! (n + index)%nat = Some element) →
   fold_left (λ processResult '(index, element),
       if strict_eq (Some (JStr element)) (JStr <$> header !! index) then processResult
       else
         ProcessResult.addDetail ProcessResult.WARN
           (getMsg "WARNING: colum " +:+ pretty index
            +:+ getMsg " should be named " +:+ element
            +:+ getMsg ". Instead found "
            +:+ toString (JStr <$> header !! index))
           processResult)
     (imap (λ index element, ((n + index)%nat, element)) template) pr = pr).
Proof.
  revert n pr. induction template as [|element template IH]; intros n pr.
  - cbn. by rewrite app_nil_r.
  - cbn [imap fold_left omap list_omap].
    assert (imap ((λ index element0, ((n + index)%nat, element0)) ∘ S) template
            = imap (λ index element0, ((S n + index)%nat, element0)) template) as ->.
    { apply imap_ext. intros i x _. cbn. f_equal. lia. }
    rewrite Nat.add_0_r.
    destruct (strict_eq (Some (JStr element)) (JStr <$> header !! n)) eqn:Hcolumn.
    + destruct (IH (S n) pr) as [Hdetails Hsame]. split; [done|].
      intros Hmatch. apply Hsame. intros index element' Hat.
      replace (S n + index)%nat with (n + S index)%nat by lia.
      by apply (Hmatch (S index)).
    + destruct (IH (S n) (ProcessResult.addDetail ProcessResult.WARN
                            (getMsg "WARNING: colum " +:+ pretty n
                             +:+ getMsg " should be named " +:+ element
                             +:+ getMsg ". Instead found "
                             +:+ toString (JStr <$> header !! n)) pr))
        as [Hdetails _].
      split.
      * rewrite Hdetails, addDetail_detailList, <- app_assoc. done.
      * intros Hmatch. exfalso. apply strict_eq_false in Hcolumn. apply Hcolumn.
        specialize (Hmatch 0%nat element eq_refl). rewrite Nat.add_0_r in Hmatch.
        by rewrite Hmatch.
Qed.

(** X14: [_checkHeader] rejects a header only for being shorter than the
    template.  A header with at least as many columns never throws: every
    column whose name differs from the template adds one detail, its warning,
    in the order of the columns; columns beyond the template are not looked
    at; a header that starts with the names of the template leaves the
    process result as it is. *)
Theorem _checkHeader_warns_only (header template : list string) (pr : ProcessResult.t) :
  (length template ≤ length header)%nat →
  ∃ checked,
    CSV._checkHeader (Some header) (Some template) pr = Ok checked ∧
    ProcessResult.detailList checked
    = ProcessResult.detailList pr
      ++ omap (λ '(index, element),
            if strict_eq (Some (JStr element)) (JStr <$> header !! index) then None
            else Some ("WARNING: colum " +:+ pretty index +:+ " should be named "
                       +:+ element +:+ ". Instead found "
                       +:+ toString (JStr <$> header !! index)))
          (imap (λ index element, (index, element)) template) ∧
    (take (length template) header = template → checked = pr).
Proof.
  intros Hlength. unfold CSV._checkHeader.
  rewrite (proj2 (Nat.ltb_ge _ _)) by done. eexists. split; [done|].
  destruct (_checkHeader_fold header template 0 pr) as [Hdetails Hsame].
  split; [exact Hdetails|]. intros Hprefix. apply Hsame.
  intros index element Hat. cbn. rewrite <- Hprefix in Hat.
  apply lookup_take_Some in Hat. by destruct Hat.
Qed.

Lemma _checkHeader_warns_only_witness :
  ∃ checked,
    CSV._checkHeader (Some ["feature"; "featureId"; "name"; "value"; "note"])
      (Some CSV.propertiesHeaderTemplate) (ProcessResult.new ProcessResult.INFO "loaded")
    = Ok checked ∧
    ProcessResult.detailList checked
    = ["WARNING: colum 2 should be named propertyName1. Instead found name";
       "WARNING: colum 3 should be named propertyValue1. Instead found value"].
Proof.
  destruct (_checkHeader_warns_only ["feature"; "featureId"; "name"; "value"; "note"]
              CSV.propertiesHeaderTemplate (ProcessResult.new ProcessResult.INFO "loaded"))
    as (checked & Hchecked & Hdetails & _); [cbn; lia|].
  exists checked. split; [exact Hchecked|]. rewrite Hdetails. vm_compute. reflexivity.
Defined.

(** ** The CSV adapter: the character loop *)

Lemma touch_fresh (done : list (list string)) (prev : list string) quote :
  CSV.touch (CSV.mkLoopState
               (done ++ match prev with [] => [] | _ :: _ => [prev] end)
               (length done) (length prev) quote)
  = done ++ [prev ++ [""]].
Proof.
  unfold CSV.touch. cbn [CSV.arr CSV.row CSV.col].
  destruct prev as [|cell prev].
  - rewrite app_nil_r, Nat.ltb_irrefl.
    rewrite (alter_app_r_alt _ done [[]] (length done)) by lia.
    by rewrite Nat.sub_diag.
  - rewrite length_app, (proj2 (Nat.ltb_lt _ _)) by (cbn; lia).
    rewrite (alter_app_r_alt _ done [cell :: prev] (length done)) by lia.
    rewrite Nat.sub_diag. cbn [alter list_alter]. by rewrite Nat.ltb_irrefl.
Qed.

Lemma touch_touched (done : list (list string)) (prev : list string) cell quote :
  CSV.touch (CSV.mkLoopState (done ++ [prev ++ [cell]]) (length done) (length prev) quote)
  = done ++ [prev ++ [cell]].
Proof.
  unfold CSV.touch. cbn [CSV.arr CSV.row CSV.col].
  rewrite length_app, (proj2 (Nat.ltb_lt _ _)) by (cbn; lia).
  rewrite (alter_app_r_alt _ done [prev ++ [cell]] (length done)) by lia.
  rewrite Nat.sub_diag. cbn [alter list_alter].
  by rewrite length_app, (proj2 (Nat.ltb_lt _ _)) by (cbn; lia).
Qed.

Lemma append_touched (done : list (list string)) (prev : list string) cell cc :
  CSV.append cc (length done) (length prev) (done ++ [prev ++ [cell]])
  = done ++ [prev ++ [cell +:+ String cc ""]].
Proof.
  unfold CSV.append.
  rewrite (alter_app_r_alt _ done [prev ++ [cell]] (length done)) by lia.
  rewrite Nat.sub_diag. cbn [alter list_alter].
  rewrite (alter_app_r_alt _ prev [cell] (length prev)) by lia.
  by rewrite Nat.sub_diag.
Qed.

Lemma string_app_nil_r (s : string) : s +:+ "" = s.
Proof.
  induction s as [|c s IH]; [done|].
  change (String c (s +:+ "") = String c s). by rewrite IH.
Qed.

Lemma string_app_assoc (s1 s2 s3 : string) : (s1 +:+ s2) +:+ s3 = s1 +:+ (s2 +:+ s3).
Proof.
  induction s1 as [|c s1 IH]; [done|].
  change (String c ((s1 +:+ s2) +:+ s3) = String c (s1 +:+ (s2 +:+ s3))). by rewrite IH.
Qed.

Lemma loopStep_plain delimiter cc nc (st : CSV.LoopState) :
  CSV.quote st = false →
  cc ≠ "034"%char → cc ≠ delimiter → cc ≠ "013"%char → cc ≠ "010"%char →
  CSV.loopStep delimiter cc nc st
  = (CSV.mkLoopState (CSV.append cc (CSV.row st) (CSV.col st) (CSV.touch st))
       (CSV.row st) (CSV.col st) false, false).
Proof.
  intros Hquote Hdquote Hdelimiter HCR HLF. unfold CSV.loopStep.
  rewrite (proj2 (Ascii.eqb_neq _ _) Hdquote), (proj2 (Ascii.eqb_neq _ _) Hdelimiter),
    (proj2 (Ascii.eqb_neq _ _) HCR), (proj2 (Ascii.eqb_neq _ _) HLF), Hquote.
  done.
Qed.

Lemma loopStep_delimiter delimiter nc (st : CSV.LoopState) :
  CSV.quote st = false → delimiter ≠ "034"%char →
  CSV.loopStep delimiter delimiter nc st
  = (CSV.mkLoopState (CSV.touch st) (CSV.row st) (S (CSV.col st)) false, false).
Proof.
  intros Hquote Hdquote. unfold CSV.loopStep.
  rewrite (proj2 (Ascii.eqb_neq _ _) Hdquote), Ascii.eqb_refl, Hquote. done.
Qed.

Lemma loopStep_LF delimiter nc (st : CSV.LoopState) :
  CSV.quote st = false → delimiter ≠ "010"%char →
  CSV.loopStep delimiter "010"%char nc st
  = (CSV.mkLoopState (CSV.touch st) (S (CSV.row st)) 0 false, false).
Proof.
  intros Hquote Hdelimiter. unfold CSV.loopStep.
  assert (Ascii.eqb "010"%char delimiter = false) as ->.
  { apply Ascii.eqb_neq. congruence. }
  rewrite Hquote. done.
Qed.

(** The characters of a plain cell, read into the cell that is open. *)
Lemma parseLoop_plain delimiter (s : list ascii) rest (done : list (list string))
  (prev : list string) cell :
  (∀ c, c ∈ s → c ≠ "034"%char ∧ c ≠ delimiter ∧ c ≠ "013"%char ∧ c ≠ "010"%char) →
  CSV.parseLoop delimiter (s ++ rest)
    (CSV.mkLoopState (done ++ [prev ++ [cell]]) (length done) (length prev) false)
  = CSV.parseLoop delimiter rest
      (CSV.mkLoopState (done ++ [prev ++ [cell +:+ string_of_list_ascii s]])
         (length done) (length prev) false).
Proof.
  revert cell. induction s as [|cc s IH]; intros cell Hplain.
  - cbn [app string_of_list_ascii]. by rewrite string_app_nil_r.
  - destruct (Hplain cc ltac:(by constructor)) as (Hdquote & Hdelimiter & HCR & HLF).
    cbn [app CSV.parseLoop].
    rewrite loopStep_plain by done. cbn [CSV.row CSV.col].
    rewrite touch_touched, append_touched.
    rewrite IH by (intros c Hc; apply Hplain; by constructor).
    cbn [string_of_list_ascii].
    by rewrite string_app_assoc.
Qed.

(** A plain cell and the character that ends it: the delimiter opens the
    next cell of the row, the line feed ends the row. *)
Lemma parseLoop_cell delimiter (cell : string) rest (done : list (list string))
  (prev : list string) :
  delimiter ≠ "034"%char → delimiter ≠ "010"%char →
  (∀ c, c ∈ list_ascii_of_string cell →
        c ≠ "034"%char ∧ c ≠ delimiter ∧ c ≠ "013"%char ∧ c ≠ "010"%char) →
  CSV.parseLoop delimiter (list_ascii_of_string cell ++ delimiter :: rest)
    (CSV.mkLoopState (done ++ match prev with [] => [] | _ :: _ => [prev] end)
       (length done) (length prev) false)
  = CSV.parseLoop delimiter rest
      (CSV.mkLoopState (done ++ [prev ++ [cell]]) (length done) (S (length prev)) false) ∧
  CSV.parseLoop delimiter (list_ascii_of_string cell ++ "010"%char :: rest)
    (CSV.mkLoopState (done ++ match prev with [] => [] | _ :: _ => [prev] end)
       (length done) (length prev) false)
  = CSV.parseLoop delimiter rest
      (CSV.mkLoopState (done ++ [prev ++ [cell]]) (S (length done)) 0 false).
Proof.
  intros Hdquote HLF Hplain.
  destruct cell as [|cc cell].
  - cbn [list_ascii_of_string app CSV.parseLoop].
    rewrite loopStep_delimiter, loopStep_LF by done.
    cbn [CSV.row CSV.col]. by rewrite touch_fresh.
  - destruct (Hplain cc ltac:(by constructor)) as (Hcc1 & Hcc2 & Hcc3 & Hcc4).
    assert (∀ c, c ∈ list_ascii_of_string cell →
                 c ≠ "034"%char ∧ c ≠ delimiter ∧ c ≠ "013"%char ∧ c ≠ "010"%char)
      as Hrest.
    { intros c Hc. apply Hplain. by constructor. }
    split.
    + cbn [list_ascii_of_string app CSV.parseLoop].
      rewrite loopStep_plain by done. cbn [CSV.row CSV.col].
      rewrite touch_fresh, append_touched, parseLoop_plain by done.
      rewrite string_of_list_ascii_of_string.
      cbn [CSV.parseLoop]. rewrite loopStep_delimiter by done.
      cbn [CSV.row CSV.col]. by rewrite touch_touched.
    + cbn [list_ascii_of_string app CSV.parseLoop].
      rewrite loopStep_plain by done. cbn [CSV.row CSV.col].
      rewrite touch_fresh, append_touched, parseLoop_plain by done.
      rewrite string_of_list_ascii_of_string.
      cbn [CSV.parseLoop]. rewrite loopStep_LF by done.
      cbn [CSV.row CSV.col]. by rewrite touch_touched.
Qed.

Lemma csvRow_cons delimiter cell next cells :
  csvRow delimiter (cell :: next :: cells)
  = list_ascii_of_string cell ++ delimiter :: csvRow delimiter (next :: cells).
Proof. done. Qed.

Lemma parseLoop_row_from delimiter (cells : list string) rest (done : list (list string)) :
  delimiter ≠ "034"%char → delimiter ≠ "010"%char →
  ∀ cell prev,
    (∀ cell' c, cell' ∈ cell :: cells → c ∈ list_ascii_of_string cell' →
                c ≠ "034"%char ∧ c ≠ delimiter ∧ c ≠ "013"%char ∧ c ≠ "010"%char) →
    CSV.parseLoop delimiter
      ((csvRow delimiter (cell :: cells) ++ ["010"%char]) ++ rest)
      (CSV.mkLoopState (done ++ match prev with [] => [] | _ :: _ => [prev] end)
         (length done) (length prev) false)
    = CSV.parseLoop delimiter rest
        (CSV.mkLoopState (done ++ [prev ++ cell :: cells]) (S (length done)) 0 false).
Proof.
  intros Hdquote HLF. induction cells as [|next cells IH]; intros cell prev Hplain.
  - cbn [csvRow mbind list_bind]. rewrite app_nil_r, <- app_assoc. cbn [app].
    apply parseLoop_cell; [done..|]. intros c Hc. apply (Hplain cell); [by constructor|done].
  - rewrite csvRow_cons, <- !app_assoc. cbn [app].
    rewrite (proj1 (parseLoop_cell delimiter cell _ done prev Hdquote HLF
                      (λ c Hc, Hplain cell c ltac:(by constructor) Hc))).
    specialize (IH next (prev ++ [cell])
                  (λ cell' c Hcell', Hplain cell' c ltac:(by constructor))).
    rewrite <- app_assoc in IH. cbn [app] in IH.
    rewrite length_app, Nat.add_1_r in IH.
    assert (match prev ++ [cell] with [] => [] | _ :: _ => [prev ++ [cell]] end
            = [prev ++ [cell]]) as Hprev by (by destruct prev).
    rewrite Hprev in IH. rewrite IH. by rewrite <- app_assoc.
Qed.

Lemma parseLoop_row delimiter (cells : list string) rest (done : list (list string)) :
  delimiter ≠ "034"%char → delimiter ≠ "010"%char →
  cells ≠ [] →
  (∀ cell c, cell ∈ cells → c ∈ list_ascii_of_string cell →
             c ≠ "034"%char ∧ c ≠ delimiter ∧ c ≠ "013"%char ∧ c ≠ "010"%char) →
  CSV.parseLoop delimiter ((csvRow delimiter cells ++ ["010"%char]) ++ rest)
    (CSV.mkLoopState done (length done) 0 false)
  = CSV.parseLoop delimiter rest
      (CSV.mkLoopState (done ++ [cells]) (S (length done)) 0 false).
Proof.
  intros Hdquote HLF Hcells Hplain.
  destruct cells as [|cell cells]; [done|].
  pose proof (parseLoop_row_from delimiter cells rest done Hdquote HLF cell [] Hplain)
    as Hrow.
  cbn [length app] in Hrow. by rewrite app_nil_r in Hrow.
Qed.

Lemma parseLoop_rows delimiter (rows : list (list string)) (done : list (list string)) :
  delimiter ≠ "034"%char → delimiter ≠ "010"%char →
  (∀ row, row ∈ rows → row ≠ []) →
  (∀ row cell c, row ∈ rows → cell ∈ row → c ∈ list_ascii_of_string cell →
                 c ≠ "034"%char ∧ c ≠ delimiter ∧ c ≠ "013"%char ∧ c ≠ "010"%char) →
  CSV.parseLoop delimiter (rows ≫= λ row, csvRow delimiter row ++ ["010"%char])
    (CSV.mkLoopState done (length done) 0 false)
  = done ++ rows.
Proof.
  intros Hdquote HLF. revert done.
  induction rows as [|row rows IH]; intros done Hrows Hplain.
  - cbn. by rewrite app_nil_r.
  - cbn [mbind list_bind].
    rewrite parseLoop_row; [|done..|by apply Hrows; constructor|
      by intros cell c Hcell; apply (Hplain row); [constructor|]].
    specialize (IH (done ++ [row])). rewrite length_app, Nat.add_1_r in IH.
    rewrite IH, <- app_assoc; [done| |].
    + intros row' Hrow'. apply Hrows. by constructor.
    + intros row' cell c Hrow'. apply Hplain. by constructor.
Qed.

Lemma csvRow_without_delimiter delimiter other (row : list string) :
  delimiter ∉ csvRow delimiter row → csvRow delimiter row = csvRow other row.
Proof.
  destruct row as [|cell [|next cells]]; [done..|]. intros Hnot. exfalso. apply Hnot.
  rewrite csvRow_cons. apply elem_of_app. right. by constructor.
Qed.

Lemma csvText_without_delimiter delimiter other (rows : list (list string)) :
  delimiter ∉ (rows ≫= λ row, csvRow delimiter row ++ ["010"%char]) →
  (rows ≫= λ row, csvRow delimiter row ++ ["010"%char])
  = (rows ≫= λ row, csvRow other row ++ ["010"%char]).
Proof.
  induction rows as [|row rows IH]; [done|]. cbn [mbind list_bind]. intros Hnot.
  rewrite IH by (intros Hin; apply Hnot, elem_of_app; by right).
  rewrite (csvRow_without_delimiter delimiter other row); [done|].
  intros Hin. apply Hnot, elem_of_app. left. apply elem_of_app. by left.
Qed.

Lemma csvText_comma_without_semicolon (rows : list (list string)) :
  (∀ row cell, row ∈ rows → cell ∈ row → plainCell cell) →
  ";"%char ∉ (rows ≫= λ row, csvRow ","%char row ++ ["010"%char]).
Proof.
  intros Hplain Hin. apply list_elem_of_bind in Hin as (row & Hin & Hrow).
  apply elem_of_app in Hin as [Hin|Hin];
    [|by apply list_elem_of_singleton in Hin].
  destruct row as [|cell cells]; [by apply elem_of_nil in Hin|].
  cbn [csvRow] in Hin. apply elem_of_app in Hin as [Hin|Hin].
  - pose proof (Hplain (cell :: cells) cell Hrow ltac:(by constructor)) as Hcell.
    apply (proj1 (Forall_forall _ _) Hcell _ Hin). repeat constructor.
  - apply list_elem_of_bind in Hin as (cell' & Hin & Hcell').
    apply elem_of_cons in Hin as [Hin|Hin]; [done|].
    pose proof (Hplain (cell :: cells) cell' Hrow ltac:(by constructor)) as Hcell.
    apply (proj1 (Forall_forall _ _) Hcell _ Hin). repeat constructor.
Qed.

(** X15: the character loop of [_parseCsv] reads a plain CSV text back into
    its cells.  For rows of at least one cell each, whose cells have no
    quotation mark, comma, semicolon, carriage return or line feed, written
    with the cells of a row joined by a comma or by a semicolon and every row
    ended by a line feed, the parsed array is the rows, cell for cell, empty
    cells included, whether the delimiter is passed or left to be found. *)
Theorem parseArr_reads_plain_text (delimiter : ascii) (rows : list (list string))
  (opts : CSV.Options) :
  delimiter = ","%char ∨ delimiter = ";"%char →
  CSV.delimiter opts = None ∨ CSV.delimiter opts = Some delimiter →
  Forall (λ row, row ≠ [] ∧ Forall plainCell row) rows →
  CSV.parseArr (csvText delimiter rows) opts = rows.
Proof.
  intros Hdelimiter Hopts Hall.
  assert (∀ row, row ∈ rows → row ≠ []) as Hrows.
  { intros row Hrow. by apply (proj1 (Forall_forall _ _) Hall row Hrow). }
  assert (∀ row cell, row ∈ rows → cell ∈ row → plainCell cell) as Hplain.
  { intros row cell Hrow Hcell.
    destruct (proj1 (Forall_forall _ _) Hall row Hrow) as [_ Hcells].
    by apply (proj1 (Forall_forall _ _) Hcells cell Hcell). }
  unfold CSV.parseArr, csvText.
  rewrite list_ascii_of_string_of_list_ascii.
  assert (∀ d, d = ","%char ∨ d = ";"%char →
            CSV.parseLoop d (rows ≫= λ row, csvRow d row ++ ["010"%char])
              (CSV.mkLoopState [] 0 0 false) = rows) as Hparse.
  { intros d Hd. apply (parseLoop_rows d rows []); [by destruct Hd as [->| ->]..|done|].
    intros row cell c Hrow Hcell Hc.
    pose proof (proj1 (Forall_forall _ _) (Hplain row cell Hrow Hcell) c Hc) as Hnot.
    split_and!; intros ->; apply Hnot.
    - repeat constructor.
    - destruct Hd as [->| ->]; repeat constructor.
    - repeat constructor.
    - repeat constructor. }
  destruct Hopts as [->| ->]; [|by apply Hparse].
  case_bool_decide as Hsemicolon.
  - destruct Hdelimiter as [->| ->]; [|by apply Hparse; right].
    by apply csvText_comma_without_semicolon in Hsemicolon.
  - destruct Hdelimiter as [->| ->]; [by apply Hparse; left|].
    rewrite (csvText_without_delimiter ";"%char ","%char rows Hsemicolon).
    apply Hparse. by left.
Qed.

Lemma parseArr_reads_plain_text_witness :
  CSV.parseArr
    (csvText ";"%char [["feature"; "featureId"; "name"]; ["Point"; "T1"; ""]])
    CSV.propertiesOptions
  = [["feature"; "featureId"; "name"]; ["Point"; "T1"; ""]].
Proof.
  apply (parseArr_reads_plain_text ";"%char
           [["feature"; "featureId"; "name"]; ["Point"; "T1"; ""]] CSV.propertiesOptions).
  - by right.
  - by left.
  - apply (bool_decide_unpack _). vm_compute. exact I.
Defined.

(** ** The CSV adapter of attributes, row by row *)

Lemma checkAttributeContent_valid key v pr :
  (CSV.checkAttributeContent key v pr).1 = validAttributeCell key v.
Proof.
  unfold CSV.checkAttributeContent, validAttributeCell, isFeatureName, isYear.
  destruct (strict_eq key (Some (JStr "feature"))).
  - by destruct (String.eqb v "Point"), (String.eqb v "LineString"),
      (String.eqb v "Polygon").
  - destruct (strict_eq key (Some (JStr "fromYear")));
      [by destruct (parseInt_string v)|].
    destruct (strict_eq key (Some (JStr "toYear"))); [|done].
    by destruct (parseInt_string v).
Qed.

Lemma reduceCell_object header cells acc pr :
  (fold_left (CSV.reduceCell (Some CSV.checkAttributeContent) header) cells (acc, pr)).1
  = cellsObject header validAttributeCell cells acc.
Proof.
  revert acc pr. induction cells as [|[i v] cells IH]; intros acc pr; [done|].
  cbn [fold_left cellsObject]. unfold CSV.reduceCell at 2.
  destruct (negb (String.eqb v "")); cbn [andb]; [|apply IH].
  pose proof (checkAttributeContent_valid (JStr <$> header !! i) v pr) as Hvalid.
  destruct (CSV.checkAttributeContent (JStr <$> header !! i) v pr) as [ok pr'].
  cbn [fst] in Hvalid. rewrite <- Hvalid. destruct ok; apply IH.
Qed.

Lemma cellsObject_cons header valid i v cells acc :
  cellsObject header valid ((i, v) :: cells) acc
  = cellsObject header valid cells
      (if negb (String.eqb v "") && valid (JStr <$> header !! i) v
       then <[toString (JStr <$> header !! i) := v]> acc
       else acc).
Proof. reflexivity. Qed.

Lemma cellsObject_lookup (header : list string) valid (cells : list string) n acc name i :
  NoDup header → "undefined" ∉ header → header !! i = Some name →
  cellsObject header valid (imap (λ j v, ((n + j)%nat, v)) cells) acc !! name
  = match cells !! (i - n)%nat with
    | Some v =>
        if bool_decide (n ≤ i)%nat && negb (String.eqb v "") && valid (Some (JStr name)) v
        then Some v else acc !! name
    | None => acc !! name
    end.
Proof.
  intros Hnodup Hundefined Hname. revert n acc.
  induction cells as [|v cells IH]; intros n acc; [done|].
  cbn [imap].
  assert (imap ((λ j v0, ((n + j)%nat, v0)) ∘ S) cells
          = imap (λ j v0, ((S n + j)%nat, v0)) cells) as ->.
  { apply imap_ext. intros j x _. cbn. f_equal. lia. }
  rewrite Nat.add_0_r, cellsObject_cons, IH. destruct (decide (i = n)) as [->|Hne].
  - rewrite Nat.sub_diag. cbn [lookup list_lookup].
    replace (n - S n)%nat with 0%nat by lia.
    rewrite Hname. cbn [fmap option_fmap option_map toString].
    rewrite (bool_decide_eq_true_2 (n ≤ n)%nat) by lia. cbn [andb].
    assert (∀ w : string,
              (if bool_decide (S n ≤ n)%nat && negb (String.eqb w "")
                  && valid (Some (JStr name)) w
               then Some w
               else (if negb (String.eqb v "") && valid (Some (JStr name)) v
                     then <[name := v]> acc else acc) !! name)
              = (if negb (String.eqb v "") && valid (Some (JStr name)) v
                 then <[name := v]> acc else acc) !! name) as Hlater.
    { intros w. by rewrite (bool_decide_eq_false_2 (S n ≤ n)%nat) by lia. }
    destruct (cells !! 0%nat) as [w|]; rewrite ?Hlater;
      by destruct (negb (String.eqb v "") && valid (Some (JStr name)) v);
        rewrite ?lookup_insert_eq.
  - assert ((if negb (String.eqb v "") && valid (JStr <$> header !! n) v
             then <[toString (JStr <$> header !! n) := v]> acc else acc) !! name
            = acc !! name) as Hother.
    { destruct (negb (String.eqb v "") && valid (JStr <$> header !! n) v); [|done].
      apply lookup_insert_ne. destruct (header !! n) as [other|] eqn:Hother.
      - cbn. intros ->. apply Hne. by apply (NoDup_lookup header i n name).
      - cbn. intros <-. apply Hundefined. by eapply list_elem_of_lookup_2. }
    rewrite Hother. destruct (decide (n < i)%nat) as [Hlt|Hge].
    + replace (i - n)%nat with (S (i - S n)) by lia. cbn [lookup list_lookup].
      destruct (cells !! (i - S n)%nat) as [w|]; [|done].
      by rewrite (bool_decide_eq_true_2 (S n ≤ i)%nat),
        (bool_decide_eq_true_2 (n ≤ i)%nat) by lia.
    + replace (i - n)%nat with 0%nat by lia. replace (i - S n)%nat with 0%nat by lia.
      cbn [lookup list_lookup].
      rewrite (bool_decide_eq_false_2 (n ≤ i)%nat) by lia. cbn [andb].
      destruct (cells !! 0%nat) as [w|]; [|done].
      by rewrite (bool_decide_eq_false_2 (S n ≤ i)%nat) by lia.
Qed.

Lemma cellsObject_row (header cells : list string) valid name i :
  NoDup header → "undefined" ∉ header → header !! i = Some name →
  JStr <$> cellsObject header valid (imap (λ i v, (i, v)) cells) ∅ !! name
  = keptCell cells i (valid (Some (JStr name))).
Proof.
  intros Hnodup Hundefined Hname.
  pose proof (cellsObject_lookup header valid cells 0 ∅ name i Hnodup Hundefined Hname)
    as Hlookup.
  change (imap (λ j v, ((0 + j)%nat, v)) cells) with (imap (λ i v, (i, v)) cells)
    in Hlookup.
  rewrite Hlookup, Nat.sub_0_r. unfold keptCell.
  destruct (cells !! i) as [v|]; [|done].
  rewrite (bool_decide_eq_true_2 (0 ≤ i)%nat) by lia. cbn [andb].
  by destruct (negb (String.eqb v "") && valid (Some (JStr name)) v).
Qed.

Lemma rows_objects header (rest : list (list string)) ret pr :
  (fold_left (λ '(ret, processResult) r,
       let '(acc, processResult) :=
         fold_left (CSV.reduceCell (Some CSV.checkAttributeContent) header)
           (imap (λ i v, (i, v)) r) (∅, processResult) in
       (ret ++ [acc], processResult))
     rest (ret, pr)).1
  = ret ++ ((λ r, cellsObject header validAttributeCell (imap (λ i v, (i, v)) r) ∅)
            <$> rest).
Proof.
  revert ret pr. induction rest as [|r rest IH]; intros ret pr.
  - cbn. by rewrite app_nil_r.
  - cbn [fold_left fmap list_fmap].
    pose proof (reduceCell_object header (imap (λ i v, (i, v)) r) ∅ pr) as Hobject.
    destruct (fold_left (CSV.reduceCell (Some CSV.checkAttributeContent) header)
                (imap (λ i v, (i, v)) r) (∅, pr)) as [acc pr'].
    cbn [fst] in Hobject. rewrite IH, Hobject, <- app_assoc. done.
Qed.

Lemma attributeOfRow_cells (more cells : list string) :
  NoDup (CSV.attributesHeaderTemplate ++ more) →
  "undefined" ∉ more →
  CSV.attributeOfRow
    (cellsObject (CSV.attributesHeaderTemplate ++ more) validAttributeCell
       (imap (λ i v, (i, v)) cells) ∅)
  = attributeOfCells cells.
Proof.
  intros Hnodup Hmore.
  assert ("undefined" ∉ CSV.attributesHeaderTemplate ++ more) as Hundefined.
  { rewrite elem_of_app. intros [Hin|Hin]; [|done].
    revert Hin. apply (bool_decide_unpack _). vm_compute. exact I. }
  pose proof (λ name i, cellsObject_row (CSV.attributesHeaderTemplate ++ more) cells
                          validAttributeCell name i Hnodup Hundefined) as Hcell.
  unfold CSV.attributeOfRow, attributeOfCells, CSV.featureTypeOf.
  change isFeatureName with (validAttributeCell (Some (JStr "feature"))).
  change isYear with (validAttributeCell (Some (JStr "fromYear"))) at 1.
  change isYear with (validAttributeCell (Some (JStr "toYear"))).
  change (keptCell cells 1 (λ _, true))
    with (keptCell cells 1 (validAttributeCell (Some (JStr "featureId")))).
  change (keptCell cells 2 (λ _, true))
    with (keptCell cells 2 (validAttributeCell (Some (JStr "propertyName")))).
  change (keptCell cells 3 (λ _, true))
    with (keptCell cells 3 (validAttributeCell (Some (JStr "propertyValue")))).
  change (keptCell cells 5 (λ _, true))
    with (keptCell cells 5 (validAttributeCell (Some (JStr "fromMonth")))).
  change (keptCell cells 6 (λ _, true))
    with (keptCell cells 6 (validAttributeCell (Some (JStr "fromDay")))).
  change (keptCell cells 8 (λ _, true))
    with (keptCell cells 8 (validAttributeCell (Some (JStr "toMonth")))).
  change (keptCell cells 9 (λ _, true))
    with (keptCell cells 9 (validAttributeCell (Some (JStr "toDay")))).
  rewrite <- (Hcell "feature" 0%nat eq_refl).
  rewrite (Hcell "featureId" 1%nat eq_refl), (Hcell "propertyName" 2%nat eq_refl),
    (Hcell "propertyValue" 3%nat eq_refl), (Hcell "fromYear" 4%nat eq_refl),
    (Hcell "fromMonth" 5%nat eq_refl), (Hcell "fromDay" 6%nat eq_refl),
    (Hcell "toYear" 7%nat eq_refl), (Hcell "toMonth" 8%nat eq_refl),
    (Hcell "toDay" 9%nat eq_refl).
  f_equal.
  destruct (cellsObject (CSV.attributesHeaderTemplate ++ more) validAttributeCell
              (imap (λ i v, (i, v)) cells) ∅ !! "feature") as [v|]; [|done].
  cbn [fmap option_fmap option_map].
  rewrite (bool_decide_ext (Some v = Some "Point") (Some (JStr v) = Some (JStr "Point")))
    by (split; congruence).
  by rewrite (bool_decide_ext (Some v = Some "LineString")
                (Some (JStr v) = Some (JStr "LineString"))) by (split; congruence).
Qed.

Lemma _checkHeader_long (header template : list string) pr :
  (length template ≤ length header)%nat →
  ∃ checked, CSV._checkHeader (Some header) (Some template) pr = Ok checked.
Proof.
  intros Hlength. unfold CSV._checkHeader.
  rewrite (proj2 (Nat.ltb_ge _ _)) by done. by eexists.
Qed.

(** X16: what the CSV adapter of attributes makes of a file whose header row
    starts with the ten names of the template (further columns have other
    names, none of them [undefined]): one attribute per following row, in the
    order of the rows, whatever the cells hold.  A field of the attribute is
    the cell of its column, and is undefined when the row is too short, when
    the cell is empty and when a year does not parse as an integer.  A row
    whose [feature] cell is none of the three names is not left out, although
    the warning says so: without a feature the attribute is one of a
    polygon. *)
Theorem attributes_adapter_reads_cells (rawData : string) (more : list string)
  (rows : list (list string)) (pr : ProcessResult.t) :
  NoDup (CSV.attributesHeaderTemplate ++ more) →
  "undefined" ∉ more →
  CSV.parseArr rawData CSV.attributesOptions
  = (CSV.attributesHeaderTemplate ++ more) :: rows →
  (∃ checked,
     CSV.FeatureAttributesCSVDataSource rawData pr
     = (Ok {| DataSource._features := [];
              DataSource._featuresProperties := [];
              DataSource._featuresAttributes := attributeOfCells <$> rows;
              DataSource._featuresSettings := [];
              DataSource._mapSettings := None |}, checked)) ∧
  (∀ cells feature,
     cells !! 0%nat = Some feature →
     feature ≠ "Point" → feature ≠ "LineString" →
     FeatureAttribute.featureType (attributeOfCells cells)
     = Some (JNum FeatureType.POLYGON)).
Proof.
  intros Hnodup Hmore Hparse. split.
  - unfold CSV.FeatureAttributesCSVDataSource, CSV._parseCsv.
    rewrite Hparse.
    cbn [CSV.headers CSV.attributesOptions CSV.headerTemplate head drop default].
    destruct (_checkHeader_long (CSV.attributesHeaderTemplate ++ more)
                CSV.attributesHeaderTemplate pr) as [checked ->].
    { rewrite length_app. lia. }
    rewrite drop_0.
    pose proof (rows_objects (CSV.attributesHeaderTemplate ++ more) rows [] checked)
      as Hrows.
    destruct (fold_left _ rows ([], checked)) as [ret final].
    cbn [fst app] in Hrows. subst ret. exists final. do 2 f_equal.
    rewrite <- list_fmap_compose. f_equal. apply list_fmap_ext. intros _ cells _.
    by apply attributeOfRow_cells.
  - intros cells feature Hcell Hpoint Hline.
    unfold attributeOfCells, keptCell. cbn [FeatureAttribute.featureType].
    rewrite Hcell.
    destruct (negb (String.eqb feature "") && isFeatureName feature).
    + rewrite !bool_decide_eq_false_2; [done| |]; congruence.
    + done.
Qed.

Lemma attributes_adapter_reads_cells_witness :
  ∃ checked,
    CSV.FeatureAttributesCSVDataSource
      ("feature;featureId;propertyName;propertyValue;fromYear;fromMonth;fromDay;toYear;toMonth;toDay"
       +:+ String "010" "Town;T1;status;capital;about 1200;;;1300"
       +:+ String "010" "Point;T2;status")
      (ProcessResult.new ProcessResult.INFO "loaded")
    = (Ok {| DataSource._features := [];
             DataSource._featuresProperties := [];
             DataSource._featuresAttributes :=
               [ {| FeatureAttribute.featureType := Some (JNum FeatureType.POLYGON);
                    FeatureAttribute._featureId := Some (JStr "T1");
                    FeatureAttribute._propertyName := Some (JStr "status");
                    FeatureAttribute._propertyValue := Some (JStr "capital");
                    FeatureAttribute._fromYear := None;
                    FeatureAttribute._fromMonth := None;
                    FeatureAttribute._fromDay := None;
                    FeatureAttribute._toYear := Some (JStr "1300");
                    FeatureAttribute._toMonth := None;
                    FeatureAttribute._toDay := None |};
                 {| FeatureAttribute.featureType := Some (JNum FeatureType.POINT);
                    FeatureAttribute._featureId := Some (JStr "T2");
                    FeatureAttribute._propertyName := Some (JStr "status");
                    FeatureAttribute._propertyValue := None;
                    FeatureAttribute._fromYear := None;
                    FeatureAttribute._fromMonth := None;
                    FeatureAttribute._fromDay := None;
                    FeatureAttribute._toYear := None;
                    FeatureAttribute._toMonth := None;
                    FeatureAttribute._toDay := None |} ];
             DataSource._featuresSettings := [];
             DataSource._mapSettings := None |}, checked).
Proof.
  destruct (attributes_adapter_reads_cells
              ("feature;featureId;propertyName;propertyValue;fromYear;fromMonth;fromDay;toYear;toMonth;toDay"
               +:+ String "010" "Town;T1;status;capital;about 1200;;;1300"
               +:+ String "010" "Point;T2;status")
              []
              [["Town"; "T1"; "status"; "capital"; "about 1200"; ""; ""; "1300"];
               ["Point"; "T2"; "status"]]
              (ProcessResult.new ProcessResult.INFO "loaded"))
    as [[checked Hloaded] _].
  - apply (bool_decide_unpack _). vm_compute. exact I.
  - apply (bool_decide_unpack _). vm_compute. exact I.
  - vm_compute. reflexivity.
  - exists checked. rewrite Hloaded. vm_compute. reflexivity.
Defined.

(** ** The first and the last year of the attributes *)

Lemma sort_insert_sorted {A} (g : A → option Z) (compareFn : A → A → option Z) x sorted :
  (∀ a b, isNegative (compareFn a b) = num_gt (g b) (g a)) →
  is_Some (g x) →
  Forall (λ a, is_Some (g a)) sorted →
  StronglySorted (λ a b, num_ge (g b) (g a) = true) sorted →
  StronglySorted (λ a b, num_ge (g b) (g a) = true) (sort_insert compareFn x sorted).
Proof.
  intros Hcmp [zx Hx] Hall Hsorted.
  induction Hsorted as [|y sorted Hsorted IH Hy]; cbn [sort_insert].
  - repeat constructor.
  - inversion Hall as [|? ? [zy Hzy] Hall']; subst.
    rewrite Hcmp, Hx, Hzy. cbn [num_gt]. destruct (zx <? zy) eqn:Hlt.
    + constructor; [by constructor|]. constructor.
      * rewrite Hx, Hzy. cbn. lia.
      * eapply Forall_impl; [exact Hy|]. intros b. rewrite Hx, Hzy.
        destruct (g b); cbn; [lia|done].
    + constructor; [by apply IH|].
      rewrite sort_insert_Permutation. constructor; [|done].
      rewrite Hx, Hzy. cbn. lia.
Qed.

Lemma Array_sort_sorted {A} (g : A → option Z) (compareFn : A → A → option Z) array :
  (∀ a b, isNegative (compareFn a b) = num_gt (g b) (g a)) →
  Forall (λ a, is_Some (g a)) array →
  StronglySorted (λ a b, num_ge (g b) (g a) = true) (Array_sort compareFn array).
Proof.
  intros Hcmp. unfold Array_sort.
  assert (∀ sorted,
            Forall (λ a, is_Some (g a)) array →
            Forall (λ a, is_Some (g a)) sorted →
            StronglySorted (λ a b, num_ge (g b) (g a) = true) sorted →
            StronglySorted (λ a b, num_ge (g b) (g a) = true)
              (fold_left (λ sorted x, sort_insert compareFn x sorted) array sorted))
    as Hfold.
  { induction array as [|x array IH]; intros sorted Harray Hall Hsorted; [done|].
    inversion Harray; subst. cbn [fold_left]. apply IH; [done| |].
    - rewrite sort_insert_Permutation. by constructor.
    - by apply sort_insert_sorted. }
  intros Hall. apply Hfold; [done|constructor|constructor].
Qed.

Lemma Array_sort_head {A} (g : A → option Z) (compareFn : A → A → option Z) array y :
  (∀ a b, isNegative (compareFn a b) = num_gt (g b) (g a)) →
  Forall (λ a, is_Some (g a)) array →
  y ∈ array →
  ∃ m, head (Array_sort compareFn array) = Some m ∧ m ∈ array ∧
       num_ge (g y) (g m) = true.
Proof.
  intros Hcmp Hall Hy.
  pose proof (Array_sort_sorted g compareFn array Hcmp Hall) as Hsorted.
  pose proof (Array_sort_Permutation compareFn array) as Hperm.
  rewrite <- Hperm in Hy.
  destruct (Array_sort compareFn array) as [|m rest]; [by apply elem_of_nil in Hy|].
  exists m. split; [done|]. split.
  { rewrite <- Hperm. by left. }
  inversion Hsorted as [|? ? _ Hrest]; subst.
  apply elem_of_cons in Hy as [->|Hy].
  - rewrite Forall_forall in Hall. destruct (Hall m) as [z Hz].
    { rewrite <- Hperm. by left. }
    rewrite Hz. cbn. lia.
  - rewrite Forall_forall in Hrest. by apply Hrest.
Qed.

Lemma elem_of_omap_id {A} (x : A) (array : list (option A)) :
  x ∈ omap id array ↔ Some x ∈ array.
Proof.
  rewrite list_elem_of_omap. split.
  - by intros ([y|] & Hin & [= ->]).
  - intros Hin. by exists (Some x).
Qed.

Lemma Array_sort_any_head (g : jsval → option Z) compareFn (array : list jsany) y :
  (∀ a b, isNegative (compareFn a b) = num_gt (g b) (g a)) →
  Forall (λ a, is_Some a → is_Some (a ≫= g)) array →
  Some y ∈ array →
  ∃ m, mjoin (head (Array_sort_any compareFn array)) = Some m ∧ Some m ∈ array ∧
       num_ge (g y) (g m) = true.
Proof.
  intros Hcmp Hall Hy.
  destruct (Array_sort_head g compareFn (omap id array) y Hcmp) as (m & Hhead & Hm & Hle).
  - rewrite Forall_forall. intros a Ha. apply elem_of_omap_id in Ha.
    rewrite Forall_forall in Hall. by apply (Hall (Some a)).
  - by apply elem_of_omap_id.
  - exists m. split; [|split; [by apply elem_of_omap_id|done]].
    unfold Array_sort_any.
    destruct (Array_sort compareFn (omap id array)) as [|first rest]; [done|].
    by injection Hhead as ->.
Qed.

(** X17: when every year of an attribute that is defined converts to a
    number, [getAttributesMinimumYear] and [getAttributesMaximumYear] return
    the year of a stored attribute that is the least and the greatest one as
    a number, also for years held as strings; attributes without a from-year
    have no part in it. *)
Theorem attribute_years_are_bounds (this : IAMStorage.t) (year : jsval) :
  Forall (λ y, is_Some y → is_Some (toNumber y)) (IAMStorage.attributeYears this) →
  Some year ∈ IAMStorage.attributeYears this →
  ∃ first last,
    IAMStorage.getAttributesMinimumYear this = Some first ∧
    IAMStorage.getAttributesMaximumYear this = Some last ∧
    Some first ∈ IAMStorage.attributeYears this ∧
    Some last ∈ IAMStorage.attributeYears this ∧
    num_ge (toNumber (Some year)) (toNumber (Some first)) = true ∧
    num_ge (toNumber (Some last)) (toNumber (Some year)) = true.
Proof.
  intros Hall Hyear.
  destruct (Array_sort_any_head (λ v, toNumber (Some v))
              (λ year1 year2, num_sub (toNumber (Some year1)) (toNumber (Some year2)))
              (IAMStorage.attributeYears this) year)
    as (first & Hfirst & Hfirst_in & Hfirst_le); [| |done|].
  { intros a b. destruct (toNumber (Some a)), (toNumber (Some b)); cbn; try done.
    destruct (Z.ltb_spec (z - z0) 0), (Z.ltb_spec z z0); lia. }
  { eapply Forall_impl; [exact Hall|]. by intros [y|] Hy Hsome; [apply Hy|]. }
  destruct (Array_sort_any_head (λ v, Z.opp <$> toNumber (Some v))
              (λ year1 year2, num_sub (toNumber (Some year2)) (toNumber (Some year1)))
              (IAMStorage.attributeYears this) year)
    as (last & Hlast & Hlast_in & Hlast_le); [| |done|].
  { intros a b. destruct (toNumber (Some a)), (toNumber (Some b)); cbn; try done.
    destruct (Z.ltb_spec (z0 - z) 0), (Z.ltb_spec (- z) (- z0)); lia. }
  { eapply Forall_impl; [exact Hall|]. intros [y|] Hy Hsome; [|by destruct Hsome].
    destruct (Hy Hsome) as [z Hz]. cbn [mbind option_bind]. rewrite Hz. by eexists. }
  exists first, last. repeat split; try done.
  revert Hlast_le. destruct (toNumber (Some year)), (toNumber (Some last)); cbn; try done.
  lia.
Qed.

Lemma attribute_years_are_bounds_witness :
  ∃ first last,
    IAMStorage.getAttributesMinimumYear
      (townStorage [statusOfTown "capital" (Some (JStr "1200")) None;
                    statusOfTown "village" (Some (JStr "900")) (Some (JStr "1199"));
                    statusOfTown "ruin" None None])
    = Some first ∧
    IAMStorage.getAttributesMaximumYear
      (townStorage [statusOfTown "capital" (Some (JStr "1200")) None;
                    statusOfTown "village" (Some (JStr "900")) (Some (JStr "1199"));
                    statusOfTown "ruin" None None])
    = Some last ∧
    num_ge (toNumber (Some (JStr "1200"))) (toNumber (Some first)) = true ∧
    num_ge (toNumber (Some last)) (toNumber (Some (JStr "1200"))) = true.
Proof.
  destruct (attribute_years_are_bounds
              (townStorage [statusOfTown "capital" (Some (JStr "1200")) None;
                            statusOfTown "village" (Some (JStr "900")) (Some (JStr "1199"));
                            statusOfTown "ruin" None None])
              (JStr "1200"))
    as (first & last & Hfirst & Hlast & _ & _ & Hfirst_le & Hlast_le).
  - apply (bool_decide_unpack _). vm_compute. exact I.
  - apply (bool_decide_unpack _). vm_compute. exact I.
  - by exists first, last.
Defined.

(** ** iamBase: arrays changed in place *)

Lemma shiftForward_loop {A} (front back : list A) (x : A) :
  fold_left shiftForward (seq (length front) (length back)) (front ++ x :: back)
  = front ++ back ++ [default x (last back)].
Proof.
  revert front x. induction back as [|y back IH]; intros front x; [done|].
  cbn [length seq fold_left]. unfold shiftForward at 2.
  rewrite (lookup_app_r front) by lia.
  replace (S (length front) - length front)%nat with 1%nat by lia.
  cbn [lookup list_lookup].
  rewrite (insert_app_r_alt front) by lia. rewrite Nat.sub_diag. cbn [insert list_insert].
  specialize (IH (front ++ [y]) y).
  rewrite length_app, Nat.add_1_r, <- app_assoc in IH. cbn [app] in IH.
  rewrite IH, <- app_assoc. cbn [app]. do 3 f_equal.
  rewrite last_cons. by destruct (last back).
Qed.

Lemma lookup_exchanged {A} (array : list A) (i j k : nat) (x y : A) :
  (i < length array)%nat → (j < length array)%nat →
  (<[j := x]> (<[i := y]> array)) !! k
  = if decide (k = j) then Some x
    else if decide (k = i) then Some y else array !! k.
Proof.
  intros Hi Hj. destruct (decide (k = j)) as [->|Hkj].
  - apply list_lookup_insert_eq. by rewrite length_insert.
  - rewrite list_lookup_insert_ne by done.
    destruct (decide (k = i)) as [->|Hki].
    + by apply list_lookup_insert_eq.
    + by rewrite list_lookup_insert_ne.
Qed.

Lemma switchValues_inside {A} (array : list A) (i j : Z) :
  0 ≤ i < Z.of_nat (length array) → 0 ≤ j < Z.of_nat (length array) →
  ∃ x y, array !! Z.to_nat i = Some x ∧ array !! Z.to_nat j = Some y ∧
         switchValues array i j = <[Z.to_nat j := x]> (<[Z.to_nat i := y]> array).
Proof.
  intros Hi Hj.
  destruct (lookup_lt_is_Some_2 array (Z.to_nat i)) as [x Hx]; [lia|].
  destruct (lookup_lt_is_Some_2 array (Z.to_nat j)) as [y Hy]; [lia|].
  exists x, y. split; [done|]. split; [done|]. unfold switchValues.
  rewrite (proj2 (Z.leb_le 0 i)), (proj2 (Z.leb_le 0 j)),
    (proj2 (Z.ltb_lt i _)), (proj2 (Z.ltb_lt j _)) by lia.
  cbn [andb]. by rewrite Hx, Hy.
Qed.

Lemma switchValues_outside {A} (array : list A) (i j : Z) :
  ¬ (0 ≤ i < Z.of_nat (length array) ∧ 0 ≤ j < Z.of_nat (length array)) →
  switchValues array i j = array.
Proof.
  intros Hout. unfold switchValues.
  destruct ((0 <=? i) && (0 <=? j) && (i <? Z.of_nat (length array))
            && (j <? Z.of_nat (length array))) eqn:Hrange; [|done].
  exfalso. apply Hout.
  apply andb_prop in Hrange as [Hrange Hj]. apply andb_prop in Hrange as [Hrange Hi].
  apply andb_prop in Hrange as [Hi0 Hj0].
  apply Z.leb_le in Hi0, Hj0. apply Z.ltb_lt in Hi, Hj. lia.
Qed.

(** X18: [switchValues] with both positions inside the array exchanges the
    two entries and leaves every other entry and the length as they are; a
    second call with the same positions restores the array.  With a position
    that is negative or beyond the end the array is left as it is. *)
Theorem switchValues_exchanges {A : Type} (array : list A) (i j : Z) :
  length (switchValues array i j) = length array ∧
  switchValues (switchValues array i j) i j = array ∧
  (0 ≤ i < Z.of_nat (length array) → 0 ≤ j < Z.of_nat (length array) →
   switchValues array i j !! Z.to_nat i = array !! Z.to_nat j ∧
   switchValues array i j !! Z.to_nat j = array !! Z.to_nat i ∧
   ∀ k, k ≠ Z.to_nat i → k ≠ Z.to_nat j → switchValues array i j !! k = array !! k) ∧
  (¬ (0 ≤ i < Z.of_nat (length array) ∧ 0 ≤ j < Z.of_nat (length array)) →
   switchValues array i j = array).
Proof.
  destruct (decide (0 ≤ i < Z.of_nat (length array) ∧ 0 ≤ j < Z.of_nat (length array)))
    as [[Hi Hj]|Hout].
  - destruct (switchValues_inside array i j Hi Hj) as (x & y & Hx & Hy & Hswitch).
    assert (length (switchValues array i j) = length array) as Hlength.
    { by rewrite Hswitch, !length_insert. }
    assert (∀ k, switchValues array i j !! k
                 = if decide (k = Z.to_nat j) then Some x
                   else if decide (k = Z.to_nat i) then Some y else array !! k)
      as Hlookup.
    { intros k. rewrite Hswitch. apply lookup_exchanged; lia. }
    split; [done|]. split; [|split].
    + destruct (switchValues_inside (switchValues array i j) i j)
        as (x' & y' & Hx' & Hy' & ->); [lia..|].
      rewrite Hlookup in Hx', Hy'. rewrite decide_True in Hy' by done.
      injection Hy' as <-.
      apply list_eq. intros k. rewrite lookup_exchanged by lia. rewrite Hlookup.
      destruct (decide (k = Z.to_nat j)) as [->|Hkj].
      * destruct (decide (Z.to_nat i = Z.to_nat j)) as [Hij|Hij].
        -- injection Hx' as <-. by rewrite <- Hij.
        -- rewrite decide_True in Hx' by done. injection Hx' as <-. done.
      * destruct (decide (k = Z.to_nat i)) as [->|Hki]; by rewrite ?Hx.
    + intros _ _. split; [|split].
      * rewrite Hlookup, Hy.
        destruct (decide (Z.to_nat i = Z.to_nat j)) as [Hij|Hij].
        -- rewrite Hij in Hx. congruence.
        -- by rewrite decide_True.
      * by rewrite Hlookup, decide_True, Hx.
      * intros k Hki Hkj. by rewrite Hlookup, !decide_False.
    + intros Hout. by destruct Hout.
  - rewrite !(switchValues_outside array i j Hout).
    split; [done|]. split; [done|]. split; [|done].
    intros Hi Hj. by destruct Hout.
Qed.

(** X19: [deleteValue] with a position inside the array removes the entry at
    that position: the entries before it stay, the entries behind it move one
    position forward and the array is shorter by one.  With a position that
    is negative or beyond the end the array is left as it is. *)
Theorem deleteValue_removes {A : Type} (array : list A) (i : Z) :
  (0 ≤ i < Z.of_nat (length array) →
   deleteValue array i = take (Z.to_nat i) array ++ drop (S (Z.to_nat i)) array ∧
   S (length (deleteValue array i)) = length array) ∧
  (¬ 0 ≤ i < Z.of_nat (length array) → deleteValue array i = array).
Proof.
  split.
  - intros Hi.
    assert (length (take (Z.to_nat i) array) = Z.to_nat i) as Hfront.
    { rewrite length_take. lia. }
    assert (length (drop (S (Z.to_nat i)) array) = (length array - 1 - Z.to_nat i)%nat)
      as Hback.
    { rewrite length_drop. lia. }
    assert (deleteValue array i
            = take (Z.to_nat i) array ++ drop (S (Z.to_nat i)) array) as Hdeleted.
    { unfold deleteValue.
      rewrite (proj2 (Z.leb_le 0 i)), (proj2 (Z.ltb_lt i _)) by lia. cbn [andb].
      destruct (lookup_lt_is_Some_2 array (Z.to_nat i)) as [x Hx]; [lia|].
      pose proof (take_drop_middle array (Z.to_nat i) x Hx) as Hsplit.
      rewrite <- Hback. rewrite <- Hfront at 1. rewrite <- Hsplit at 3.
      by rewrite shiftForward_loop, app_assoc, removelast_last. }
    split; [done|]. rewrite Hdeleted, length_app, Hfront, Hback. lia.
  - intros Hout. unfold deleteValue.
    destruct ((0 <=? i) && (i <? Z.of_nat (length array))) eqn:Hrange; [|done].
    exfalso. apply Hout. apply andb_prop in Hrange as [Hi0 Hi].
    apply Z.leb_le in Hi0. apply Z.ltb_lt in Hi. lia.
Qed.

(** ** Settings that can be merged *)

Lemma TextSettings_merge_new (props : TextSettings.t) (master : option TextSettings.t) :
  ∃ merged, TextSettings.merge (TextSettings.new props) master = Ok merged.
Proof. destruct master as [master|]; cbn; by eexists. Qed.

Lemma FeatureSettings_merge_new (this master : FeatureSettings.t) :
  match FeatureSettings.textSettings this with
  | None =>
      FeatureSettings.merge this master
      = Throw "Cannot read properties of undefined (reading 'merge')"
  | Some textSettings =>
      (∃ props, textSettings = TextSettings.new props) →
      ∃ merged,
        FeatureSettings.merge this master
        = Ok (FeatureSettings.setTextSettings (Some merged)
                (FeatureSettings.new (FeatureSettings.assign this master)))
  end.
Proof.
  unfold FeatureSettings.merge, FeatureSettings.getTextSettings.
  destruct (FeatureSettings.textSettings this) as [textSettings|]; [|done].
  intros [props ->].
  destruct (TextSettings_merge_new props (FeatureSettings.textSettings master))
    as [merged ->].
  by exists merged.
Qed.

(** X20: a settings object made by the constructor of PointSettings,
    LineStringSettings or PolygonSettings can be merged with any settings
    exactly when its parameters had text settings: without them [merge]
    throws the TypeError of [this.getTextSettings().merge], with them it
    returns settings of the class and the feature type of the object itself,
    whatever the class and the feature type of the argument. *)
Theorem merge_needs_text_settings (props master : FeatureSettings.t) :
  Forall (λ new : FeatureSettings.t → FeatureSettings.t,
      match FeatureSettings.textSettings props with
      | None =>
          settings_merge (new props) master
          = Throw "Cannot read properties of undefined (reading 'merge')"
      | Some _ =>
          ∃ merged,
            settings_merge (new props) master = Ok merged ∧
            FeatureSettings.class merged = FeatureSettings.class (new props) ∧
            FeatureSettings.getFeatureType merged
            = FeatureSettings.getFeatureType (new props)
      end)
    [PointSettings.new; LineStringSettings.new; PolygonSettings.new].
Proof.
  repeat constructor.
  - pose proof (FeatureSettings_merge_new (PointSettings.new props) master) as Hmerge.
    change (FeatureSettings.textSettings (PointSettings.new props))
      with (TextSettings.new <$> FeatureSettings.textSettings props) in Hmerge.
    change (settings_merge (PointSettings.new props) master)
      with (PointSettings.merge (PointSettings.new props) master).
    destruct (FeatureSettings.textSettings props) as [textSettings|];
      cbn [fmap option_fmap option_map] in Hmerge.
    + destruct (Hmerge (ex_intro _ textSettings eq_refl)) as [text Htext].
      assert (∃ merged, PointSettings.merge (PointSettings.new props) master = Ok merged)
        as [merged Hmerged].
      { unfold PointSettings.merge. rewrite Htext. by eexists. }
      exists merged. split; [done|]. rewrite PointSettings_new_featureType.
      by apply PointSettings_merge_featureType in Hmerged.
    + unfold PointSettings.merge. by rewrite Hmerge.
  - pose proof (FeatureSettings_merge_new (LineStringSettings.new props) master)
      as Hmerge.
    change (FeatureSettings.textSettings (LineStringSettings.new props))
      with (TextSettings.new <$> FeatureSettings.textSettings props) in Hmerge.
    change (settings_merge (LineStringSettings.new props) master)
      with (LineStringSettings.merge (LineStringSettings.new props) master).
    destruct (FeatureSettings.textSettings props) as [textSettings|];
      cbn [fmap option_fmap option_map] in Hmerge.
    + destruct (Hmerge (ex_intro _ textSettings eq_refl)) as [text Htext].
      assert (∃ merged,
                LineStringSettings.merge (LineStringSettings.new props) master = Ok merged)
        as [merged Hmerged].
      { unfold LineStringSettings.merge. rewrite Htext. by eexists. }
      exists merged. split; [done|]. rewrite LineStringSettings_new_featureType.
      by apply LineStringSettings_merge_featureType in Hmerged.
    + unfold LineStringSettings.merge. by rewrite Hmerge.
  - pose proof (FeatureSettings_merge_new (PolygonSettings.new props) master) as Hmerge.
    change (FeatureSettings.textSettings (PolygonSettings.new props))
      with (TextSettings.new <$> FeatureSettings.textSettings props) in Hmerge.
    change (settings_merge (PolygonSettings.new props) master)
      with (PolygonSettings.merge (PolygonSettings.new props) master).
    destruct (FeatureSettings.textSettings props) as [textSettings|];
      cbn [fmap option_fmap option_map] in Hmerge.
    + destruct (Hmerge (ex_intro _ textSettings eq_refl)) as [text Htext].
      assert (∃ merged,
                PolygonSettings.merge (PolygonSettings.new props) master = Ok merged)
        as [merged Hmerged].
      { unfold PolygonSettings.merge. rewrite Htext. by eexists. }
      exists merged. split; [done|]. rewrite PolygonSettings_new_featureType.
      by apply PolygonSettings_merge_featureType in Hmerged.
    + unfold PolygonSettings.merge. by rewrite Hmerge.
Qed.

(** ** The features table and its keys *)

Lemma featuresKeyed_addItem (item : ExtendedFeature.t) features :
  featuresKeyed features → featuresKeyed (addItem item features).
Proof.
  intros [Hpks Hkeyed]. split; [done|]. intros type id feature.
  rewrite getItem_getArray, getArray_addItem, Hpks.
  destruct (decide (sameKeys 1 (keysAt [type; id])
                      (keysOf IAMStorage._featuresTableDef item))) as [Hsame|Hother].
  - pose proof (proj1 (sameKeys_spec _ _ _) Hsame 0%nat (Nat.le_0_l 1)) as Htype.
    pose proof (proj1 (sameKeys_spec _ _ _) Hsame 1%nat (Nat.le_refl 1)) as Hid.
    specialize (Hkeyed type id). rewrite getItem_getArray in Hkeyed.
    destruct (getArray (keysAt [type; id]) features) as [[|stored found]|];
      cbn [mbind option_bind] in *.
    + intros [= <-]. split; [exact (eq_sym Htype)|exact (eq_sym Hid)].
    + rewrite head_addToArray. intros [= <-].
      destruct (ExtendedFeature.equals stored item); [|by apply Hkeyed].
      split; [exact (eq_sym Htype)|exact (eq_sym Hid)].
    + intros [= <-]. split; [exact (eq_sym Htype)|exact (eq_sym Hid)].
  - rewrite <- getItem_getArray. apply Hkeyed.
Qed.

Lemma featuresKeyed_modifyItem (f : ExtendedFeature.t → ExtendedFeature.t) values features :
  (∀ feature, ExtendedFeature.getType (f feature) = ExtendedFeature.getType feature ∧
              ExtendedFeature.getId (f feature) = ExtendedFeature.getId feature) →
  featuresKeyed features → featuresKeyed (modifyItem f values features).
Proof.
  intros Hf [Hpks Hkeyed]. split; [done|]. intros type id feature.
  unfold getItem, modifyItem. cbn [_mapTable].
  destruct (decide (mjoin (values !! 0%nat) = mjoin ([type; id] !! 0%nat)))
    as [H0|H0];
    [destruct (decide (mjoin (values !! 1%nat) = mjoin ([type; id] !! 1%nat)))
       as [H1|H1]|].
  - rewrite (_getItem_modifyItem_same f values [type; id] 1 0).
    + destruct (_getItem [type; id] 1 0 (_mapTable features)) as [stored|] eqn:Hstored;
        [|done].
      intros [= <-]. destruct (Hf stored) as [-> ->]. by apply Hkeyed.
    + intros i Hi. destruct i as [|[|i]]; [done|done|lia].
  - rewrite (_getItem_modifyItem_other f values [type; id] 1 0); [apply Hkeyed|].
    exists 1%nat. split; [lia|done].
  - rewrite (_getItem_modifyItem_other f values [type; id] 1 0); [apply Hkeyed|].
    exists 0%nat. split; [lia|done].
Qed.

Lemma featuresKeyed_modifyAll (f : ExtendedFeature.t → ExtendedFeature.t) features :
  (∀ feature, ExtendedFeature.getType (f feature) = ExtendedFeature.getType feature ∧
              ExtendedFeature.getId (f feature) = ExtendedFeature.getId feature) →
  featuresKeyed features → featuresKeyed (modifyAll f features).
Proof.
  intros Hf [Hpks Hkeyed]. split; [done|]. intros type id feature.
  unfold getItem, modifyAll. cbn [_mapTable]. rewrite _getItem_modifyAll.
  destruct (_getItem [type; id] 1 0 (_mapTable features)) as [stored|] eqn:Hstored;
    [|done].
  intros [= <-]. destruct (Hf stored) as [-> ->]. by apply Hkeyed.
Qed.

Lemma featuresKeyed_mutateFeature f featureType featureId this :
  (∀ feature, ExtendedFeature.getType (f feature) = ExtendedFeature.getType feature ∧
              ExtendedFeature.getId (f feature) = ExtendedFeature.getId feature) →
  featuresKeyed (IAMStorage._features this) →
  featuresKeyed (IAMStorage._features (IAMStorage.mutateFeature f featureType featureId this)).
Proof.
  intros Hf Hkeyed. unfold IAMStorage.mutateFeature.
  destruct (IAMStorage.featureKeys featureType featureId) as [values|]; [|done].
  by apply featuresKeyed_modifyItem.
Qed.

Lemma featuresKeyed_fold {A} (step : IAMStorage.t * ProcessResult.t * Z → A →
                                     IAMStorage.t * ProcessResult.t * Z)
  (records : list A) acc :
  (∀ acc a, featuresKeyed (IAMStorage._features acc.1.1) →
            featuresKeyed (IAMStorage._features (step acc a).1.1)) →
  featuresKeyed (IAMStorage._features acc.1.1) →
  featuresKeyed (IAMStorage._features (fold_left step records acc).1.1).
Proof.
  intros Hstep. revert acc. induction records as [|a records IH]; intros acc Hacc; [done|].
  cbn [fold_left]. by apply IH, Hstep.
Qed.

Lemma featuresKeyed_init : featuresKeyed (IAMStorage._features IAMStorage._init).
Proof. split; [done|]. intros type id feature. by cbn. Qed.

Lemma featuresKeyed_perform operation this :
  featuresKeyed (IAMStorage._features this) →
  featuresKeyed (IAMStorage._features (perform operation this)).
Proof.
  intros Hkeyed.
  destruct operation as [item|ds mode pr|ds mode pr|ds mode pr|ds mode pr]; cbn [perform].
  - done.
  - unfold IAMStorage.loadFeatures.
    destruct (fold_left _ _ _) as [features counter] eqn:Hfold. cbn [fst].
    change (IAMStorage._features (IAMStorage.set_features features _)) with features.
    assert (∀ (records : list ExtendedFeature.t) table (n : Z),
              featuresKeyed table →
              featuresKeyed
                (fold_left (λ '(features, counter) feature,
                     (addItem feature features, counter + 1)) records (table, n)).1)
      as Hloop.
    { induction records as [|record records IH]; intros table n Htable; [done|].
      cbn [fold_left]. by apply IH, featuresKeyed_addItem. }
    change features with (features, counter).1. rewrite <- Hfold. apply Hloop.
    destruct (mode =? IAMData.DROPTABLE); [apply featuresKeyed_init|done].
  - unfold IAMStorage.loadFeaturesProperties.
    destruct (fold_left _ _ _) as [[final pr'] counter] eqn:Hfold. cbn [fst].
    change final with (final, pr', counter).1.1. rewrite <- Hfold.
    apply featuresKeyed_fold.
    + intros [[that pr''] n] p. cbn [fst]. intros Hthat.
      unfold IAMStorage.loadFeaturesProperties_step.
      destruct (IAMStorage.getFeature _ _ that); [|exact Hthat]. cbn [fst].
      by apply featuresKeyed_mutateFeature.
    + cbn [fst]. destruct (mode =? IAMData.DROPTABLE); [|done].
      by apply featuresKeyed_modifyAll.
  - unfold IAMStorage.loadFeaturesAttributes.
    destruct (fold_left _ _ _) as [[final pr'] counter] eqn:Hfold. cbn [fst].
    change final with (final, pr', counter).1.1. rewrite <- Hfold.
    apply featuresKeyed_fold.
    + intros [[that pr''] n] a. cbn [fst]. intros Hthat.
      unfold IAMStorage.loadFeaturesAttributes_step.
      destruct (IAMStorage.getFeature _ _ that); [|exact Hthat]. cbn [fst].
      by apply featuresKeyed_mutateFeature.
    + cbn [fst]. destruct (mode =? IAMData.DROPTABLE); [|done].
      by apply featuresKeyed_modifyAll.
  - unfold IAMStorage.loadSettings.
    destruct (fold_left _ _ _) as [settings counter]. cbn [fst].
    by destruct (mode =? IAMData.DROPTABLE).
Qed.

Lemma featuresKeyed_stateAfter operations :
  featuresKeyed (IAMStorage._features (stateAfter operations)).
Proof.
  unfold stateAfter. induction operations as [|operation operations IH] using rev_ind.
  - apply featuresKeyed_init.
  - rewrite fold_left_app. cbn [fold_left]. by apply featuresKeyed_perform.
Qed.

(** X21: in every state that the loading calls reach, [getFeature] returns
    only a feature of the type and the id asked for: the type of the feature
    is the number that [parseInt] makes of the type passed, and its id is
    the id passed.  No load of properties or attributes moves a feature away
    from its keys. *)
Theorem getFeature_finds_its_keys (operations : list Operation)
  (featureType featureId : jsany) (feature : ExtendedFeature.t) :
  IAMStorage.getFeature featureType featureId (stateAfter operations) = Some feature →
  ∃ n, parseInt featureType = Some n ∧
       ExtendedFeature.getType feature = Some (JNum n) ∧
       ExtendedFeature.getId feature = featureId.
Proof.
  unfold IAMStorage.getFeature, IAMStorage.featureKeys.
  destruct (parseInt featureType) as [n|]; [|done]. intros Hfound.
  exists n. split; [done|].
  by apply (featuresKeyed_stateAfter operations).
Qed.

Lemma getFeature_finds_its_keys_witness :
  ∃ n, parseInt (Some (JStr "1")) = Some n ∧
       ExtendedFeature.getType
         (townWith [statusOfTown "capital" (Some (JStr "1200")) None])
       = Some (JNum n) ∧
       ExtendedFeature.getId
         (townWith [statusOfTown "capital" (Some (JStr "1200")) None])
       = Some (JStr "T1").
Proof.
  apply (getFeature_finds_its_keys
           [LoadFeatures
              {| DataSource._features := [town]; DataSource._featuresProperties := [];
                 DataSource._featuresAttributes := []; DataSource._featuresSettings := [];
                 DataSource._mapSettings := None |}
              IAMData.OVERWRITE (ProcessResult.new ProcessResult.INFO "features");
            LoadFeaturesAttributes
              {| DataSource._features := []; DataSource._featuresProperties := [];
                 DataSource._featuresAttributes :=
                   [statusOfTown "capital" (Some (JStr "1200")) None];
                 DataSource._featuresSettings := []; DataSource._mapSettings := None |}
              IAMData.OVERWRITE (ProcessResult.new ProcessResult.INFO "attributes")]
           (Some (JStr "1")) (Some (JStr "T1"))).
  vm_compute. reflexivity.
Defined.

(** ** Settings read from JSON *)

Lemma loadSetting_fold (entries : list FeatureSettings.t) :
  ∀ settings counter,
    ∃ loaded,
      fold_left JSONSettings.loadSetting entries (settings, counter)
      = (settings ++ loaded, counter + Z.of_nat (length entries)) ∧
      Forall knownType loaded ∧
      (length loaded ≤ length entries)%nat ∧
      (length loaded = length entries ↔ Forall knownType entries).
Proof.
  induction entries as [|entry entries IH]; intros settings counter.
  - exists []. rewrite app_nil_r, Z.add_0_r. by split_and!.
  - cbn [fold_left]. unfold JSONSettings.loadSetting at 2.
    assert (∀ new : FeatureSettings.t → FeatureSettings.t,
              knownType entry → (∀ props, knownType (new props)) →
              ∃ loaded,
                fold_left JSONSettings.loadSetting entries
                  (settings ++ [new entry], counter + 1)
                = (settings ++ loaded, counter + Z.of_nat (length (entry :: entries))) ∧
                Forall knownType loaded ∧
                (length loaded ≤ length (entry :: entries))%nat ∧
                (length loaded = length (entry :: entries)
                 ↔ Forall knownType (entry :: entries))) as Hpushed.
    { intros new Hentry Hnew.
      destruct (IH (settings ++ [new entry]) (counter + 1))
        as (loaded & -> & Hknown & Hle & Hall).
      exists (new entry :: loaded). rewrite <- app_assoc. cbn [app length].
      split; [f_equal; lia|]. split; [by constructor|]. split; [lia|].
      rewrite Forall_cons. split.
      - intros [= Hlength]. split; [done|]. by apply Hall.
      - intros [_ Hentries]. f_equal. by apply Hall. }
    destruct (strict_eq (FeatureSettings.getFeatureType entry)
                (Some (JNum FeatureType.POINT))) eqn:Hpoint.
    { apply strict_eq_true in Hpoint. apply Hpushed.
      - unfold knownType. rewrite Hpoint. by left.
      - intros props. unfold knownType. rewrite PointSettings_new_featureType. by left. }
    destruct (strict_eq (FeatureSettings.getFeatureType entry)
                (Some (JNum FeatureType.LINESTRING))) eqn:Hline.
    { apply strict_eq_true in Hline. apply Hpushed.
      - unfold knownType. rewrite Hline. right. by left.
      - intros props. unfold knownType. rewrite LineStringSettings_new_featureType.
        right. by left. }
    destruct (strict_eq (FeatureSettings.getFeatureType entry)
                (Some (JNum FeatureType.POLYGON))) eqn:Hpolygon.
    { apply strict_eq_true in Hpolygon. apply Hpushed.
      - unfold knownType. rewrite Hpolygon. right. right. by left.
      - intros props. unfold knownType. rewrite PolygonSettings_new_featureType.
        right. right. by left. }
    apply strict_eq_false in Hpoint, Hline, Hpolygon.
    destruct (IH settings (counter + 1)) as (loaded & -> & Hknown & Hle & Hall).
    exists loaded. cbn [length]. split; [f_equal; lia|]. split; [done|]. split; [lia|].
    split; [lia|]. rewrite Forall_cons. intros [Hentry _]. exfalso.
    unfold knownType in Hentry.
    apply elem_of_cons in Hentry as [Hentry|Hentry]; [done|].
    apply elem_of_cons in Hentry as [Hentry|Hentry]; [done|].
    apply elem_of_cons in Hentry as [Hentry|Hentry]; [done|].
    by apply elem_of_nil in Hentry.
Qed.

(** X22: the detail that [_loadFeatureSettings] writes counts the entries of
    [_iam_FeatureSettings], not the settings it has loaded.  Every loaded
    setting has one of the three feature types; an entry with another
    feature type, or with none, is passed over without a warning, so that
    the data source holds as many settings as the detail says exactly when
    every entry has one of the three types. *)
Theorem settings_detail_counts_entries (entries : list FeatureSettings.t)
  (mapSettings : option (gmap string jsval)) (pr : ProcessResult.t) :
  ∃ source checked,
    JSONSettings._loadFeatureSettings
      (JSONSettings.mkParsed (Some entries) mapSettings) pr = (source, checked) ∧
    ProcessResult.detailList checked
    = ProcessResult.detailList pr
      ++ [pretty (Z.of_nat (length entries)) +:+ " Settings loaded successfully"]
      ++ match mapSettings with
         | Some _ => ["Map Settings loaded successfully"]
         | None => []
         end ∧
    Forall knownType (DataSource._featuresSettings source) ∧
    (length (DataSource._featuresSettings source) ≤ length entries)%nat ∧
    (length (DataSource._featuresSettings source) = length entries
     ↔ Forall knownType entries).
Proof.
  unfold JSONSettings._loadFeatureSettings.
  cbn [JSONSettings._iam_FeatureSettings JSONSettings._iam_MapSettings].
  destruct (loadSetting_fold entries [] 0) as (loaded & -> & Hknown & Hle & Hall).
  cbn [app]. rewrite Z.add_0_l.
  destruct mapSettings as [mapSettings|]; eexists _, _; (split; [reflexivity|]);
    cbn [DataSource._featuresSettings].
  - rewrite !addDetail_detailList, <- app_assoc. by split_and!.
  - rewrite addDetail_detailList. by split_and!.
Qed.

(** ** The balance of two result sets *)

Lemma operand_assign_eq a value item :
  YearItem.operand a (YearItem.assign a value item) = value.
Proof.
  unfold YearItem.operand, YearItem.assign. cbn [YearItem.counts].
  by rewrite lookup_insert_eq.
Qed.

Lemma counts_assign_ne a b value item :
  a ≠ b → YearItem.counts (YearItem.assign b value item) !! a = YearItem.counts item !! a.
Proof.
  intros Hne. unfold YearItem.assign. cbn [YearItem.counts].
  by rewrite lookup_insert_ne.
Qed.

Lemma operand_assign_ne a b value item :
  a ≠ b → YearItem.operand a (YearItem.assign b value item) = YearItem.operand a item.
Proof. intros Hne. unfold YearItem.operand. by rewrite counts_assign_ne. Qed.

Lemma assign_fold (h : string → option Z → option Z) (attVals : list string) :
  NoDup attVals →
  ∀ item,
    YearItem.year
      (fold_left (λ item attVal,
           YearItem.assign attVal (h attVal (YearItem.operand attVal item)) item)
         attVals item)
    = YearItem.year item ∧
    (∀ a, a ∈ attVals →
          YearItem.operand a
            (fold_left (λ item attVal,
                 YearItem.assign attVal (h attVal (YearItem.operand attVal item)) item)
               attVals item)
          = h a (YearItem.operand a item)) ∧
    (∀ a, a ∉ attVals →
          YearItem.counts
            (fold_left (λ item attVal,
                 YearItem.assign attVal (h attVal (YearItem.operand attVal item)) item)
               attVals item) !! a
          = YearItem.counts item !! a).
Proof.
  induction 1 as [|attVal attVals Hfresh Hnodup IH]; intros item.
  - split; [done|]. split; [|done]. intros a Ha. by apply elem_of_nil in Ha.
  - cbn [fold_left].
    destruct (IH (YearItem.assign attVal
                    (h attVal (YearItem.operand attVal item)) item))
      as (Hyear & Hin & Hout).
    split; [by rewrite Hyear|]. split.
    + intros a Ha. apply elem_of_cons in Ha as [->|Ha].
      * unfold YearItem.operand at 1. rewrite (Hout attVal Hfresh).
        apply operand_assign_eq.
      * rewrite (Hin a Ha), operand_assign_ne; [done|]. by intros ->.
    + intros a Ha. apply not_elem_of_cons in Ha as [Hne Ha].
      by rewrite (Hout a Ha), counts_assign_ne.
Qed.

Lemma Map_keys_set_present {V} key (v w : V) m :
  Map_get key m = Some w → Map_keys (Map_set key v m) = Map_keys m.
Proof. intros Hget. by rewrite Map_keys_set, Hget. Qed.

Lemma Map_values_lookup {V} (m : JSMap V) (index : nat) key :
  NoDup (Map_keys m) → Map_keys m !! index = Some key →
  Map_values m !! index = Map_get key m.
Proof.
  unfold Map_keys, Map_values. revert index.
  induction m as [|[k v] m IH]; intros index Hnodup Hkey; [done|].
  cbn [fmap list_fmap fst snd] in *. apply NoDup_cons in Hnodup as [Hfresh Hnodup].
  destruct index as [|index]; cbn [lookup list_lookup] in *.
  - injection Hkey as ->. cbn [Map_get]. by rewrite strict_eq_refl.
  - cbn [Map_get]. destruct (strict_eq k key) eqn:Hsame.
    + apply strict_eq_true in Hsame as ->. exfalso. apply Hfresh.
      by eapply list_elem_of_lookup_2.
    + by apply IH.
Qed.

Lemma fromYear_loop (items : list YearItem.t) :
  NoDup (YearItem.year <$> items) →
  let temp : JSMap YearItem.t :=
    fold_left (λ temp item, Map_set (YearItem.year item) item temp) items [] in
  Map_keys temp = YearItem.year <$> items ∧
  ∀ item, item ∈ items → Map_get (YearItem.year item) temp = Some item.
Proof.
  induction items as [|item items IH] using rev_ind; intros Hnodup; cbn zeta.
  - split; [done|]. intros item Hitem. by apply elem_of_nil in Hitem.
  - rewrite fmap_app in Hnodup. apply NoDup_app in Hnodup as (Hnodup & Hfresh & _).
    destruct (IH Hnodup) as [Hkeys Hget]. cbn zeta in Hkeys, Hget.
    rewrite fold_left_app. cbn [fold_left].
    assert (YearItem.year item ∉ YearItem.year <$> items) as Hitem.
    { intros Hin. apply (Hfresh _ Hin). cbn. by left. }
    split.
    + rewrite Map_keys_set, fmap_app, <- Hkeys.
      destruct (Map_get (YearItem.year item) _) as [stored|] eqn:Hstored; [|done].
      apply Map_get_Some_keys in Hstored. by rewrite Hkeys in Hstored.
    + intros item' Hitem'. apply elem_of_app in Hitem' as [Hitem'|Hitem'].
      * rewrite Map_get_set_ne; [by apply Hget|].
        intros Hsame. apply Hitem. rewrite Hsame. by apply list_elem_of_fmap_2.
      * apply list_elem_of_singleton in Hitem' as ->. apply Map_get_set_eq.
Qed.

Lemma subtractValue_fold (item : YearItem.t) (attVals : list string) :
  ∀ temp stored,
    Map_get (YearItem.year item) temp = Some stored →
    Map_keys (fold_left (subtractValue item) attVals temp) = Map_keys temp ∧
    Map_get (YearItem.year item) (fold_left (subtractValue item) attVals temp)
    = Some (subtracted attVals item stored) ∧
    ∀ year, year ≠ YearItem.year item →
            Map_get year (fold_left (subtractValue item) attVals temp)
            = Map_get year temp.
Proof.
  induction attVals as [|attVal attVals IH]; intros temp stored Hstored; [done|].
  cbn [fold_left]. unfold subtractValue at 2 4 6. rewrite Hstored.
  destruct (IH (Map_set (YearItem.year item)
                  (YearItem.assign attVal
                     (num_sub (YearItem.operand attVal stored)
                        (YearItem.operand attVal item)) stored) temp)
              (YearItem.assign attVal
                 (num_sub (YearItem.operand attVal stored)
                    (YearItem.operand attVal item)) stored))
    as (Hkeys & Hget & Hother); [apply Map_get_set_eq|].
  split; [by rewrite Hkeys, (Map_keys_set_present _ _ stored)|].
  split; [exact Hget|].
  intros year Hyear. rewrite (Hother year Hyear). by apply Map_get_set_ne.
Qed.

Lemma toYear_loop (attVals : list string) (items : list YearItem.t) :
  NoDup (YearItem.year <$> items) →
  ∀ temp,
    (∀ item, item ∈ items → is_Some (Map_get (YearItem.year item) temp)) →
    let final :=
      fold_left (λ temp item, fold_left (subtractValue item) attVals temp) items temp in
    Map_keys final = Map_keys temp ∧
    (∀ item stored,
       item ∈ items → Map_get (YearItem.year item) temp = Some stored →
       Map_get (YearItem.year item) final = Some (subtracted attVals item stored)) ∧
    (∀ year, year ∉ YearItem.year <$> items → Map_get year final = Map_get year temp).
Proof.
  induction items as [|item items IH]; intros Hnodup temp Hpresent; cbn zeta.
  - split; [done|]. split; [|done]. intros item stored Hitem. by apply elem_of_nil in Hitem.
  - cbn [fmap list_fmap] in Hnodup. apply NoDup_cons in Hnodup as [Hfresh Hnodup].
    cbn [fold_left].
    destruct (Hpresent item) as [stored Hstored]; [by left|].
    destruct (subtractValue_fold item attVals temp stored Hstored)
      as (Hkeys1 & Hget1 & Hother1).
    assert (∀ item', item' ∈ items → YearItem.year item' ≠ YearItem.year item) as Hne.
    { intros item' Hitem' Hsame. apply Hfresh. rewrite <- Hsame.
      by apply list_elem_of_fmap_2. }
    destruct (IH Hnodup (fold_left (subtractValue item) attVals temp))
      as (Hkeys & Hget & Hother).
    { intros item' Hitem'. rewrite Hother1 by (by apply Hne).
      apply Hpresent. by right. }
    cbn zeta in Hkeys, Hget, Hother. split; [by rewrite Hkeys|]. split.
    + intros item' stored' Hitem' Hstored'.
      apply elem_of_cons in Hitem' as [->|Hitem'].
      * rewrite (Hother _ Hfresh), Hget1. congruence.
      * apply Hget; [done|]. by rewrite Hother1 by (by apply Hne).
    + intros year Hyear. cbn [fmap list_fmap] in Hyear.
      apply not_elem_of_cons in Hyear as [Hne' Hyear].
      by rewrite (Hother year Hyear), (Hother1 year Hne').
Qed.

Lemma subtracted_spec (attVals : list string) (item stored : YearItem.t) :
  NoDup attVals →
  YearItem.year (subtracted attVals item stored) = YearItem.year stored ∧
  (∀ a, a ∈ attVals →
        YearItem.operand a (subtracted attVals item stored)
        = num_sub (YearItem.operand a stored) (YearItem.operand a item)) ∧
  (∀ a, a ∉ attVals →
        YearItem.counts (subtracted attVals item stored) !! a
        = YearItem.counts stored !! a).
Proof.
  intros Hnodup.
  exact (assign_fold (λ a value, num_sub value (YearItem.operand a item))
           attVals Hnodup stored).
Qed.

Lemma addPrevious_fold (index : nat) (attVals : list string)
  year previousYear (previous : YearItem.t) :
  year ≠ previousYear →
  ∀ temp item,
    NoDup (Map_keys temp) →
    Map_keys temp !! index = Some year →
    Map_keys temp !! (index - 1)%nat = Some previousYear →
    Map_get year temp = Some item → YearItem.year item = year →
    Map_get previousYear temp = Some previous →
    Map_keys (fold_left (addPrevious index) attVals temp) = Map_keys temp ∧
    Map_get year (fold_left (addPrevious index) attVals temp)
    = Some (fold_left (λ item attVal,
                YearItem.assign attVal
                  (num_add (YearItem.operand attVal item)
                     (YearItem.operand attVal previous)) item)
              attVals item) ∧
    ∀ other, other ≠ year →
             Map_get other (fold_left (addPrevious index) attVals temp)
             = Map_get other temp.
Proof.
  intros Hne.
  induction attVals as [|attVal attVals IH];
    intros temp item Hnodup Hyear Hprevious Hitem Hkeyed Hbefore; [done|].
  cbn [fold_left]. unfold addPrevious at 2 4 6.
  rewrite (Map_values_lookup temp index year Hnodup Hyear), Hitem.
  rewrite (Map_values_lookup temp (index - 1) previousYear Hnodup Hprevious), Hbefore.
  rewrite Hkeyed, Hitem.
  assert (Map_keys (Map_set year
                      (YearItem.assign attVal
                         (num_add (YearItem.operand attVal item)
                            (YearItem.operand attVal previous)) item) temp)
          = Map_keys temp) as Hsame by (by apply (Map_keys_set_present _ _ item)).
  destruct (IH (Map_set year
                  (YearItem.assign attVal
                     (num_add (YearItem.operand attVal item)
                        (YearItem.operand attVal previous)) item) temp)
              (YearItem.assign attVal
                 (num_add (YearItem.operand attVal item)
                    (YearItem.operand attVal previous)) item))
    as (Hkeys & Hget & Hother).
  { by rewrite Hsame. }
  { by rewrite Hsame. }
  { by rewrite Hsame. }
  { apply Map_get_set_eq. }
  { done. }
  { by rewrite Map_get_set_ne. }
  split; [by rewrite Hkeys|]. split; [exact Hget|].
  intros other Hother'. rewrite (Hother other Hother'). by apply Map_get_set_ne.
Qed.

Lemma accumulated_is_Some (attVals : list string) (items : list YearItem.t) index :
  (index < length items)%nat → is_Some (accumulated attVals items index).
Proof.
  induction index as [|index IH]; intros Hindex; cbn [accumulated].
  - apply lookup_lt_is_Some_2. lia.
  - destruct (lookup_lt_is_Some_2 items (S index) Hindex) as [item ->].
    destruct IH as [previous ->]; [lia|]. by eexists.
Qed.

Lemma previous_loop (attVals : list string) (years : list jsany)
  (items : list YearItem.t) (temp : JSMap YearItem.t) :
  NoDup years → YearItem.year <$> items = years → Map_keys temp = years →
  (∀ index year, years !! index = Some year → Map_get year temp = items !! index) →
  ∀ n, (n ≤ length years)%nat →
    Map_keys (fold_left (λ temp index,
                  if (0 <? index)%nat
                  then fold_left (addPrevious index) attVals temp
                  else temp) (seq 0 n) temp) = years ∧
    ∀ index year,
      years !! index = Some year →
      Map_get year (fold_left (λ temp index,
                        if (0 <? index)%nat
                        then fold_left (addPrevious index) attVals temp
                        else temp) (seq 0 n) temp)
      = if decide (index < n)%nat then accumulated attVals items index
        else items !! index.
Proof.
  intros Hnodup Hitems Hkeys Hget.
  assert (length items = length years) as Hlength.
  { by rewrite <- Hitems, length_fmap. }
  induction n as [|n IH]; intros Hn.
  - split; [done|]. intros index year Hyear. cbn [seq fold_left].
    rewrite decide_False by lia. by apply Hget.
  - destruct IH as [Hkeys' Hget']; [lia|].
    rewrite seq_S, fold_left_app.
    set (reached := fold_left _ (seq 0 n) temp) in *.
    cbn [fold_left Nat.add].
    destruct n as [|before].
    + change (0 <? 0)%nat with false. cbn match. split; [done|].
      intros index year Hyear. rewrite (Hget' index year Hyear).
      destruct index as [|index]; [done|]. by rewrite !decide_False by lia.
    + change (0 <? S before)%nat with true. cbn match.
      destruct (lookup_lt_is_Some_2 years (S before)) as [year Hyear]; [lia|].
      destruct (lookup_lt_is_Some_2 years before) as [previousYear Hprevious]; [lia|].
      destruct (lookup_lt_is_Some_2 items (S before)) as [item Hitem]; [lia|].
      destruct (accumulated_is_Some attVals items before) as [previous Hbefore]; [lia|].
      destruct (addPrevious_fold (S before) attVals year previousYear previous)
        with (temp := reached) (item := item)
        as (Hkeys'' & Hget'' & Hother).
      * intros Hsame. subst previousYear.
        pose proof (NoDup_lookup years (S before) before year Hnodup Hyear Hprevious).
        lia.
      * by rewrite Hkeys'.
      * by rewrite Hkeys'.
      * by rewrite Hkeys', Nat.sub_1_r.
      * rewrite (Hget' (S before) year Hyear), decide_False by lia. done.
      * rewrite <- Hitems, list_lookup_fmap, Hitem in Hyear. by injection Hyear.
      * rewrite (Hget' before previousYear Hprevious), decide_True by lia. done.
      * split; [by rewrite Hkeys''|]. intros index other Hother'.
        destruct (decide (index = S before)) as [->|Hindex].
        -- assert (other = year) as -> by congruence.
           rewrite Hget'', decide_True by lia.
           cbn [accumulated]. rewrite Hitem, Hbefore. done.
        -- rewrite Hother.
           ++ rewrite (Hget' index other Hother').
              destruct (decide (index < S before)%nat);
                [by rewrite decide_True by lia|by rewrite decide_False by lia].
           ++ intros ->. apply Hindex.
              by apply (NoDup_lookup years index (S before) year).
Qed.

Lemma accumulated_balance (attVals : list string)
  (fromYearResultSet toYearResultSet items : list YearItem.t) :
  NoDup attVals →
  length toYearResultSet = length fromYearResultSet →
  (∀ index stored item,
     fromYearResultSet !! index = Some stored → toYearResultSet !! index = Some item →
     items !! index = Some (subtracted attVals item stored)) →
  ∀ index stored,
    fromYearResultSet !! index = Some stored →
    ∃ item,
      accumulated attVals items index = Some item ∧
      YearItem.year item = YearItem.year stored ∧
      (∀ a, a ∈ attVals →
            YearItem.operand a item
            = balanceUpTo a fromYearResultSet toYearResultSet index) ∧
      (∀ a, a ∉ attVals → YearItem.counts item !! a = YearItem.counts stored !! a).
Proof.
  intros Hnodup Hlength Hitems.
  induction index as [|index IH]; intros stored Hstored.
  - destruct (lookup_lt_is_Some_2 toYearResultSet 0%nat) as [item Hitem].
    { rewrite Hlength. by eapply lookup_lt_Some. }
    destruct (subtracted_spec attVals item stored Hnodup) as (Hyear & Hin & Hout).
    exists (subtracted attVals item stored). cbn [accumulated balanceUpTo].
    split; [by apply Hitems|]. split; [done|]. split; [|done].
    intros a Ha. by rewrite Hstored, Hitem, (Hin a Ha).
  - destruct (lookup_lt_is_Some_2 toYearResultSet (S index)) as [item Hitem].
    { rewrite Hlength. by eapply lookup_lt_Some. }
    destruct (lookup_lt_is_Some_2 fromYearResultSet index) as [before Hbefore].
    { apply lookup_lt_Some in Hstored. lia. }
    destruct (IH before Hbefore) as (previous & Hprevious & _ & Hbalance & _).
    destruct (subtracted_spec attVals item stored Hnodup) as (Hyear & Hin & Hout).
    destruct (assign_fold (λ a value, num_add value (YearItem.operand a previous))
                attVals Hnodup (subtracted attVals item stored))
      as (Hyear' & Hin' & Hout').
    eexists. cbn [accumulated balanceUpTo].
    rewrite (Hitems (S index) stored item Hstored Hitem), Hprevious.
    cbn [mbind option_bind]. split; [reflexivity|].
    split; [by rewrite Hyear'|]. split.
    + intros a Ha. rewrite (Hin' a Ha), (Hin a Ha), (Hbalance a Ha).
      by rewrite Hstored, Hitem.
    + intros a Ha. by rewrite (Hout' a Ha), (Hout a Ha).
Qed.

(** X23: [_substract] turns the counts of two result sets over the same years
    into a running balance.  When both arrays hold one object per year, in
    the same order of years and no year twice, and no attribute value is
    named twice, the result holds one object per year in that order, and
    under every attribute value the object of a year holds what was counted
    from that year less what was counted to it, plus the balance of the year
    before; the other properties are those of the object counted from. *)
Theorem _substract_running_balance (fromYearResultSet toYearResultSet : list YearItem.t)
  (attributeValues : list string) :
  YearItem.year <$> toYearResultSet = YearItem.year <$> fromYearResultSet →
  NoDup (YearItem.year <$> fromYearResultSet) →
  NoDup attributeValues →
  length (_substract fromYearResultSet toYearResultSet attributeValues)
  = length fromYearResultSet ∧
  ∀ index stored,
    fromYearResultSet !! index = Some stored →
    ∃ item,
      _substract fromYearResultSet toYearResultSet attributeValues !! index = Some item ∧
      YearItem.year item = YearItem.year stored ∧
      (∀ a, a ∈ attributeValues →
            YearItem.operand a item
            = balanceUpTo a fromYearResultSet toYearResultSet index) ∧
      (∀ a, a ∉ attributeValues →
            YearItem.counts item !! a = YearItem.counts stored !! a).
Proof.
  intros Hyears Hnodup Hvalues. unfold _substract.
  destruct (fromYear_loop fromYearResultSet Hnodup) as [Hkeys0 Hget0].
  cbn zeta in Hkeys0, Hget0.
  set (temp0 := fold_left (λ temp item, Map_set (YearItem.year item) item temp)
                  fromYearResultSet []) in *.
  assert (length toYearResultSet = length fromYearResultSet) as Hlength.
  { by rewrite <- (length_fmap YearItem.year toYearResultSet), Hyears, length_fmap. }
  destruct (toYear_loop attributeValues toYearResultSet) with (temp := temp0)
    as (Hkeys1 & Hget1 & _).
  { by rewrite Hyears. }
  { intros item Hitem. apply Map_keys_get. rewrite Hkeys0, <- Hyears.
    by apply list_elem_of_fmap_2. }
  cbn zeta in Hkeys1, Hget1.
  set (temp1 := fold_left (λ temp item,
                    fold_left (subtractValue item) attributeValues temp)
                  toYearResultSet temp0) in *.
  rewrite Hkeys0 in Hkeys1.
  assert (∀ index stored item,
            fromYearResultSet !! index = Some stored →
            toYearResultSet !! index = Some item →
            YearItem.year item = YearItem.year stored ∧
            Map_values temp1 !! index = Some (subtracted attributeValues item stored))
    as Hitems.
  { intros index stored item Hstored Hitem.
    assert (YearItem.year item = YearItem.year stored) as Hsame.
    { assert ((YearItem.year <$> toYearResultSet) !! index
              = (YearItem.year <$> fromYearResultSet) !! index) as Hat
        by (by rewrite Hyears).
      rewrite !list_lookup_fmap, Hstored, Hitem in Hat. by injection Hat. }
    split; [done|].
    rewrite (Map_values_lookup temp1 index (YearItem.year stored)).
    - rewrite <- Hsame. apply Hget1; [by eapply list_elem_of_lookup_2|].
      rewrite Hsame. apply Hget0. by eapply list_elem_of_lookup_2.
    - by rewrite Hkeys1.
    - by rewrite Hkeys1, list_lookup_fmap, Hstored. }
  assert (length (Map_values temp1) = length fromYearResultSet) as Hlength1.
  { rewrite <- (length_fmap YearItem.year fromYearResultSet), <- Hkeys1.
    unfold Map_values, Map_keys. by rewrite !length_fmap. }
  assert (YearItem.year <$> Map_values temp1 = YearItem.year <$> fromYearResultSet)
    as Hyears1.
  { apply list_eq. intros index. rewrite !list_lookup_fmap.
    destruct (fromYearResultSet !! index) as [stored|] eqn:Hstored.
    - destruct (lookup_lt_is_Some_2 toYearResultSet index) as [item Hitem].
      { rewrite Hlength. by eapply lookup_lt_Some. }
      destruct (Hitems index stored item Hstored Hitem) as [_ ->]. cbn.
      by destruct (subtracted_spec attributeValues item stored Hvalues) as [-> _].
    - rewrite lookup_ge_None_2; [done|]. rewrite Hlength1.
      by apply lookup_ge_None_1. }
  destruct (previous_loop attributeValues (YearItem.year <$> fromYearResultSet)
              (Map_values temp1) temp1 Hnodup Hyears1 Hkeys1)
    with (n := length (Map_values temp1)) as [Hkeys2 Hget2].
  { intros index year Hyear. symmetry. apply Map_values_lookup; by rewrite Hkeys1. }
  { by rewrite Hlength1, length_fmap. }
  set (temp2 := fold_left _ (seq 0 (length (Map_values temp1))) temp1) in *.
  split.
  { rewrite <- (length_fmap YearItem.year fromYearResultSet), <- Hkeys2.
    unfold Map_values, Map_keys. by rewrite !length_fmap. }
  intros index stored Hstored.
  destruct (accumulated_balance attributeValues fromYearResultSet toYearResultSet
              (Map_values temp1) Hvalues Hlength) with (index := index) (stored := stored)
    as (item & Hitem & Hyear & Hbalance & Hother); [|done|].
  { intros index' stored' item' Hstored' Hitem'. by apply Hitems. }
  exists item. split; [|done].
  rewrite (Map_values_lookup temp2 index (YearItem.year stored)).
  - rewrite (Hget2 index (YearItem.year stored)).
    + rewrite decide_True; [done|]. rewrite Hlength1. by eapply lookup_lt_Some.
    + by rewrite list_lookup_fmap, Hstored.
  - by rewrite Hkeys2.
  - by rewrite Hkeys2, list_lookup_fmap, Hstored.
Qed.

Lemma _substract_running_balance_witness :
  _substract
    [ {| YearItem.year := Some (JNum 1200);
         YearItem.counts := {[ "capital" := Some 2; "village" := Some 5 ]} |};
      {| YearItem.year := Some (JNum 1201);
         YearItem.counts := {[ "capital" := Some 0; "village" := Some 3 ]} |};
      {| YearItem.year := Some (JNum 1202);
         YearItem.counts := {[ "capital" := Some 1; "village" := Some 0 ]} |} ]
    [ {| YearItem.year := Some (JNum 1200);
         YearItem.counts := {[ "capital" := Some 0; "village" := Some 1 ]} |};
      {| YearItem.year := Some (JNum 1201);
         YearItem.counts := {[ "capital" := Some 1; "village" := Some 4 ]} |};
      {| YearItem.year := Some (JNum 1202);
         YearItem.counts := {[ "capital" := Some 0; "village" := Some 2 ]} |} ]
    ["capital"; "village"]
  = [ {| YearItem.year := Some (JNum 1200);
         YearItem.counts := {[ "capital" := Some 2; "village" := Some 4 ]} |};
      {| YearItem.year := Some (JNum 1201);
         YearItem.counts := {[ "capital" := Some 1; "village" := Some 3 ]} |};
      {| YearItem.year := Some (JNum 1202);
         YearItem.counts := {[ "capital" := Some 2; "village" := Some 1 ]} |} ] ∧
  ∃ item,
    _substract
      [ {| YearItem.year := Some (JNum 1200);
           YearItem.counts := {[ "capital" := Some 2; "village" := Some 5 ]} |};
        {| YearItem.year := Some (JNum 1201);
           YearItem.counts := {[ "capital" := Some 0; "village" := Some 3 ]} |};
        {| YearItem.year := Some (JNum 1202);
           YearItem.counts := {[ "capital" := Some 1; "village" := Some 0 ]} |} ]
      [ {| YearItem.year := Some (JNum 1200);
           YearItem.counts := {[ "capital" := Some 0; "village" := Some 1 ]} |};
        {| YearItem.year := Some (JNum 1201);
           YearItem.counts := {[ "capital" := Some 1; "village" := Some 4 ]} |};
        {| YearItem.year := Some (JNum 1202);
           YearItem.counts := {[ "capital" := Some 0; "village" := Some 2 ]} |} ]
      ["capital"; "village"] !! 2%nat = Some item ∧
    YearItem.operand "village" item = Some 1.
Proof.
  split; [vm_compute; reflexivity|].
  destruct (_substract_running_balance
    [ {| YearItem.year := Some (JNum 1200);
         YearItem.counts := {[ "capital" := Some 2; "village" := Some 5 ]} |};
      {| YearItem.year := Some (JNum 1201);
         YearItem.counts := {[ "capital" := Some 0; "village" := Some 3 ]} |};
      {| YearItem.year := Some (JNum 1202);
         YearItem.counts := {[ "capital" := Some 1; "village" := Some 0 ]} |} ]
    [ {| YearItem.year := Some (JNum 1200);
         YearItem.counts := {[ "capital" := Some 0; "village" := Some 1 ]} |};
      {| YearItem.year := Some (JNum 1201);
         YearItem.counts := {[ "capital" := Some 1; "village" := Some 4 ]} |};
      {| YearItem.year := Some (JNum 1202);
         YearItem.counts := {[ "capital" := Some 0; "village" := Some 2 ]} |} ]
    ["capital"; "village"]) as [_ Hbalance].
  - reflexivity.
  - apply (bool_decide_unpack _). vm_compute. exact I.
  - apply (bool_decide_unpack _). vm_compute. exact I.
  - destruct (Hbalance 2%nat _ eq_refl) as (item & Hitem & _ & Hvalue & _).
    exists item. split; [exact Hitem|].
    rewrite (Hvalue "village"); [reflexivity|]. apply elem_of_cons. right.
    apply elem_of_cons. by left.
Defined.

(** ** The property columns of a row *)

Lemma propertiesOfRow_pairs (property : gmap string string) :
  ∀ fuel i n,
    (n ≤ fuel)%nat →
    (∀ k, (i ≤ k < i + n)%nat → completePair property k = true) →
    n = fuel ∨ completePair property (i + n) = false →
    CSV.propertiesOfRow fuel i property = propertyOfPair property <$> seq i n.
Proof.
  induction fuel as [|fuel IH]; intros i n Hn Hcomplete Hlast.
  - by assert (n = 0%nat) as -> by lia.
  - cbn [CSV.propertiesOfRow]. destruct n as [|n].
    + destruct Hlast as [?|Hlast]; [done|]. rewrite Nat.add_0_r in Hlast.
      unfold completePair in Hlast.
      destruct (property !! ("propertyName" +:+ pretty i)) as [name|]; [|done].
      destruct (property !! ("propertyValue" +:+ pretty i)) as [value|]; [|done].
      by rewrite Hlast.
    + pose proof (Hcomplete i) as Hfirst. unfold completePair in Hfirst.
      unfold propertyOfPair at 1. cbn [seq fmap list_fmap].
      destruct (property !! ("propertyName" +:+ pretty i)) as [name|];
        [|by discriminate Hfirst; lia].
      destruct (property !! ("propertyValue" +:+ pretty i)) as [value|];
        [|by discriminate Hfirst; lia].
      rewrite Hfirst by lia. f_equal. apply IH; [lia| |].
      * intros k Hk. apply Hcomplete. lia.
      * destruct Hlast as [Hlast|Hlast]; [left; lia|right].
        by rewrite Nat.add_succ_comm.
Qed.

(** X24: the loop of [_loadFeatureProperties] reads the property pairs of a
    row from the first one up to the first pair that lacks a name or a value,
    and nine pairs at most.  A row whose pairs 1 to n are complete, and whose
    next pair is not or n is 9, yields the properties of these n pairs in
    order, each with the feature type and the feature id of the row; a pair
    behind a gap and a tenth pair are never loaded. *)
Theorem properties_loop_stops_at_gap (property : gmap string string) (n : nat) :
  (n ≤ 9)%nat →
  (∀ i, (1 ≤ i ≤ n)%nat → completePair property i = true) →
  n = 9%nat ∨ completePair property (S n) = false →
  CSV.propertiesOfRow 9 1 property = propertyOfPair property <$> seq 1 n.
Proof.
  intros Hn Hcomplete Hlast. apply propertiesOfRow_pairs; [done| |done].
  intros k Hk. apply Hcomplete. lia.
Qed.

Lemma properties_loop_stops_at_gap_witness :
  CSV.propertiesOfRow 9 1
    {[ "feature" := "Point"; "featureId" := "T1";
       "propertyName1" := "name"; "propertyValue1" := "Ulm";
       "propertyName3" := "river"; "propertyValue3" := "Danube" ]}
  = propertyOfPair
      {[ "feature" := "Point"; "featureId" := "T1";
         "propertyName1" := "name"; "propertyValue1" := "Ulm";
         "propertyName3" := "river"; "propertyValue3" := "Danube" ]}
    <$> seq 1 1.
Proof.
  apply (properties_loop_stops_at_gap
           {[ "feature" := "Point"; "featureId" := "T1";
              "propertyName1" := "name"; "propertyValue1" := "Ulm";
              "propertyName3" := "river"; "propertyValue3" := "Danube" ]} 1).
  - lia.
  - intros i Hi. assert (i = 1%nat) as -> by lia. vm_compute. reflexivity.
  - right. vm_compute. reflexivity.
Defined.
